(** * SIRA RAG service: ingestion jobs, chunking, embeddings and vector search

    A shallow embedding of the ingestion-and-retrieval pipeline of the RAG
    service (ingestion-service.ts, embedding-service.ts, firestore-service.ts),
    of its error handler (error-handler.ts) and of the statistics and job
    routes (rag-routes.ts, ingestion-routes.ts), together with the
    properties stated about them.

    JavaScript values are modelled as the code has them:
    - a string is the list of its UTF-16 code units;
    - an integer-valued number (a length, an index, a counter) is a [Z];
    - a component of an embedding, a similarity score or a threshold is an
      IEEE 754 binary64 number, the kernel's [float];
    - a call that may throw returns a [result]: the value, or the error
      thrown. *)

From Stdlib Require Import List ZArith Lia Bool Arith Floats Reals Lra Permutation Sorted.
From Stdlib Require String Ascii.
Import ListNotations String.StringSyntax.

Delimit Scope string_scope with string.
Bind Scope string_scope with String.string.

(* ================================================================= *)
(** * Part I: the embedding *)
(* ================================================================= *)

(** ** JavaScript strings *)

Module Js.
Local Open Scope Z_scope.

Definition codeUnit := N.
Definition jsString := list codeUnit.

(** A string literal of the development, as code units. *)
Definition ofString (s : String.string) : jsString :=
  map Ascii.N_of_ascii (String.list_ascii_of_string s).

(** [s.length] *)
Definition length (s : jsString) : Z := Z.of_nat (List.length s).

(** Positions given to [substring] are clamped to [0, s.length]. *)
Definition clamp (n len : Z) : Z := Z.max 0 (Z.min n len).

(** [s.substring(a, b)] for integer arguments: both are clamped, and
    swapped when the first exceeds the second. *)
Definition substring (s : jsString) (a b : Z) : jsString :=
  let a' := clamp a (length s) in
  let b' := clamp b (length s) in
  let from := Z.min a' b' in
  let to := Z.max a' b' in
  firstn (Z.to_nat (to - from)) (skipn (Z.to_nat from) s).

(** [a.slice(from, to)] on an array, for integer arguments: a negative
    position counts from the end. *)
Definition relativeIndex (n len : Z) : Z :=
  if n <? 0 then Z.max (len + n) 0 else Z.min n len.

Definition slice {A} (l : list A) (from to : Z) : list A :=
  let len := Z.of_nat (List.length l) in
  let k := relativeIndex from len in
  let final := relativeIndex to len in
  firstn (Z.to_nat (final - k)) (skipn (Z.to_nat k) l).

(** The code units [String.prototype.trim] strips: WhiteSpace and
    LineTerminator of ECMA-262. *)
Definition isWhiteSpace (c : codeUnit) : bool :=
  (((9 <=? c) && (c <=? 13)) || (c =? 32) || (c =? 160) || (c =? 5760)
   || ((8192 <=? c) && (c <=? 8202)) || (c =? 8232) || (c =? 8233)
   || (c =? 8239) || (c =? 8287) || (c =? 12288) || (c =? 65279))%N.

Fixpoint trimStart (s : jsString) : jsString :=
  match s with
  | c :: s' => if isWhiteSpace c then trimStart s' else s
  | [] => []
  end.

Definition trimEnd (s : jsString) : jsString := rev (trimStart (rev s)).

(** [s.trim()] *)
Definition trim (s : jsString) : jsString := trimEnd (trimStart s).

End Js.

(** ** Document chunking (IngestionService.chunkText) *)

Module Chunker.
Import Js.
Local Open Scope Z_scope.

(** The [while (start < text.length)] loop of [chunkText].  [chunks] is the
    array being filled; [fuel] bounds the number of iterations, and [None]
    is a loop that has not left within [fuel] iterations. *)
Fixpoint chunkText_loop (fuel : nat) (text : jsString)
    (chunkSize overlap start : Z) (chunks : list jsString)
    : option (list jsString) :=
  match fuel with
  | O => None
  | S fuel' =>
      if start <? length text then
        let end_ := Z.min (start + chunkSize) (length text) in
        let chunk := substring text start end_ in
        let chunks := chunks ++ [chunk] in
        if end_ =? length text then Some chunks
        else chunkText_loop fuel' text chunkSize overlap (end_ - overlap) chunks
      else Some chunks
  end.

(** [chunkText(text, chunkSize, overlap)].  Whenever the loop leaves at all
    it does so within [text.length + 1] iterations
    ([chunkText_fuel_adequate]), so [None] is a call that never returns. *)
Definition chunkText (text : jsString) (chunkSize overlap : Z)
    : option (list jsString) :=
  chunkText_loop (S (List.length text)) text chunkSize overlap 0 [].

(** The text rebuilt from its chunks: the first chunk, then every later
    chunk without its first [overlap] code units. *)
Definition removeOverlaps (overlap : Z) (chunks : list jsString) : jsString :=
  match chunks with
  | [] => []
  | c :: rest => c ++ concat (map (skipn (Z.to_nat overlap)) rest)
  end.

(** ceil(a / b) for positive [b]. *)
Definition ceilDiv (a b : Z) : Z := (a + b - 1) / b.

(** The window the specification gives for a chunk that starts at [start]:
    [min(chunkSize, remaining)] code units from [start] on. *)
Definition window (text : jsString) (chunkSize start : Z) : jsString :=
  substring text start (start + Z.min chunkSize (length text - start)).

End Chunker.

(** ** Errors (utils/error-handler.ts) *)

Module Errors.
Import String.
Local Open Scope string_scope.

(** The exceptions the services throw.  [ExternalError] is any other [Error]:
    one raised by a provider client, the embedder or the document store. *)
Inductive AppError :=
| RAGError (operation message : string)
| IngestionError (source message : string)
| ExternalError (message : string).

(** [error.message]: the constructors of [RAGError] and [IngestionError]
    prefix the message they are given. *)
Definition messageOf (e : AppError) : string :=
  match e with
  | RAGError operation message => "RAG " ++ operation ++ ": " ++ message
  | IngestionError source message => "Ingestion " ++ source ++ ": " ++ message
  | ExternalError message => message
  end.

(** [error instanceof RAGError] *)
Definition isRAGError (e : AppError) : bool :=
  match e with RAGError _ _ => true | _ => false end.

(** The result of a call that may throw. *)
Inductive result (A : Type) :=
| Ok (a : A)
| Err (e : AppError).
Arguments Ok {A} a.
Arguments Err {A} e.

End Errors.

(** ** JavaScript numbers *)

Module JsNumber.
Local Open Scope float_scope.

(** The arithmetic the similarity computation uses.  The code runs it on
    binary64 numbers ([float64]); [exact] is the same interface over the
    real numbers, where no operation rounds. *)
Record Arithmetic (T : Type) := {
  zero : T;
  add : T -> T -> T;
  mul : T -> T -> T;
  div : T -> T -> T;
  sqrt : T -> T;
  isZero : T -> bool          (* [x === 0] *)
}.
Arguments zero {T}. Arguments add {T}. Arguments mul {T}.
Arguments div {T}. Arguments sqrt {T}. Arguments isZero {T}.

Definition float64 : Arithmetic float := {|
  zero := 0;
  add := PrimFloat.add;
  mul := PrimFloat.mul;
  div := PrimFloat.div;
  sqrt := PrimFloat.sqrt;
  isZero := fun x => x =? 0
|}.

(** [float64] with [divide] in the place of [/]: what the code would compute
    if the division were another operation. *)
Definition float64DividingBy (divide : float -> float -> float)
    : Arithmetic float := {|
  zero := 0;
  add := PrimFloat.add;
  mul := PrimFloat.mul;
  div := divide;
  sqrt := PrimFloat.sqrt;
  isZero := fun x => x =? 0
|}.

Definition exact : Arithmetic R := {|
  zero := 0%R;
  add := Rplus;
  mul := Rmult;
  div := Rdiv;
  sqrt := R_sqrt.sqrt;
  isZero := fun x => if Req_dec_T x 0%R then true else false
|}.

(** [x >= y] *)
Definition geb (x y : float) : bool := y <=? x.

(** A number is falsy when it is [+0], [-0] or [NaN]. *)
Definition isFalsy (x : float) : bool := (x =? 0) || is_nan x.

(** [supplied || fallback] for an optional number. *)
Definition orDefault (supplied : option float) (fallback : float) : float :=
  match supplied with
  | Some x => if isFalsy x then fallback else x
  | None => fallback
  end.

(** The same for an integer-valued number, where only [0] is falsy. *)
Definition orDefaultZ (supplied : option Z) (fallback : Z) : Z :=
  match supplied with
  | Some n => if (n =? 0)%Z then fallback else n
  | None => fallback
  end.

(** A value received at run time, as far as [typeof] and [Array.isArray]
    tell values apart.  [VArray] carries the indices below the [length] of
    the array: the element an index holds, or [None] for an index the array
    does not hold (a hole, as every index of [new Array(768)] is). *)
Inductive JsElement :=
| EUndefined
| ENull
| EBool (b : bool)
| ENumber (x : float)
| EString (s : Js.jsString)
| EObject.

Inductive JsValue :=
| VArray (items : list (option JsElement))
| VOther (v : JsElement).

(** [items.every(callback)]: the callback is called for the indices the
    array holds, and for no other. *)
Definition every (callback : JsElement -> bool) (items : list (option JsElement))
    : bool :=
  forallb (fun slot => match slot with
                       | Some value => callback value
                       | None => true
                       end) items.

(** The number that holds an integer: the binary64 number nearest to it,
    which is the integer itself below [2 ^ 53], as every length, index and
    counter of the service is. *)
Definition ofZ (z : Z) : float :=
  SF2Prim (binary_normalize prec emax z 0 false).

(** The integer nearest to a number, the greater one of two that are
    equally near: the greatest integer that is at most the number and a
    half.  A finite number is [(+-m) * 2 ^ e]. *)
Definition nearestInteger (f : spec_float) : Z :=
  match f with
  | S754_finite s m e =>
      let n := if s then Zneg m else Zpos m in
      if (0 <=? e)%Z then (n * 2 ^ e)%Z
      else ((n + 2 ^ (- e - 1)) / 2 ^ (- e))%Z
  | _ => 0%Z
  end.

(** [Math.round(x)].  [Math.round] leaves [NaN] and the infinities as they
    are; they are no integers, and [round] gives 0 for them. *)
Definition round (x : float) : Z := nearestInteger (Prim2SF x).

End JsNumber.

(** ** The values of binary64 numbers

    What the statements about rounded numbers are expressed in: the value
    of a number as an integer, and the number nearest to a fraction. *)

Module Binary64.
Local Open Scope Z_scope.

(** Where [r / d] lies in [0, 1): at 0, below, at or above the half. *)
Definition locOf (r d : Z) : location :=
  if r =? 0 then loc_Exact else loc_Inexact (Z.compare (2 * r) d).

(** The fraction [n / d] as the shift register sees it: its integer part,
    and where its fractional part lies. *)
Definition recOf (n d : Z) : shr_record :=
  shr_record_of_loc (n / d) (locOf (n mod d) d).

(** The integer nearest to [n / d], the even one of two that are equally
    near. *)
Definition nearestEven (n d : Z) : Z :=
  round_nearest_even (n / d) (locOf (n mod d) d).

(** The value of a number that is not negative, in units of [2 ^ -1074], so that every binary64 number has an integer
    value; [top] stands for the infinity. *)
Definition top : Z := 2 ^ 2098.

(** The value of the number 1 in these units. *)
Definition ulps : Z := 2 ^ 1074.

Definition rank (f : spec_float) : Z :=
  match f with
  | S754_finite false m e => Zpos m * 2 ^ (e + 1074)
  | S754_infinity false => top
  | _ => 0
  end.

(** [+0], a positive number or [+Infinity]. *)
Definition notNegative (f : spec_float) : bool :=
  match f with
  | S754_zero false | S754_finite false _ _ | S754_infinity false => true
  | _ => false
  end.

(** [nearest64 a b] is the value of the binary64 number nearest to [a / b],
    both in units of [2 ^ -1074]: a number of [g] digits keeps the leading
    53 of them. *)
Definition nearest64 (a b : Z) : Z :=
  let j := Z.max (Zdigits2 (a / b) - 53) 0 in
  nearestEven a (2 ^ j * b) * 2 ^ j.

(** A percentage from the values of the two counters: the quotient, its
    product with 100 and the nearest integer, each rounded as the code
    rounds it.  A total too large to be a number gives 0. *)
Definition percentOfRanks (rp rn : Z) : Z :=
  if rn =? top then 0
  else (nearest64 (nearest64 (rp * ulps) rn * (100 * ulps)) ulps + 2 ^ 1073) / ulps.

End Binary64.

(** ** Configuration (config/environment.ts, the [rag] block) *)

Module Config.

Record Rag := {
  embeddingModel : String.string;
  vectorDimension : Z;
  similarityThreshold : float;
  maxRetrievalResults : Z;
  chunkSize : Z;
  chunkOverlap : Z
}.

(** The values [config.rag] takes when the environment sets none. *)
Definition defaults : Rag := {|
  embeddingModel := "text-embedding-004";
  vectorDimension := 768;
  similarityThreshold := 0x1.6666666666666p-1;   (* 0.7 *)
  maxRetrievalResults := 10;
  chunkSize := 1000;
  chunkOverlap := 200
|}.

End Config.

(** ** Embedding service (services/embedding-service.ts) *)

Module EmbeddingService.
Import Js Errors JsNumber.
Local Open Scope Z_scope.

Record EmbeddingResponse := {
  embedding : list float;
  text : jsString;
  model : String.string;
  dimensions : Z
}.

(** The fields the constructor sets. *)
Record Service := {
  svc_model : String.string;
  svc_dimensions : Z;
  svc_maxTextLength : Z;
  svc_batchSize : Z
}.

Definition new (config : Config.Rag) : Service := {|
  svc_model := Config.embeddingModel config;
  svc_dimensions := Config.vectorDimension config;
  svc_maxTextLength := 8192;
  svc_batchSize := 100
|}.

(** [generateEmbedding(request)].  [embed] is the hosted embedder (Genkit's
    [embed] with text-embedding-004): the vector it returns for a text, or
    the error it raises.  The [metadata] a request carries is echoed in the
    response and [processingTime] is read off the clock; neither is
    modelled. *)
Definition generateEmbedding (this : Service)
    (embed : jsString -> result (list float)) (request_text : jsString)
    : result EmbeddingResponse :=
  let body : result EmbeddingResponse :=
  (* [!request.text]: the empty string is falsy *)
  if length request_text =? 0 then
    Err (RAGError "embedding"%string "Text is required and must be a string"%string)
  else if length (trim request_text) =? 0 then
    Err (RAGError "embedding"%string "Text cannot be empty"%string)
  else
    let processedText :=
      if length request_text >? svc_maxTextLength this
      then substring request_text 0 (svc_maxTextLength this)
      else request_text in
    match embed processedText with
    | Ok result =>
        Ok {| embedding := result;
              text := processedText;
              model := svc_model this;
              dimensions := svc_dimensions this |}
    | Err e => Err e
    end in
  match body with
  | Ok response => Ok response
  | Err e =>
      if isRAGError e then Err e
      else Err (RAGError "embedding"%string
                  (String.append "Failed to generate embedding: "%string (messageOf e)))
  end.

(** The loop of [calculateSimilarity]: the running dot product and the two
    running squared norms, over the common indices of the vectors. *)
Fixpoint accumulate {T} (A : Arithmetic T)
    (embedding1 embedding2 : list T) (dotProduct norm1 norm2 : T) : T * T * T :=
  match embedding1, embedding2 with
  | x :: rest1, y :: rest2 =>
      accumulate A rest1 rest2
        (add A dotProduct (mul A x y))
        (add A norm1 (mul A x x))
        (add A norm2 (mul A y y))
  | _, _ => (dotProduct, norm1, norm2)
  end.

(** The body of [calculateSimilarity] once the lengths are known to agree. *)
Definition cosine {T} (A : Arithmetic T) (embedding1 embedding2 : list T) : T :=
  let '(dotProduct, norm1, norm2) :=
    accumulate A embedding1 embedding2 (zero A) (zero A) (zero A) in
  let magnitude := mul A (sqrt A norm1) (sqrt A norm2) in
  if isZero A magnitude then zero A else div A dotProduct magnitude.

(** The dot product and the squared norm the loop arrives at. *)
Definition dotProductOf {T} (A : Arithmetic T) (embedding1 embedding2 : list T) : T :=
  fst (fst (accumulate A embedding1 embedding2 (zero A) (zero A) (zero A))).

Definition squaredNormFrom {T} (A : Arithmetic T) (v : list T) (norm : T) : T :=
  fold_left (fun n x => add A n (mul A x x)) v norm.

Definition squaredNorm {T} (A : Arithmetic T) (v : list T) : T :=
  squaredNormFrom A v (zero A).

(** A component that is [+0] or [-0]. *)
Definition isZeroComponent (x : float) : Prop := (x =? 0)%float = true.

(** [calculateSimilarity(embedding1, embedding2)] *)
Definition calculateSimilarity (embedding1 embedding2 : list float)
    : result float :=
  if negb (Nat.eqb (List.length embedding1) (List.length embedding2)) then
    Err (RAGError "similarity"%string "Embeddings must have the same dimensions"%string)
  else Ok (cosine float64 embedding1 embedding2).

(** [typeof value === "number" && !isNaN(value)] *)
Definition isNumberNotNaN (value : JsElement) : bool :=
  match value with
  | ENumber x => negb (is_nan x)
  | _ => false
  end.

(** [validateEmbedding(embedding)] *)
Definition validateEmbedding (this : Service) (embedding : JsValue) : bool :=
  match embedding with
  | VOther _ => false
  | VArray items =>
      if negb (Z.of_nat (List.length items) =? svc_dimensions this) then false
      else every isNumberNotNaN items
  end.

(** What the specification asks of every index of the array: that it holds
    a finite number. *)
Definition isFiniteNumber (slot : option JsElement) : bool :=
  match slot with
  | Some (ENumber x) => is_finite x
  | _ => false
  end.

End EmbeddingService.

(** ** The persisted records *)

Module Model.
Import Js Errors.
Local Open Scope Z_scope.

Definition Id := String.string.
Bind Scope string_scope with Id.
Definition Timestamp := Z.

Inductive DataSource := gbif | iucn | obis | ebird.

Definition sourceName (s : DataSource) : String.string :=
  match s with
  | gbif => "gbif" | iucn => "iucn" | obis => "obis" | ebird => "ebird"
  end%string.

Inductive DocumentType :=
  species | occurrence | assessment | observation | habitat | threat.

(** [DocumentMetadata], with the fields the services read or write. *)
Record DocumentMetadata := {
  md_source : DataSource;
  md_type : DocumentType;
  md_scientificName : option jsString;
  md_country : option jsString;
  md_originalId : option jsString;
  md_chunkIndex : option Z;
  md_totalChunks : option Z
}.

Record StoredDocument := {
  sd_id : Id;
  sd_content : jsString;
  sd_metadata : DocumentMetadata;
  sd_createdAt : Timestamp
}.

Record StoredEmbedding := {
  se_id : Id;
  se_documentId : Id;
  se_embedding : list float;
  se_content : jsString;
  se_metadata : DocumentMetadata;
  se_model : String.string;
  se_dimensions : Z;
  se_createdAt : Timestamp
}.

Record ProcessedDocument := {
  pd_content : jsString;
  pd_metadata : DocumentMetadata;
  pd_chunks : option (list jsString)
}.

(** An element of the array a provider returns (typed [any] in the
    source): [null], or an object with its fields by name. *)
Inductive RawRecord :=
| RawNull
| RawObject (fields : list (String.string * jsString)).

(** *** Ingestion jobs *)

Inductive JobStatus := queued | running | completed | failed | cancelled.

Inductive Phase :=
  fetching | processing | embedding | storing | phaseCompleted.

Record Progress := {
  phase : Phase;
  processed : Z;
  total : Z;
  percentage : Z
}.

Record Results := {
  documentsIngested : Z;
  embeddingsCreated : Z;
  errors : Z
}.

Record Parameters := {
  par_species : option jsString;
  par_country : option jsString;
  par_limit : option Z
}.

Record Options := {
  opt_chunkSize : option Z;
  opt_chunkOverlap : option Z;
  opt_batchSize : option Z;
  opt_generateEmbeddings : option bool
}.

Record IngestionJobConfig := {
  cfg_source : DataSource;
  cfg_parameters : Parameters;
  cfg_options : option Options
}.

(** [IngestionJobStatus]: the job record of the [ingestionJobs] collection. *)
Record IngestionJobStatus := {
  job_source : DataSource;
  job_status : JobStatus;
  job_progress : Progress;
  job_results : option Results;
  job_config : IngestionJobConfig;
  job_createdAt : Timestamp;
  job_startedAt : option Timestamp;
  job_completedAt : option Timestamp;
  job_error : option String.string
}.

(** [Partial<IngestionJobStatus>], as the service passes it to [update]:
    the fields present replace the stored ones. *)
Record JobUpdate := {
  upd_status : option JobStatus;
  upd_progress : option Progress;
  upd_results : option Results;
  upd_startedAt : option Timestamp;
  upd_completedAt : option Timestamp;
  upd_error : option String.string
}.

Definition noUpdate : JobUpdate := {|
  upd_status := None; upd_progress := None; upd_results := None;
  upd_startedAt := None; upd_completedAt := None; upd_error := None
|}.

Definition orElse {A} (new : option A) (old : A) : A :=
  match new with Some a => a | None => old end.

Definition orKeep {A} (new old : option A) : option A :=
  match new with Some a => Some a | None => old end.

Definition merge (u : JobUpdate) (job : IngestionJobStatus) : IngestionJobStatus := {|
  job_source := job_source job;
  job_status := orElse (upd_status u) (job_status job);
  job_progress := orElse (upd_progress u) (job_progress job);
  job_results := orKeep (upd_results u) (job_results job);
  job_config := job_config job;
  job_createdAt := job_createdAt job;
  job_startedAt := orKeep (upd_startedAt u) (job_startedAt job);
  job_completedAt := orKeep (upd_completedAt u) (job_completedAt job);
  job_error := orKeep (upd_error u) (job_error job)
|}.

(** *** The document store *)

(** One write to the store. *)
Inductive Action :=
| SetJob (jobId : Id) (job : IngestionJobStatus)
| UpdateJob (jobId : Id) (updates : JobUpdate)
| AddDocument (document : StoredDocument)
| AddEmbedding (stored : StoredEmbedding).

Record Db := {
  ingestionJobs : list (Id * IngestionJobStatus);
  knowledgeBase : list StoredDocument;
  embeddings : list StoredEmbedding
}.

Definition emptyDb : Db :=
  {| ingestionJobs := []; knowledgeBase := []; embeddings := [] |}.

Fixpoint lookupJob (jobs : list (Id * IngestionJobStatus)) (jobId : Id)
    : option IngestionJobStatus :=
  match jobs with
  | [] => None
  | (k, job) :: rest => if String.eqb k jobId then Some job else lookupJob rest jobId
  end.

(** [doc(jobId).set(job)]: creates the record, or replaces it. *)
Fixpoint setJob (jobs : list (Id * IngestionJobStatus)) (jobId : Id)
    (job : IngestionJobStatus) : list (Id * IngestionJobStatus) :=
  match jobs with
  | [] => [(jobId, job)]
  | (k, old) :: rest =>
      if String.eqb k jobId then (k, job) :: rest
      else (k, old) :: setJob rest jobId job
  end.

(** [doc(jobId).update(updates)]: merges into an existing record; on a
    missing record the store rejects the write and nothing changes. *)
Fixpoint updateJob (jobs : list (Id * IngestionJobStatus)) (jobId : Id)
    (updates : JobUpdate) : list (Id * IngestionJobStatus) :=
  match jobs with
  | [] => []
  | (k, old) :: rest =>
      if String.eqb k jobId then (k, merge updates old) :: rest
      else (k, old) :: updateJob rest jobId updates
  end.

Definition applyAction (db : Db) (a : Action) : Db :=
  match a with
  | SetJob jobId job =>
      {| ingestionJobs := setJob (ingestionJobs db) jobId job;
         knowledgeBase := knowledgeBase db; embeddings := embeddings db |}
  | UpdateJob jobId updates =>
      {| ingestionJobs := updateJob (ingestionJobs db) jobId updates;
         knowledgeBase := knowledgeBase db; embeddings := embeddings db |}
  | AddDocument document =>
      {| ingestionJobs := ingestionJobs db;
         knowledgeBase := knowledgeBase db ++ [document];
         embeddings := embeddings db |}
  | AddEmbedding stored =>
      {| ingestionJobs := ingestionJobs db;
         knowledgeBase := knowledgeBase db;
         embeddings := embeddings db ++ [stored] |}
  end.

Definition applyActions (db : Db) (trace : list Action) : Db :=
  fold_left applyAction trace db.

(** *** The world outside the service

    What the external collaborators answer: the provider clients behind
    [fetchGBIFData] and its siblings, the hosted embedder and the document
    store's [add] (the id it assigns, or the error it raises).
    [formatItem] stands for [processGBIFItem] and its siblings, which read
    fields of an untyped provider record: the document they build, or the
    error raised while they build it.  [now] is the clock; the instants it
    gives play no part in what is stated below. *)
Record World := {
  fetchFromProvider :
    DataSource -> Parameters -> Z -> result (list RawRecord);
  formatItem : DataSource -> RawRecord -> result ProcessedDocument;
  embed : jsString -> result (list float);
  addDocument : jsString -> DocumentMetadata -> result Id;
  addEmbedding :
    Id -> list float -> jsString -> DocumentMetadata -> result Id;
  now : Timestamp
}.

End Model.

(** ** Asynchronous methods

  A method of a service is a computation that writes to the store, reads
  and assigns its local variables (the state [S]), and then returns, throws
  or never finishes.  The writes it has made and the assignments it has
  done stay when it throws. *)

Module Task.
Import Errors Model.

Inductive outcome (A : Type) :=
| Returns (a : A)
| Throws (e : AppError)
| Hangs.
Arguments Returns {A} a.
Arguments Throws {A} e.
Arguments Hangs {A}.

Definition Task (S A : Type) : Type := S -> list Action * S * outcome A.

Definition ret {S A} (a : A) : Task S A := fun s => ([], s, Returns a).

Definition bind {S A B} (m : Task S A) (k : A -> Task S B) : Task S B :=
  fun s =>
    let '(t1, s1, o) := m s in
    match o with
    | Returns a => let '(t2, s2, o2) := k a s1 in (t1 ++ t2, s2, o2)
    | Throws e => (t1, s1, Throws e)
    | Hangs => (t1, s1, Hangs)
    end.

Definition throw {S A} (e : AppError) : Task S A := fun s => ([], s, Throws e).

Definition hang {S A} : Task S A := fun s => ([], s, Hangs).

(** [await] of one write to the store. *)
Definition write {S} (a : Action) : Task S unit := fun s => ([a], s, Returns tt).

Definition get {S} : Task S S := fun s => ([], s, Returns s).

Definition modify {S} (f : S -> S) : Task S unit := fun s => ([], f s, Returns tt).

(** [try { m } catch (error) { handler error }] *)
Definition tryCatch {S A} (m : Task S A) (handler : AppError -> Task S A)
    : Task S A :=
  fun s =>
    let '(t1, s1, o) := m s in
    match o with
    | Throws e => let '(t2, s2, o2) := handler e s1 in (t1 ++ t2, s2, o2)
    | _ => (t1, s1, o)
    end.

(** A call of a method that has locals of its own, started at [locals]. *)
Definition call {S S' A} (m : Task S' A) (locals : S') : Task S A :=
  fun s => let '(t, _, o) := m locals in (t, s, o).

(** A call of a function that only returns or throws. *)
Definition ofResult {S A} (r : result A) : Task S A :=
  match r with
  | Ok a => ret a
  | Err e => throw e
  end.

(** A call of a loop that may not leave. *)
Definition ofLoop {S A} (r : option A) : Task S A :=
  match r with
  | Some a => ret a
  | None => hang
  end.

Definition traceOf {S A} (r : list Action * S * outcome A) : list Action :=
  fst (fst r).
Definition localsOf {S A} (r : list Action * S * outcome A) : S :=
  snd (fst r).
Definition outcomeOf {S A} (r : list Action * S * outcome A) : outcome A :=
  snd r.

Declare Scope task_scope.
Delimit Scope task_scope with task.
Notation "x <- m ;; k" := (bind m (fun x => k))
  (at level 61, m at next level, right associativity) : task_scope.
Notation "m ;; k" := (bind m (fun _ => k))
  (at level 61, right associativity) : task_scope.

End Task.

(** ** Vector store (services/firestore-service.ts) *)

Module FirestoreService.
Import Js Errors JsNumber Model Task.
Local Open Scope Z_scope.
Local Open Scope task_scope.

(** [storeDocument(content, metadata)] *)
Definition storeDocument {S} (w : World) (content : jsString)
    (metadata : DocumentMetadata) : Task S Id :=
  match addDocument w content metadata with
  | Ok id =>
      write (AddDocument {| sd_id := id; sd_content := content;
                            sd_metadata := metadata; sd_createdAt := now w |}) ;;
      ret id
  | Err e =>
      throw (RAGError "document_storage"
               (String.append "Failed to store document: " (messageOf e)))
  end.

(** The record [storeEmbedding] builds before it hands it to the store. *)
Definition embeddingDoc (w : World) (id documentId : Id)
    (embedding : list float) (content : jsString)
    (metadata : DocumentMetadata) (model : String.string) : StoredEmbedding :=
  {| se_id := id;
     se_documentId := documentId;
     se_embedding := embedding;
     se_content := content;
     se_metadata := metadata;
     se_model := model;
     se_dimensions := Z.of_nat (List.length embedding);
     se_createdAt := now w |}.

(** [storeEmbedding(documentId, embedding, content, metadata, model)] *)
Definition storeEmbedding {S} (w : World) (documentId : Id)
    (embedding : list float) (content : jsString)
    (metadata : DocumentMetadata) (model : String.string) : Task S Id :=
  match addEmbedding w documentId embedding content metadata with
  | Ok id =>
      write (AddEmbedding
               (embeddingDoc w id documentId embedding content metadata model)) ;;
      ret id
  | Err e =>
      throw (RAGError "embedding_storage"
               (String.append "Failed to store embedding: " (messageOf e)))
  end.

(** [calculateCosineSimilarity(vector1, vector2)] *)
Definition calculateCosineSimilarity (vector1 vector2 : list float)
    : result float :=
  if negb (Nat.eqb (List.length vector1) (List.length vector2)) then
    Err (RAGError "similarity" "Vectors must have the same dimensions")
  else Ok (EmbeddingService.cosine float64 vector1 vector2).

(** *** Similarity search *)

Record VectorSearchFilters := {
  flt_source : list DataSource;
  flt_type : list DocumentType;
  flt_scientificName : option jsString;
  flt_country : option jsString
}.

Record VectorSearchQuery := {
  qry_embedding : list float;
  qry_limit : option Z;
  qry_threshold : option float;
  qry_filters : option VectorSearchFilters
}.

Record VectorSearchResult := {
  res_id : Id;
  res_content : jsString;
  res_metadata : DocumentMetadata;
  res_score : float;
  res_documentId : Id
}.

Record VectorSearchResponse := {
  rsp_results : list VectorSearchResult;
  rsp_totalResults : Z;
  rsp_limit : Z;
  rsp_threshold : float
}.

Definition sourceEqb (a b : DataSource) : bool :=
  match a, b with
  | gbif, gbif | iucn, iucn | obis, obis | ebird, ebird => true
  | _, _ => false
  end.

Definition typeEqb (a b : DocumentType) : bool :=
  match a, b with
  | species, species | occurrence, occurrence | assessment, assessment
  | observation, observation | habitat, habitat | threat, threat => true
  | _, _ => false
  end.

Definition jsStringEqb (a b : jsString) : bool :=
  if list_eq_dec N.eq_dec a b then true else false.

(** [where(field, "in", values)], applied only to a non-empty [values]. *)
Definition whereIn {A} (eqb : A -> A -> bool) (values : list A) (field : A) : bool :=
  match values with
  | [] => true
  | _ => existsb (eqb field) values
  end.

(** [where(field, "==", value)], applied only to a non-empty string. *)
Definition whereEq (value : option jsString) (field : option jsString) : bool :=
  match value with
  | None | Some [] => true
  | Some v =>
      match field with
      | Some f => jsStringEqb f v
      | None => false
      end
  end.

(** The [where] clauses the search adds to the query. *)
Definition matchesFilters (filters : option VectorSearchFilters)
    (stored : StoredEmbedding) : bool :=
  match filters with
  | None => true
  | Some f =>
      whereIn sourceEqb (flt_source f) (md_source (se_metadata stored))
      && whereIn typeEqb (flt_type f) (md_type (se_metadata stored))
      && whereEq (flt_scientificName f) (md_scientificName (se_metadata stored))
      && whereEq (flt_country f) (md_country (se_metadata stored))
  end.

(** What a read of the [embeddings] collection gives: its records, in the
    store's order, or the error the read raises. *)
Definition Embeddings := result (list StoredEmbedding).

(** [firestoreQuery.limit(Math.min(limit * 10, 1000)).get()]: the first
    records of the collection, in the store's order, that pass the
    filters.  The store does not answer a query whose limit is negative:
    it raises [rejection]. *)
Definition snapshot (store : Embeddings) (rejection : AppError)
    (filters : option VectorSearchFilters) (limit : Z)
    : result (list StoredEmbedding) :=
  match store with
  | Err e => Err e
  | Ok collection =>
      if Z.min (limit * 10) 1000 <? 0 then Err rejection
      else Ok (firstn (Z.to_nat (Z.min (limit * 10) 1000))
                 (filter (matchesFilters filters) collection))
  end.

(** The candidate pushed for a record of the snapshot. *)
Definition candidateOf (data : StoredEmbedding) (similarity : float)
    : VectorSearchResult :=
  {| res_id := se_id data;
     res_content := se_content data;
     res_metadata := se_metadata data;
     res_score := similarity;
     res_documentId := se_documentId data |}.

(** The [forEach] over the snapshot: the candidates kept so far, or the
    error [calculateCosineSimilarity] raised. *)
Fixpoint collectCandidates (queryEmbedding : list float) (threshold : float)
    (docs : list StoredEmbedding) (candidates : list VectorSearchResult)
    : result (list VectorSearchResult) :=
  match docs with
  | [] => Ok candidates
  | data :: rest =>
      match calculateCosineSimilarity queryEmbedding (se_embedding data) with
      | Err e => Err e
      | Ok similarity =>
          collectCandidates queryEmbedding threshold rest
            (if geb similarity threshold
             then candidates ++ [candidateOf data similarity]
             else candidates)
      end
  end.

(** [candidates.sort((a, b) => b.similarity - a.similarity)].  The sort is
    stable, and only the sign of the comparator matters to it: the
    difference [b - a] of two numbers neither of which is NaN is positive
    exactly when [a < b], and a NaN difference (of two equal infinities)
    counts as zero.  [insertCandidate] puts [a] after the candidates that
    the comparator places strictly before it. *)
Fixpoint insertCandidate (a : VectorSearchResult)
    (sorted : list VectorSearchResult) : list VectorSearchResult :=
  match sorted with
  | [] => [a]
  | b :: rest =>
      if (res_score a <? res_score b)%float
      then b :: insertCandidate a rest
      else a :: sorted
  end.

Definition sortBySimilarity (candidates : list VectorSearchResult)
    : list VectorSearchResult :=
  fold_right insertCandidate [] candidates.

(** [vectorSearch(query)] over the [embeddings] collection: the [try]
    block, and the [catch] that wraps whatever the block throws. *)
Definition vectorSearch (config : Config.Rag) (store : Embeddings)
    (rejection : AppError) (query : VectorSearchQuery)
    : result VectorSearchResponse :=
  let limit := orDefaultZ (qry_limit query) (Config.maxRetrievalResults config) in
  let threshold :=
    orDefault (qry_threshold query) (Config.similarityThreshold config) in
  let attempt : result VectorSearchResponse :=
    match snapshot store rejection (qry_filters query) limit with
    | Err e => Err e
    | Ok [] =>
        Ok {| rsp_results := []; rsp_totalResults := 0;
              rsp_limit := limit; rsp_threshold := threshold |}
    | Ok docs =>
        match collectCandidates (qry_embedding query) threshold docs [] with
        | Err e => Err e
        | Ok candidates =>
            let results := slice (sortBySimilarity candidates) 0 limit in
            Ok {| rsp_results := results;
                  rsp_totalResults := Z.of_nat (List.length results);
                  rsp_limit := limit; rsp_threshold := threshold |}
        end
    end in
  match attempt with
  | Ok response => Ok response
  | Err error =>
      Err (RAGError "vector_search"
             (String.append "Vector search failed: " (messageOf error)))
  end.

(** *** Notions the statements about the search use *)

(** The threshold and the limit in effect for a query. *)
Definition thresholdInEffect (config : Config.Rag) (query : VectorSearchQuery) : float :=
  orDefault (qry_threshold query) (Config.similarityThreshold config).

Definition limitInEffect (config : Config.Rag) (query : VectorSearchQuery) : Z :=
  orDefaultZ (qry_limit query) (Config.maxRetrievalResults config).

(** The pre-filtered candidates of a query: the records the store answers
    with when it answers. *)
Definition candidatesOf (config : Config.Rag) (collection : list StoredEmbedding)
    (query : VectorSearchQuery) : list StoredEmbedding :=
  firstn (Z.to_nat (Z.min (limitInEffect config query * 10) 1000))
    (filter (matchesFilters (qry_filters query)) collection).

(** What the search throws for an error raised in its [try] block. *)
Definition searchFailure (error : AppError) : AppError :=
  RAGError "vector_search"
    (String.append "Vector search failed: " (messageOf error)).

(** The cosine similarity of a stored record to the query vector. *)
Definition similarityTo (queryEmbedding : list float) (data : StoredEmbedding) : float :=
  EmbeddingService.cosine float64 queryEmbedding (se_embedding data).

Definition sameDimension (queryEmbedding : list float) (data : StoredEmbedding) : bool :=
  Nat.eqb (List.length queryEmbedding) (List.length (se_embedding data)).

(** The candidates a threshold keeps, in the order of the snapshot. *)
Definition keptAt (queryEmbedding : list float) (threshold : float)
    (docs : list StoredEmbedding) : list VectorSearchResult :=
  map (fun data => candidateOf data (similarityTo queryEmbedding data))
    (filter (fun data => geb (similarityTo queryEmbedding data) threshold) docs).

(** [a] may stand before [b] in a list sorted by descending score. *)
Definition scoreAtLeast (a b : VectorSearchResult) : Prop :=
  geb (res_score a) (res_score b) = true.

(** A result whose score reaches the threshold. *)
Definition reaches (t : float) (r : VectorSearchResult) : Prop :=
  geb (res_score r) t = true.

Definition withThreshold (query : VectorSearchQuery) (threshold : option float)
    : VectorSearchQuery :=
  {| qry_embedding := qry_embedding query; qry_limit := qry_limit query;
     qry_threshold := threshold; qry_filters := qry_filters query |}.

Definition withLimit (query : VectorSearchQuery) (limit : option Z)
    : VectorSearchQuery :=
  {| qry_embedding := qry_embedding query; qry_limit := limit;
     qry_threshold := qry_threshold query; qry_filters := qry_filters query |}.

(** The number of results of a search; none when it fails. *)
Definition resultCount (r : result VectorSearchResponse) : nat :=
  match r with
  | Ok response => List.length (rsp_results response)
  | Err _ => 0
  end.

End FirestoreService.

(** ** Ingestion orchestrator (services/ingestion-service.ts) *)

Module IngestionService.
Import Js Errors JsNumber Model Task.
Local Open Scope Z_scope.
Local Open Scope task_scope.

(** [Math.round((processed / total) * 100)]: the quotient and the product
    are taken in binary64 numbers, as the code takes them. *)
Definition roundPercent (processed total : Z) : Z :=
  round (ofZ processed / ofZ total * 100)%float.

Definition progressUpdate (ph : Phase) (done all pct : Z) : JobUpdate := {|
  upd_status := None;
  upd_progress := Some {| phase := ph; processed := done;
                          total := all; percentage := pct |};
  upd_results := None; upd_startedAt := None;
  upd_completedAt := None; upd_error := None
|}.

(** [updateJobStatus(jobId, updates)]: an error of the write is logged and
    swallowed, so the call always returns. *)
Definition updateJobStatus {S} (jobId : Id) (updates : JobUpdate) : Task S unit :=
  write (UpdateJob jobId updates).

(** The record [startIngestionJob] creates. *)
Definition newJob (w : World) (config : IngestionJobConfig) : IngestionJobStatus := {|
  job_source := cfg_source config;
  job_status := queued;
  job_progress := {| phase := fetching; processed := 0; total := 0; percentage := 0 |};
  job_results := None;
  job_config := config;
  job_createdAt := now w;
  job_startedAt := None;
  job_completedAt := None;
  job_error := None
|}.

(** [cancelJob(jobId)]: the write it makes. *)
Definition cancelUpdate (w : World) : JobUpdate := {|
  upd_status := Some cancelled;
  upd_progress := None; upd_results := None; upd_startedAt := None;
  upd_completedAt := Some (now w);
  upd_error := None
|}.

(** [cancelJob(jobId)] on a store in state [db]: the store rejects an
    update of a record that does not exist. *)
Definition cancelJob (w : World) (db : Db) (jobId : Id) : Db * result unit :=
  match lookupJob (ingestionJobs db) jobId with
  | Some _ => (applyAction db (UpdateJob jobId (cancelUpdate w)), Ok tt)
  | None =>
      (db, Err (IngestionError "unknown"
                  (String.append "Failed to cancel job: "
                     (messageOf (ExternalError "No document to update")))))
  end.

(** [fetchDataFromSource(jobId, jobConfig)] *)
Definition fetchDataFromSource {S} (w : World) (jobId : Id)
    (jobConfig : IngestionJobConfig) : Task S (list RawRecord) :=
  let source := cfg_source jobConfig in
  let parameters := cfg_parameters jobConfig in
  let limit := orDefaultZ (par_limit parameters) 100 in
  updateJobStatus jobId (progressUpdate fetching 0 limit 0) ;;
  tryCatch
    (ofResult (fetchFromProvider w source parameters limit))
    (fun error =>
       throw (IngestionError (sourceName source)
                (String.append "Failed to fetch data from "
                   (String.append (sourceName source)
                      (String.append ": " (messageOf error)))))).

(** [processDataItem(item, source)]: an error raised while the document is
    built is logged and the item yields [null]. *)
Definition processDataItem {S} (w : World) (item : RawRecord)
    (source : DataSource) : Task S (option ProcessedDocument) :=
  tryCatch
    (doc <- ofResult (formatItem w source item) ;; ret (Some doc))
    (fun _ => ret None).

Definition withChunks (doc : ProcessedDocument) (chunks : list jsString)
    : ProcessedDocument :=
  {| pd_content := pd_content doc; pd_metadata := pd_metadata doc;
     pd_chunks := Some chunks |}.

(** "Chunk the document if it's too long". *)
Definition chunkIfTooLong {S} (processedDoc : ProcessedDocument)
    (chunkSize chunkOverlap : Z) : Task S ProcessedDocument :=
  if length (pd_content processedDoc) >? chunkSize then
    chunks <- ofLoop (Chunker.chunkText (pd_content processedDoc)
                        chunkSize chunkOverlap) ;;
    ret (withChunks processedDoc chunks)
  else ret processedDoc.

(** The [for] loop of [processDocuments], from index [i] on; the local
    variable is the array [documents]. *)
Fixpoint processDocuments_for (w : World) (jobId : Id) (source : DataSource)
    (chunkSize chunkOverlap : Z) (rawData_length : Z) (i : Z)
    (items : list RawRecord) : Task (list ProcessedDocument) unit :=
  match items with
  | [] => ret tt
  | item :: rest =>
      tryCatch
        (processedDoc <- processDataItem w item source ;;
         match processedDoc with
         | Some doc =>
             doc' <- chunkIfTooLong doc chunkSize chunkOverlap ;;
             modify (fun documents => documents ++ [doc'])
         | None => ret tt
         end ;;
         updateJobStatus jobId
           (progressUpdate processing (i + 1) rawData_length
              (roundPercent (i + 1) rawData_length)))
        (fun _ => ret tt) ;;
      processDocuments_for w jobId source chunkSize chunkOverlap
        rawData_length (i + 1) rest
  end.

Definition optionOf {A} (options : option Options)
    (field : Options -> option A) : option A :=
  match options with
  | Some o => field o
  | None => None
  end.

(** [processDocuments(jobId, rawData, jobConfig)] *)
Definition processDocuments (w : World) (config : Config.Rag) (jobId : Id)
    (rawData : list RawRecord) (jobConfig : IngestionJobConfig)
    : Task (list ProcessedDocument) (list ProcessedDocument) :=
  let chunkSize :=
    orDefaultZ (optionOf (cfg_options jobConfig) opt_chunkSize)
      (Config.chunkSize config) in
  let chunkOverlap :=
    orDefaultZ (optionOf (cfg_options jobConfig) opt_chunkOverlap)
      (Config.chunkOverlap config) in
  let rawData_length := Z.of_nat (List.length rawData) in
  updateJobStatus jobId (progressUpdate processing 0 rawData_length 0) ;;
  processDocuments_for w jobId (cfg_source jobConfig) chunkSize chunkOverlap
    rawData_length 0 rawData ;;
  get.

(** The counters of [storeDocumentsWithEmbeddings]. *)
Definition ingested (c : Results) : Results :=
  {| documentsIngested := documentsIngested c + 1;
     embeddingsCreated := embeddingsCreated c; errors := errors c |}.
Definition embedded (c : Results) : Results :=
  {| documentsIngested := documentsIngested c;
     embeddingsCreated := embeddingsCreated c + 1; errors := errors c |}.
Definition erred (c : Results) : Results :=
  {| documentsIngested := documentsIngested c;
     embeddingsCreated := embeddingsCreated c; errors := errors c + 1 |}.

Definition chunkMetadata (metadata : DocumentMetadata)
    (chunkIndex totalChunks : Z) : DocumentMetadata :=
  {| md_source := md_source metadata; md_type := md_type metadata;
     md_scientificName := md_scientificName metadata;
     md_country := md_country metadata;
     md_originalId := md_originalId metadata;
     md_chunkIndex := Some chunkIndex;
     md_totalChunks := Some totalChunks |}.

(** The loop over [doc.chunks], from [chunkIndex] on. *)
Fixpoint embedChunks (w : World) (svc : EmbeddingService.Service)
    (documentId : Id) (metadata : DocumentMetadata) (totalChunks : Z)
    (chunkIndex : Z) (chunks : list jsString) : Task Results unit :=
  match chunks with
  | [] => ret tt
  | chunk :: rest =>
      chunkEmbeddingResponse <-
        ofResult (EmbeddingService.generateEmbedding svc (embed w) chunk) ;;
      FirestoreService.storeEmbedding w documentId
        (EmbeddingService.embedding chunkEmbeddingResponse) chunk
        (chunkMetadata metadata chunkIndex totalChunks)
        (EmbeddingService.model chunkEmbeddingResponse) ;;
      modify embedded ;;
      embedChunks w svc documentId metadata totalChunks (chunkIndex + 1) rest
  end.

(** The statements under [if (generateEmbeddings)]: the embedding of the
    whole document, then of its chunks. *)
Definition embedDocument (w : World) (svc : EmbeddingService.Service)
    (doc : ProcessedDocument) (documentId : Id) : Task Results unit :=
  embeddingResponse <-
    ofResult (EmbeddingService.generateEmbedding svc (embed w) (pd_content doc)) ;;
  FirestoreService.storeEmbedding w documentId
    (EmbeddingService.embedding embeddingResponse) (pd_content doc)
    (pd_metadata doc) (EmbeddingService.model embeddingResponse) ;;
  modify embedded ;;
  match pd_chunks doc with
  | Some ((_ :: _) as chunks) =>
      embedChunks w svc documentId (pd_metadata doc)
        (Z.of_nat (List.length chunks)) 0 chunks
  | _ => ret tt
  end.

(** The [try] block of the loop over a batch: one document. *)
Definition storeAttempt (w : World) (svc : EmbeddingService.Service)
    (generateEmbeddings : bool) (doc : ProcessedDocument) : Task Results unit :=
  documentId <- FirestoreService.storeDocument w (pd_content doc) (pd_metadata doc) ;;
  modify ingested ;;
  if generateEmbeddings then embedDocument w svc doc documentId else ret tt.

(** The body of the loop over a batch, with its [catch]. *)
Definition storeOne (w : World) (svc : EmbeddingService.Service)
    (generateEmbeddings : bool) (doc : ProcessedDocument) : Task Results unit :=
  tryCatch (storeAttempt w svc generateEmbeddings doc) (fun _ => modify erred).

Fixpoint storeBatch (w : World) (svc : EmbeddingService.Service)
    (generateEmbeddings : bool) (batch : list ProcessedDocument)
    : Task Results unit :=
  match batch with
  | [] => ret tt
  | doc :: rest =>
      storeOne w svc generateEmbeddings doc ;;
      storeBatch w svc generateEmbeddings rest
  end.

(** The loop [for (i = 0; i < documents.length; i += batchSize)], from [i]
    on; it has not left when [fuel] runs out. *)
Fixpoint storeBatches (fuel : nat) (w : World) (svc : EmbeddingService.Service)
    (jobId : Id) (generateEmbeddings : bool) (batchSize : Z)
    (documents : list ProcessedDocument) (i : Z) : Task Results unit :=
  match fuel with
  | O => hang
  | S fuel' =>
      let documents_length := Z.of_nat (List.length documents) in
      if i <? documents_length then
        let batch := slice documents i (i + batchSize) in
        storeBatch w svc generateEmbeddings batch ;;
        let processed := Z.min (i + batchSize) documents_length in
        let percentage := roundPercent processed documents_length in
        updateJobStatus jobId
          (progressUpdate storing processed documents_length percentage) ;;
        storeBatches fuel' w svc jobId generateEmbeddings batchSize
          documents (i + batchSize)
      else ret tt
  end.

(** [storeDocumentsWithEmbeddings(jobId, documents, jobConfig)].  With a
    positive batch size the loop makes at most [documents.length] rounds,
    and with a negative one it never leaves, so the fuel given decides
    nothing. *)
Definition storeDocumentsWithEmbeddings (w : World) (config : Config.Rag)
    (jobId : Id) (documents : list ProcessedDocument)
    (jobConfig : IngestionJobConfig) : Task Results Results :=
  (* [jobConfig.options?.generateEmbeddings !== false] *)
  let generateEmbeddings :=
    match optionOf (cfg_options jobConfig) opt_generateEmbeddings with
    | Some false => false
    | _ => true
    end in
  let batchSize :=
    orDefaultZ (optionOf (cfg_options jobConfig) opt_batchSize) 10 in
  updateJobStatus jobId
    (progressUpdate storing 0 (Z.of_nat (List.length documents)) 0) ;;
  storeBatches (S (List.length documents)) w (EmbeddingService.new config)
    jobId generateEmbeddings batchSize documents 0 ;;
  get.

Definition noResults : Results :=
  {| documentsIngested := 0; embeddingsCreated := 0; errors := 0 |}.

(** [processIngestionJob(jobId, jobConfig)] *)
Definition processIngestionJob (w : World) (config : Config.Rag) (jobId : Id)
    (jobConfig : IngestionJobConfig) : Task unit unit :=
  tryCatch
    (updateJobStatus jobId
       {| upd_status := Some running; upd_progress := None;
          upd_results := None; upd_startedAt := Some (now w);
          upd_completedAt := None; upd_error := None |} ;;
     rawData <- fetchDataFromSource w jobId jobConfig ;;
     documents <- call (processDocuments w config jobId rawData jobConfig) [] ;;
     results <- call (storeDocumentsWithEmbeddings w config jobId documents jobConfig)
                  noResults ;;
     updateJobStatus jobId
       {| upd_status := Some completed;
          upd_progress :=
            Some {| phase := phaseCompleted;
                    processed := documentsIngested results;
                    total := documentsIngested results;
                    percentage := 100 |};
          upd_results := Some results;
          upd_startedAt := None;
          upd_completedAt := Some (now w);
          upd_error := None |})
    (fun error =>
       updateJobStatus jobId
         {| upd_status := Some failed; upd_progress := None;
            upd_results := None; upd_startedAt := None;
            upd_completedAt := Some (now w);
            upd_error := Some (messageOf error) |} ;;
       throw error).

(** [startIngestionJob(config)]: the job record is created, and the
    processing task is started without being awaited.  The result is the
    write of the record together with the writes the task will make, in
    the order in which it makes them. *)
Definition startIngestionJob (w : World) (config : Config.Rag) (jobId : Id)
    (jobConfig : IngestionJobConfig) : Action * list Action :=
  (SetJob jobId (newJob w jobConfig),
   traceOf (processIngestionJob w config jobId jobConfig tt)).

(** *** Runs of the orchestrator

    What happens to the store while a job is processed: the writes of the
    job's task, in their order, and calls of [cancelJob] in between. *)
Inductive Event :=
| TaskWrite (a : Action)
| CancelCall (jobId : Id).

Definition stepEvent (w : World) (db : Db) (ev : Event) : Db :=
  match ev with
  | TaskWrite a => applyAction db a
  | CancelCall jobId => fst (cancelJob w db jobId)
  end.

(** The states of the store after each event of a run. *)
Fixpoint history (w : World) (db : Db) (events : list Event) : list Db :=
  match events with
  | [] => []
  | ev :: rest => let db' := stepEvent w db ev in db' :: history w db' rest
  end.

(** The writes of the task within a run. *)
Fixpoint taskWrites (events : list Event) : list Action :=
  match events with
  | [] => []
  | TaskWrite a :: rest => a :: taskWrites rest
  | CancelCall _ :: rest => taskWrites rest
  end.

(** [events] is a run of job [jobId]: the record is created first, and the
    writes of the task appear in their order. *)
Definition isRunOf (w : World) (config : Config.Rag) (jobId : Id)
    (jobConfig : IngestionJobConfig) (events : list Event) : Prop :=
  let '(create, task) := startIngestionJob w config jobId jobConfig in
  exists rest, events = TaskWrite create :: rest /\ taskWrites rest = task.

(** The status of the job in each state of a history in which it exists. *)
Definition statusIn (jobId : Id) (db : Db) : option JobStatus :=
  option_map job_status (lookupJob (ingestionJobs db) jobId).

Definition progressIn (jobId : Id) (db : Db) : option Progress :=
  option_map job_progress (lookupJob (ingestionJobs db) jobId).

(** The order of the states: [queued], then [running], then one of the
    three final states. *)
Definition statusRank (s : JobStatus) : Z :=
  match s with
  | queued => 0
  | running => 1
  | completed | failed | cancelled => 2
  end.

Definition isFinal (s : JobStatus) : bool :=
  match s with
  | completed | failed | cancelled => true
  | _ => false
  end.

Definition statusEqb (a b : JobStatus) : bool :=
  match a, b with
  | queued, queued | running, running | completed, completed
  | failed, failed | cancelled, cancelled => true
  | _, _ => false
  end.

(** A status may stay, or move forward; a final status may only stay. *)
Definition movesForward (before after : JobStatus) : bool :=
  statusEqb before after
  || (negb (isFinal before) && (statusRank before <? statusRank after)).

Definition phaseRank (p : Phase) : Z :=
  match p with
  | fetching => 0 | processing => 1 | embedding => 2
  | storing => 3 | phaseCompleted => 4
  end.

(** The percentage a phase is entered at: the last phase at 100, every
    other phase at 0. *)
Definition percentageAtEntry (ph : Phase) : Z :=
  match ph with
  | phaseCompleted => 100
  | _ => 0
  end.

(** The progress may rise within a phase; when the phase advances the
    percentage starts at 0 again, except in the last phase, which is entered
    at 100. *)
Definition progressMoves (before after : Progress) : Prop :=
  (phase after = phase before /\ percentage before <= percentage after)
  \/ (phaseRank (phase before) < phaseRank (phase after)
      /\ percentage after = percentageAtEntry (phase after)).

(** As the specification words it: the percentage is 0 whenever the phase
    advances. *)
Definition progressResets (before after : Progress) : Prop :=
  (phase after = phase before /\ percentage before <= percentage after)
  \/ (phaseRank (phase before) < phaseRank (phase after) /\ percentage after = 0).

Definition jobMoves (before after : IngestionJobStatus) : Prop :=
  movesForward (job_status before) (job_status after) = true
  /\ progressMoves (job_progress before) (job_progress after).

(** A property of every two neighbours of a list. *)
Fixpoint consecutive {A} (R : A -> A -> Prop) (l : list A) : Prop :=
  match l with
  | a :: (b :: _) as rest => R a b /\ consecutive R rest
  | _ => True
  end.

(** The records of job [jobId] through a history. *)
Definition jobsIn (jobId : Id) (states : list Db) : list IngestionJobStatus :=
  flat_map (fun db => match lookupJob (ingestionJobs db) jobId with
                      | Some job => [job]
                      | None => []
                      end) states.

(** *** Notions the statements about a job's results use *)

(** The options in effect. *)
Definition chunkSizeInEffect (config : Config.Rag) (jobConfig : IngestionJobConfig) : Z :=
  orDefaultZ (optionOf (cfg_options jobConfig) opt_chunkSize) (Config.chunkSize config).

Definition chunkOverlapInEffect (config : Config.Rag) (jobConfig : IngestionJobConfig) : Z :=
  orDefaultZ (optionOf (cfg_options jobConfig) opt_chunkOverlap)
    (Config.chunkOverlap config).

Definition batchSizeInEffect (jobConfig : IngestionJobConfig) : Z :=
  orDefaultZ (optionOf (cfg_options jobConfig) opt_batchSize) 10.

Definition generateEmbeddingsInEffect (jobConfig : IngestionJobConfig) : bool :=
  match optionOf (cfg_options jobConfig) opt_generateEmbeddings with
  | Some false => false
  | _ => true
  end.


(** The document of a record, with its chunks when it is too long. *)
Definition chunked (chunkSize chunkOverlap : Z) (doc : ProcessedDocument)
    : ProcessedDocument :=
  if length (pd_content doc) >? chunkSize then
    match Chunker.chunkText (pd_content doc) chunkSize chunkOverlap with
    | Some chunks => withChunks doc chunks
    | None => doc
    end
  else doc.

(** The documents of the records whose processing does not throw. *)
Definition documentsOf (w : World) (source : DataSource)
    (chunkSize chunkOverlap : Z) (rawData : list RawRecord) : list ProcessedDocument :=
  flat_map (fun item => match formatItem w source item with
                        | Ok doc => [chunked chunkSize chunkOverlap doc]
                        | Err _ => []
                        end) rawData.

(** The store accepts the document. *)
Definition documentStored (w : World) (doc : ProcessedDocument) : bool :=
  match addDocument w (pd_content doc) (pd_metadata doc) with
  | Ok _ => true
  | Err _ => false
  end.

(** Storing the document, or embedding it, throws. *)
Definition storingThrows (w : World) (svc : EmbeddingService.Service)
    (generateEmbeddings : bool) (doc : ProcessedDocument) : bool :=
  match outcomeOf (storeAttempt w svc generateEmbeddings doc noResults) with
  | Throws _ => true
  | _ => false
  end.

Definition oneIf (b : bool) : Z := if b then 1 else 0.

Definition countIf {A} (f : A -> bool) (l : list A) : Z :=
  Z.of_nat (List.length (filter f l)).

End IngestionService.

(** ** Reasoning about the writes of a method

    [jobId] is the job under watch, [R] the changes of its record that are
    allowed and [G] the writes that are allowed. *)

Module TaskLogic.
Import Model Task.

(** The record of the job after a write. *)
Definition effectOn (jobId : Id) (job : IngestionJobStatus) (a : Action)
    : IngestionJobStatus :=
  match a with
  | SetJob id created => if String.eqb id jobId then created else job
  | UpdateJob id updates => if String.eqb id jobId then merge updates job else job
  | _ => job
  end.

Definition jobAfter (jobId : Id) (job : IngestionJobStatus) (trace : list Action)
    : IngestionJobStatus :=
  fold_left (effectOn jobId) trace job.

(** Every write of the trace is allowed, and so is every change it makes to
    the record. *)
Fixpoint admissible (jobId : Id)
    (R : IngestionJobStatus -> IngestionJobStatus -> Prop) (G : Action -> Prop)
    (job : IngestionJobStatus) (trace : list Action) : Prop :=
  match trace with
  | [] => True
  | a :: rest =>
      G a /\ R job (effectOn jobId job a)
      /\ admissible jobId R G (effectOn jobId job a) rest
  end.

(** From a record and locals that satisfy [P], the method makes admissible
    writes only, and ends in an outcome, a record and locals that satisfy
    [Q]. *)
Definition triple {S A} (jobId : Id)
    (R : IngestionJobStatus -> IngestionJobStatus -> Prop) (G : Action -> Prop)
    (P : IngestionJobStatus -> S -> Prop) (m : Task S A)
    (Q : outcome A -> IngestionJobStatus -> S -> Prop) : Prop :=
  forall job s,
    P job s ->
    admissible jobId R G job (traceOf (m s))
    /\ Q (outcomeOf (m s)) (jobAfter jobId job (traceOf (m s))) (localsOf (m s)).

(** The job is running in phase [ph], at no more than [bound] percent. *)
Definition runningIn (ph : Phase) (bound : Z) (job : IngestionJobStatus) : Prop :=
  job_status job = running
  /\ phase (job_progress job) = ph
  /\ (percentage (job_progress job) <= bound)%Z.

(** A write that leaves the job records alone. *)
Definition isStoreWrite (a : Action) : Prop :=
  match a with
  | AddDocument _ | AddEmbedding _ => True
  | _ => False
  end.

(** A step of [storeDocumentsWithEmbeddings] that does not touch the job, does
    not depend on the counters, ends, and leaves the counters of documents
    and of errors as they are. *)
Definition neutral {A} (m : Task Results A) : Prop :=
  forall c,
    Forall isStoreWrite (traceOf (m c))
    /\ outcomeOf (m c)
       = outcomeOf (m {| documentsIngested := 0; embeddingsCreated := 0; errors := 0 |})
    /\ outcomeOf (m c) <> Hangs
    /\ documentsIngested (localsOf (m c)) = documentsIngested c
    /\ errors (localsOf (m c)) = errors c.

(** The records of the job after each write of a trace. *)
Fixpoint jobsAlong (jobId : Id) (job : IngestionJobStatus) (trace : list Action)
    : list IngestionJobStatus :=
  match trace with
  | [] => []
  | a :: rest => effectOn jobId job a :: jobsAlong jobId (effectOn jobId job a) rest
  end.

(** No restriction on the writes. *)
Definition anyWrite (_ : Action) : Prop := True.

(** Every write of the method is allowed, whatever its locals at the start. *)
Definition emitsOnly {S A} (G : Action -> Prop) (m : Task S A) : Prop :=
  forall s, Forall G (traceOf (m s)).

(** The method can return [a]. *)
Definition canReturn {S A} (m : Task S A) (a : A) : Prop :=
  exists s, outcomeOf (m s) = Returns a.

(** A stored embedding holds the vector the embedder gave for the first 8192
    code units of its text, and the length of this vector. *)
Definition persistedAsEmbedded (w : World) (a : Action) : Prop :=
  match a with
  | AddEmbedding stored =>
      embed w (firstn (Z.to_nat 8192) (se_content stored))
      = Errors.Ok (se_embedding stored)
      /\ se_dimensions stored = Z.of_nat (List.length (se_embedding stored))
  | _ => True
  end.

End TaskLogic.

(** ** Vectors of real numbers *)

Module RealVectors.
Local Open Scope R_scope.




End RealVectors.

(** ** Sample data *)

Module Samples.
Import Js Errors JsNumber Model.
Local Open Scope Z_scope.

(** An embedder that answers every text with the same one-component vector. *)
Definition constantEmbedder (_ : jsString) : result (list float) := Ok [1%float].

(** A text of 8193 code units. *)
Definition longText : jsString := repeat 97%N (Z.to_nat 8193).

(** A division that answers 42 where the divisor is a zero. *)
Definition markedDivision (x y : float) : float :=
  if (y =? 0)%float then 42%float else (x / y)%float.

Definition blankText : jsString := ofString "   ".

Definition someMetadata : DocumentMetadata := {|
  md_source := gbif; md_type := species;
  md_scientificName := None; md_country := None; md_originalId := None;
  md_chunkIndex := None; md_totalChunks := None
|}.

Definition storedVector (id : Id) (v : list float) : StoredEmbedding := {|
  se_id := id; se_documentId := "doc"%string; se_embedding := v;
  se_content := ofString "text"; se_metadata := someMetadata;
  se_model := "text-embedding-004";
  se_dimensions := Z.of_nat (List.length v); se_createdAt := 0
|}.

(** A collection of one record; its similarity to the query vector [3, 4]
    is 0.6. *)
Definition oneVector : list StoredEmbedding := [storedVector "e1"%string [1%float; 0%float]].

(** A collection of six records, in the store's order.  Their similarities
    to the query vector [3, 4] are 0.6, 0.8, 1 and 0.96, then -1 and
    0.98994...; four of them reach 0.7. *)
Definition sixVectors : list StoredEmbedding :=
  [storedVector "e1"%string [1%float; 0%float];
   storedVector "e2"%string [0%float; 1%float];
   storedVector "e3"%string [3%float; 4%float];
   storedVector "e4"%string [4%float; 3%float];
   storedVector "e5"%string [(-3)%float; (-4)%float];
   storedVector "e6"%string [1%float; 1%float]].

(** Eighteen records, twelve of which reach 0.7. *)
Definition eighteenVectors : list StoredEmbedding :=
  sixVectors
  ++ [storedVector "e7"%string [1%float; 0%float];
      storedVector "e8"%string [0%float; 1%float];
      storedVector "e9"%string [3%float; 4%float];
      storedVector "e10"%string [4%float; 3%float];
      storedVector "e11"%string [(-3)%float; (-4)%float];
      storedVector "e12"%string [1%float; 1%float];
      storedVector "e13"%string [1%float; 0%float];
      storedVector "e14"%string [0%float; 1%float];
      storedVector "e15"%string [3%float; 4%float];
      storedVector "e16"%string [4%float; 3%float];
      storedVector "e17"%string [(-3)%float; (-4)%float];
      storedVector "e18"%string [1%float; 1%float]].

(** The error of a store that rejects a query. *)
Definition invalidArgument : AppError :=
  ExternalError "3 INVALID_ARGUMENT: limit is negative".

(** An occurrence record of GBIF. *)
Definition jaguar : RawRecord :=
  RawObject [("key"%string, ofString "5219426");
             ("scientificName"%string, ofString "Panthera onca")].

(** [null] in place of a record: the test ['scientificName' in item] of
    [processGBIFItem] throws a [TypeError]. *)
Definition malformed : RawRecord := RawNull.

Definition lineFeed : String.string :=
  String.String (Ascii.ascii_of_nat 10) String.EmptyString.

(** The document [processGBIFItem] builds of [jaguar]. *)
Definition jaguarMetadata : DocumentMetadata := {|
  md_source := gbif; md_type := occurrence;
  md_scientificName := Some (ofString "Panthera onca");
  md_country := Some (ofString "BR");
  md_originalId := Some (ofString "5219426");
  md_chunkIndex := None; md_totalChunks := None
|}.

Definition jaguarDocument : ProcessedDocument := {|
  pd_content :=
    ofString (String.concat lineFeed
      ["Scientific Name: Panthera onca"; "Kingdom: N/A"; "Phylum: N/A";
       "Class: N/A"; "Order: N/A"; "Family: N/A"; "Genus: N/A";
       "Species: N/A"; "Location: N/A"; "Country: N/A"; "Coordinates: N/A";
       "Date: N/A"; "Basis of Record: N/A"; "Institution: N/A"]%string);
  pd_metadata := jaguarMetadata;
  pd_chunks := None
|}.

(** A world in which the provider returns a record and a [null], the
    embedder answers with one component, and the store accepts every
    write. *)
Definition world : World := {|
  fetchFromProvider := fun _ _ _ => Ok [jaguar; malformed];
  formatItem := fun _ item =>
    match item with
    | RawNull =>
        Err (ExternalError
               "Cannot use 'in' operator to search for 'scientificName' in null")
    | RawObject _ => Ok jaguarDocument
    end;
  embed := constantEmbedder;
  addDocument := fun _ _ => Ok "doc-1"%string;
  addEmbedding := fun _ _ _ _ => Ok "emb-1"%string;
  now := 0
|}.

Definition gbifJob : IngestionJobConfig := {|
  cfg_source := gbif;
  cfg_parameters := {| par_species := None; par_country := None; par_limit := Some 10 |};
  cfg_options := Some {| opt_chunkSize := None; opt_chunkOverlap := None;
                         opt_batchSize := Some 10;
                         opt_generateEmbeddings := Some true |}
|}.

Definition searchFor (v : list float) (limit : option Z) (threshold : option float)
    : FirestoreService.VectorSearchQuery :=
  {| FirestoreService.qry_embedding := v;
     FirestoreService.qry_limit := limit;
     FirestoreService.qry_threshold := threshold;
     FirestoreService.qry_filters := None |}.

End Samples.

(** ** Arrays *)

Module JsArray.

(** [a.sort(compare)] for a comparator that orders its arguments
    consistently.  The sort is stable; [precedes b a] is
    [compare(b, a) < 0], and [insertBy] puts [a] after the elements that
    precede it. *)
Fixpoint insertBy {A} (precedes : A -> A -> bool) (a : A) (sorted : list A)
    : list A :=
  match sorted with
  | [] => [a]
  | b :: rest =>
      if precedes b a then b :: insertBy precedes a rest else a :: sorted
  end.

Definition sortBy {A} (precedes : A -> A -> bool) (l : list A) : list A :=
  fold_right (insertBy precedes) [] l.

(** [a.reduce((sum, x) => sum + f(x), 0)] *)
Definition sumOf {A} (f : A -> Z) (l : list A) : Z :=
  fold_left (fun sum x => (sum + f x)%Z) l 0%Z.

(** [a.filter(f).length] *)
Definition countOf {A} (f : A -> bool) (l : list A) : Z :=
  Z.of_nat (List.length (filter f l)).

End JsArray.

(** ** Batches of embeddings (EmbeddingService.generateBatchEmbeddings) *)

Module EmbeddingBatches.
Import Js Errors JsNumber EmbeddingService.
Local Open Scope Z_scope.

(** [BatchEmbeddingResponse], without the two processing times, which are
    read off the clock. *)
Record BatchEmbeddingResponse := {
  bat_embeddings : list EmbeddingResponse;
  bat_totalTexts : Z;
  bat_successCount : Z;
  bat_errorCount : Z
}.

(** [batch.map(async (text, index) => ...)] followed by [Promise.all]: the
    response of each text of the batch, or [null] where [generateEmbedding]
    threw, and the two counters after the callbacks have run.  The calls of a
    batch are started together; the embedder answers a text whatever the
    other texts are, so the order in which they finish does not show. *)
Fixpoint runBatch (this : Service) (embed : jsString -> result (list float))
    (batch : list jsString) (successCount errorCount : Z)
    : list (option EmbeddingResponse) * Z * Z :=
  match batch with
  | [] => ([], successCount, errorCount)
  | text :: rest =>
      match generateEmbedding this embed text with
      | Ok embedding =>
          let '(batchResults, successCount', errorCount') :=
            runBatch this embed rest (successCount + 1) errorCount in
          (Some embedding :: batchResults, successCount', errorCount')
      | Err _ =>
          let '(batchResults, successCount', errorCount') :=
            runBatch this embed rest successCount (errorCount + 1) in
          (None :: batchResults, successCount', errorCount')
      end
  end.

(** [batchResults.forEach(result => { if (result) embeddings.push(result) })] *)
Fixpoint pushResults (embeddings : list EmbeddingResponse)
    (batchResults : list (option EmbeddingResponse)) : list EmbeddingResponse :=
  match batchResults with
  | [] => embeddings
  | Some result :: rest => pushResults (embeddings ++ [result]) rest
  | None :: rest => pushResults embeddings rest
  end.

(** The loop [for (i = 0; i < request.texts.length; i += batchSize)], from
    [i] on; [None] is a loop that has not left when [fuel] runs out. *)
Fixpoint batchLoop (fuel : nat) (this : Service)
    (embed : jsString -> result (list float)) (texts : list jsString)
    (batchSize i : Z) (embeddings : list EmbeddingResponse)
    (successCount errorCount : Z)
    : option (list EmbeddingResponse * Z * Z) :=
  match fuel with
  | O => None
  | S fuel' =>
      if i <? Z.of_nat (List.length texts) then
        let batch := slice texts i (i + batchSize) in
        let '(batchResults, successCount', errorCount') :=
          runBatch this embed batch successCount errorCount in
        batchLoop fuel' this embed texts batchSize (i + batchSize)
          (pushResults embeddings batchResults) successCount' errorCount'
      else Some (embeddings, successCount, errorCount)
  end.

(** [generateBatchEmbeddings(request)].  Nothing in its [try] block throws:
    the error of a text is caught in the callback.  With a positive batch
    size the loop makes at most [texts.length] rounds, and otherwise it
    never leaves when there is a text ([batchLoop_never_leaves]), so the
    fuel given decides nothing. *)
Definition generateBatchEmbeddings (this : Service)
    (embed : jsString -> result (list float)) (request_texts : list jsString)
    (request_batchSize : option Z) : option BatchEmbeddingResponse :=
  let batchSize := orDefaultZ request_batchSize (svc_batchSize this) in
  match batchLoop (S (List.length request_texts)) this embed request_texts
          batchSize 0 [] 0 0 with
  | Some (embeddings, successCount, errorCount) =>
      Some {| bat_embeddings := embeddings;
              bat_totalTexts := Z.of_nat (List.length request_texts);
              bat_successCount := successCount;
              bat_errorCount := errorCount |}
  | None => None
  end.

(** The responses of the texts [generateEmbedding] accepts, in the order of
    the texts. *)
Definition responsesOf (this : Service) (embed : jsString -> result (list float))
    (texts : list jsString) : list EmbeddingResponse :=
  flat_map (fun text => match generateEmbedding this embed text with
                        | Ok response => [response]
                        | Err _ => []
                        end) texts.

End EmbeddingBatches.

(** ** Reads of the vector store (FirestoreService.getDocument,
    getStatistics) *)

Module FirestoreReads.
Import Js Errors Model.
Local Open Scope Z_scope.

(** What the store answers to a read: its collections, or the error it
    raises.  The ids asked for are taken to be valid document paths, as the
    ids the store assigns and the ids a route parameter carries are. *)
Definition Store := result Db.

(** [getDocument(documentId)] *)
Definition getDocument (store : Store) (documentId : Id)
    : result (option StoredDocument) :=
  match store with
  | Ok db =>
      Ok (find (fun doc => String.eqb (sd_id doc) documentId) (knowledgeBase db))
  | Err e =>
      Err (RAGError "document_retrieval"
             (String.append "Failed to get document: " (messageOf e)))
  end.

Definition typeName (t : DocumentType) : String.string :=
  match t with
  | species => "species" | occurrence => "occurrence"
  | assessment => "assessment" | observation => "observation"
  | habitat => "habitat" | threat => "threat"
  end%string.

(** A [Record<string, number>] filled by assignment: its keys in the order
    in which they were first assigned. *)
Definition Breakdown := list (String.string * Z).

(** [breakdown[key] || 0] *)
Fixpoint countAt (breakdown : Breakdown) (key : String.string) : Z :=
  match breakdown with
  | [] => 0
  | (k, n) :: rest => if String.eqb k key then n else countAt rest key
  end.

(** [breakdown[key] = value] *)
Fixpoint assign (breakdown : Breakdown) (key : String.string) (value : Z)
    : Breakdown :=
  match breakdown with
  | [] => [(key, value)]
  | (k, n) :: rest =>
      if String.eqb k key then (k, value) :: rest
      else (k, n) :: assign rest key value
  end.

(** [breakdown[key] = (breakdown[key] || 0) + 1] *)
Definition tally (breakdown : Breakdown) (key : String.string) : Breakdown :=
  assign breakdown key (countAt breakdown key + 1).

Record Statistics := {
  totalDocuments : Z;
  totalEmbeddings : Z;
  sourceBreakdown : Breakdown;
  typeBreakdown : Breakdown
}.

(** [getStatistics()]: the two counts, and the breakdowns over the first
    1000 records of the [embeddings] collection.  The three reads are taken
    to see one state of the store. *)
Definition getStatistics (store : Store) : result Statistics :=
  match store with
  | Ok db =>
      let docs := firstn 1000 (embeddings db) in
      Ok {| totalDocuments := Z.of_nat (List.length (knowledgeBase db));
            totalEmbeddings := Z.of_nat (List.length (embeddings db));
            sourceBreakdown :=
              fold_left (fun breakdown data =>
                           tally breakdown (sourceName (md_source (se_metadata data))))
                docs [];
            typeBreakdown :=
              fold_left (fun breakdown data =>
                           tally breakdown (typeName (md_type (se_metadata data))))
                docs [] |}
  | Err e =>
      Err (RAGError "statistics"
             (String.append "Failed to get statistics: " (messageOf e)))
  end.

(** The sum of the counts of a breakdown. *)
Definition sumOfCounts (breakdown : Breakdown) : Z :=
  JsArray.sumOf snd breakdown.

(** *** The statistics route (routes/rag-routes.ts, GET /stats) *)

Record SourceCounts := {
  src_gbif : Z; src_iucn : Z; src_obis : Z; src_ebird : Z
}.

(** The body of the answer, without its [lastUpdated] time stamp. *)
Record StatsBody := {
  stats_totalDocuments : Z;
  stats_totalEmbeddings : Z;
  stats_sources : SourceCounts;
  stats_types : Breakdown;
  stats_status : String.string
}.

(** The answer of a route: the HTTP status and the body. *)
Inductive Reply (A : Type) :=
| Json (status : Z) (body : A)
| Failure (status : Z) (error message : String.string).
Arguments Json {A} status body.
Arguments Failure {A} status error message.

(** [router.get("/stats", ...)] *)
Definition statsRoute (store : Store) : Reply StatsBody :=
  match getStatistics store with
  | Ok stats =>
      Json 200
        {| stats_totalDocuments := totalDocuments stats;
           stats_totalEmbeddings := totalEmbeddings stats;
           stats_sources :=
             {| src_gbif := countAt (sourceBreakdown stats) "gbif";
                src_iucn := countAt (sourceBreakdown stats) "iucn";
                src_obis := countAt (sourceBreakdown stats) "obis";
                src_ebird := countAt (sourceBreakdown stats) "ebird" |};
           stats_types := typeBreakdown stats;
           stats_status := "active" |}
  | Err e => Failure 500 "Failed to get knowledge base stats" (messageOf e)
  end.

End FirestoreReads.

(** ** Queries on the jobs (IngestionService.getJobStatus, listJobs) *)

Module JobQueries.
Import Js Errors JsNumber Model FirestoreReads.
Local Open Scope Z_scope.

(** A job as the service returns it: the record with its id. *)
Definition Job := (Id * IngestionJobStatus)%type.

(** [getJobStatus(jobId)] *)
Definition getJobStatus (store : Store) (jobId : Id) : result (option Job) :=
  match store with
  | Ok db => Ok (option_map (pair jobId) (lookupJob (ingestionJobs db) jobId))
  | Err e =>
      Err (IngestionError "unknown"
             (String.append "Failed to get job status: " (messageOf e)))
  end.

Definition statusName (s : JobStatus) : String.string :=
  match s with
  | queued => "queued" | running => "running" | completed => "completed"
  | failed => "failed" | cancelled => "cancelled"
  end%string.

Record JobFilters := {
  jf_source : option String.string;
  jf_status : option String.string;
  jf_limit : option Z;
  jf_offset : option Z
}.

(** [if (filters?.field) query = query.where(field, "==", filters.field)]:
    the empty string is falsy and adds no clause. *)
Definition whereEquals (value : option String.string) (field : String.string)
    : bool :=
  match value with
  | None => true
  | Some v => if String.eqb v "" then true else String.eqb field v
  end.

Definition matchesJobFilters (filters : JobFilters) (job : Job) : bool :=
  whereEquals (jf_source filters) (sourceName (job_source (snd job)))
  && whereEquals (jf_status filters) (statusName (job_status (snd job))).

(** [orderBy("createdAt", "desc")]: the newest first, and among jobs of one
    instant the store orders by document id, in the same direction. *)
Definition newerFirst (a b : Job) : bool :=
  (job_createdAt (snd b) <? job_createdAt (snd a))
  || ((job_createdAt (snd a) =? job_createdAt (snd b))
      && String.ltb (fst b) (fst a)).

(** [offset(n)] and [limit(n)], added to the query only when [n] is truthy;
    the store rejects a negative number with [rejection]. *)
Definition offsetBy {A} (rejection : AppError) (offset : option Z) (l : list A)
    : result (list A) :=
  match offset with
  | None => Ok l
  | Some n =>
      if n =? 0 then Ok l
      else if n <? 0 then Err rejection
      else Ok (skipn (Z.to_nat n) l)
  end.

Definition limitTo {A} (rejection : AppError) (limit : option Z) (l : list A)
    : result (list A) :=
  match limit with
  | None => Ok l
  | Some n =>
      if n =? 0 then Ok l
      else if n <? 0 then Err rejection
      else Ok (firstn (Z.to_nat n) l)
  end.

Definition noFilters : JobFilters :=
  {| jf_source := None; jf_status := None; jf_limit := None; jf_offset := None |}.

(** The query [listJobs] builds, run on the collection. *)
Definition runJobsQuery (rejection : AppError) (filters : JobFilters)
    (jobs : list Job) : result (list Job) :=
  let matching := filter (matchesJobFilters filters) jobs in
  let ordered := JsArray.sortBy newerFirst matching in
  match offsetBy rejection (jf_offset filters) ordered with
  | Ok rest => limitTo rejection (jf_limit filters) rest
  | Err e => Err e
  end.

Record JobList := {
  jobs : list Job;
  total : Z
}.

(** [listJobs(filters)].  [rejection] is the error with which the store
    rejects a query that asks for a negative offset or limit; the indexes
    the query needs are taken to exist. *)
Definition listJobs (store : Store) (rejection : AppError)
    (filters : option JobFilters) : result JobList :=
  let wrap (e : AppError) :=
    IngestionError "unknown"
      (String.append "Failed to list jobs: " (messageOf e)) in
  match store with
  | Ok db =>
      let filters := match filters with Some f => f | None => noFilters end in
      match runJobsQuery rejection filters (ingestionJobs db) with
      | Ok found =>
          Ok {| jobs := found;
                total := Z.of_nat (List.length (ingestionJobs db)) |}
      | Err e => Err (wrap e)
      end
  | Err e => Err (wrap e)
  end.

(** *** The statistics route (routes/ingestion-routes.ts, GET /stats) *)

Record SourceStats := {
  ss_jobs : Z;
  ss_documents : Z
}.

Record LastIngestion := {
  last_jobId : Id;
  last_source : DataSource;
  last_completedAt : option Timestamp;
  last_documentsIngested : Z
}.

Record IngestionStats := {
  totalJobs : Z;
  activeJobs : Z;
  completedJobs : Z;
  failedJobs : Z;
  totalDocumentsIngested : Z;
  totalEmbeddingsCreated : Z;
  stats_gbif : SourceStats;
  stats_iucn : SourceStats;
  stats_obis : SourceStats;
  stats_ebird : SourceStats;
  lastIngestion : option LastIngestion
}.

Definition hasStatus (s : JobStatus) (job : Job) : bool :=
  IngestionService.statusEqb (job_status (snd job)) s.

Definition hasSource (s : DataSource) (job : Job) : bool :=
  FirestoreService.sourceEqb (job_source (snd job)) s.

(** [job.status === "completed" && job.results] *)
Definition completedWithResults (job : Job) : bool :=
  hasStatus completed job
  && match job_results (snd job) with Some _ => true | None => false end.

(** [job.results?.documentsIngested || 0] *)
Definition documentsOfJob (job : Job) : Z :=
  match job_results (snd job) with
  | Some results => documentsIngested results
  | None => 0
  end.

(** [job.results?.embeddingsCreated || 0] *)
Definition embeddingsOfJob (job : Job) : Z :=
  match job_results (snd job) with
  | Some results => embeddingsCreated results
  | None => 0
  end.

(** [job.completedAt?.toMillis() || 0] *)
Definition completedMillis (job : Job) : Z :=
  match job_completedAt (snd job) with
  | Some t => t
  | None => 0
  end.

(** [(a, b) => completedMillis(b) - completedMillis(a)] is negative. *)
Definition completedLater (a b : Job) : bool :=
  completedMillis b <? completedMillis a.

Definition sourceStatsOf (allJobs completedJobsWithResults : list Job)
    (s : DataSource) : SourceStats :=
  {| ss_jobs := JsArray.countOf (hasSource s) allJobs;
     ss_documents :=
       JsArray.sumOf documentsOfJob (filter (hasSource s) completedJobsWithResults) |}.

(** The body the route computes of the jobs listed. *)
Definition ingestionStats (allJobs : list Job) : IngestionStats :=
  let completedJobsWithResults := filter completedWithResults allJobs in
  {| totalJobs := Z.of_nat (List.length allJobs);
     activeJobs :=
       JsArray.countOf (fun job => hasStatus running job || hasStatus queued job)
         allJobs;
     completedJobs := JsArray.countOf (hasStatus completed) allJobs;
     failedJobs := JsArray.countOf (hasStatus failed) allJobs;
     totalDocumentsIngested := JsArray.sumOf documentsOfJob completedJobsWithResults;
     totalEmbeddingsCreated := JsArray.sumOf embeddingsOfJob completedJobsWithResults;
     stats_gbif := sourceStatsOf allJobs completedJobsWithResults gbif;
     stats_iucn := sourceStatsOf allJobs completedJobsWithResults iucn;
     stats_obis := sourceStatsOf allJobs completedJobsWithResults obis;
     stats_ebird := sourceStatsOf allJobs completedJobsWithResults ebird;
     lastIngestion :=
       match JsArray.sortBy completedLater completedJobsWithResults with
       | lastCompletedJob :: _ =>
           Some {| last_jobId := fst lastCompletedJob;
                   last_source := job_source (snd lastCompletedJob);
                   last_completedAt := job_completedAt (snd lastCompletedJob);
                   last_documentsIngested := documentsOfJob lastCompletedJob |}
       | [] => None
       end |}.

(** [router.get("/stats", ...)]: an error of [listJobs] goes to the error
    handler. *)
Definition ingestionStatsRoute (store : Store) (rejection : AppError)
    : result IngestionStats :=
  match listJobs store rejection
          (Some {| jf_source := None; jf_status := None;
                   jf_limit := Some 1000; jf_offset := None |}) with
  | Ok listed => Ok (ingestionStats (jobs listed))
  | Err e => Err e
  end.

End JobQueries.

(** ** The writes behind the counters of a job *)

Module WriteCounts.
Import Errors Model Task.
Local Open Scope Z_scope.

Definition isAddDocument (a : Action) : bool :=
  match a with AddDocument _ => true | _ => false end.

Definition isAddEmbedding (a : Action) : bool :=
  match a with AddEmbedding _ => true | _ => false end.

(** The documents and the embeddings a trace adds to the store. *)
Definition documentsWritten (trace : list Action) : Z :=
  JsArray.countOf isAddDocument trace.

Definition embeddingsWritten (trace : list Action) : Z :=
  JsArray.countOf isAddEmbedding trace.

(** A step of [storeDocumentsWithEmbeddings] that raises the two counters by
    what it writes, however it ends. *)
Definition tallies {A} (m : Task Results A) : Prop :=
  forall c,
    documentsIngested (localsOf (m c))
    = documentsIngested c + documentsWritten (traceOf (m c))
    /\ embeddingsCreated (localsOf (m c))
       = embeddingsCreated c + embeddingsWritten (traceOf (m c)).

(** The embeddings a document asks for: one for its content and one for
    each of its chunks. *)
Definition embeddingsOf (doc : ProcessedDocument) : Z :=
  1 + match pd_chunks doc with
      | Some chunks => Z.of_nat (List.length chunks)
      | None => 0
      end.

End WriteCounts.

(** ** What a job writes *)

Module JobWrites.
Import Model.
Local Open Scope Z_scope.

(** A write that leaves the records of the other jobs alone. *)
Definition ownWrite (jobId : Id) (a : Action) : Prop :=
  match a with
  | SetJob id _ | UpdateJob id _ => id = jobId
  | _ => True
  end.

(** The documents and the embeddings a trace adds, in their order. *)
Definition documentsAdded (trace : list Action) : list StoredDocument :=
  flat_map (fun a => match a with AddDocument document => [document] | _ => [] end)
    trace.

Definition embeddingsAdded (trace : list Action) : list StoredEmbedding :=
  flat_map (fun a => match a with AddEmbedding stored => [stored] | _ => [] end)
    trace.

(** A progress a client can show: [processed] between 0 and [total], and a
    percentage between 0 and 100. *)
Definition progressInRange (p : Progress) : Prop :=
  0 <= processed p <= total p /\ 0 <= percentage p <= 100.

(** A write that sets no progress, or one in range. *)
Definition keepsProgressInRange (a : Action) : Prop :=
  match a with
  | SetJob _ job => progressInRange (job_progress job)
  | UpdateJob _ updates =>
      match upd_progress updates with
      | Some p => progressInRange p
      | None => True
      end
  | _ => True
  end.

End JobWrites.

(** ** The error handler (utils/error-handler.ts) *)

Module ErrorHandler.
Import String.
Local Open Scope Z_scope.
Local Open Scope string_scope.

(** An instance of [AppError] or of one of its subclasses.  [app_stack] is
    the stack trace recorded when it was made. *)
Record AppError := {
  app_name : string;
  app_message : string;
  app_statusCode : Z;
  app_isOperational : bool;
  app_code : option string;
  app_stack : option string
}.

(** The [code] of an error that is not an [AppError]: a string or a
    number. *)
Inductive Code :=
| Named (code : string)
| Numbered (code : Z).

(** What reaches the handler. *)
Inductive Thrown :=
| AnAppError (e : AppError)
| AnotherError (name message : string) (code : option Code) (stack : option string).

(** [new AppError(message, statusCode, code)]; an [Error] is named "Error"
    until a subclass names it. *)
Definition newAppError (stack : option string) (message : string)
    (statusCode : Z) (code : option string) : AppError := {|
  app_name := "Error";
  app_message := message;
  app_statusCode := statusCode;
  app_isOperational := true;
  app_code := code;
  app_stack := stack
|}.

Definition named (name : string) (e : AppError) : AppError := {|
  app_name := name;
  app_message := app_message e;
  app_statusCode := app_statusCode e;
  app_isOperational := app_isOperational e;
  app_code := app_code e;
  app_stack := app_stack e
|}.

Definition withMessage (message : string) (e : AppError) : AppError := {|
  app_name := app_name e;
  app_message := message;
  app_statusCode := app_statusCode e;
  app_isOperational := app_isOperational e;
  app_code := app_code e;
  app_stack := app_stack e
|}.

(** [new ValidationError(message, field)]: an empty [field] is falsy. *)
Definition newValidationError (stack : option string) (message : string)
    (field : option string) : AppError :=
  let e := named "ValidationError"
             (newAppError stack message 400 (Some "VALIDATION_ERROR")) in
  match field with
  | None => e
  | Some f => if f =? "" then e else withMessage (f ++ ": " ++ message) e
  end.

Definition newNotFoundError (stack : option string) (resource : string) : AppError :=
  named "NotFoundError" (newAppError stack (resource ++ " not found") 404 (Some "NOT_FOUND")).

Definition newConflictError (stack : option string) (message : string) : AppError :=
  named "ConflictError" (newAppError stack message 409 (Some "CONFLICT")).

Definition newExternalServiceError (stack : option string) (service message : string)
    (statusCode : Z) : AppError :=
  named "ExternalServiceError"
    (newAppError stack (service ++ ": " ++ message) statusCode
       (Some "EXTERNAL_SERVICE_ERROR")).

Definition newRAGError (stack : option string) (operation message : string)
    (statusCode : Z) : AppError :=
  named "RAGError"
    (newAppError stack ("RAG " ++ operation ++ ": " ++ message) statusCode
       (Some "RAG_ERROR")).

Definition newIngestionError (stack : option string) (source message : string)
    (statusCode : Z) : AppError :=
  named "IngestionError"
    (newAppError stack ("Ingestion " ++ source ++ ": " ++ message) statusCode
       (Some "INGESTION_ERROR")).

(** [error.name], [error.message] and [(error as any).code] *)
Definition nameOf (error : Thrown) : string :=
  match error with
  | AnAppError e => app_name e
  | AnotherError name _ _ _ => name
  end.

Definition messageOfThrown (error : Thrown) : string :=
  match error with
  | AnAppError e => app_message e
  | AnotherError _ message _ _ => message
  end.

Definition codeOf (error : Thrown) : option Code :=
  match error with
  | AnAppError e => option_map Named (app_code e)
  | AnotherError _ _ code _ => code
  end.

(** The body of an error response; [details] is there in development only
    and holds the stack. *)
Record ErrorBody := {
  body_message : string;
  body_code : option string;
  body_statusCode : Z;
  body_timestamp : string;
  body_path : option string;
  body_details : option (option string)
}.

(** What the handler does with an error: it hands it to the next handler,
    or sends a response. *)
Inductive Handled :=
| Delegated (error : Thrown)
| Sent (status : Z) (body : ErrorBody).

(** The request and the process as the handler reads them: [NODE_ENV], the
    clock, the stack an error made now records, [res.headersSent] and
    [req.path]. *)
Record Context := {
  nodeEnv : option string;
  timestamp : string;
  stackNow : option string;
  headersSent : bool;
  path : string
}.

Definition isEnv (ctx : Context) (env : string) : bool :=
  match nodeEnv ctx with
  | Some e => e =? env
  | None => false
  end.

(** [sendErrorResponse(res, error, req)]; the handler always passes the
    request. *)
Definition sendErrorResponse (ctx : Context) (error : AppError) : Handled :=
  Sent (app_statusCode error)
    {| body_message := app_message error;
       body_code := app_code error;
       body_statusCode := app_statusCode error;
       body_timestamp := timestamp ctx;
       body_path := Some (path ctx);
       body_details :=
         if isEnv ctx "development" then Some (app_stack error) else None |}.

(** [handleOperationalError]: a warning is logged, and the response sent. *)
Definition handleOperationalError (ctx : Context) (error : AppError) : Handled :=
  sendErrorResponse ctx error.

(** [handleProgrammingError] *)
Definition handleProgrammingError (ctx : Context) (error : Thrown) : Handled :=
  let message :=
    if isEnv ctx "production" then "Internal server error"
    else messageOfThrown error in
  sendErrorResponse ctx (newAppError (stackNow ctx) message 500 (Some "INTERNAL_ERROR")).

(** [errorHandler(error, req, res, next)] *)
Definition errorHandler (ctx : Context) (error : Thrown) : Handled :=
  if headersSent ctx then Delegated error
  else
    match error with
    | AnAppError e =>
        if app_isOperational e then handleOperationalError ctx e
        else if nameOf error =? "ValidationError" then
          handleOperationalError ctx
            (newValidationError (stackNow ctx) (messageOfThrown error) None)
        else if nameOf error =? "CastError" then
          handleOperationalError ctx
            (newValidationError (stackNow ctx) "Invalid ID format" None)
        else if (nameOf error =? "MongoError")
                && match codeOf error with
                   | Some (Numbered 11000) => true
                   | _ => false
                   end then
          handleOperationalError ctx
            (newConflictError (stackNow ctx) "Duplicate field value")
        else handleProgrammingError ctx error
    | AnotherError _ _ _ _ =>
        if nameOf error =? "ValidationError" then
          handleOperationalError ctx
            (newValidationError (stackNow ctx) (messageOfThrown error) None)
        else if nameOf error =? "CastError" then
          handleOperationalError ctx
            (newValidationError (stackNow ctx) "Invalid ID format" None)
        else if (nameOf error =? "MongoError")
                && match codeOf error with
                   | Some (Numbered 11000) => true
                   | _ => false
                   end then
          handleOperationalError ctx
            (newConflictError (stackNow ctx) "Duplicate field value")
        else handleProgrammingError ctx error
    end.

(** An error of the services as an object: they throw [RAGError] and
    [IngestionError] with the default status; another error is a plain
    [Error]. *)
Definition thrownBy (stack : option string) (e : Errors.AppError) : Thrown :=
  match e with
  | Errors.RAGError operation message =>
      AnAppError (newRAGError stack operation message 500)
  | Errors.IngestionError source message =>
      AnAppError (newIngestionError stack source message 500)
  | Errors.ExternalError message => AnotherError "Error" message None stack
  end.

(** An error whose message the handler passes on as it is. *)
Definition passesMessageOn (error : Thrown) : bool :=
  match error with
  | AnAppError e => app_isOperational e
  | AnotherError _ _ _ _ => false
  end
  || (nameOf error =? "ValidationError").

(** An error the handler answers with a message of its own choice. *)
Definition isRecognised (error : Thrown) : bool :=
  passesMessageOn error
  || (nameOf error =? "CastError")
  || ((nameOf error =? "MongoError")
      && match codeOf error with
         | Some (Numbered 11000) => true
         | _ => false
         end).

End ErrorHandler.

(** ** The job routes (routes/ingestion-routes.ts) *)

Module JobRoutes.
Import Js Errors JsNumber Model FirestoreReads JobQueries.
Local Open Scope Z_scope.

(** The body of [GET /job/:jobId]: the job and the duration of its run.
    The instants of the job are left as they are stored, where the route
    writes them as ISO strings. *)
Record JobBody := {
  jb_job : Job;
  jb_duration : option Z
}.

(** The body of [DELETE /job/:jobId], without its time stamp. *)
Record CancelBody := {
  cb_jobId : Id;
  cb_status : String.string;
  cb_message : String.string
}.

(** The answer of a route: a response of its own, or what the error handler
    makes of the error it lets through. *)
Inductive Answer (A : Type) :=
| Replied (status : Z) (body : A)
| NotFound (status : Z) (error : String.string) (jobId : Id)
| Failed (handled : ErrorHandler.Handled).
Arguments Replied {A} status body.
Arguments NotFound {A} status error jobId.
Arguments Failed {A} handled.

(** [router.get("/job/:jobId", ...)] *)
Definition getJobRoute (ctx : ErrorHandler.Context) (stack : option String.string)
    (store : Store) (jobId : Id) : Answer JobBody :=
  match getJobStatus store jobId with
  | Ok (Some jobStatus) =>
      Replied 200
        {| jb_job := jobStatus;
           jb_duration :=
             match job_completedAt (snd jobStatus), job_startedAt (snd jobStatus) with
             | Some completedAt, Some startedAt => Some (completedAt - startedAt)
             | _, _ => None
             end |}
  | Ok None => NotFound 404 "Job not found" jobId
  | Err e => Failed (ErrorHandler.errorHandler ctx (ErrorHandler.thrownBy stack e))
  end.

(** [router.delete("/job/:jobId", ...)], on a store in state [db]. *)
Definition cancelJobRoute (ctx : ErrorHandler.Context) (stack : option String.string)
    (w : World) (db : Db) (jobId : Id) : Db * Answer CancelBody :=
  let '(db', outcome) := IngestionService.cancelJob w db jobId in
  (db',
   match outcome with
   | Ok _ =>
       Replied 200
         {| cb_jobId := jobId; cb_status := "cancelled";
            cb_message := "Job cancellation requested" |}
   | Err e => Failed (ErrorHandler.errorHandler ctx (ErrorHandler.thrownBy stack e))
   end).

End JobRoutes.

(** ** More sample data *)

Module Scenarios.
Import Js Errors JsNumber Model.
Local Open Scope Z_scope.

(** A job that asks for chunks of 100 code units and leaves the overlap to
    the configuration, where it is 200. *)
Definition smallChunksJob : IngestionJobConfig := {|
  cfg_source := gbif;
  cfg_parameters := {| par_species := None; par_country := None; par_limit := None |};
  cfg_options := Some {| opt_chunkSize := Some 100; opt_chunkOverlap := None;
                         opt_batchSize := None;
                         opt_generateEmbeddings := None |}
|}.

(** A job that asks for batches of -1 documents. *)
Definition negativeBatchJob : IngestionJobConfig := {|
  cfg_source := gbif;
  cfg_parameters := {| par_species := None; par_country := None; par_limit := None |};
  cfg_options := Some {| opt_chunkSize := None; opt_chunkOverlap := None;
                         opt_batchSize := Some (-1);
                         opt_generateEmbeddings := None |}
|}.

(** A document with two chunks. *)
Definition chunkedDocument : ProcessedDocument := {|
  pd_content := ofString "Scientific Name: Panthera onca";
  pd_metadata := Samples.jaguarMetadata;
  pd_chunks := Some [ofString "Scientific Name: "; ofString "Panthera onca"]
|}.

(** An embedder that refuses the empty text and a text of more than 8192
    code units. *)
Definition pickyEmbedder (text : jsString) : result (list float) :=
  if (0 <? length text) && (length text <=? 8192) then Ok [1%float]
  else Err (ExternalError "The text is empty or too long").

Definition jobOf (source : DataSource) (status : JobStatus) (createdAt : Timestamp)
    (results : option Results) (completedAt : option Timestamp)
    : IngestionJobStatus := {|
  job_source := source;
  job_status := status;
  job_progress := {| phase := fetching; processed := 0; total := 0; percentage := 0 |};
  job_results := results;
  job_config := Samples.gbifJob;
  job_createdAt := createdAt;
  job_startedAt := None;
  job_completedAt := completedAt;
  job_error := None
|}.

(** A store with four jobs, created at the instants 1, 2, 3 and 4. *)
Definition fourJobs : Db := {|
  ingestionJobs :=
    [("gbif_1"%string,
      jobOf gbif completed 1
        (Some {| documentsIngested := 5; embeddingsCreated := 5; errors := 0 |})
        (Some 10));
     ("iucn_2"%string, jobOf iucn cancelled 2 None (Some 11));
     ("gbif_3"%string,
      jobOf gbif completed 3
        (Some {| documentsIngested := 7; embeddingsCreated := 9; errors := 1 |})
        (Some 12));
     ("obis_4"%string, jobOf obis running 4 None None)];
  knowledgeBase := [];
  embeddings := []
|}.

Definition completedJobs (limit offset : option Z) : JobQueries.JobFilters := {|
  JobQueries.jf_source := None;
  JobQueries.jf_status := Some "completed"%string;
  JobQueries.jf_limit := limit;
  JobQueries.jf_offset := offset
|}.

Definition anyJobs (limit offset : option Z) : JobQueries.JobFilters := {|
  JobQueries.jf_source := None;
  JobQueries.jf_status := None;
  JobQueries.jf_limit := limit;
  JobQueries.jf_offset := offset
|}.

(** A request for a job, served in production. *)
Definition inProduction : ErrorHandler.Context := {|
  ErrorHandler.nodeEnv := Some "production"%string;
  ErrorHandler.timestamp := "2024-05-01T12:00:00.000Z"%string;
  ErrorHandler.stackNow := Some "Error: at handleProgrammingError"%string;
  ErrorHandler.headersSent := false;
  ErrorHandler.path := "/job/job-7"%string
|}.

(** A [TypeError] of the runtime. *)
Definition typeError : ErrorHandler.Thrown :=
  ErrorHandler.AnotherError "TypeError"
    "Cannot read properties of undefined (reading 'toDate')" None
    (Some "TypeError: at /app/dist/routes/ingestion-routes.js:98:41")%string.

End Scenarios.

(* ================================================================= *)
(** * Part II: properties *)
(* ================================================================= *)

Section ChunkTextProperties.
Import Js Chunker.
Local Open Scope Z_scope.

Lemma substring_inside (s : jsString) (a b : Z) :
  0 <= a <= b -> b <= length s ->
  substring s a b = firstn (Z.to_nat (b - a)) (skipn (Z.to_nat a) s).
Proof.
  intros Hab Hb. unfold substring, clamp.
  replace (Z.min (Z.max 0 (Z.min a (length s))) (Z.max 0 (Z.min b (length s))))
    with a by lia.
  replace (Z.max (Z.max 0 (Z.min a (length s))) (Z.max 0 (Z.min b (length s))))
    with b by lia.
  reflexivity.
Qed.

Lemma chunkText_loop_acc fuel text S O start acc :
  chunkText_loop fuel text S O start acc
  = option_map (app acc) (chunkText_loop fuel text S O start []).
Proof.
  revert start acc. induction fuel as [|fuel IH]; intros start acc; simpl.
  - reflexivity.
  - destruct (start <? length text).
    + destruct (Z.min (start + S) (length text) =? length text).
      * reflexivity.
      * rewrite IH. rewrite (IH _ [_]).
        destruct (chunkText_loop fuel text S O _ []); simpl; auto.
        now rewrite <- app_assoc.
    + simpl. now rewrite app_nil_r.
Qed.

Lemma chunkText_loop_step fuel text S O start acc :
  chunkText_loop (Datatypes.S fuel) text S O start acc =
  if start <? length text then
    let end_ := Z.min (start + S) (length text) in
    if end_ =? length text then Some (acc ++ [substring text start end_])
    else chunkText_loop fuel text S O (end_ - O)
           (acc ++ [substring text start end_])
  else Some acc.
Proof. reflexivity. Qed.

(** More fuel never changes the outcome of a loop that has left. *)
Lemma chunkText_loop_fuel_mono fuel text S O start acc r :
  chunkText_loop fuel text S O start acc = Some r ->
  chunkText_loop (Datatypes.S fuel) text S O start acc = Some r.
Proof.
  revert start acc. induction fuel as [|fuel IH]; intros start acc H.
  - discriminate.
  - rewrite chunkText_loop_step in H. rewrite chunkText_loop_step.
    destruct (start <? length text); auto.
    cbv zeta in *.
    destruct (Z.min (start + S) (length text) =? length text); auto.
Qed.

Lemma firstn_skipn_glue {A} (l : list A) (a b : nat) :
  (a <= b)%nat ->
  firstn (b - a) (skipn a l) ++ skipn b l = skipn a l.
Proof.
  intros Hab. replace b with ((b - a) + a)%nat at 2 by lia.
  rewrite <- skipn_skipn. apply firstn_skipn.
Qed.

Lemma skipn_firstn_skipn {A} (l : list A) (a o s : nat) :
  (o <= s)%nat ->
  skipn o (firstn s (skipn a l)) = firstn (s - o) (skipn (a + o) l).
Proof.
  intros Hos. rewrite (Nat.add_comm a o), <- skipn_skipn.
  rewrite skipn_firstn_comm. f_equal.
Qed.

Variable text : jsString.
Variables S O : Z.
Hypothesis HO : 0 <= O < S.

Let L := length text.
Let d := S - O.

Lemma loop_from_start :
  forall (n : nat) (fuel : nat) (start : Z),
    0 <= start -> start + O < L -> L - start - O <= Z.of_nat n * d ->
    (n <= fuel)%nat ->
    exists cs,
      chunkText_loop fuel text S O start [] = Some cs
      /\ Z.of_nat (List.length cs) = ceilDiv (L - start - O) d
      /\ (forall i, (i < List.length cs)%nat ->
            nth i cs [] = window text S (start + Z.of_nat i * d))
      /\ concat (map (skipn (Z.to_nat O)) cs) = skipn (Z.to_nat (start + O)) text.
Proof.
  assert (HLlen : L = Z.of_nat (List.length text)) by reflexivity.
  induction n as [|n IH]; intros fuel start H0 HL Hn Hf.
  - lia.
  - destruct fuel as [|fuel]; [lia|].
    rewrite chunkText_loop_step. cbv zeta. fold L.
    destruct (Z.ltb_spec start L) as [_|Hge]; [|lia].
    destruct (Z.eqb_spec (Z.min (start + S) L) L) as [He|Hne].
    + (* the window reaches the end of the text: this is the last chunk *)
      exists [substring text start (Z.min (start + S) L)].
      split; [reflexivity|]. split; [|split].
      * unfold ceilDiv. simpl List.length.
        change (Z.of_nat 1) with 1.
        apply Z.div_unique with (r := L - start - O - 1); unfold d in *; lia.
      * intros [|i] Hi; [|simpl in Hi; lia]. simpl. unfold window.
        fold L; f_equal; lia.
      * simpl. rewrite app_nil_r, He.
        rewrite substring_inside by (fold L; lia).
        rewrite firstn_all2 by (rewrite length_skipn; lia).
        rewrite skipn_skipn. f_equal. lia.
    + (* otherwise the next window starts [d] further on *)
      assert (Hend : Z.min (start + S) L = start + S) by lia.
      rewrite Hend.
      destruct (IH fuel (start + S - O)) as (cs & Hcs & Hlen & Hnth & Hcat);
        try (unfold d in *; lia).
      rewrite chunkText_loop_acc, Hcs. simpl option_map.
      exists (substring text start (start + S) :: cs).
      split; [reflexivity|]. split; [|split].
      * simpl List.length. rewrite Nat2Z.inj_succ, Hlen. unfold ceilDiv.
        replace (L - start - O + d - 1) with ((L - (start + S - O) - O + d - 1) + 1 * d)
          by (unfold d; lia).
        rewrite Z.div_add by (unfold d; lia). lia.
      * intros [|i] Hi.
        -- simpl. unfold window. fold L. f_equal; lia.
        -- simpl in Hi. simpl nth. rewrite Hnth by lia. f_equal.
           unfold d. lia.
      * simpl. rewrite Hcat.
        rewrite substring_inside by (fold L; lia).
        rewrite skipn_firstn_skipn by lia.
        replace (Z.to_nat (start + S - O + O)) with (Z.to_nat (start + S)) by (f_equal; lia).
        replace (Z.to_nat (start + S - start) - Z.to_nat O)%nat
          with (Z.to_nat (start + S) - Z.to_nat (start + O))%nat by lia.
        replace (Z.to_nat start + Z.to_nat O)%nat with (Z.to_nat (start + O)) by lia.
        apply firstn_skipn_glue. lia.
Qed.

(** The loop from the start of a text longer than one chunk. *)
Lemma chunkText_long :
  S < L ->
  exists chunks,
    chunkText text S O = Some chunks
    /\ Z.of_nat (List.length chunks) = ceilDiv (L - O) (S - O)
    /\ (forall i, (i < List.length chunks)%nat ->
          nth i chunks [] = window text S (Z.of_nat i * (S - O)))
    /\ removeOverlaps O chunks = text.
Proof.
  intros HSL. unfold chunkText.
  destruct (loop_from_start (List.length text) (Datatypes.S (List.length text)) 0)
    as (cs & Hcs & Hlen & Hnth & Hcat); try (unfold d, L, length in *; nia).
  exists cs. split; [exact Hcs|].
  split; [rewrite Hlen; f_equal; lia|].
  split; [intros i Hi; rewrite (Hnth i Hi); f_equal; unfold d; lia|].
  destruct cs as [|c0 rest].
  - exfalso. simpl in Hlen. unfold ceilDiv in Hlen.
    assert (0 < (L - 0 - O + d - 1) / d); [|lia].
    apply Z.div_str_pos. unfold d. lia.
  - assert (Hc0 : c0 = firstn (Z.to_nat S) text).
    { specialize (Hnth 0%nat ltac:(simpl; lia)). simpl in Hnth.
      rewrite Hnth. unfold window. fold L.
      rewrite substring_inside by (fold L; lia).
      simpl. f_equal. lia. }
    simpl in Hcat |- *.
    rewrite <- (firstn_skipn (Z.to_nat O) c0) at 1.
    rewrite <- app_assoc, Hcat.
    rewrite Hc0, firstn_firstn.
    replace (Init.Nat.min (Z.to_nat O) (Z.to_nat S)) with (Z.to_nat O) by lia.
    replace (Z.to_nat (0 + O)) with (Z.to_nat O) by (f_equal; lia).
    apply firstn_skipn.
Qed.

End ChunkTextProperties.

(** The fuel [chunkText] gives its loop decides nothing: a loop that leaves
  at all leaves within [text.length + 1] rounds. *)
Section ChunkTextFuel.
Import Js Chunker.
Local Open Scope Z_scope.

Variable text : jsString.
Variables S O : Z.

Lemma chunkText_loop_more_fuel fuel fuel' start acc r :
  (fuel <= fuel')%nat ->
  chunkText_loop fuel text S O start acc = Some r ->
  chunkText_loop fuel' text S O start acc = Some r.
Proof.
  induction 1 as [|m Hle IH]; intros H; auto.
  apply chunkText_loop_fuel_mono; auto.
Qed.

(** With an overlap that eats the whole chunk the window never advances. *)
Lemma chunkText_loop_stuck fuel start acc :
  S <= O -> S < length text -> 0 < length text -> start <= 0 ->
  chunkText_loop fuel text S O start acc = None.
Proof.
  intros HSO HSL HL. revert start acc.
  induction fuel as [|fuel IH]; intros start acc Hstart; [reflexivity|].
  rewrite chunkText_loop_step. cbv zeta.
  destruct (Z.ltb_spec start (length text)); [|lia].
  destruct (Z.eqb_spec (Z.min (start + S) (length text)) (length text)); [lia|].
  apply IH. lia.
Qed.

Lemma chunkText_loop_leaves n : forall fuel start acc,
  O < S -> 0 <= start -> length text - start <= Z.of_nat n -> (n < fuel)%nat ->
  exists r, chunkText_loop fuel text S O start acc = Some r.
Proof.
  induction n as [|n IH]; intros fuel start acc HOS H0 Hn Hf;
    (destruct fuel as [|fuel]; [lia|]);
    rewrite chunkText_loop_step; cbv zeta.
  - destruct (Z.ltb_spec start (length text)); [lia|eauto].
  - destruct (Z.ltb_spec start (length text)); [|eauto].
    destruct (Z.eqb_spec (Z.min (start + S) (length text)) (length text)); [eauto|].
    apply IH; lia.
Qed.

Lemma chunkText_fuel_adequate fuel r :
  chunkText_loop fuel text S O 0 [] = Some r -> chunkText text S O = Some r.
Proof.
  intros H. unfold chunkText.
  destruct (Z_lt_le_dec O S) as [HOS|HSO].
  - destruct (chunkText_loop_leaves (List.length text)
                (Datatypes.S (List.length text)) 0 []) as [r' Hr'];
      try (unfold length; lia).
    rewrite Hr'. f_equal.
    pose proof (chunkText_loop_more_fuel _ (Nat.max fuel (Datatypes.S (List.length text)))
                  _ _ _ (Nat.le_max_l _ _) H) as H1.
    pose proof (chunkText_loop_more_fuel _ (Nat.max fuel (Datatypes.S (List.length text)))
                  _ _ _ (Nat.le_max_r _ _) Hr') as H2.
    congruence.
  - destruct (Z_lt_le_dec S (length text)) as [HSL|HLS].
    + destruct (Z_lt_le_dec 0 (length text)) as [HL|HL].
      * rewrite chunkText_loop_stuck in H by lia. discriminate.
      * destruct fuel as [|fuel]; [discriminate|].
        rewrite chunkText_loop_step in H |- *.
        destruct (Z.ltb_spec 0 (length text)); [lia|assumption].
    + destruct fuel as [|fuel]; [discriminate|].
      rewrite chunkText_loop_step in H |- *. cbv zeta in *.
      destruct (0 <? length text); auto.
      destruct (Z.eqb_spec (Z.min (0 + S) (length text)) (length text)); [auto|lia].
Qed.

End ChunkTextFuel.

Section ChunkingClaim.
Import Js Chunker Model Task IngestionService.
Local Open Scope Z_scope.

(** C2.  For a text longer than the chunk size [S] and an overlap [O] with
    [0 <= O < S], [chunkText] returns the sliding-window chunks: chunk [i]
    starts at [i * (S - O)] and holds [min(S, remaining)] code units, there
    are [ceil((L - O) / (S - O))] of them, and the first chunk followed by
    the other chunks without their first [O] code units is the text again.
    A document no longer than [S] is left without chunks. *)
Theorem chunkText_sliding_window (text : jsString) (S O : Z) :
  0 <= O < S ->
  (S < length text ->
   exists chunks,
     chunkText text S O = Some chunks
     /\ Z.of_nat (List.length chunks) = ceilDiv (length text - O) (S - O)
     /\ (forall i, (i < List.length chunks)%nat ->
           nth i chunks [] = window text S (Z.of_nat i * (S - O)))
     /\ removeOverlaps O chunks = text)
  /\ (length text <= S ->
      forall (doc : ProcessedDocument) (documents : list ProcessedDocument),
        pd_content doc = text ->
        chunkIfTooLong doc S O documents = ([], documents, Returns doc)).
Proof.
  intros HO. split.
  - intros HSL. apply chunkText_long; assumption.
  - intros HLS doc documents Hdoc. unfold chunkIfTooLong. rewrite Hdoc.
    destruct (Z.gtb_spec (length text) S); [lia|reflexivity].
Qed.

Lemma chunkText_sliding_window_witness :
  0 <= 1 < 4
  /\ 4 < length (ofString "abcdefghij")
  /\ chunkText (ofString "abcdefghij") 4 1
     = Some (map ofString ["abcd"; "defg"; "ghij"]%string)
  /\ exists chunks,
       chunkText (ofString "abcdefghij") 4 1 = Some chunks
       /\ Z.of_nat (List.length chunks)
          = ceilDiv (length (ofString "abcdefghij") - 1) (4 - 1)
       /\ (forall i, (i < List.length chunks)%nat ->
            nth i chunks []
            = window (ofString "abcdefghij") 4 (Z.of_nat i * (4 - 1)))
       /\ removeOverlaps 1 chunks = ofString "abcdefghij".
Proof.
  split; [lia|]. split; [reflexivity|]. split; [reflexivity|].
  apply (chunkText_sliding_window (ofString "abcdefghij") 4 1); [lia|reflexivity].
Defined.

End ChunkingClaim.

(** ** The embedding service *)

Section TrimProperties.
Import Js.

Lemma trimStart_nil_iff (s : jsString) :
  trimStart s = [] <-> forallb isWhiteSpace s = true.
Proof.
  induction s as [|c s IH]; simpl.
  - tauto.
  - destruct (isWhiteSpace c); simpl; [exact IH|].
    split; discriminate.
Qed.

Lemma trimStart_all_blank (s : jsString) :
  forallb isWhiteSpace (trimStart s) = true -> trimStart s = [].
Proof.
  induction s as [|c s IH]; simpl; auto.
  destruct (isWhiteSpace c) eqn:Hc; auto.
  simpl. rewrite Hc. discriminate.
Qed.

Lemma forallb_rev {A} (f : A -> bool) (l : list A) :
  forallb f (rev l) = forallb f l.
Proof.
  induction l as [|x l IH]; simpl; auto.
  rewrite forallb_app, IH. simpl. rewrite andb_true_r. apply andb_comm.
Qed.

(** [text.trim().length === 0] holds exactly of the texts made of white
    space only. *)
Lemma trim_empty_iff (s : jsString) :
  (length (trim s) =? 0)%Z = true <-> forallb isWhiteSpace s = true.
Proof.
  rewrite Z.eqb_eq. unfold length, trim, trimEnd.
  rewrite <- trimStart_nil_iff.
  split.
  - intros H.
    assert (Hnil : rev (trimStart (rev (trimStart s))) = []).
    { destruct (rev (trimStart (rev (trimStart s)))); [reflexivity|discriminate]. }
    apply (f_equal (@rev _)) in Hnil. rewrite rev_involutive in Hnil. simpl in Hnil.
    apply trimStart_nil_iff in Hnil. rewrite forallb_rev in Hnil.
    apply trimStart_all_blank. exact Hnil.
  - intros ->. reflexivity.
Qed.

End TrimProperties.

Section GenerateEmbeddingClaim.
Import Js Errors JsNumber EmbeddingService.
Local Open Scope Z_scope.

Variable config : Config.Rag.
Variable embed : jsString -> result (list float).

(** Every failure of [generateEmbedding] is a [RAGError]. *)
Lemma generateEmbedding_throws_RAGError (request_text : jsString) (e : AppError) :
  generateEmbedding (new config) embed request_text = Err e -> isRAGError e = true.
Proof.
  unfold generateEmbedding.
  destruct (length request_text =? 0); [intros [= <-]; reflexivity|].
  destruct (length (trim request_text) =? 0); [intros [= <-]; reflexivity|].
  destruct (embed _) as [v|e0]; [discriminate|].
  destruct (isRAGError e0) eqn:He0; intros [= <-]; auto.
Qed.

(** C7.  [generateEmbedding] fails with a [RAGError] on an empty text and on
    a text of white space only.  A text longer than 8192 code units (that is
    not white space only) is not rejected for its length: the embedder is
    given its first 8192 code units, and the [text] of the response is this
    truncated string. *)
Theorem generateEmbedding_validates_and_truncates (request_text : jsString) :
  (forallb isWhiteSpace request_text = true ->
   exists message,
     generateEmbedding (new config) embed request_text
     = Err (RAGError "embedding" message))
  /\ (8192 < length request_text ->
      forallb isWhiteSpace request_text = false ->
      forall vector,
        embed (firstn (Z.to_nat 8192) request_text) = Ok vector ->
        exists response,
          generateEmbedding (new config) embed request_text = Ok response
          /\ text response = firstn (Z.to_nat 8192) request_text
          /\ text response <> request_text
          /\ embedding response = vector).
Proof.
  split.
  - intros Hblank. unfold generateEmbedding.
    destruct (length request_text =? 0); [simpl; eauto|].
    apply trim_empty_iff in Hblank. rewrite Hblank. simpl. eauto.
  - intros Hlong Hnot vector Hembed. unfold generateEmbedding.
    destruct (Z.eqb_spec (length request_text) 0) as [|_]; [lia|].
    destruct (length (trim request_text) =? 0) eqn:Htrim.
    { apply trim_empty_iff in Htrim. congruence. }
    simpl svc_maxTextLength.
    destruct (Z.gtb_spec (length request_text) 8192) as [_|]; [|lia].
    assert (Hsub : substring request_text 0 8192
                   = firstn (Z.to_nat 8192) request_text).
    { rewrite substring_inside by lia. reflexivity. }
    rewrite Hsub, Hembed. eexists. split; [reflexivity|]. cbn [text embedding].
    repeat split; auto.
    intros Heq. apply (f_equal (@List.length _)) in Heq.
    rewrite length_firstn in Heq. unfold length in Hlong. lia.
Qed.

End GenerateEmbeddingClaim.

Lemma generateEmbedding_validates_and_truncates_witness :
  (exists message,
     EmbeddingService.generateEmbedding (EmbeddingService.new Config.defaults)
       Samples.constantEmbedder Samples.blankText
     = Errors.Err (Errors.RAGError "embedding" message))
  /\ (exists response,
        EmbeddingService.generateEmbedding (EmbeddingService.new Config.defaults)
          Samples.constantEmbedder Samples.longText = Errors.Ok response
        /\ EmbeddingService.text response = firstn (Z.to_nat 8192) Samples.longText
        /\ EmbeddingService.text response <> Samples.longText
        /\ EmbeddingService.embedding response = [1%float]).
Proof.
  split.
  - apply (proj1 (generateEmbedding_validates_and_truncates Config.defaults
                    Samples.constantEmbedder Samples.blankText)).
    reflexivity.
  - apply (proj2 (generateEmbedding_validates_and_truncates Config.defaults
                    Samples.constantEmbedder Samples.longText)).
    + vm_compute. reflexivity.
    + vm_compute. reflexivity.
    + reflexivity.
Defined.

Section ValidateEmbeddingClaim.
Import Js Errors JsNumber EmbeddingService.
Local Open Scope Z_scope.

(** As the specification words the claim, [validateEmbedding] would hold
    exactly of the arrays of the configured length whose elements are all
    finite numbers.  It does not: an array that holds [Infinity] passes. *)
Lemma validateEmbedding_accepts_infinity :
  ~ (forall (this : Service) (v : JsValue),
       validateEmbedding this v = true <->
       exists items,
         v = VArray items
         /\ Z.of_nat (List.length items) = svc_dimensions this
         /\ forallb isFiniteNumber items = true).
Proof.
  intros Hspec.
  pose (this := {| svc_model := "m"; svc_dimensions := 1;
                   svc_maxTextLength := 8192; svc_batchSize := 100 |}).
  destruct (proj1 (Hspec this (VArray [Some (ENumber infinity)])) eq_refl)
    as (items & Hv & _ & Hfin).
  injection Hv as <-. vm_compute in Hfin. discriminate.
Qed.

(** Nor does an element have to be there: the array [new Array(768)], whose
    768 indices are all holes, passes at the configured dimension. *)
Lemma validateEmbedding_accepts_sparse_array :
  validateEmbedding (new Config.defaults) (VArray (repeat None 768)) = true.
Proof. vm_compute. reflexivity. Qed.

(** C8, as the code has it.  [validateEmbedding] holds exactly of the arrays
    of the configured length in which every element the array holds is a
    number other than NaN; the infinities pass, and so does an index that
    holds nothing. *)
Theorem validateEmbedding_iff (this : Service) (v : JsValue) :
  validateEmbedding this v = true <->
  exists items,
    v = VArray items
    /\ Z.of_nat (List.length items) = svc_dimensions this
    /\ Forall (fun slot =>
                 slot = None
                 \/ exists x, slot = Some (ENumber x) /\ is_nan x = false) items.
Proof.
  unfold validateEmbedding, every. split.
  - destruct v as [items|other]; [|discriminate].
    destruct (Z.eqb_spec (Z.of_nat (List.length items)) (svc_dimensions this));
      simpl; [|discriminate].
    intros Hall. exists items. repeat split; auto.
    rewrite forallb_forall in Hall. apply Forall_forall. intros slot Hslot.
    specialize (Hall slot Hslot). destruct slot as [el|]; [|now left].
    destruct el; simpl in Hall; try discriminate.
    right. exists x. split; auto. now apply negb_true_iff.
  - intros (items & -> & Hlen & Hall).
    rewrite Hlen, Z.eqb_refl. simpl.
    apply forallb_forall. intros slot Hslot.
    rewrite Forall_forall in Hall.
    destruct (Hall slot Hslot) as [->|(x & -> & Hx)]; [reflexivity|].
    simpl. now rewrite Hx.
Qed.

End ValidateEmbeddingClaim.

(** ** Binary64 arithmetic *)

Section FloatFacts.
Local Open Scope float_scope.

Lemma SFmul_comm prec emax x y : SFmul prec emax x y = SFmul prec emax y x.
Proof.
  destruct x as [sx|sx| |sx mx ex], y as [sy|sy| |sy my ey]; simpl;
    try reflexivity; try (now rewrite xorb_comm).
  now rewrite xorb_comm, Pos.mul_comm, Z.add_comm.
Qed.

Lemma float_mul_comm (x y : float) : x * y = y * x.
Proof. apply Prim2SF_inj. rewrite !mul_spec. apply SFmul_comm. Qed.

Ltac split_compare :=
  repeat match goal with
  | H : context [Z.compare ?a ?b] |- _ => destruct (Z.compare_spec a b); simpl in H
  | |- context [Z.compare ?a ?b] => destruct (Z.compare_spec a b); simpl
  | H : context [Pos.compare_cont Eq ?a ?b] |- _ =>
      change (Pos.compare_cont Eq a b) with (Pos.compare a b) in H;
      destruct (Pos.compare_spec a b); simpl in H
  | |- context [Pos.compare_cont Eq ?a ?b] =>
      change (Pos.compare_cont Eq a b) with (Pos.compare a b);
      destruct (Pos.compare_spec a b); simpl
  end.

Lemma SFleb_trans x y z :
  SFleb x y = true -> SFleb y z = true -> SFleb x z = true.
Proof.
  unfold SFleb, SFcompare.
  destruct x as [[]|[]| |[] mx ex], y as [[]|[]| |[] my ey], z as [[]|[]| |[] mz ez];
    simpl; try discriminate; try reflexivity; intros H1 H2;
    split_compare; try discriminate; try reflexivity; try lia.
Qed.

Lemma float_leb_trans x y z :
  (x <=? y) = true -> (y <=? z) = true -> (x <=? z) = true.
Proof. rewrite !leb_spec. apply SFleb_trans. Qed.

Lemma SFltb_false_leb x y :
  SFcompare x x <> None -> SFcompare y y <> None ->
  SFltb x y = false -> SFleb y x = true.
Proof.
  unfold SFleb, SFltb, SFcompare.
  destruct x as [[]|[]| |[] mx ex], y as [[]|[]| |[] my ey];
    simpl; try discriminate; try reflexivity; try congruence; intros _ _ H;
    split_compare; try discriminate; try reflexivity; try lia.
Qed.

Lemma SFleb_not_nan x y :
  SFleb x y = true -> SFcompare x x <> None /\ SFcompare y y <> None.
Proof.
  unfold SFleb, SFcompare.
  destruct x as [[]|[]| |[] mx ex], y as [[]|[]| |[] my ey]; simpl;
    try discriminate; split; discriminate.
Qed.

(** Two numbers each of which is comparable to something are comparable to
    each other. *)
Lemma float_ltb_false_leb t x y :
  (t <=? x) = true -> (t <=? y) = true -> (x <? y) = false -> (y <=? x) = true.
Proof.
  rewrite !leb_spec, ltb_spec. intros Hx Hy.
  apply SFltb_false_leb.
  - apply (SFleb_not_nan _ _ Hx).
  - apply (SFleb_not_nan _ _ Hy).
Qed.

Lemma float_ltb_leb x y : (x <? y) = true -> (x <=? y) = true.
Proof.
  rewrite leb_spec, ltb_spec. unfold SFltb, SFleb.
  destruct (SFcompare _ _) as [[]|]; auto.
Qed.

(** The shape of a zero and of a finite number. *)
Lemma float_eqb_zero (x : float) :
  (x =? 0) = true -> exists s, Prim2SF x = S754_zero s.
Proof.
  rewrite eqb_spec. change (Prim2SF 0) with (S754_zero false).
  unfold SFeqb, SFcompare.
  destruct (Prim2SF x) as [s|s| |s m e]; simpl; eauto;
    try (destruct s); discriminate.
Qed.

Lemma float_zero_eqb (x : float) s :
  Prim2SF x = S754_zero s -> (x =? 0) = true.
Proof.
  intros H. rewrite eqb_spec, H. reflexivity.
Qed.

Lemma float_finite_shape (x : float) :
  is_finite x = true ->
  (exists s, Prim2SF x = S754_zero s)
  \/ (exists s m e, Prim2SF x = S754_finite s m e).
Proof.
  unfold is_finite, is_nan, is_infinity.
  rewrite negb_true_iff, orb_false_iff, negb_false_iff.
  rewrite !eqb_spec, abs_spec.
  change (Prim2SF infinity) with (S754_infinity false).
  destruct (Prim2SF x) as [s|s| |s m e]; simpl; intros [H1 H2]; eauto.
  - discriminate.
  - discriminate.
Qed.

(** A zero times a finite number is a zero. *)
Lemma float_zero_mul_finite (x y : float) :
  (x =? 0) = true -> is_finite y = true -> (x * y =? 0) = true.
Proof.
  intros Hx Hy. destruct (float_eqb_zero x Hx) as [sx Hsx].
  destruct (float_finite_shape y Hy) as [[sy Hsy]|(sy & m & e & Hsy)];
    apply (float_zero_eqb _ (xorb sx sy)); rewrite mul_spec, Hsx, Hsy; reflexivity.
Qed.

Lemma float_finite_mul_zero (x y : float) :
  is_finite x = true -> (y =? 0) = true -> (x * y =? 0) = true.
Proof.
  intros Hx Hy. rewrite float_mul_comm. now apply float_zero_mul_finite.
Qed.

(** The square of a zero, added to [+0], is [+0]. *)
Lemma float_add_square_zero (x : float) :
  (x =? 0) = true -> 0 + x * x = 0.
Proof.
  intros Hx. destruct (float_eqb_zero x Hx) as [s Hs].
  apply Prim2SF_inj. rewrite add_spec, mul_spec, Hs.
  destruct s; reflexivity.
Qed.

End FloatFacts.

(** ** Rounding to nearest, ties to even *)

Section NearestEven.
Import JsNumber Binary64.
Local Open Scope Z_scope.




Lemma digits2_size (m : positive) : digits2_pos m = Pos.size m.
Proof. induction m; simpl; congruence. Qed.

Lemma digits_bounds (m : positive) :
  2 ^ (Zpos (digits2_pos m) - 1) <= Zpos m < 2 ^ Zpos (digits2_pos m).
Proof.
  rewrite digits2_size. split.
  - pose proof (Pos.size_le m) as H.
    assert (H' : (2 ^ Pos.size m <= 2 * m)%positive) by exact H.
    apply Pos2Z.pos_le_pos in H'. rewrite Pos2Z.inj_mul, Pos2Z.inj_pow in H'.
    replace (Zpos (Pos.size m)) with (Zpos (Pos.size m) - 1 + 1) in H' by lia.
    rewrite Z.pow_add_r in H' by lia. lia.
  - pose proof (Pos.size_gt m) as H.
    apply Pos2Z.pos_lt_pos in H. now rewrite Pos2Z.inj_pow in H.
Qed.

Ltac divmod := Z.div_mod_to_equations; lia.

Lemma shr_1_recOf (n d : Z) :
  0 <= n -> 0 < d -> shr_1 (recOf n d) = recOf n (2 * d).
Proof.
  intros Hn Hd. unfold recOf, locOf.
  assert (Hq : n / (2 * d) = n / d / 2) by (rewrite Z.mul_comm; now rewrite Z.div_div by lia).
  assert (Hr : n mod (2 * d) = n mod d + d * ((n / d) mod 2))
    by (rewrite (Z.mul_comm 2 d); apply Z.rem_mul_r; lia).
  pose proof (Z.mod_pos_bound n d Hd) as Hrd.
  pose proof (Z.div_pos n d Hn Hd) as Hqpos.
  rewrite Hq, Hr.
  destruct (n / d) as [|[q|q|]|q] eqn:Hquot; try lia.
  - (* quotient 0 *)
    change (0 / 2) with 0. change (0 mod 2) with 0. rewrite Z.mul_0_r, Z.add_0_r.
    destruct (Z.eqb_spec (n mod d) 0) as [Heq|Hne]; [reflexivity|].
    destruct (Z.compare_spec (2 * (n mod d)) d);
      destruct (Z.compare_spec (2 * (n mod d)) (2 * d)); try lia; reflexivity.
  - (* quotient 2q+1 *)
    replace (Z.pos q~1 / 2) with (Z.pos q) by (rewrite Pos2Z.inj_xI; divmod).
    replace (Z.pos q~1 mod 2) with 1 by (rewrite Pos2Z.inj_xI; divmod).
    rewrite Z.mul_1_r.
    destruct (Z.eqb_spec (n mod d + d) 0); [lia|].
    destruct (Z.eqb_spec (n mod d) 0) as [Heq|Hne].
    + rewrite Heq, Z.add_0_l, Z.compare_refl. reflexivity.
    + destruct (Z.compare_spec (2 * (n mod d)) d);
        destruct (Z.compare_spec (2 * (n mod d + d)) (2 * d)); try lia; reflexivity.
  - (* quotient 2q *)
    replace (Z.pos q~0 / 2) with (Z.pos q) by (rewrite Pos2Z.inj_xO; divmod).
    replace (Z.pos q~0 mod 2) with 0 by (rewrite Pos2Z.inj_xO; divmod).
    rewrite Z.mul_0_r, Z.add_0_r.
    destruct (Z.eqb_spec (n mod d) 0) as [Heq|Hne]; [reflexivity|].
    destruct (Z.compare_spec (2 * (n mod d)) d);
      destruct (Z.compare_spec (2 * (n mod d)) (2 * d)); try lia; reflexivity.
  - (* quotient 1 *)
    change (1 / 2) with 0. change (1 mod 2) with 1. rewrite Z.mul_1_r.
    destruct (Z.eqb_spec (n mod d + d) 0); [lia|].
    destruct (Z.eqb_spec (n mod d) 0) as [Heq|Hne].
    + rewrite Heq, Z.add_0_l, Z.compare_refl. reflexivity.
    + destruct (Z.compare_spec (2 * (n mod d)) d);
        destruct (Z.compare_spec (2 * (n mod d + d)) (2 * d)); try lia; reflexivity.
Qed.

Lemma pow2_xO (p : positive) : 2 ^ Zpos p~0 = 2 ^ Zpos p * 2 ^ Zpos p.
Proof.
  replace (Zpos p~0) with (Zpos p + Zpos p) by lia. now rewrite Z.pow_add_r by lia.
Qed.

Lemma pow2_xI (p : positive) : 2 ^ Zpos p~1 = 2 * (2 ^ Zpos p * 2 ^ Zpos p).
Proof.
  replace (Zpos p~1) with (1 + (Zpos p + Zpos p)) by lia.
  now rewrite !Z.pow_add_r by lia.
Qed.

Lemma iter_shr_1_recOf (p : positive) : forall n d,
  0 <= n -> 0 < d -> SpecFloat.iter_pos shr_1 p (recOf n d) = recOf n (2 ^ Zpos p * d).
Proof.
  induction p as [p IH|p IH|]; intros n d Hn Hd; simpl SpecFloat.iter_pos.
  - assert (Hpow : 0 < 2 ^ Zpos p) by (apply Z.pow_pos_nonneg; lia).
    rewrite shr_1_recOf, IH, IH by nia. f_equal. rewrite pow2_xI. ring.
  - assert (Hpow : 0 < 2 ^ Zpos p) by (apply Z.pow_pos_nonneg; lia).
    rewrite IH, IH by nia. f_equal. rewrite pow2_xO. ring.
  - now rewrite shr_1_recOf.
Qed.

(** Shifting [k] places to the right divides by [2 ^ k]. *)
Lemma shr_recOf (n d e k : Z) :
  0 <= n -> 0 < d ->
  shr (recOf n d) e k = (recOf n (2 ^ Z.max k 0 * d), e + Z.max k 0).
Proof.
  intros Hn Hd. unfold shr. destruct k as [|p|p].
  - simpl Z.max. rewrite Z.mul_1_l, Z.add_0_r. reflexivity.
  - rewrite iter_shr_1_recOf by assumption.
    replace (Z.max (Zpos p) 0) with (Zpos p) by lia. reflexivity.
  - replace (Z.max (Zneg p) 0) with 0 by lia.
    rewrite Z.mul_1_l, Z.add_0_r. reflexivity.
Qed.

Lemma shr_m_recOf (n d : Z) : shr_m (recOf n d) = n / d.
Proof. unfold recOf, locOf. destruct (_ =? 0); [reflexivity|]. now destruct (_ ?= _). Qed.

Lemma loc_recOf (n d : Z) : loc_of_shr_record (recOf n d) = locOf (n mod d) d.
Proof. unfold recOf, locOf. destruct (_ =? 0); [reflexivity|]. now destruct (_ ?= _). Qed.

Lemma recOf_exact (m : Z) : shr_record_of_loc m loc_Exact = recOf m 1.
Proof. unfold recOf, locOf. now rewrite Z.div_1_r, Z.mod_1_r. Qed.

(** ** The nearest integer *)

Lemma nearestEven_cases (n d : Z) :
  0 < d ->
  let q := n / d in
  let r := n mod d in
  (2 * r < d /\ nearestEven n d = q)
  \/ (2 * r = d /\ nearestEven n d = if Z.even q then q else q + 1)
  \/ (d < 2 * r /\ nearestEven n d = q + 1).
Proof.
  intros Hd q r. unfold nearestEven, locOf. fold q r.
  pose proof (Z.mod_pos_bound n d Hd) as Hr. fold r in Hr.
  destruct (Z.eqb_spec r 0) as [Hz|Hnz].
  - left. split; [lia|reflexivity].
  - cbn [round_nearest_even]. destruct (Z.compare_spec (2 * r) d); auto.
Qed.

Lemma nearestEven_near (n d : Z) :
  0 < d ->
  (2 * nearestEven n d - 1) * d <= 2 * n <= (2 * nearestEven n d + 1) * d.
Proof.
  intros Hd. pose proof (Z.div_mod n d ltac:(lia)) as Hn.
  pose proof (Z.mod_pos_bound n d Hd) as Hr.
  destruct (nearestEven_cases n d Hd) as [[H ->]|[[H ->]|[H ->]]];
    try destruct (Z.even (n / d)); nia.
Qed.

Lemma nearestEven_exact (m d : Z) : 0 < d -> nearestEven (m * d) d = m.
Proof.
  intros Hd. unfold nearestEven, locOf.
  rewrite Z.div_mul, Z.mod_mul by lia. reflexivity.
Qed.

Lemma nearestEven_scale (k n d : Z) :
  0 < k -> 0 < d -> nearestEven (k * n) (k * d) = nearestEven n d.
Proof.
  intros Hk Hd. unfold nearestEven, locOf.
  rewrite Z.div_mul_cancel_l, Z.mul_mod_distr_l by lia.
  destruct (Z.eqb_spec (n mod d) 0) as [Hz|Hnz].
  - rewrite Hz, Z.mul_0_r. reflexivity.
  - destruct (Z.eqb_spec (k * (n mod d)) 0); [nia|].
    replace (2 * (k * (n mod d))) with (k * (2 * (n mod d))) by ring.
    now rewrite <- Zmult_compare_compat_l by lia.
Qed.

Lemma nearestEven_mono_numerator (n n' d : Z) :
  0 < d -> n <= n' -> nearestEven n d <= nearestEven n' d.
Proof.
  intros Hd Hle.
  pose proof (Z.div_mod n d ltac:(lia)) as Hn.
  pose proof (Z.div_mod n' d ltac:(lia)) as Hn'.
  pose proof (Z.mod_pos_bound n d Hd) as Hr.
  pose proof (Z.mod_pos_bound n' d Hd) as Hr'.
  assert (Hq : n / d <= n' / d) by (apply Z.div_le_mono; lia).
  destruct (Z.eq_dec (n / d) (n' / d)) as [Heq|Hne].
  - destruct (nearestEven_cases n d Hd) as [[H ->]|[[H ->]|[H ->]]];
      destruct (nearestEven_cases n' d Hd) as [[H' ->]|[[H' ->]|[H' ->]]];
      rewrite <- ?Heq; try destruct (Z.even (n / d)); try lia; nia.
  - destruct (nearestEven_cases n d Hd) as [[H ->]|[[H ->]|[H ->]]];
      destruct (nearestEven_cases n' d Hd) as [[H' ->]|[[H' ->]|[H' ->]]];
      try destruct (Z.even (n / d)); try destruct (Z.even (n' / d)); lia.
Qed.

(** The nearest integer is monotone in the fraction. *)
Lemma nearestEven_mono (n d n' d' : Z) :
  0 < d -> 0 < d' -> n * d' <= n' * d ->
  nearestEven n d <= nearestEven n' d'.
Proof.
  intros Hd Hd' Hle.
  rewrite <- (nearestEven_scale d' n d), <- (nearestEven_scale d n' d') by assumption.
  rewrite (Z.mul_comm d d').
  apply nearestEven_mono_numerator; nia.
Qed.

End NearestEven.

(** ** Rounding to a binary64 number *)

Section Binary64Rounding.
Import JsNumber Binary64.
Local Open Scope Z_scope.

(** The least exponent of binary64 is -1074; a number of [g] digits before
    the binary point is kept to the exponent [fexp g]. *)
Lemma fexp_binary64 (g : Z) : fexp prec emax g = Z.max (g - 53) (-1074).
Proof. reflexivity. Qed.

Lemma Zdigits2_bounds (z : Z) :
  0 < z -> 2 ^ (Zdigits2 z - 1) <= z < 2 ^ Zdigits2 z.
Proof.
  intros Hz. destruct z as [|m|m]; try lia. apply digits_bounds.
Qed.

Lemma Zdigits2_nonneg (z : Z) : 0 <= Zdigits2 z.
Proof. destruct z; simpl; lia. Qed.

Lemma Zdigits2_pos (z : Z) : 0 < z -> 0 < Zdigits2 z.
Proof. destruct z; simpl; lia. Qed.

Lemma Zdigits2_unique (z g : Z) :
  2 ^ (g - 1) <= z < 2 ^ g -> 0 < z -> Zdigits2 z = g.
Proof.
  intros [Hlo Hhi] Hz. destruct (Zdigits2_bounds z Hz) as [Hlo' Hhi'].
  pose proof (Zdigits2_pos z Hz) as Hpos.
  assert (Hg : 0 < g).
  { destruct (Z_lt_le_dec 0 g) as [|Hneg]; [assumption|].
    exfalso. destruct (Z.eq_dec g 0) as [->|Hne].
    - simpl in Hhi. lia.
    - rewrite (Z.pow_neg_r 2 g) in Hhi by lia. lia. }
  destruct (Z.lt_trichotomy (Zdigits2 z) g) as [Hlt|[Heq|Hgt]]; [|assumption|].
  - exfalso. assert (2 ^ Zdigits2 z <= 2 ^ (g - 1)) by (apply Z.pow_le_mono_r; lia). lia.
  - exfalso. assert (2 ^ g <= 2 ^ (Zdigits2 z - 1)) by (apply Z.pow_le_mono_r; lia). lia.
Qed.

(** What [binary_round_aux] computes from a fraction [n / d] at exponent
    [ex], when the first shift is to the right. *)
Lemma binary_round_aux_shape (n d ex : Z) :
  0 <= n -> 0 < d ->
  let k1 := fexp prec emax (Zdigits2 (n / d) + ex) - ex in
  0 <= k1 ->
  let m1 := nearestEven n (2 ^ k1 * d) in
  let e1 := ex + k1 in
  let k2 := Z.max (fexp prec emax (Zdigits2 m1 + e1) - e1) 0 in
  binary_round_aux prec emax false (n / d) ex (locOf (n mod d) d)
  = match m1 / 2 ^ k2 with
    | 0 => S754_zero false
    | Zpos m =>
        if e1 + k2 <=? 971 then S754_finite false m (e1 + k2) else S754_infinity false
    | Zneg _ => S754_nan
    end.
Proof.
  intros Hn Hd k1 Hk1 m1 e1 k2. unfold binary_round_aux, shr_fexp.
  fold (recOf n d). fold k1. rewrite shr_recOf by assumption.
  replace (Z.max k1 0) with k1 by lia. fold e1.
  rewrite shr_m_recOf, loc_recOf.
  assert (Hpow : 0 < 2 ^ k1 * d)
    by (apply Z.mul_pos_pos; [apply Z.pow_pos_nonneg; lia|assumption]).
  change (round_nearest_even (n / (2 ^ k1 * d)) (locOf (n mod (2 ^ k1 * d)) (2 ^ k1 * d)))
    with (nearestEven n (2 ^ k1 * d)).
  fold m1. rewrite recOf_exact.
  assert (Hm1 : 0 <= m1).
  { unfold m1. pose proof (Z.div_pos n (2 ^ k1 * d) Hn Hpow).
    destruct (nearestEven_cases n (2 ^ k1 * d) Hpow) as [[_ ->]|[[_ ->]|[_ ->]]];
      try destruct (Z.even _); lia. }
  rewrite shr_recOf by lia. fold k2. rewrite shr_m_recOf, Z.mul_1_r.
  reflexivity.
Qed.





Lemma mantissa_bounds (n d ex : Z) :
  0 <= n -> 0 < d ->
  let k1 := fexp prec emax (Zdigits2 (n / d) + ex) - ex in
  0 <= k1 ->
  let m1 := nearestEven n (2 ^ k1 * d) in
  let e1 := ex + k1 in
  -1074 <= e1 /\ 0 <= m1 <= 2 ^ 53 /\ (-1074 < e1 -> 2 ^ 52 <= m1).
Proof.
  intros Hn Hd k1 Hk1 m1 e1.
  assert (HP : 0 < 2 ^ k1) by (apply Z.pow_pos_nonneg; lia).
  assert (Hpow : 0 < 2 ^ k1 * d) by (apply Z.mul_pos_pos; assumption).
  assert (He1 : e1 = Z.max (Zdigits2 (n / d) + ex - 53) (-1074))
    by (unfold e1, k1; rewrite fexp_binary64; lia).
  assert (Hquot : n / (2 ^ k1 * d) = n / d / 2 ^ k1)
    by (rewrite (Z.mul_comm (2 ^ k1) d); now rewrite Z.div_div by lia).
  assert (Hnear : n / d / 2 ^ k1 <= m1 <= n / d / 2 ^ k1 + 1).
  { rewrite <- Hquot. unfold m1.
    destruct (nearestEven_cases n (2 ^ k1 * d) Hpow) as [[_ ->]|[[_ ->]|[_ ->]]];
      try destruct (Z.even _); lia. }
  pose proof (Z.div_pos n d Hn Hd) as Hmx.
  pose proof (Z.div_pos (n / d) (2 ^ k1) Hmx HP) as Hm'.
  pose proof (Z.mul_div_le (n / d) (2 ^ k1) HP) as Hfloor.
  pose proof (Z.mul_succ_div_gt (n / d) (2 ^ k1) HP) as Hceil.
  split; [lia|].
  destruct (Z.eq_dec (n / d) 0) as [Hzero|Hnz].
  - rewrite Hzero in *. rewrite Z.div_0_l in Hnear by lia.
    assert (H53 : 1 <= 2 ^ 53) by (vm_compute; discriminate).
    split; [lia|]. intros Hnormal. simpl Zdigits2 in He1. lia.
  - assert (Hpos : 0 < n / d) by lia.
    destruct (Zdigits2_bounds (n / d) Hpos) as [Hlo Hhi].
    pose proof (Zdigits2_pos (n / d) Hpos) as Hdx.
    set (dx := Zdigits2 (n / d)) in *.
    assert (Hk1' : dx - 53 <= k1) by lia.
    split.
    + (* below 2^53 *)
      assert (Hle : 2 ^ dx <= 2 ^ 53 * 2 ^ k1).
      { rewrite <- Z.pow_add_r by lia. apply Z.pow_le_mono_r; lia. }
      assert (n / d / 2 ^ k1 < 2 ^ 53) by nia. lia.
    + intros Hnormal.
      assert (Hk : k1 = dx - 53) by lia.
      assert (Heq : 2 ^ (dx - 1) = 2 ^ 52 * 2 ^ k1).
      { rewrite <- Z.pow_add_r by lia. f_equal. lia. }
      assert (2 ^ 52 <= n / d / 2 ^ k1).
      { apply Z.div_le_lower_bound; [assumption|]. lia. }
      lia.
Qed.

Lemma pow2_pos (k : Z) : 0 <= k -> 0 < 2 ^ k.
Proof. intros. apply Z.pow_pos_nonneg; lia. Qed.

(** The number [binary_round_aux] ends with, for a mantissa [m1] that is in
    range for its exponent [e1]. *)
Lemma rounded_result (m1 e1 : Z) :
  -1074 <= e1 -> 0 <= m1 <= 2 ^ 53 -> (-1074 < e1 -> 2 ^ 52 <= m1) ->
  let k2 := Z.max (fexp prec emax (Zdigits2 m1 + e1) - e1) 0 in
  let f := match m1 / 2 ^ k2 with
           | 0 => S754_zero false
           | Zpos m =>
               if e1 + k2 <=? 971 then S754_finite false m (e1 + k2)
               else S754_infinity false
           | Zneg _ => S754_nan
           end in
  valid_binary f = true
  /\ notNegative f = true
  /\ rank f = Z.min (m1 * 2 ^ (e1 + 1074)) top.
Proof.
  intros He1 Hm1 Hnormal k2 f.
  assert (HE : 0 < 2 ^ (e1 + 1074)) by (apply pow2_pos; lia).
  destruct (Z.eq_dec m1 0) as [Hzero|Hnz].
  - (* zero *)
    subst f k2. rewrite Hzero. rewrite Z.div_0_l by (apply Z.pow_nonzero; lia).
    split; [reflexivity|]. split; [reflexivity|]. unfold rank.
    assert (0 < top) by (vm_compute; reflexivity). lia.
  - assert (Hpos : 0 < m1) by lia.
    destruct (Zdigits2_bounds m1 Hpos) as [Hlo Hhi].
    pose proof (Zdigits2_pos m1 Hpos) as Hdm.
    destruct (Z.eq_dec m1 (2 ^ 53)) as [Hfull|Hless].
    + (* the mantissa was rounded up to 2^53 *)
      assert (Hd : Zdigits2 m1 = 54) by (rewrite Hfull; reflexivity).
      assert (Hk2 : k2 = 1) by (unfold k2; rewrite Hd, fexp_binary64; lia).
      subst f. rewrite Hk2, Hfull. change (2 ^ 53 / 2 ^ 1) with (Zpos (2 ^ 52)).
      cbv iota.
      assert (Hrank : Zpos (2 ^ 52) * 2 ^ (e1 + 1 + 1074) = 2 ^ 53 * 2 ^ (e1 + 1074)).
      { replace (e1 + 1 + 1074) with (1 + (e1 + 1074)) by lia.
        rewrite Z.pow_add_r by lia. change (2 ^ 1) with 2.
        change (2 ^ 53) with (Zpos (2 ^ 52) * 2). ring. }
      destruct (Z.leb_spec (e1 + 1) 971) as [Hfit|Hover].
      * split.
        { simpl. unfold SpecFloat.bounded, SpecFloat.canonical_mantissa.
          change (Zpos (digits2_pos (2 ^ 52))) with 53.
          rewrite fexp_binary64.
          change (emax - prec) with 971.
          apply andb_true_iff. split; [apply Z.eqb_eq; lia|apply Z.leb_le; lia]. }
        split; [reflexivity|]. unfold rank. rewrite Hrank.
        assert (2 ^ 53 * 2 ^ (e1 + 1074) < top).
        { unfold top. rewrite <- Z.pow_add_r by lia. apply Z.pow_lt_mono_r; lia. }
        lia.
      * split; [reflexivity|]. split; [reflexivity|]. unfold rank.
        assert (top <= 2 ^ 53 * 2 ^ (e1 + 1074)).
        { unfold top. rewrite <- Z.pow_add_r by lia. apply Z.pow_le_mono_r; lia. }
        lia.
    + (* the mantissa fits *)
      assert (Hlt : m1 < 2 ^ 53) by lia.
      assert (Hd : Zdigits2 m1 <= 53).
      { destruct (Z_le_gt_dec (Zdigits2 m1) 53) as [|Hgt]; [assumption|].
        exfalso. assert (2 ^ 53 <= 2 ^ (Zdigits2 m1 - 1)) by (apply Z.pow_le_mono_r; lia).
        lia. }
      assert (Hcanon : fexp prec emax (Zdigits2 m1 + e1) = e1).
      { rewrite fexp_binary64.
        destruct (Z.eq_dec e1 (-1074)) as [->|Hne]; [lia|].
        assert (H52 : 2 ^ 52 <= m1) by (apply Hnormal; lia).
        assert (Zdigits2 m1 = 53); [|lia].
        apply Zdigits2_unique; [|assumption]. change (53 - 1) with 52. lia. }
      assert (Hk2 : k2 = 0) by (unfold k2; rewrite Hcanon; lia).
      subst f. rewrite Hk2. change (2 ^ 0) with 1. rewrite Z.div_1_r, Z.add_0_r.
      destruct m1 as [|m|m]; try lia.
      destruct (Z.leb_spec e1 971) as [Hfit|Hover].
      * split.
        { simpl. unfold SpecFloat.bounded, SpecFloat.canonical_mantissa.
          change (Zpos (digits2_pos m)) with (Zdigits2 (Zpos m)). rewrite Hcanon.
          change (emax - prec) with 971.
          apply andb_true_iff. split; [apply Z.eqb_refl|apply Z.leb_le; lia]. }
        split; [reflexivity|]. unfold rank.
        assert (Zpos m * 2 ^ (e1 + 1074) < top).
        { unfold top. change 2098 with (53 + 2045).
          rewrite (Z.pow_add_r 2 53 2045) by lia.
          assert (Hexp : 2 ^ (e1 + 1074) <= 2 ^ 2045) by (apply Z.pow_le_mono_r; lia).
          apply Z.le_lt_trans with (Zpos m * 2 ^ 2045).
          - apply Z.mul_le_mono_nonneg_l; [lia|exact Hexp].
          - apply Z.mul_lt_mono_pos_r; [apply pow2_pos; lia|exact Hlt]. }
        lia.
      * split; [reflexivity|]. split; [reflexivity|]. unfold rank.
        assert (H52 : 2 ^ 52 <= Zpos m) by (apply Hnormal; lia).
        assert (top <= Zpos m * 2 ^ (e1 + 1074)).
        { unfold top. change 2098 with (52 + 2046).
          rewrite (Z.pow_add_r 2 52 2046) by lia.
          assert (Hexp : 2 ^ 2046 <= 2 ^ (e1 + 1074)) by (apply Z.pow_le_mono_r; lia).
          apply Z.le_trans with (Zpos m * 2 ^ 2046).
          - apply Z.mul_le_mono_nonneg_r; [apply Z.lt_le_incl, pow2_pos; lia|exact H52].
          - apply Z.mul_le_mono_nonneg_l; [lia|exact Hexp]. }
        lia.
Qed.

(** The value of [binary_round_aux], when no place is lost to a shift to the
    left. *)
Lemma binary_round_aux_rank (n d ex : Z) :
  0 <= n -> 0 < d ->
  let k1 := fexp prec emax (Zdigits2 (n / d) + ex) - ex in
  0 <= k1 ->
  let f := binary_round_aux prec emax false (n / d) ex (locOf (n mod d) d) in
  valid_binary f = true
  /\ notNegative f = true
  /\ rank f = Z.min (nearestEven n (2 ^ k1 * d) * 2 ^ (ex + k1 + 1074)) top.
Proof.
  intros Hn Hd k1 Hk1 f. subst f.
  rewrite (binary_round_aux_shape n d ex Hn Hd Hk1).
  destruct (mantissa_bounds n d ex Hn Hd Hk1) as (He1 & Hm1 & Hnormal).
  pose proof (rounded_result _ _ He1 Hm1 Hnormal) as H. cbv zeta in H.
  exact H.
Qed.


Lemma Zdigits2_mono (x y : Z) : 0 <= x <= y -> Zdigits2 x <= Zdigits2 y.
Proof.
  intros [Hx Hxy]. destruct (Z.eq_dec x 0) as [->|Hnz]; [apply Zdigits2_nonneg|].
  destruct (Zdigits2_bounds x ltac:(lia)) as [Hlo _].
  destruct (Zdigits2_bounds y ltac:(lia)) as [_ Hhi].
  destruct (Z_le_gt_dec (Zdigits2 x) (Zdigits2 y)) as [|Hgt]; [assumption|].
  exfalso.
  assert (2 ^ Zdigits2 y <= 2 ^ (Zdigits2 x - 1))
    by (apply Z.pow_le_mono_r; pose proof (Zdigits2_nonneg y); lia).
  lia.
Qed.

Lemma div_le_cross (a b a' b' : Z) :
  0 <= a -> 0 < b -> 0 < b' -> a * b' <= a' * b -> a / b <= a' / b'.
Proof.
  intros Ha Hb Hb' Hle.
  apply Z.div_le_lower_bound; [assumption|].
  pose proof (Z.mul_div_le a b Hb).
  pose proof (Z.div_pos a b Ha Hb).
  nia.
Qed.

Lemma nearestEven_le (n d m : Z) : 0 < d -> n <= m * d -> nearestEven n d <= m.
Proof.
  intros Hd Hle. rewrite <- (nearestEven_exact m d Hd).
  now apply nearestEven_mono_numerator.
Qed.

Lemma nearestEven_ge (n d m : Z) : 0 < d -> m * d <= n -> m <= nearestEven n d.
Proof.
  intros Hd Hle. rewrite <- (nearestEven_exact m d Hd) at 1.
  now apply nearestEven_mono_numerator.
Qed.

(** A number of [g] digits is rounded to no more than [2 ^ g]. *)
Lemma nearest64_le_pow (a b : Z) :
  0 <= a -> 0 < b -> nearest64 a b <= 2 ^ Zdigits2 (a / b).
Proof.
  intros Ha Hb. unfold nearest64.
  pose proof (Z.div_pos a b Ha Hb) as Hq.
  pose proof (Zdigits2_nonneg (a / b)) as Hg.
  set (g := Zdigits2 (a / b)) in *. set (j := Z.max (g - 53) 0).
  assert (Hj : 0 < 2 ^ j) by (apply pow2_pos; lia).
  assert (Hlt : a < 2 ^ g * b).
  { assert (a / b < 2 ^ g).
    { destruct (Z.eq_dec (a / b) 0) as [Hz|Hnz].
      - rewrite Hz. apply pow2_pos. lia.
      - apply Zdigits2_bounds. lia. }
    pose proof (Z.mul_succ_div_gt a b Hb). nia. }
  assert (Hsplit : 2 ^ g = 2 ^ (g - j) * 2 ^ j).
  { rewrite <- Z.pow_add_r by lia. f_equal. lia. }
  rewrite Hsplit. apply Z.mul_le_mono_nonneg_r; [lia|].
  apply nearestEven_le; [nia|]. rewrite Hsplit in Hlt. nia.
Qed.

(** A number of [g] digits, [g] more than 53, is rounded to no less than
    [2 ^ (g - 1)]. *)
Lemma nearest64_ge_pow (a b : Z) :
  0 <= a -> 0 < b -> 53 < Zdigits2 (a / b) ->
  2 ^ (Zdigits2 (a / b) - 1) <= nearest64 a b.
Proof.
  intros Ha Hb Hg. unfold nearest64.
  pose proof (Z.div_pos a b Ha Hb) as Hq.
  set (g := Zdigits2 (a / b)) in *.
  replace (Z.max (g - 53) 0) with (g - 53) by lia.
  assert (Hj : 0 < 2 ^ (g - 53)) by (apply pow2_pos; lia).
  assert (Hpos : 0 < a / b).
  { destruct (Z.eq_dec (a / b) 0) as [Hz|]; [|lia].
    unfold g in Hg. rewrite Hz in Hg. simpl in Hg. lia. }
  destruct (Zdigits2_bounds (a / b) Hpos) as [Hlo _]. fold g in Hlo.
  assert (Hge : 2 ^ (g - 1) * b <= a).
  { pose proof (Z.mul_div_le a b Hb). nia. }
  assert (Hsplit : 2 ^ (g - 1) = 2 ^ 52 * 2 ^ (g - 53)).
  { rewrite <- Z.pow_add_r by lia. f_equal. lia. }
  rewrite Hsplit. apply Z.mul_le_mono_nonneg_r; [lia|].
  apply nearestEven_ge; [nia|]. rewrite Hsplit in Hge. nia.
Qed.

(** Rounding is monotone. *)
Lemma nearest64_mono (a b a' b' : Z) :
  0 <= a -> 0 < b -> 0 < b' -> a * b' <= a' * b ->
  nearest64 a b <= nearest64 a' b'.
Proof.
  intros Ha Hb Hb' Hle.
  assert (Ha' : 0 <= a') by nia.
  pose proof (div_le_cross a b a' b' Ha Hb Hb' Hle) as Hq.
  pose proof (Z.div_pos a b Ha Hb) as Hq0.
  pose proof (Zdigits2_mono (a / b) (a' / b') (conj Hq0 Hq)) as Hg.
  destruct (Z.eq_dec (Z.max (Zdigits2 (a / b) - 53) 0) (Z.max (Zdigits2 (a' / b') - 53) 0))
    as [Heq|Hne].
  - unfold nearest64. rewrite <- Heq.
    set (j := Z.max (Zdigits2 (a / b) - 53) 0).
    assert (Hj : 0 < 2 ^ j) by (apply pow2_pos; lia).
    apply Z.mul_le_mono_nonneg_r; [lia|].
    apply nearestEven_mono; nia.
  - assert (Hg' : 53 < Zdigits2 (a' / b')) by lia.
    assert (Hlt : Zdigits2 (a / b) <= Zdigits2 (a' / b') - 1) by lia.
    apply Z.le_trans with (2 ^ Zdigits2 (a / b)); [now apply nearest64_le_pow|].
    apply Z.le_trans with (2 ^ (Zdigits2 (a' / b') - 1));
      [|now apply nearest64_ge_pow].
    apply Z.pow_le_mono_r; [lia|]. exact Hlt.
Qed.

(** It depends on the fraction only. *)
Lemma nearest64_fraction (a b a' b' : Z) :
  0 <= a -> 0 < b -> 0 < b' -> a * b' = a' * b ->
  nearest64 a b = nearest64 a' b'.
Proof.
  intros Ha Hb Hb' Heq. assert (Ha' : 0 <= a') by nia.
  apply Z.le_antisymm; apply nearest64_mono; lia.
Qed.

Lemma Zdigits2_le (z g : Z) : 0 <= g -> 0 <= z < 2 ^ g -> Zdigits2 z <= g.
Proof.
  intros Hg [Hz Hlt]. destruct (Z.eq_dec z 0) as [->|Hnz]; [exact Hg|].
  destruct (Zdigits2_bounds z ltac:(lia)) as [Hlo _].
  destruct (Z_le_gt_dec (Zdigits2 z) g) as [|Hgt]; [assumption|].
  exfalso. assert (2 ^ g <= 2 ^ (Zdigits2 z - 1)) by (apply Z.pow_le_mono_r; lia).
  lia.
Qed.

(** What [binary_round_aux] arrives at is the number nearest to the
    fraction it was given. *)
Lemma rounded_is_nearest64 (n d ex : Z) :
  0 <= n -> 0 < d ->
  let k1 := fexp prec emax (Zdigits2 (n / d) + ex) - ex in
  0 <= k1 ->
  nearestEven n (2 ^ k1 * d) * 2 ^ (ex + k1 + 1074)
  = nearest64 (n * 2 ^ Z.max (ex + 1074) 0) (d * 2 ^ Z.max (- (ex + 1074)) 0).
Proof.
  intros Hn Hd k1 Hk1.
  assert (Hk : k1 = Z.max (Zdigits2 (n / d) - 53) (- (ex + 1074)))
    by (unfold k1; rewrite fexp_binary64; lia).
  pose proof (Z.div_pos n d Hn Hd) as Hmx.
  pose proof (Zdigits2_nonneg (n / d)) as Hdx.
  set (dx := Zdigits2 (n / d)) in *.
  unfold nearest64.
  destruct (Z_lt_le_dec 0 (ex + 1074)) as [Hup|Hdown].
  - (* the exponent is above the least one *)
    replace (Z.max (ex + 1074) 0) with (ex + 1074) by lia.
    replace (Z.max (- (ex + 1074)) 0) with 0 by lia.
    change (2 ^ 0) with 1. rewrite Z.mul_1_r.
    set (u := ex + 1074) in *.
    assert (Hu : 0 < 2 ^ u) by (apply pow2_pos; lia).
    assert (Hk1' : k1 = dx - 53) by lia.
    assert (Hpos : 0 < n / d).
    { destruct (Z.eq_dec (n / d) 0) as [Hz|]; [|lia].
      unfold dx in *. rewrite Hz in *. simpl in *. lia. }
    destruct (Zdigits2_bounds (n / d) Hpos) as [Hlo Hhi]. fold dx in Hlo, Hhi.
    assert (Hdigits : Zdigits2 (n * 2 ^ u / d) = dx + u).
    { pose proof (Z.mul_div_le n d Hd). pose proof (Z.mul_succ_div_gt n d Hd).
      assert (Hsplit1 : 2 ^ (dx + u - 1) = 2 ^ (dx - 1) * 2 ^ u).
      { rewrite <- Z.pow_add_r by lia. f_equal. lia. }
      assert (Hsplit2 : 2 ^ (dx + u) = 2 ^ dx * 2 ^ u) by (rewrite Z.pow_add_r; lia).
      apply Zdigits2_unique.
      - split.
        + apply Z.div_le_lower_bound; [assumption|]. rewrite Hsplit1. nia.
        + apply Z.div_lt_upper_bound; [assumption|]. rewrite Hsplit2. nia.
      - apply Z.div_str_pos. nia. }
    rewrite Hdigits.
    replace (Z.max (dx + u - 53) 0) with (k1 + u) by lia.
    replace (ex + k1 + 1074) with (k1 + u) by lia.
    f_equal.
    rewrite (Z.mul_comm n), Z.pow_add_r by lia.
    replace (2 ^ k1 * 2 ^ u * d) with (2 ^ u * (2 ^ k1 * d)) by ring.
    assert (0 < 2 ^ k1) by (apply pow2_pos; lia).
    rewrite nearestEven_scale by nia. reflexivity.
  - (* the exponent is below the least one *)
    replace (Z.max (ex + 1074) 0) with 0 by lia.
    replace (Z.max (- (ex + 1074)) 0) with (- (ex + 1074)) by lia.
    change (2 ^ 0) with 1. rewrite Z.mul_1_r.
    set (v := - (ex + 1074)) in *.
    assert (Hv : 0 < 2 ^ v) by (apply pow2_pos; lia).
    assert (Hquot : n / (d * 2 ^ v) = n / d / 2 ^ v) by (now rewrite Z.div_div by lia).
    rewrite Hquot.
    destruct (Z_le_gt_dec v (dx - 53)) as [Hnormal|Hsub].
    + assert (Hk1' : k1 = dx - 53) by lia.
      assert (Hpos : 0 < n / d).
      { destruct (Z.eq_dec (n / d) 0) as [Hz|]; [|lia].
        unfold dx in *. rewrite Hz in *. simpl in *. lia. }
      destruct (Zdigits2_bounds (n / d) Hpos) as [Hlo Hhi]. fold dx in Hlo, Hhi.
      assert (Hdigits : Zdigits2 (n / d / 2 ^ v) = dx - v).
      { assert (Hsplit1 : 2 ^ (dx - 1) = 2 ^ (dx - v - 1) * 2 ^ v).
        { rewrite <- Z.pow_add_r by lia. f_equal. lia. }
        assert (Hsplit2 : 2 ^ dx = 2 ^ (dx - v) * 2 ^ v).
        { rewrite <- Z.pow_add_r by lia. f_equal. lia. }
        assert (0 < 2 ^ (dx - v - 1)) by (apply pow2_pos; lia).
        apply Zdigits2_unique.
        - split.
          + apply Z.div_le_lower_bound; [assumption|]. lia.
          + apply Z.div_lt_upper_bound; [assumption|]. lia.
        - apply Z.div_str_pos. nia. }
      rewrite Hdigits.
      replace (Z.max (dx - v - 53) 0) with (k1 - v) by lia.
      replace (ex + k1 + 1074) with (k1 - v) by lia.
      f_equal. f_equal.
      replace (2 ^ k1) with (2 ^ (k1 - v) * 2 ^ v); [ring|].
      rewrite <- Z.pow_add_r by lia. f_equal. lia.
    + assert (Hk1' : k1 = v) by lia.
      assert (Hsmall : Zdigits2 (n / d / 2 ^ v) <= 53).
      { apply Zdigits2_le; [lia|]. split; [apply Z.div_pos; lia|].
        apply Z.div_lt_upper_bound; [assumption|].
        destruct (Z.eq_dec (n / d) 0) as [Hz|Hnz].
        - rewrite Hz. assert (0 < 2 ^ 53) by (apply pow2_pos; lia). nia.
        - destruct (Zdigits2_bounds (n / d) ltac:(lia)) as [_ Hhi]. fold dx in Hhi.
          assert (2 ^ dx <= 2 ^ (v + 53)) by (apply Z.pow_le_mono_r; lia).
          rewrite Z.pow_add_r in * by lia. lia. }
      replace (Z.max (Zdigits2 (n / d / 2 ^ v) - 53) 0) with 0 by lia.
      replace (ex + k1 + 1074) with 0 by lia.
      change (2 ^ 0) with 1. rewrite Z.mul_1_l, Hk1'. f_equal. f_equal. ring.
Qed.

End Binary64Rounding.

(** ** Division, multiplication and the number of an integer *)

Section Binary64Division.
Import JsNumber Binary64.
Local Open Scope Z_scope.

(** A valid number has at most 53 digits, at an exponent from -1074 to 971. *)
Lemma valid_finite (s : bool) (m : positive) (e : Z) :
  valid_binary (S754_finite s m e) = true ->
  Zdigits2 (Zpos m) <= 53 /\ -1074 <= e <= 971
  /\ (-1074 < e -> Zdigits2 (Zpos m) = 53).
Proof.
  simpl. unfold SpecFloat.bounded, SpecFloat.canonical_mantissa. change (emax - prec) with 971.
  rewrite andb_true_iff, Z.eqb_eq, Z.leb_le, fexp_binary64.
  change (Zpos (digits2_pos m)) with (Zdigits2 (Zpos m)). lia.
Qed.

Lemma nearest64_zero (b : Z) : 0 < b -> nearest64 0 b = 0.
Proof.
  intros Hb. unfold nearest64. rewrite Z.div_0_l by lia. simpl Zdigits2.
  change (Z.max (0 - 53) 0) with 0. change (2 ^ 0) with 1.
  rewrite Z.mul_1_l, Z.mul_1_r. unfold nearestEven, locOf.
  rewrite Z.div_0_l, Z.mod_0_l by lia. reflexivity.
Qed.

Lemma rank_nonneg (f : spec_float) : 0 <= rank f.
Proof.
  destruct f as [s|[]| |[] m e]; unfold rank; try lia.
  vm_compute. discriminate.
Qed.

Lemma rank_finite_pos (m : positive) (e : Z) :
  -1074 <= e -> 0 < rank (S754_finite false m e).
Proof. intros He. unfold rank. pose proof (pow2_pos (e + 1074)). lia. Qed.

(** ** Where the remainder of a division lies *)

Lemma new_location_locOf (d r : Z) :
  0 < d -> 0 <= r < d -> new_location d r = locOf r d.
Proof.
  intros Hd Hr. unfold new_location, new_location_even, new_location_odd, locOf.
  destruct (Z.even d) eqn:Heven; [reflexivity|].
  destruct (r =? 0); [reflexivity|].
  assert (Hodd : Z.odd d = true) by (rewrite <- Z.negb_even, Heven; reflexivity).
  apply Z.odd_spec in Hodd as [c Hc].
  destruct (Z.compare_spec (2 * r + 1) d); destruct (Z.compare_spec (2 * r) d);
    try reflexivity; lia.
Qed.

Lemma SFdiv_core_fraction (ma mb : positive) (ea eb : Z) :
  let e' := Z.min (fexp prec emax (Zdigits2 (Zpos ma) + ea - (Zdigits2 (Zpos mb) + eb)))
              (ea - eb) in
  let n := Zpos ma * 2 ^ (ea - eb - e') in
  SFdiv_core_binary prec emax (Zpos ma) ea (Zpos mb) eb
  = (n / Zpos mb, e', locOf (n mod Zpos mb) (Zpos mb)).
Proof.
  intros e' n. unfold SFdiv_core_binary. fold e'.
  assert (Hs : 0 <= ea - eb - e') by (unfold e'; lia).
  assert (Hshift : match ea - eb - e' with
                   | 0 => Zpos ma
                   | Zpos _ => Z.shiftl (Zpos ma) (ea - eb - e')
                   | Zneg _ => 0
                   end = n).
  { unfold n. destruct (ea - eb - e') as [|p|p] eqn:Hse;
      [change (2 ^ 0) with 1; lia|now rewrite Z.shiftl_mul_pow2 by lia|lia]. }
  rewrite Hshift.
  unfold Z.div, Z.modulo. destruct (Z.div_eucl n (Zpos mb)) as [q r] eqn:Hqr.
  f_equal. apply new_location_locOf; [lia|].
  pose proof (Z.mod_pos_bound n (Zpos mb) ltac:(lia)) as H.
  unfold Z.modulo in H. now rewrite Hqr in H.
Qed.

(** ** Division *)

Lemma ulps_pos : 0 < ulps.
Proof. apply pow2_pos. lia. Qed.

Lemma div_balance (x y s u b a c v : Z) :
  0 <= s -> 0 <= u -> 0 <= b -> 0 <= a -> 0 <= c -> 0 <= v ->
  s + u + b = a + c + v ->
  x * 2 ^ s * 2 ^ u * (y * 2 ^ b) = x * 2 ^ a * 2 ^ c * (y * 2 ^ v).
Proof.
  intros Hs Hu Hb Ha Hc Hv Heq.
  transitivity (x * y * 2 ^ (s + u + b)).
  - rewrite !Z.pow_add_r by lia. ring.
  - rewrite Heq, !Z.pow_add_r by lia. ring.
Qed.


Lemma div_fraction (ma mb : positive) (ea eb e' : Z) :
  0 <= ea - eb - e' -> -1074 <= ea -> -1074 <= eb ->
  nearest64 (Zpos ma * 2 ^ (ea - eb - e') * 2 ^ Z.max (e' + 1074) 0)
    (Zpos mb * 2 ^ Z.max (- (e' + 1074)) 0)
  = nearest64 (Zpos ma * 2 ^ (ea + 1074) * ulps) (Zpos mb * 2 ^ (eb + 1074)).
Proof.
  intros Hs Hea Heb.
  assert (H2s : 0 < 2 ^ (ea - eb - e')) by (apply pow2_pos; lia).
  assert (Hu : 0 < 2 ^ Z.max (e' + 1074) 0) by (apply pow2_pos; lia).
  assert (Hv : 0 < 2 ^ Z.max (- (e' + 1074)) 0) by (apply pow2_pos; lia).
  assert (Hrb : 0 < 2 ^ (eb + 1074)) by (apply pow2_pos; lia).
  apply nearest64_fraction.
  - apply Z.mul_nonneg_nonneg; [apply Z.mul_nonneg_nonneg|]; lia.
  - apply Z.mul_pos_pos; lia.
  - apply Z.mul_pos_pos; lia.
  - unfold ulps. apply div_balance; lia.
Qed.

Lemma SFdiv_rank (ma mb : positive) (ea eb : Z) :
  valid_binary (S754_finite false ma ea) = true ->
  valid_binary (S754_finite false mb eb) = true ->
  let f := SFdiv prec emax (S754_finite false ma ea) (S754_finite false mb eb) in
  valid_binary f = true
  /\ notNegative f = true
  /\ rank f
     = Z.min (nearest64 (rank (S754_finite false ma ea) * ulps)
                (rank (S754_finite false mb eb))) top.
Proof.
  intros Hva Hvb f. subst f.
  destruct (valid_finite _ _ _ Hva) as (Hda & Hea & Hna).
  destruct (valid_finite _ _ _ Hvb) as (Hdb & Heb & Hnb).
  pose proof (Zdigits2_pos (Zpos ma) ltac:(lia)) as Hda0.
  pose proof (Zdigits2_pos (Zpos mb) ltac:(lia)) as Hdb0.
  destruct (Zdigits2_bounds (Zpos ma) ltac:(lia)) as [Hloa Hhia].
  destruct (Zdigits2_bounds (Zpos mb) ltac:(lia)) as [Hlob Hhib].
  unfold SFdiv. rewrite SFdiv_core_fraction. cbv zeta.
  set (da := Zdigits2 (Zpos ma)) in *. set (db := Zdigits2 (Zpos mb)) in *.
  set (e' := Z.min (fexp prec emax (da + ea - (db + eb))) (ea - eb)).
  set (s := ea - eb - e').
  set (n := Zpos ma * 2 ^ s).
  assert (He' : e' = Z.min (Z.max (da + ea - (db + eb) - 53) (-1074)) (ea - eb))
    by (unfold e'; now rewrite fexp_binary64).
  assert (Hs : 0 <= s) by (unfold s; lia).
  assert (H2s : 0 < 2 ^ s) by (apply pow2_pos; lia).
  assert (Hn : 0 <= n) by (unfold n; nia).
  assert (Hk1 : 0 <= fexp prec emax (Zdigits2 (n / Zpos mb) + e') - e').
  { rewrite fexp_binary64.
    destruct (Z_le_gt_dec e' (-1074)) as [Hlow|Hhigh]; [lia|].
    assert (Hs' : s = 53 + db - da) by (unfold s; lia).
    assert (Hq : 2 ^ 52 <= n / Zpos mb).
    { apply Z.div_le_lower_bound; [lia|].
      assert (Hsplit : 2 ^ (da - 1) * 2 ^ s = 2 ^ 52 * 2 ^ db).
      { rewrite <- !Z.pow_add_r by lia. f_equal. lia. }
      assert (0 < 2 ^ 52) by (apply pow2_pos; lia).
      unfold n. nia. }
    assert (53 <= Zdigits2 (n / Zpos mb)); [|lia].
    change 53 with (Zdigits2 (2 ^ 52)). apply Zdigits2_mono.
    split; [apply Z.lt_le_incl, pow2_pos; lia|exact Hq]. }
  change (xorb false false) with false.
  pose proof (div_fraction ma mb ea eb e' Hs ltac:(lia) ltac:(lia)) as Hfraction.
  fold s in Hfraction. fold n in Hfraction.
  destruct (binary_round_aux_rank n (Zpos mb) e' Hn ltac:(lia) Hk1)
    as (Hvalid & Hsign & Hrank).
  rewrite (rounded_is_nearest64 n (Zpos mb) e' Hn ltac:(lia) Hk1) in Hrank.
  split; [exact Hvalid|]. split; [exact Hsign|].
  rewrite Hrank. apply (f_equal (fun x => Z.min x top)). exact Hfraction.
Qed.

End Binary64Division.

Section Binary64Multiplication.
Import JsNumber Binary64.
Local Open Scope Z_scope.

(** ** Multiplication *)

Lemma mul_balance (x y u c a b v : Z) :
  0 <= u -> 0 <= c -> 0 <= a -> 0 <= b -> 0 <= v ->
  u + c = a + b + v ->
  x * y * 2 ^ u * 2 ^ c = x * 2 ^ a * (y * 2 ^ b) * (1 * 2 ^ v).
Proof.
  intros Hu Hc Ha Hb Hv Heq.
  transitivity (x * y * 2 ^ (u + c)).
  - rewrite !Z.pow_add_r by lia. ring.
  - rewrite Heq, !Z.pow_add_r by lia. ring.
Qed.

Lemma shift_balance (x t u c v : Z) :
  0 <= t -> 0 <= u -> 0 <= c -> 0 <= v ->
  t + u = c + v ->
  x * 2 ^ t * 2 ^ u * 1 = x * 2 ^ c * (1 * 2 ^ v).
Proof.
  intros Ht Hu Hc Hv Heq.
  transitivity (x * 2 ^ (t + u)).
  - rewrite !Z.pow_add_r by lia. ring.
  - rewrite Heq, !Z.pow_add_r by lia. ring.
Qed.


Lemma mul_fraction (ma mb : positive) (ea eb : Z) :
  -1074 <= ea -> -1074 <= eb ->
  nearest64 (Zpos (ma * mb) * 2 ^ Z.max (ea + eb + 1074) 0)
    (1 * 2 ^ Z.max (- (ea + eb + 1074)) 0)
  = nearest64 (Zpos ma * 2 ^ (ea + 1074) * (Zpos mb * 2 ^ (eb + 1074))) ulps.
Proof.
  intros Hea Heb.
  set (u := Z.max (ea + eb + 1074) 0). set (v := Z.max (- (ea + eb + 1074)) 0).
  assert (Hu : 0 < 2 ^ u) by (apply pow2_pos; lia).
  assert (Hv : 0 < 2 ^ v) by (apply pow2_pos; lia).
  apply nearest64_fraction;
    [apply Z.mul_nonneg_nonneg; lia|lia|exact ulps_pos|].
  unfold ulps. rewrite Pos2Z.inj_mul.
  apply mul_balance; unfold u, v; lia.
Qed.

Lemma SFmul_rank (ma mb : positive) (ea eb : Z) :
  valid_binary (S754_finite false ma ea) = true ->
  valid_binary (S754_finite false mb eb) = true ->
  let f := SFmul prec emax (S754_finite false ma ea) (S754_finite false mb eb) in
  valid_binary f = true
  /\ notNegative f = true
  /\ rank f
     = Z.min (nearest64 (rank (S754_finite false ma ea) * rank (S754_finite false mb eb))
                ulps) top.
Proof.
  intros Hva Hvb f. subst f.
  destruct (valid_finite _ _ _ Hva) as (Hda & Hea & Hna).
  destruct (valid_finite _ _ _ Hvb) as (Hdb & Heb & Hnb).
  destruct (Zdigits2_bounds (Zpos ma) ltac:(lia)) as [Hloa Hhia].
  destruct (Zdigits2_bounds (Zpos mb) ltac:(lia)) as [Hlob Hhib].
  pose proof (mul_fraction ma mb ea eb ltac:(lia) ltac:(lia)) as Hfraction.
  unfold SFmul. change (xorb false false) with false.
  set (n := Zpos (ma * mb)) in *. set (ex := ea + eb) in *.
  assert (Hn : 0 <= n) by (unfold n; lia).
  assert (Hdiv : n / 1 = n) by apply Z.div_1_r.
  assert (Hloc : locOf (n mod 1) 1 = loc_Exact) by (now rewrite Z.mod_1_r).
  assert (Hk1 : 0 <= fexp prec emax (Zdigits2 (n / 1) + ex) - ex).
  { rewrite Hdiv, fexp_binary64.
    destruct (Z_le_gt_dec ex (-1074)) as [Hlow|Hhigh]; [lia|].
    assert (H52 : 2 ^ 52 <= n).
    { unfold n. rewrite Pos2Z.inj_mul.
      destruct (Z_le_gt_dec ea (-1074)) as [Ha|Ha].
      - assert (Hb : Zdigits2 (Zpos mb) = 53) by (apply Hnb; unfold ex in *; lia).
        rewrite Hb in Hlob. change (2 ^ (53 - 1)) with (2 ^ 52) in Hlob. nia.
      - assert (Ha' : Zdigits2 (Zpos ma) = 53) by (apply Hna; lia).
        rewrite Ha' in Hloa. change (2 ^ (53 - 1)) with (2 ^ 52) in Hloa. nia. }
    assert (53 <= Zdigits2 n); [|lia].
    change 53 with (Zdigits2 (2 ^ 52)). apply Zdigits2_mono.
    split; [apply Z.lt_le_incl, pow2_pos; lia|exact H52]. }
  destruct (binary_round_aux_rank n 1 ex Hn ltac:(lia) Hk1) as (Hvalid & Hsign & Hrank).
  rewrite (rounded_is_nearest64 n 1 ex Hn ltac:(lia) Hk1) in Hrank.
  rewrite Hdiv, Hloc in Hvalid, Hsign, Hrank.
  split; [exact Hvalid|]. split; [exact Hsign|].
  rewrite Hrank. apply (f_equal (fun x => Z.min x top)). exact Hfraction.
Qed.

(** ** The number of an integer *)

Lemma iter_xO (p : positive) : forall m, Zpos (Pos.iter xO m p) = Zpos m * 2 ^ Zpos p.
Proof.
  induction p as [p IH|p IH|]; intros m; simpl Pos.iter.
  - rewrite Pos2Z.inj_xO, IH, IH, pow2_xI. ring.
  - rewrite IH, IH, pow2_xO. ring.
  - rewrite Pos2Z.inj_xO. change (2 ^ 1) with 2. ring.
Qed.

Lemma integer_fraction (x t : Z) :
  0 <= x -> 0 <= t <= 1074 ->
  nearest64 (x * 2 ^ t * 2 ^ Z.max (- t + 1074) 0) (1 * 2 ^ Z.max (- (- t + 1074)) 0)
  = nearest64 (x * ulps) 1.
Proof.
  intros Hx Ht.
  assert (H2t : 0 < 2 ^ t) by (apply pow2_pos; lia).
  assert (Hu : 0 < 2 ^ Z.max (- t + 1074) 0) by (apply pow2_pos; lia).
  assert (Hv : 0 < 2 ^ Z.max (- (- t + 1074)) 0) by (apply pow2_pos; lia).
  apply nearest64_fraction;
    [apply Z.mul_nonneg_nonneg; [apply Z.mul_nonneg_nonneg|]; lia|lia|lia|].
  unfold ulps. apply shift_balance; lia.
Qed.

Lemma binary_normalize_rank (z : Z) :
  0 <= z ->
  let f := binary_normalize prec emax z 0 false in
  valid_binary f = true
  /\ notNegative f = true
  /\ rank f = Z.min (nearest64 (z * ulps) 1) top.
Proof.
  intros Hz f. subst f. destruct z as [|m|m]; [|clear Hz|lia].
  - split; [reflexivity|]. split; [reflexivity|].
    rewrite Z.mul_0_l, nearest64_zero by lia. reflexivity.
  - unfold binary_normalize, binary_round, shl_align.
    destruct (Zdigits2_bounds (Zpos m) ltac:(lia)) as [Hlo Hhi].
    pose proof (Zdigits2_pos (Zpos m) ltac:(lia)) as Hdm.
    change (Zpos (digits2_pos m)) with (Zdigits2 (Zpos m)).
    set (dm := Zdigits2 (Zpos m)) in *.
    rewrite Z.add_0_r, Z.sub_0_r, fexp_binary64.
    assert (Hwhole : forall k1 : Z,
      0 <= fexp prec emax (Zdigits2 (Zpos m / 1) + 0) - 0 ->
      let f := binary_round_aux prec emax false (Zpos m) 0 loc_Exact in
      valid_binary f = true /\ notNegative f = true
      /\ rank f = Z.min (nearest64 (Zpos m * ulps) 1) top).
    { intros _ Hk1.
      pose proof (integer_fraction (Zpos m) 0 ltac:(lia) ltac:(lia)) as Hfraction.
      rewrite Z.mul_1_r in Hfraction.
      destruct (binary_round_aux_rank (Zpos m) 1 0 ltac:(lia) ltac:(lia) Hk1)
        as (Hvalid & Hsign & Hrank).
      rewrite (rounded_is_nearest64 (Zpos m) 1 0 ltac:(lia) ltac:(lia) Hk1) in Hrank.
      rewrite Z.div_1_r, Z.mod_1_r in Hvalid, Hsign, Hrank.
      change (locOf 0 1) with loc_Exact in Hvalid, Hsign, Hrank.
      split; [exact Hvalid|]. split; [exact Hsign|].
      rewrite Hrank. apply (f_equal (fun x => Z.min x top)). exact Hfraction. }
    destruct (Z.max (dm - 53) (-1074)) as [|t|t] eqn:Ht.
    + apply (Hwhole 0). rewrite Z.div_1_r, fexp_binary64. fold dm. lia.
    + apply (Hwhole 0). rewrite Z.div_1_r, fexp_binary64. fold dm. lia.
    + (* fewer than 53 digits: the mantissa is shifted to the left *)
      clear Hwhole.
      assert (Hd : Zneg t = dm - 53) by lia.
      set (n := Zpos (Pos.iter xO m t)).
      assert (Hn : n = Zpos m * 2 ^ Zpos t) by apply iter_xO.
      assert (Ht2 : 0 < 2 ^ Zpos t) by (apply pow2_pos; lia).
      assert (Hdigits : Zdigits2 n = 53).
      { apply Zdigits2_unique; [|lia]. rewrite Hn. change (53 - 1) with 52.
        assert (Hs1 : 2 ^ 52 = 2 ^ (dm - 1) * 2 ^ Zpos t).
        { rewrite <- Z.pow_add_r by lia. f_equal. lia. }
        assert (Hs2 : 2 ^ 53 = 2 ^ dm * 2 ^ Zpos t).
        { rewrite <- Z.pow_add_r by lia. f_equal. lia. }
        rewrite Hs1, Hs2. nia. }
      assert (Hk1 : 0 <= fexp prec emax (Zdigits2 (n / 1) + Zneg t) - Zneg t).
      { rewrite Z.div_1_r, fexp_binary64, Hdigits. lia. }
      pose proof (integer_fraction (Zpos m) (Zpos t) ltac:(lia) ltac:(lia)) as Hfraction.
      rewrite <- Hn in Hfraction. change (- Zpos t) with (Zneg t) in Hfraction.
      assert (Hn0 : 0 <= n) by lia.
      destruct (binary_round_aux_rank n 1 (Zneg t) Hn0 ltac:(lia) Hk1)
        as (Hvalid & Hsign & Hrank).
      rewrite (rounded_is_nearest64 n 1 (Zneg t) Hn0 ltac:(lia) Hk1) in Hrank.
      rewrite Z.div_1_r, Z.mod_1_r in Hvalid, Hsign, Hrank.
      change (locOf 0 1) with loc_Exact in Hvalid, Hsign, Hrank.
      split; [exact Hvalid|]. split; [exact Hsign|].
      rewrite Hrank. apply (f_equal (fun x => Z.min x top)). exact Hfraction.
Qed.

End Binary64Multiplication.

(** ** Percentages *)

Section Percentages.
Import JsNumber Binary64 IngestionService.
Local Open Scope Z_scope.

Lemma top_pos : 0 < top.
Proof. apply pow2_pos. lia. Qed.

Lemma ulps_below_top : 100 * ulps < top.
Proof. vm_compute. reflexivity. Qed.

Lemma rank_below_top (f : spec_float) :
  valid_binary f = true -> f <> S754_infinity false -> rank f < top.
Proof.
  intros Hvalid Hf. pose proof top_pos as Htop.
  destruct f as [s|[]| |[] m e]; try (unfold rank; lia); [congruence|].
  destruct (valid_finite _ _ _ Hvalid) as (Hd & He & _).
  destruct (Zdigits2_bounds (Zpos m) ltac:(lia)) as [_ Hhi].
  assert (Hm : Zpos m < 2 ^ 53).
  { eapply Z.lt_le_trans; [exact Hhi|]. apply Z.pow_le_mono_r; lia. }
  assert (Hp : 2 ^ (e + 1074) <= 2 ^ 2045) by (apply Z.pow_le_mono_r; lia).
  assert (Hp0 : 0 < 2 ^ (e + 1074)) by (apply pow2_pos; lia).
  unfold rank, top. change 2098 with (53 + 2045).
  rewrite (Z.pow_add_r 2 53 2045) by lia.
  apply Z.lt_le_trans with (2 ^ 53 * 2 ^ (e + 1074)).
  - apply Z.mul_lt_mono_pos_r; assumption.
  - apply Z.mul_le_mono_nonneg_l; [apply Z.lt_le_incl, pow2_pos; lia|exact Hp].
Qed.

Lemma Prim2SF_ofZ (z : Z) :
  0 <= z -> Prim2SF (ofZ z) = binary_normalize prec emax z 0 false.
Proof.
  intros Hz. apply Prim2SF_SF2Prim. now apply binary_normalize_rank.
Qed.

(** [Math.round] of a finite number that is not negative. *)
Lemma nearestInteger_rank (f : spec_float) :
  valid_binary f = true -> notNegative f = true -> f <> S754_infinity false ->
  nearestInteger f = (rank f + 2 ^ 1073) / ulps.
Proof.
  intros Hvalid Hsign Hf.
  destruct f as [[]|[]| |[] m e]; try discriminate; try congruence.
  - reflexivity.
  - destruct (valid_finite _ _ _ Hvalid) as (_ & He & _).
    unfold nearestInteger, rank, ulps.
    destruct (Z.leb_spec 0 e) as [Hpos|Hneg].
    + apply Z.div_unique with (r := 2 ^ 1073).
      * left. split; [apply Z.lt_le_incl, pow2_pos; lia|].
        apply Z.pow_lt_mono_r; lia.
      * rewrite Z.add_comm, (Z.pow_add_r 2 e 1074) by lia. ring.
    + assert (Hc : 0 < 2 ^ (e + 1074)) by (apply pow2_pos; lia).
      assert (Hd : 0 < 2 ^ (- e)) by (apply pow2_pos; lia).
      assert (H1 : 2 ^ 1073 = 2 ^ (- e - 1) * 2 ^ (e + 1074)).
      { rewrite <- Z.pow_add_r by lia. f_equal. lia. }
      assert (H2 : 2 ^ 1074 = 2 ^ (- e) * 2 ^ (e + 1074)).
      { rewrite <- Z.pow_add_r by lia. f_equal. lia. }
      rewrite H1, H2, <- Z.mul_add_distr_r.
      symmetry. apply Z.div_mul_cancel_r; lia.
Qed.

Lemma hundred : Prim2SF 100 = S754_finite false 7036874417766400 (-46).
Proof. reflexivity. Qed.

Lemma hundred_valid : valid_binary (S754_finite false 7036874417766400 (-46)) = true.
Proof. reflexivity. Qed.

Lemma hundred_rank : rank (S754_finite false 7036874417766400 (-46)) = 100 * ulps.
Proof. vm_compute. reflexivity. Qed.

Lemma nearest64_one : nearest64 ulps 1 = ulps.
Proof. vm_compute. reflexivity. Qed.

Lemma nearest64_hundred : nearest64 (100 * ulps * ulps) ulps = 100 * ulps.
Proof. vm_compute. reflexivity. Qed.

Lemma percentOfRanks_zero (rn : Z) : 0 < rn -> percentOfRanks 0 rn = 0.
Proof.
  intros Hrn. unfold percentOfRanks. destruct (rn =? top); [reflexivity|].
  rewrite (Z.mul_0_l ulps), (nearest64_zero rn) by exact Hrn.
  rewrite (Z.mul_0_l (100 * ulps)), (nearest64_zero ulps) by exact ulps_pos.
  vm_compute. reflexivity.
Qed.

(** The quotient of two values, the first at most the second, is at most 1. *)
Lemma quotient_le_one (rp rn : Z) :
  0 <= rp <= rn -> 0 < rn -> nearest64 (rp * ulps) rn <= ulps.
Proof.
  intros Hrp Hrn. pose proof ulps_pos as Hu.
  apply Z.le_trans with (nearest64 ulps 1); [|rewrite nearest64_one; lia].
  apply nearest64_mono.
  - apply Z.mul_nonneg_nonneg; lia.
  - exact Hrn.
  - lia.
  - rewrite Z.mul_1_r, Z.mul_comm. apply Z.mul_le_mono_nonneg_l; lia.
Qed.

Lemma product_le_hundred (rq : Z) :
  0 <= rq <= ulps -> nearest64 (rq * (100 * ulps)) ulps <= 100 * ulps.
Proof.
  intros Hrq. pose proof ulps_pos as Hu.
  apply Z.le_trans with (nearest64 (100 * ulps * ulps) ulps);
    [|rewrite nearest64_hundred; lia].
  apply nearest64_mono.
  - apply Z.mul_nonneg_nonneg; lia.
  - exact Hu.
  - exact Hu.
  - apply Z.mul_le_mono_nonneg_r; [lia|].
    rewrite (Z.mul_comm (100 * ulps) ulps).
    apply Z.mul_le_mono_nonneg_r; lia.
Qed.

Lemma nearest64_nonneg (a b : Z) : 0 <= a -> 0 < b -> 0 <= nearest64 a b.
Proof.
  intros Ha Hb. apply Z.le_trans with (nearest64 0 b);
    [rewrite nearest64_zero by exact Hb; lia|].
  apply nearest64_mono; lia.
Qed.

Lemma percent_rank (fp fn : spec_float) :
  valid_binary fp = true -> valid_binary fn = true ->
  notNegative fp = true -> notNegative fn = true ->
  0 < rank fn -> rank fp <= rank fn ->
  nearestInteger (SFmul prec emax (SFdiv prec emax fp fn) (Prim2SF 100))
  = percentOfRanks (rank fp) (rank fn).
Proof.
  intros Hvp Hvn Hsp Hsn Hrn Hle. rewrite hundred.
  destruct fn as [[]|[]| |[] mn en]; try discriminate Hsn;
    try (exfalso; unfold rank in Hrn; lia).
  - (* the total is too large to be a number *)
    unfold percentOfRanks. change (rank (S754_infinity false)) with top.
    rewrite Z.eqb_refl.
    destruct fp as [[]|[]| |[] mp ep]; try discriminate Hsp; reflexivity.
  - pose proof (rank_below_top _ Hvn ltac:(discriminate)) as Hfinite.
    destruct fp as [[]|[]| |[] mp ep]; try discriminate Hsp.
    + change (rank (S754_zero false)) with 0.
      rewrite percentOfRanks_zero by exact Hrn. reflexivity.
    + change (rank (S754_infinity false)) with top in Hle. lia.
    + pose proof top_pos as Htop. pose proof ulps_pos as Hu.
      pose proof ulps_below_top as Hut.
      destruct (SFdiv_rank mp mn ep en Hvp Hvn) as (Hvq & Hsq & Hrq).
      pose proof (rank_finite_pos mp ep
                    ltac:(destruct (valid_finite _ _ _ Hvp) as (_ & ? & _); lia)) as Hrp.
      pose proof (quotient_le_one _ _ (conj (Z.lt_le_incl _ _ Hrp) Hle) Hrn) as Hq1.
      rewrite Z.min_l in Hrq by lia. rewrite <- Hrq in Hq1.
      unfold percentOfRanks.
      destruct (Z.eqb_spec (rank (S754_finite false mn en)) top) as [Heq|_]; [lia|].
      rewrite <- Hrq.
      destruct (SFdiv prec emax (S754_finite false mp ep) (S754_finite false mn en))
        as [[]|[]| |[] mq eq]; try discriminate Hsq.
      * change (rank (S754_zero false)) with 0.
        rewrite (Z.mul_0_l (100 * ulps)), (nearest64_zero ulps) by exact Hu. reflexivity.
      * change (rank (S754_infinity false)) with top in Hq1. lia.
      * destruct (SFmul_rank mq 7036874417766400 eq (-46) Hvq hundred_valid)
          as (Hvr & Hsr & Hrr).
        rewrite hundred_rank in Hrr.
        pose proof (rank_finite_pos mq eq
                    ltac:(destruct (valid_finite _ _ _ Hvq) as (_ & ? & _); lia)) as Hrq0.
        pose proof (product_le_hundred _ (conj (Z.lt_le_incl _ _ Hrq0) Hq1)) as Hr100.
        rewrite Z.min_l in Hrr by lia.
        rewrite <- Hrr. apply nearestInteger_rank; [exact Hvr|exact Hsr|].
        intros Hinf. rewrite Hinf in Hrr. change (rank (S754_infinity false)) with top in Hrr.
        lia.
Qed.

Lemma ofZ_rank (z : Z) :
  0 <= z ->
  valid_binary (Prim2SF (ofZ z)) = true
  /\ notNegative (Prim2SF (ofZ z)) = true
  /\ rank (Prim2SF (ofZ z)) = Z.min (nearest64 (z * ulps) 1) top.
Proof.
  intros Hz. rewrite Prim2SF_ofZ by exact Hz. now apply binary_normalize_rank.
Qed.

Lemma ofZ_rank_mono (p p' : Z) :
  0 <= p <= p' -> rank (Prim2SF (ofZ p)) <= rank (Prim2SF (ofZ p')).
Proof.
  intros Hp. pose proof ulps_pos as Hu.
  destruct (ofZ_rank p ltac:(lia)) as (_ & _ & ->).
  destruct (ofZ_rank p' ltac:(lia)) as (_ & _ & ->).
  apply Z.min_le_compat_r.
  apply nearest64_mono;
    [apply Z.mul_nonneg_nonneg; lia|lia|lia|].
  rewrite !Z.mul_1_r. apply Z.mul_le_mono_nonneg_r; lia.
Qed.

Lemma ofZ_rank_pos (n : Z) : 0 < n -> 0 < rank (Prim2SF (ofZ n)).
Proof.
  intros Hn. pose proof ulps_pos as Hu. pose proof top_pos as Htop.
  destruct (ofZ_rank n ltac:(lia)) as (_ & _ & ->).
  apply Z.min_glb_lt; [|exact Htop].
  apply Z.lt_le_trans with (nearest64 ulps 1); [rewrite nearest64_one; exact Hu|].
  apply nearest64_mono; [lia|lia|lia|].
  rewrite !Z.mul_1_r. rewrite <- (Z.mul_1_l ulps) at 1.
  apply Z.mul_le_mono_nonneg_r; lia.
Qed.

Lemma roundPercent_rank (p n : Z) :
  0 <= p <= n -> 0 < n ->
  roundPercent p n
  = percentOfRanks (rank (Prim2SF (ofZ p))) (rank (Prim2SF (ofZ n))).
Proof.
  intros Hp Hn. unfold roundPercent, round. rewrite mul_spec, div_spec.
  destruct (ofZ_rank p ltac:(lia)) as (Hvp & Hsp & _).
  destruct (ofZ_rank n ltac:(lia)) as (Hvn & Hsn & _).
  apply percent_rank; try assumption.
  - now apply ofZ_rank_pos.
  - apply ofZ_rank_mono. lia.
Qed.

Lemma percentOfRanks_mono (rp rp' rn : Z) :
  0 <= rp <= rp' -> 0 < rn ->
  percentOfRanks rp rn <= percentOfRanks rp' rn.
Proof.
  intros Hrp Hrn. pose proof ulps_pos as Hu. unfold percentOfRanks.
  destruct (rn =? top); [lia|].
  apply Z.div_le_mono; [exact Hu|]. apply Z.add_le_mono_r.
  assert (Hq : nearest64 (rp * ulps) rn <= nearest64 (rp' * ulps) rn).
  { apply nearest64_mono; [apply Z.mul_nonneg_nonneg; lia|lia|lia|].
    apply Z.mul_le_mono_nonneg_r; [lia|]. apply Z.mul_le_mono_nonneg_r; lia. }
  pose proof (nearest64_nonneg (rp * ulps) rn
                ltac:(apply Z.mul_nonneg_nonneg; lia) Hrn) as Hq0.
  apply nearest64_mono; [apply Z.mul_nonneg_nonneg; lia|lia|lia|].
  apply Z.mul_le_mono_nonneg_r; [lia|]. apply Z.mul_le_mono_nonneg_r; lia.
Qed.

Lemma percentOfRanks_in_range (rp rn : Z) :
  0 <= rp <= rn -> 0 < rn -> 0 <= percentOfRanks rp rn <= 100.
Proof.
  intros Hrp Hrn. pose proof ulps_pos as Hu. unfold percentOfRanks.
  destruct (rn =? top); [lia|].
  pose proof (quotient_le_one rp rn Hrp Hrn) as Hq1.
  pose proof (nearest64_nonneg (rp * ulps) rn
                ltac:(apply Z.mul_nonneg_nonneg; lia) Hrn) as Hq0.
  pose proof (product_le_hundred _ (conj Hq0 Hq1)) as Hr100.
  pose proof (nearest64_nonneg (nearest64 (rp * ulps) rn * (100 * ulps)) ulps
                ltac:(apply Z.mul_nonneg_nonneg; lia) Hu) as Hr0.
  split.
  - apply Z.div_pos; [|exact Hu].
    apply Z.add_nonneg_nonneg; [exact Hr0|]. apply Z.lt_le_incl, pow2_pos. lia.
  - replace 100 with ((100 * ulps + 2 ^ 1073) / ulps) by (vm_compute; reflexivity).
    apply Z.div_le_mono; [exact Hu|]. apply Z.add_le_mono_r. exact Hr100.
Qed.

Lemma roundPercent_mono (p p' n : Z) :
  0 < n -> 0 <= p <= p' -> p' <= n -> roundPercent p n <= roundPercent p' n.
Proof.
  intros Hn Hp Hp'. rewrite !roundPercent_rank by lia.
  apply percentOfRanks_mono.
  - split; [apply rank_nonneg|apply ofZ_rank_mono; lia].
  - now apply ofZ_rank_pos.
Qed.

Lemma roundPercent_zero (n : Z) : 0 <= n -> roundPercent 0 n = 0.
Proof.
  intros Hn. destruct (Z.eq_dec n 0) as [->|Hne]; [reflexivity|].
  rewrite roundPercent_rank by lia.
  change (rank (Prim2SF (ofZ 0))) with 0.
  apply percentOfRanks_zero, ofZ_rank_pos. lia.
Qed.

Lemma roundPercent_in_range (p n : Z) :
  0 <= p <= n -> 0 < n -> 0 <= roundPercent p n <= 100.
Proof.
  intros Hp Hn. rewrite roundPercent_rank by lia.
  apply percentOfRanks_in_range.
  - split; [apply rank_nonneg|apply ofZ_rank_mono; lia].
  - now apply ofZ_rank_pos.
Qed.

Lemma roundPercent_examples :
  roundPercent 23 40 = 57 /\ roundPercent 1 2 = 50 /\ roundPercent 40 40 = 100
  /\ roundPercent 1 3 = 33 /\ roundPercent 2 3 = 67.
Proof. vm_compute. repeat split; reflexivity. Qed.

End Percentages.

(** ** Cosine similarity *)

Section AccumulateFacts.
Import JsNumber EmbeddingService.

Context {T : Type} (A : Arithmetic T).

(** Over vectors of one length, the two norms the loop arrives at are the
    squared norms of the vectors. *)
Lemma accumulate_norms (a : list T) : forall (b : list T) (d n1 n2 : T),
  List.length a = List.length b ->
  accumulate A a b d n1 n2
  = (fst (fst (accumulate A a b d n1 n2)),
     squaredNormFrom A a n1, squaredNormFrom A b n2).
Proof.
  induction a as [|x a IH]; intros [|y b] d n1 n2 Hlen; try discriminate.
  - reflexivity.
  - simpl. apply IH. now injection Hlen.
Qed.

End AccumulateFacts.

Section SimilarityOnFloats.
Import Errors JsNumber EmbeddingService.
Local Open Scope float_scope.

Lemma accumulate_swap (a : list float) : forall (b : list float) (d n1 n2 : float),
  accumulate float64 b a d n2 n1
  = (let '(d', n1', n2') := accumulate float64 a b d n1 n2 in (d', n2', n1')).
Proof.
  induction a as [|x a IH]; intros [|y b] d n1 n2; try reflexivity.
  simpl. rewrite IH. now rewrite (float_mul_comm y x).
Qed.

Lemma cosine_float64_sym (a b : list float) :
  cosine float64 a b = cosine float64 b a.
Proof.
  unfold cosine. rewrite (accumulate_swap a b).
  destruct (accumulate float64 a b _ _ _) as [[d n1] n2]. simpl.
  now rewrite (float_mul_comm (PrimFloat.sqrt n2)).
Qed.

(** The loop does not divide. *)
Lemma accumulate_dividingBy (divide : float -> float -> float) (a : list float) :
  forall (b : list float) (d n1 n2 : float),
    accumulate (float64DividingBy divide) a b d n1 n2 = accumulate float64 a b d n1 n2.
Proof.
  induction a as [|x a IH]; intros [|y b] d n1 n2; try reflexivity.
  simpl. apply IH.
Qed.

(** The division is only asked for a quotient by a number that is not a
    zero: with any operation that agrees with [/] on such divisors in its
    place, the result is the same. *)
Lemma cosine_dividingBy (divide : float -> float -> float) (a b : list float) :
  (forall x y, (y =? 0) = false -> divide x y = x / y) ->
  cosine (float64DividingBy divide) a b = cosine float64 a b.
Proof.
  intros Hdivide. unfold cosine. rewrite accumulate_dividingBy.
  destruct (accumulate float64 a b _ _ _) as [[d n1] n2]. cbn.
  destruct (PrimFloat.sqrt n1 * PrimFloat.sqrt n2 =? 0) eqn:Hzero; [reflexivity|].
  now apply Hdivide.
Qed.



Lemma squaredNorm_zero_vector (a : list float) :
  Forall isZeroComponent a -> squaredNorm float64 a = 0.
Proof.
  unfold squaredNorm. simpl zero.
  induction 1 as [|x a Hx Ha IH]; simpl; [reflexivity|].
  unfold squaredNormFrom in *. simpl.
  now rewrite (float_add_square_zero x Hx).
Qed.

Lemma cosine_zero_left (a b : list float) :
  List.length a = List.length b ->
  Forall isZeroComponent a ->
  is_finite (PrimFloat.sqrt (squaredNorm float64 b)) = true ->
  cosine float64 a b = 0.
Proof.
  intros Hlen Ha Hb. unfold cosine.
  rewrite (accumulate_norms float64 a b _ _ _ Hlen).
  fold (squaredNorm float64 a). fold (squaredNorm float64 b).
  rewrite (squaredNorm_zero_vector a Ha).
  simpl isZero. simpl mul. simpl JsNumber.sqrt.
  rewrite float_zero_mul_finite; [reflexivity|reflexivity|exact Hb].
Qed.

Lemma cosine_zero_right (a b : list float) :
  List.length a = List.length b ->
  Forall isZeroComponent b ->
  is_finite (PrimFloat.sqrt (squaredNorm float64 a)) = true ->
  cosine float64 a b = 0.
Proof.
  intros Hlen Hb Ha. rewrite cosine_float64_sym.
  now apply cosine_zero_left.
Qed.

(** Against a vector whose squared norm overflows, a zero vector gives NaN:
    the magnitude is [0 * Infinity]. *)
Lemma calculateSimilarity_zero_vector_nan :
  Forall isZeroComponent [0]
  /\ calculateSimilarity [0] [0x1p600] = Ok nan
  /\ (nan =? 0) = false.
Proof.
  split; [repeat constructor|]. split; vm_compute; reflexivity.
Qed.

(** C6, as the code has it.  [calculateSimilarity] throws a [RAGError] when
    the lengths differ.  On vectors of one length it returns a number, and it
    never divides by a zero: whatever the division would give for a zero
    divisor, the result is the same.  When one vector is all zeros and the
    norm computed for the other is finite, it returns 0.  The private
    [calculateCosineSimilarity] of the vector store computes the same. *)
Theorem calculateSimilarity_guards (a b : list float) :
  (List.length a <> List.length b ->
   exists message, calculateSimilarity a b = Err (RAGError "similarity" message))
  /\ (List.length a = List.length b ->
      calculateSimilarity a b = Ok (cosine float64 a b)
      /\ FirestoreService.calculateCosineSimilarity a b = calculateSimilarity a b
      /\ (forall divide : float -> float -> float,
            (forall x y, (y =? 0) = false -> divide x y = x / y) ->
            Ok (cosine (float64DividingBy divide) a b) = calculateSimilarity a b)
      /\ (Forall isZeroComponent a ->
          is_finite (PrimFloat.sqrt (squaredNorm float64 b)) = true ->
          calculateSimilarity a b = Ok 0)
      /\ (Forall isZeroComponent b ->
          is_finite (PrimFloat.sqrt (squaredNorm float64 a)) = true ->
          calculateSimilarity a b = Ok 0)).
Proof.
  unfold calculateSimilarity, FirestoreService.calculateCosineSimilarity. split.
  - intros Hlen. apply Nat.eqb_neq in Hlen. rewrite Hlen. simpl. eauto.
  - intros Hlen. rewrite Hlen, Nat.eqb_refl. simpl.
    split; [reflexivity|]. split; [reflexivity|]. split; [|split].
    + intros divide Hdivide. now rewrite cosine_dividingBy.
    + intros Ha Hb. now rewrite cosine_zero_left.
    + intros Hb Ha. now rewrite cosine_zero_right.
Qed.

Lemma calculateSimilarity_guards_witness :
  (exists message,
     calculateSimilarity [1; 2] [1] = Err (RAGError "similarity" message))
  /\ calculateSimilarity [0; 0] [3; 4] = Ok 0
  /\ calculateSimilarity [3; 4] [0; 0] = Ok 0
  /\ Ok (cosine (float64DividingBy Samples.markedDivision) [3; 4] [0; 0])
     = calculateSimilarity [3; 4] [0; 0]
  /\ Ok (cosine (float64DividingBy Samples.markedDivision) [3; 4] [4; 3])
     = calculateSimilarity [3; 4] [4; 3]
  /\ calculateSimilarity [3; 4] [4; 3] = Ok 0x1.eb851eb851eb8p-1.
Proof.
  assert (Hmarked : forall x y, (y =? 0) = false -> Samples.markedDivision x y = x / y)
    by (intros x y Hy; unfold Samples.markedDivision; now rewrite Hy).
  split; [|split; [|split; [|split; [|split]]]].
  - apply (proj1 (calculateSimilarity_guards [1; 2] [1])). discriminate.
  - destruct (proj2 (calculateSimilarity_guards [0; 0] [3; 4]) eq_refl)
      as (_ & _ & _ & Hleft & _).
    apply Hleft.
    + repeat constructor.
    + vm_compute. reflexivity.
  - destruct (proj2 (calculateSimilarity_guards [3; 4] [0; 0]) eq_refl)
      as (_ & _ & _ & _ & Hright).
    apply Hright.
    + repeat constructor.
    + vm_compute. reflexivity.
  - destruct (proj2 (calculateSimilarity_guards [3; 4] [0; 0]) eq_refl)
      as (_ & _ & Hdiv & _).
    exact (Hdiv Samples.markedDivision Hmarked).
  - destruct (proj2 (calculateSimilarity_guards [3; 4] [4; 3]) eq_refl)
      as (_ & _ & Hdiv & _).
    exact (Hdiv Samples.markedDivision Hmarked).
  - vm_compute. reflexivity.
Defined.

End SimilarityOnFloats.

Section SimilarityOnReals.
Import JsNumber EmbeddingService RealVectors.
Local Open Scope R_scope.















End SimilarityOnReals.

(** ** Similarity search *)

Section VectorSearchFacts.
Import Js Errors JsNumber Model FirestoreService.
Local Open Scope Z_scope.

(** The loop over the snapshot keeps the records whose similarity reaches
    the threshold, when every record has the dimension of the query. *)
Lemma collectCandidates_same_dimension (q : list float) (t : float)
    (docs : list StoredEmbedding) : forall candidates,
  forallb (sameDimension q) docs = true ->
  collectCandidates q t docs candidates = Ok (candidates ++ keptAt q t docs).
Proof.
  induction docs as [|data docs IH]; intros candidates Hdim; simpl in *.
  - now rewrite app_nil_r.
  - apply andb_true_iff in Hdim as [Hd Hrest].
    unfold calculateCosineSimilarity. unfold sameDimension in Hd. rewrite Hd. simpl.
    rewrite (IH _ Hrest). unfold keptAt. simpl. unfold similarityTo at 2.
    destruct (geb _ t); simpl; [now rewrite <- app_assoc|reflexivity].
Qed.

(** A record of another dimension makes the loop throw, whatever the
    threshold. *)
Lemma collectCandidates_other_dimension (q : list float) (t : float)
    (docs : list StoredEmbedding) : forall candidates,
  forallb (sameDimension q) docs = false ->
  collectCandidates q t docs candidates
  = Err (RAGError "similarity" "Vectors must have the same dimensions").
Proof.
  induction docs as [|data docs IH]; intros candidates Hdim; simpl in *.
  - discriminate.
  - unfold calculateCosineSimilarity.
    destruct (sameDimension q data) eqn:Hd; unfold sameDimension in Hd; rewrite Hd; simpl.
    + apply IH. exact Hdim.
    + reflexivity.
Qed.

Lemma insertCandidate_perm (a : VectorSearchResult) (l : list VectorSearchResult) :
  Permutation (insertCandidate a l) (a :: l).
Proof.
  induction l as [|b l IH]; simpl; [reflexivity|].
  destruct (res_score a <? res_score b)%float; [|reflexivity].
  rewrite IH. apply perm_swap.
Qed.

Lemma sortBySimilarity_perm (l : list VectorSearchResult) :
  Permutation (sortBySimilarity l) l.
Proof.
  induction l as [|a l IH]; simpl; [reflexivity|].
  rewrite insertCandidate_perm. now constructor.
Qed.

Lemma scoreAtLeast_trans (a b c : VectorSearchResult) :
  scoreAtLeast a b -> scoreAtLeast b c -> scoreAtLeast a c.
Proof.
  unfold scoreAtLeast, geb. intros Hab Hbc.
  exact (float_leb_trans _ _ _ Hbc Hab).
Qed.

Lemma insertCandidate_sorted (t : float) (a : VectorSearchResult)
    (l : list VectorSearchResult) :
  reaches t a -> Forall (reaches t) l ->
  StronglySorted scoreAtLeast l ->
  StronglySorted scoreAtLeast (insertCandidate a l).
Proof.
  intros Ha Hl Hsorted. induction Hsorted as [|b l Hsl IH Hb]; simpl.
  - repeat constructor.
  - inversion Hl as [|? ? Hrb Hrl]; subst.
    destruct (res_score a <? res_score b)%float eqn:Hlt.
    + constructor; [now apply IH|].
      apply (Permutation_Forall (Permutation_sym (insertCandidate_perm a l))).
      constructor; [|exact Hb].
      unfold scoreAtLeast, geb. now apply float_ltb_leb.
    + assert (Hab : scoreAtLeast a b).
      { unfold scoreAtLeast, geb.
        apply (float_ltb_false_leb t); assumption. }
      constructor; [now constructor|].
      constructor; [exact Hab|].
      eapply Forall_impl; [|exact Hb].
      intros c Hbc. now apply (scoreAtLeast_trans a b c).
Qed.

Lemma sortBySimilarity_sorted (t : float) (l : list VectorSearchResult) :
  Forall (reaches t) l -> StronglySorted scoreAtLeast (sortBySimilarity l).
Proof.
  induction 1 as [|a l Ha Hl IH]; simpl; [constructor|].
  apply (insertCandidate_sorted t); auto.
  apply (Permutation_Forall (Permutation_sym (sortBySimilarity_perm l))). exact Hl.
Qed.

Lemma in_firstn {A} (x : A) (n : nat) (l : list A) :
  In x (firstn n l) -> In x l.
Proof.
  revert l. induction n as [|n IH]; intros [|a l]; simpl; try tauto.
  intros [->|H]; auto.
Qed.

Lemma StronglySorted_firstn {A} (R : A -> A -> Prop) (n : nat) (l : list A) :
  StronglySorted R l -> StronglySorted R (firstn n l).
Proof.
  intros H. revert n. induction H as [|a l Hl IH Ha]; intros [|n]; simpl;
    try constructor; auto.
  rewrite Forall_forall in *. intros x Hx. apply Ha.
  eapply in_firstn; eauto.
Qed.

Lemma keptAt_reaches (q : list float) (t : float) (docs : list StoredEmbedding) :
  Forall (reaches t) (keptAt q t docs).
Proof.
  unfold keptAt. apply Forall_forall. intros r Hr.
  apply in_map_iff in Hr as (data & <- & Hin).
  apply filter_In in Hin as [_ Hge]. exact Hge.
Qed.

(** Raising the threshold keeps fewer candidates. *)
Lemma keptAt_mono (q : list float) (t1 t2 : float) (docs : list StoredEmbedding) :
  (t1 <=? t2)%float = true ->
  (List.length (keptAt q t2 docs) <= List.length (keptAt q t1 docs))%nat.
Proof.
  intros Ht. unfold keptAt. rewrite !length_map.
  induction docs as [|data docs IH]; simpl; [lia|].
  destruct (geb (similarityTo q data) t2) eqn:H2.
  - assert (H1 : geb (similarityTo q data) t1 = true).
    { unfold geb in *. exact (float_leb_trans _ _ _ Ht H2). }
    rewrite H1. simpl. lia.
  - destruct (geb (similarityTo q data) t1); simpl; lia.
Qed.

Lemma slice_from_zero {A} (l : list A) (limit : Z) :
  0 <= limit ->
  slice l 0 limit = firstn (Z.to_nat limit) l.
Proof.
  intros Hlimit. unfold slice, relativeIndex.
  destruct (Z.ltb_spec 0 0); [lia|].
  destruct (Z.ltb_spec limit 0); [lia|].
  replace (Z.min 0 (Z.of_nat (List.length l))) with 0 by lia.
  simpl skipn. rewrite Z.sub_0_r.
  destruct (Z.min_spec limit (Z.of_nat (List.length l))) as [[_ ->]|[Hle ->]].
  - reflexivity.
  - rewrite Nat2Z.id. rewrite !firstn_all2; auto; lia.
Qed.

Lemma cut_negative (limit : Z) :
  (Z.min (limit * 10) 1000 <? 0) = (limit <? 0).
Proof.
  destruct (Z.ltb_spec limit 0); destruct (Z.ltb_spec (Z.min (limit * 10) 1000) 0); lia.
Qed.

(** What [vectorSearch] returns when the read of the collection succeeds,
    in terms of the threshold and the limit in effect. *)
Lemma vectorSearch_unfold (config : Config.Rag) (collection : list StoredEmbedding)
    (rejection : AppError) (query : VectorSearchQuery) :
  let limit := limitInEffect config query in
  let threshold := thresholdInEffect config query in
  let docs := candidatesOf config collection query in
  vectorSearch config (Ok collection) rejection query
  = if limit <? 0 then Err (searchFailure rejection)
    else if forallb (sameDimension (qry_embedding query)) docs then
      let results :=
        slice (sortBySimilarity (keptAt (qry_embedding query) threshold docs)) 0 limit in
      Ok {| rsp_results := results;
            rsp_totalResults := Z.of_nat (List.length results);
            rsp_limit := limit; rsp_threshold := threshold |}
    else
      Err (RAGError "vector_search"
             "Vector search failed: RAG similarity: Vectors must have the same dimensions").
Proof.
  intros limit threshold docs. subst limit threshold docs.
  unfold vectorSearch, snapshot, candidatesOf, limitInEffect, thresholdInEffect.
  set (limit := orDefaultZ _ _). set (threshold := orDefault _ _).
  rewrite cut_negative. destruct (limit <? 0); [reflexivity|].
  set (docs := firstn _ _).
  destruct (forallb (sameDimension (qry_embedding query)) docs) eqn:Hdim.
  - rewrite collectCandidates_same_dimension by exact Hdim.
    destruct docs; [|reflexivity].
    simpl. unfold slice. now rewrite skipn_nil, firstn_nil.
  - rewrite collectCandidates_other_dimension by exact Hdim.
    destruct docs; [discriminate|reflexivity].
Qed.

(** A read that fails makes the search fail. *)
Lemma vectorSearch_read_fails (config : Config.Rag) (e rejection : AppError)
    (query : VectorSearchQuery) :
  vectorSearch config (Err e) rejection query = Err (searchFailure e).
Proof. reflexivity. Qed.

(** A zero threshold does not take effect: the candidate of similarity 0.6 is
    dropped at the caller's threshold 0, and kept at the higher threshold
    0.5. *)
Lemma vectorSearch_zero_threshold_counterexample :
  geb (similarityTo [3; 4]%float (Samples.storedVector "e1"%string [1; 0]%float)) 0 = true
  /\ resultCount (vectorSearch Config.defaults (Ok Samples.oneVector)
                    Samples.invalidArgument
                    (Samples.searchFor [3; 4]%float (Some 5) (Some 0%float))) = 0%nat
  /\ (0 <=? 0.5)%float = true
  /\ resultCount (vectorSearch Config.defaults (Ok Samples.oneVector)
                    Samples.invalidArgument
                    (Samples.searchFor [3; 4]%float (Some 5) (Some 0.5%float))) = 1%nat.
Proof. repeat split; vm_compute; reflexivity. Qed.

(** C3, as the code has it.  With the threshold and the limit in effect (the
    caller's when not zero, the configured ones otherwise), a store that
    answers, and every pre-filtered candidate of the dimension of the query:
    [vectorSearch] keeps exactly the candidates whose similarity is at least
    the threshold, sorts them by descending score and returns the first
    [limit] of them.  A limit in effect that is negative is rejected by the
    store, and a read that fails makes the search fail.  A query that
    differs only by a higher threshold in effect never has more results. *)
Theorem vectorSearch_filters_sorts_limits (config : Config.Rag)
    (collection : list StoredEmbedding) (rejection : AppError)
    (query : VectorSearchQuery) :
  let threshold := thresholdInEffect config query in
  let limit := limitInEffect config query in
  let docs := candidatesOf config collection query in
  (0 <= limit ->
   forallb (sameDimension (qry_embedding query)) docs = true ->
   exists response sorted,
     vectorSearch config (Ok collection) rejection query = Ok response
     /\ Permutation sorted (keptAt (qry_embedding query) threshold docs)
     /\ StronglySorted scoreAtLeast sorted
     /\ rsp_results response = firstn (Z.to_nat limit) sorted
     /\ Forall (reaches threshold) (rsp_results response)
     /\ StronglySorted scoreAtLeast (rsp_results response)
     /\ Z.of_nat (List.length (rsp_results response)) <= limit)
  /\ (limit < 0 ->
      vectorSearch config (Ok collection) rejection query
      = Err (searchFailure rejection))
  /\ (forall e, vectorSearch config (Err e) rejection query = Err (searchFailure e))
  /\ (forall query',
        qry_embedding query' = qry_embedding query ->
        qry_limit query' = qry_limit query ->
        qry_filters query' = qry_filters query ->
        (threshold <=? thresholdInEffect config query')%float = true ->
        (resultCount (vectorSearch config (Ok collection) rejection query')
         <= resultCount (vectorSearch config (Ok collection) rejection query))%nat).
Proof.
  intros threshold limit docs. split; [|split; [|split]].
  - intros Hlimit Hdim. rewrite vectorSearch_unfold.
    fold threshold limit docs. rewrite Hdim.
    destruct (Z.ltb_spec limit 0); [lia|]. cbv zeta.
    set (sorted := sortBySimilarity (keptAt (qry_embedding query) threshold docs)).
    assert (Hres : slice sorted 0 limit = firstn (Z.to_nat limit) sorted)
      by now apply slice_from_zero.
    assert (Hsorted : StronglySorted scoreAtLeast sorted)
      by (apply (sortBySimilarity_sorted threshold), keptAt_reaches).
    assert (Hperm : Permutation sorted (keptAt (qry_embedding query) threshold docs))
      by apply sortBySimilarity_perm.
    eexists. exists sorted. split; [reflexivity|]. cbn [rsp_results].
    rewrite Hres. repeat split; auto.
    + apply Forall_forall. intros r Hr. apply in_firstn in Hr.
      pose proof (keptAt_reaches (qry_embedding query) threshold docs) as Hk.
      rewrite Forall_forall in Hk. apply Hk.
      now apply (Permutation_in _ Hperm).
    + now apply StronglySorted_firstn.
    + rewrite length_firstn. lia.
  - intros Hlimit. rewrite vectorSearch_unfold. fold limit.
    destruct (Z.ltb_spec limit 0); [reflexivity|lia].
  - intros e. apply vectorSearch_read_fails.
  - intros query' Hemb Hlim Hflt Hraise.
    rewrite !vectorSearch_unfold. cbv zeta.
    assert (Hdocs : candidatesOf config collection query' = docs).
    { unfold docs, candidatesOf, limitInEffect. now rewrite Hlim, Hflt. }
    assert (Hlimit : limitInEffect config query' = limit).
    { unfold limit, limitInEffect. now rewrite Hlim. }
    rewrite Hdocs, Hlimit, Hemb. fold docs limit threshold.
    destruct (Z.ltb_spec limit 0); [simpl; lia|].
    destruct (forallb (sameDimension (qry_embedding query)) docs); simpl; [|lia].
    rewrite !slice_from_zero by assumption. rewrite !length_firstn.
    rewrite !(Permutation_length (sortBySimilarity_perm _)).
    pose proof (keptAt_mono (qry_embedding query) threshold
                  (thresholdInEffect config query') docs Hraise).
    lia.
Qed.

Lemma vectorSearch_filters_sorts_limits_witness :
  let query := Samples.searchFor [3; 4]%float (Some 2) (Some 0.75%float) in
  let query' := Samples.searchFor [3; 4]%float (Some 2) (Some 0.96875%float) in
  (exists response sorted,
     vectorSearch Config.defaults (Ok Samples.sixVectors) Samples.invalidArgument query
     = Ok response
     /\ Permutation sorted
          (keptAt [3; 4]%float 0.75%float
             (candidatesOf Config.defaults Samples.sixVectors query))
     /\ StronglySorted scoreAtLeast sorted
     /\ rsp_results response = firstn (Z.to_nat 2) sorted
     /\ Forall (reaches 0.75%float) (rsp_results response)
     /\ StronglySorted scoreAtLeast (rsp_results response)
     /\ Z.of_nat (List.length (rsp_results response)) <= 2
     /\ map res_id
          (keptAt [3; 4]%float 0.75%float
             (candidatesOf Config.defaults Samples.sixVectors query))
        = ["e2"; "e3"; "e4"; "e6"]%string
     /\ map res_id (rsp_results response) = ["e3"; "e6"]%string)
  /\ (resultCount (vectorSearch Config.defaults (Ok Samples.sixVectors)
                     Samples.invalidArgument query')
      <= resultCount (vectorSearch Config.defaults (Ok Samples.sixVectors)
                        Samples.invalidArgument query))%nat
  /\ resultCount (vectorSearch Config.defaults (Ok Samples.sixVectors)
                    Samples.invalidArgument query') = 2%nat.
Proof.
  intros query query'.
  destruct (vectorSearch_filters_sorts_limits Config.defaults Samples.sixVectors
              Samples.invalidArgument query)
    as (Hok & _ & _ & Hmono).
  split; [|split].
  - destruct Hok as (response & sorted & Hres & Hperm & Hsorted & Hcut & Hreach
                     & Hdesc & Hlen); [discriminate|reflexivity|].
    exists response, sorted. repeat (split; [assumption|]).
    split; [vm_compute; reflexivity|].
    vm_compute in Hres. injection Hres as <-. reflexivity.
  - apply Hmono; reflexivity.
  - vm_compute. reflexivity.
Defined.

(** A threshold that is NaN is not used as given: no similarity reaches
    NaN, so that it would keep no candidate, but the search answers with the
    candidates that reach the configured threshold. *)
Lemma vectorSearch_nan_threshold_counterexample :
  (nan =? 0)%float = false
  /\ keptAt [3; 4]%float nan Samples.sixVectors = []
  /\ exists response,
       vectorSearch Config.defaults (Ok Samples.sixVectors) Samples.invalidArgument
         (Samples.searchFor [3; 4]%float (Some 5) (Some nan)) = Ok response
       /\ map res_id (rsp_results response) = ["e3"; "e6"; "e4"; "e2"]%string
       /\ rsp_threshold response = Config.similarityThreshold Config.defaults.
Proof.
  split; [reflexivity|]. split; [vm_compute; reflexivity|].
  eexists. split; [vm_compute; reflexivity|]. split; reflexivity.
Qed.

(** C10, as the code has it.  A caller's threshold of 0 and a caller's limit
    of 0 are replaced by the configured defaults, and so is a threshold that
    is NaN; every other threshold and every other limit is used as given.
    With these values, a store that answers and candidates of the dimension
    of the query, the search returns the candidates that reach the
    threshold, sorted, cut at the limit; a negative limit is handed to the
    store as it is, which rejects it. *)
Theorem vectorSearch_falsy_defaults (config : Config.Rag)
    (collection : list StoredEmbedding) (rejection : AppError)
    (query : VectorSearchQuery) (t : float) (n : Z) :
  qry_threshold query = Some t ->
  qry_limit query = Some n ->
  let threshold :=
    if (t =? 0)%float || is_nan t then Config.similarityThreshold config else t in
  let limit := if n =? 0 then Config.maxRetrievalResults config else n in
  let docs :=
    firstn (Z.to_nat (Z.min (limit * 10) 1000))
      (filter (matchesFilters (qry_filters query)) collection) in
  let results :=
    firstn (Z.to_nat limit)
      (sortBySimilarity (keptAt (qry_embedding query) threshold docs)) in
  (0 <= limit ->
   forallb (sameDimension (qry_embedding query)) docs = true ->
   vectorSearch config (Ok collection) rejection query
   = Ok {| rsp_results := results;
           rsp_totalResults := Z.of_nat (List.length results);
           rsp_limit := limit; rsp_threshold := threshold |})
  /\ (limit < 0 ->
      vectorSearch config (Ok collection) rejection query
      = Err (searchFailure rejection)).
Proof.
  intros Ht Hn threshold limit docs results.
  assert (Hthreshold : thresholdInEffect config query = threshold).
  { unfold thresholdInEffect, orDefault, isFalsy. now rewrite Ht. }
  assert (Hlimit : limitInEffect config query = limit).
  { unfold limitInEffect, orDefaultZ. now rewrite Hn. }
  assert (Hdocs : candidatesOf config collection query = docs).
  { unfold candidatesOf. now rewrite Hlimit. }
  rewrite vectorSearch_unfold. cbv zeta. rewrite Hthreshold, Hlimit, Hdocs.
  split.
  - intros Hpos Hdim. destruct (Z.ltb_spec limit 0); [lia|]. rewrite Hdim.
    rewrite slice_from_zero by assumption. reflexivity.
  - intros Hneg. destruct (Z.ltb_spec limit 0); [reflexivity|lia].
Qed.

Lemma vectorSearch_falsy_defaults_witness :
  let kept := keptAt [3; 4]%float (Config.similarityThreshold Config.defaults)
                Samples.eighteenVectors in
  vectorSearch Config.defaults (Ok Samples.eighteenVectors) Samples.invalidArgument
    (Samples.searchFor [3; 4]%float (Some 0) (Some 0%float))
  = Ok {| rsp_results := firstn 10 (sortBySimilarity kept);
          rsp_totalResults := 10;
          rsp_limit := 10;
          rsp_threshold := Config.similarityThreshold Config.defaults |}
  /\ List.length kept = 12%nat
  /\ List.length (keptAt [3; 4]%float 0 Samples.eighteenVectors) = 15%nat
  /\ vectorSearch Config.defaults (Ok Samples.eighteenVectors) Samples.invalidArgument
       (Samples.searchFor [3; 4]%float (Some 3) (Some 0.5%float))
     = Ok {| rsp_results :=
               firstn 3 (sortBySimilarity
                           (keptAt [3; 4]%float 0.5 Samples.eighteenVectors));
             rsp_totalResults := 3;
             rsp_limit := 3;
             rsp_threshold := 0.5 |}
  /\ vectorSearch Config.defaults (Ok Samples.eighteenVectors) Samples.invalidArgument
       (Samples.searchFor [3; 4]%float (Some (-1)) (Some 0.5%float))
     = Err (searchFailure Samples.invalidArgument).
Proof.
  intros kept.
  split; [|split; [|split; [|split]]].
  - exact (proj1 (vectorSearch_falsy_defaults Config.defaults Samples.eighteenVectors
                    Samples.invalidArgument
                    (Samples.searchFor [3; 4]%float (Some 0) (Some 0%float))
                    0%float 0 eq_refl eq_refl)
             ltac:(discriminate) eq_refl).
  - vm_compute. reflexivity.
  - vm_compute. reflexivity.
  - exact (proj1 (vectorSearch_falsy_defaults Config.defaults Samples.eighteenVectors
                    Samples.invalidArgument
                    (Samples.searchFor [3; 4]%float (Some 3) (Some 0.5%float))
                    0.5%float 3 eq_refl eq_refl)
             ltac:(discriminate) eq_refl).
  - exact (proj2 (vectorSearch_falsy_defaults Config.defaults Samples.eighteenVectors
                    Samples.invalidArgument
                    (Samples.searchFor [3; 4]%float (Some (-1)) (Some 0.5%float))
                    0.5%float (-1) eq_refl eq_refl)
             eq_refl).
Defined.

End VectorSearchFacts.

(** ** Rules for the writes of a method *)

Section TaskRules.
Import Errors Model Task TaskLogic.

Variable jobId : Id.
Variable R : IngestionJobStatus -> IngestionJobStatus -> Prop.
Variable G : Action -> Prop.

Lemma jobAfter_app (job : IngestionJobStatus) (t1 t2 : list Action) :
  jobAfter jobId job (t1 ++ t2) = jobAfter jobId (jobAfter jobId job t1) t2.
Proof. unfold jobAfter. apply fold_left_app. Qed.

Lemma admissible_app (t1 t2 : list Action) : forall job,
  admissible jobId R G job t1 ->
  admissible jobId R G (jobAfter jobId job t1) t2 ->
  admissible jobId R G job (t1 ++ t2).
Proof.
  induction t1 as [|a t1 IH]; intros job H1 H2; simpl in *; [exact H2|].
  destruct H1 as (Ha & Hr & H1). repeat split; auto.
Qed.

Context {S : Type}.

Lemma triple_consequence {A} (P P' : IngestionJobStatus -> S -> Prop)
    (Q Q' : outcome A -> IngestionJobStatus -> S -> Prop) (m : Task S A) :
  triple jobId R G P' m Q' ->
  (forall job s, P job s -> P' job s) ->
  (forall o job s, Q' o job s -> Q o job s) ->
  triple jobId R G P m Q.
Proof.
  intros Hm HP HQ job s Hpre. destruct (Hm job s (HP _ _ Hpre)). auto.
Qed.

Lemma triple_ret {A} (P : IngestionJobStatus -> S -> Prop)
    (Q : outcome A -> IngestionJobStatus -> S -> Prop) (a : A) :
  (forall job s, P job s -> Q (Returns a) job s) ->
  triple jobId R G P (ret a) Q.
Proof. intros H job s Hpre. split; [exact I|]. apply H, Hpre. Qed.

Lemma triple_throw {A} (P : IngestionJobStatus -> S -> Prop)
    (Q : outcome A -> IngestionJobStatus -> S -> Prop) (e : AppError) :
  (forall job s, P job s -> Q (Throws e) job s) ->
  triple jobId R G P (throw e) Q.
Proof. intros H job s Hpre. split; [exact I|]. apply H, Hpre. Qed.

Lemma triple_hang {A} (P : IngestionJobStatus -> S -> Prop)
    (Q : outcome A -> IngestionJobStatus -> S -> Prop) :
  (forall job s, P job s -> Q Hangs job s) ->
  triple jobId R G P hang Q.
Proof. intros H job s Hpre. split; [exact I|]. apply H, Hpre. Qed.

Lemma triple_get (P : IngestionJobStatus -> S -> Prop)
    (Q : outcome S -> IngestionJobStatus -> S -> Prop) :
  (forall job s, P job s -> Q (Returns s) job s) ->
  triple jobId R G P get Q.
Proof. intros H job s Hpre. split; [exact I|]. apply H, Hpre. Qed.

Lemma triple_modify (P : IngestionJobStatus -> S -> Prop)
    (Q : outcome unit -> IngestionJobStatus -> S -> Prop) (f : S -> S) :
  (forall job s, P job s -> Q (Returns tt) job (f s)) ->
  triple jobId R G P (modify f) Q.
Proof. intros H job s Hpre. split; [exact I|]. apply H, Hpre. Qed.

Lemma triple_write (P : IngestionJobStatus -> S -> Prop)
    (Q : outcome unit -> IngestionJobStatus -> S -> Prop) (a : Action) :
  (forall job s, P job s ->
     G a /\ R job (effectOn jobId job a)
     /\ Q (Returns tt) (effectOn jobId job a) s) ->
  triple jobId R G P (write a) Q.
Proof.
  intros H job s Hpre. destruct (H job s Hpre) as (Ha & Hr & Hq).
  simpl. auto.
Qed.

Lemma triple_ofResult {A} (P : IngestionJobStatus -> S -> Prop)
    (Q : outcome A -> IngestionJobStatus -> S -> Prop) (r : result A) :
  (forall job s, P job s ->
     match r with
     | Ok a => Q (Returns a) job s
     | Err e => Q (Throws e) job s
     end) ->
  triple jobId R G P (ofResult r) Q.
Proof.
  intros H job s Hpre. specialize (H job s Hpre). destruct r; simpl; auto.
Qed.

Lemma triple_ofLoop {A} (P : IngestionJobStatus -> S -> Prop)
    (Q : outcome A -> IngestionJobStatus -> S -> Prop) (r : option A) :
  (forall job s, P job s ->
     match r with
     | Some a => Q (Returns a) job s
     | None => Q Hangs job s
     end) ->
  triple jobId R G P (ofLoop r) Q.
Proof.
  intros H job s Hpre. specialize (H job s Hpre). destruct r; simpl; auto.
Qed.

Lemma triple_bind {A B} (P : IngestionJobStatus -> S -> Prop)
    (Q1 : outcome A -> IngestionJobStatus -> S -> Prop)
    (Q : outcome B -> IngestionJobStatus -> S -> Prop)
    (m : Task S A) (k : A -> Task S B) :
  triple jobId R G P m Q1 ->
  (forall a, triple jobId R G (Q1 (Returns a)) (k a) Q) ->
  (forall e job s, Q1 (Throws e) job s -> Q (Throws e) job s) ->
  (forall job s, Q1 Hangs job s -> Q Hangs job s) ->
  triple jobId R G P (bind m k) Q.
Proof.
  intros Hm Hk He Hh job s Hpre. destruct (Hm job s Hpre) as [Hadm Hq].
  unfold bind, traceOf, outcomeOf, localsOf in *.
  destruct (m s) as [[t1 s1] o]. simpl in *.
  destruct o as [a|e|]; simpl; auto.
  destruct (Hk a _ _ Hq) as [Hadm2 Hq2].
  unfold traceOf, outcomeOf, localsOf in *.
  destruct (k a s1) as [[t2 s2] o2]. simpl in *.
  split; [now apply admissible_app|]. now rewrite jobAfter_app.
Qed.

Lemma triple_tryCatch {A} (P : IngestionJobStatus -> S -> Prop)
    (Q1 Q : outcome A -> IngestionJobStatus -> S -> Prop)
    (m : Task S A) (handler : AppError -> Task S A) :
  triple jobId R G P m Q1 ->
  (forall e, triple jobId R G (Q1 (Throws e)) (handler e) Q) ->
  (forall a job s, Q1 (Returns a) job s -> Q (Returns a) job s) ->
  (forall job s, Q1 Hangs job s -> Q Hangs job s) ->
  triple jobId R G P (tryCatch m handler) Q.
Proof.
  intros Hm Hh Hr Hhang job s Hpre. destruct (Hm job s Hpre) as [Hadm Hq].
  unfold tryCatch, traceOf, outcomeOf, localsOf in *.
  destruct (m s) as [[t1 s1] o]. simpl in *.
  destruct o as [a|e|]; simpl; auto.
  destruct (Hh e _ _ Hq) as [Hadm2 Hq2].
  unfold traceOf, outcomeOf, localsOf in *.
  destruct (handler e s1) as [[t2 s2] o2]. simpl in *.
  split; [now apply admissible_app|]. now rewrite jobAfter_app.
Qed.

Lemma triple_assume_r {A} (fact : Prop) (P : IngestionJobStatus -> S -> Prop)
    (Q : outcome A -> IngestionJobStatus -> S -> Prop) (m : Task S A) :
  (fact -> triple jobId R G P m Q) ->
  triple jobId R G (fun job s => P job s /\ fact) m Q.
Proof. intros H job s [Hpre Hfact]. now apply H. Qed.

Lemma triple_call {S' A} (P : IngestionJobStatus -> S -> Prop)
    (P' : IngestionJobStatus -> S' -> Prop)
    (Q' : outcome A -> IngestionJobStatus -> S' -> Prop)
    (Q : outcome A -> IngestionJobStatus -> S -> Prop)
    (m : Task S' A) (locals : S') :
  triple jobId R G P' m Q' ->
  (forall job s, P job s -> P' job locals) ->
  (forall o job s' s, Q' o job s' -> Q o job s) ->
  triple jobId R G P (call m locals) Q.
Proof.
  intros Hm HP HQ job s Hpre. destruct (Hm job locals (HP _ _ Hpre)) as [Hadm Hq].
  unfold call, traceOf, outcomeOf, localsOf in *.
  destruct (m locals) as [[t s'] o]. simpl in *. eauto.
Qed.

End TaskRules.

(** ** What the store is given to persist *)

Section EmitsOnly.
Import Errors Model Task TaskLogic.

Variable G : Action -> Prop.
Context {S : Type}.

Lemma emitsOnly_ret {A} (a : A) : emitsOnly (S := S) G (ret a).
Proof. intros s. constructor. Qed.

Lemma emitsOnly_throw {A} (e : AppError) : emitsOnly (S := S) (A := A) G (throw e).
Proof. intros s. constructor. Qed.

Lemma emitsOnly_hang {A} : emitsOnly (S := S) (A := A) G hang.
Proof. intros s. constructor. Qed.

Lemma emitsOnly_get : emitsOnly (S := S) G get.
Proof. intros s. constructor. Qed.

Lemma emitsOnly_modify (f : S -> S) : emitsOnly G (modify f).
Proof. intros s. constructor. Qed.

Lemma emitsOnly_write (a : Action) : G a -> emitsOnly (S := S) G (write a).
Proof. intros Ha s. repeat constructor. exact Ha. Qed.

Lemma emitsOnly_ofResult {A} (r : result A) : emitsOnly (S := S) G (ofResult r).
Proof. intros s. destruct r; constructor. Qed.

Lemma emitsOnly_ofLoop {A} (r : option A) : emitsOnly (S := S) G (ofLoop r).
Proof. intros s. destruct r; constructor. Qed.

Lemma emitsOnly_bind {A B} (m : Task S A) (k : A -> Task S B) :
  emitsOnly G m ->
  (forall a, canReturn m a -> emitsOnly G (k a)) ->
  emitsOnly G (bind m k).
Proof.
  intros Hm Hk s. specialize (Hm s).
  assert (Hret : forall a, outcomeOf (m s) = Returns a -> canReturn m a)
    by (intros a Ha; exists s; exact Ha).
  unfold bind, traceOf, outcomeOf in *.
  destruct (m s) as [[t1 s1] o]. simpl in *.
  destruct o as [a|e|]; simpl; auto.
  specialize (Hk a (Hret a eq_refl) s1). unfold traceOf in Hk.
  destruct (k a s1) as [[t2 s2] o2]. simpl in *.
  apply Forall_app. auto.
Qed.

Lemma emitsOnly_tryCatch {A} (m : Task S A) (handler : AppError -> Task S A) :
  emitsOnly G m -> (forall e, emitsOnly G (handler e)) ->
  emitsOnly G (tryCatch m handler).
Proof.
  intros Hm Hh s. specialize (Hm s).
  unfold tryCatch, traceOf in *.
  destruct (m s) as [[t1 s1] o]. simpl in *.
  destruct o as [a|e|]; simpl; auto.
  specialize (Hh e s1). unfold traceOf in Hh.
  destruct (handler e s1) as [[t2 s2] o2]. simpl in *.
  apply Forall_app. auto.
Qed.

Lemma emitsOnly_call {S' A} (m : Task S' A) (locals : S') :
  emitsOnly G m -> emitsOnly (S := S) G (call m locals).
Proof.
  intros Hm s. specialize (Hm locals). unfold call, traceOf in *.
  destruct (m locals) as [[t s'] o]. exact Hm.
Qed.

Lemma canReturn_ofResult {A} (r : result A) (a : A) :
  canReturn (S := S) (ofResult r) a -> r = Ok a.
Proof.
  intros [s Hs]. destruct r; simpl in Hs; [now injection Hs as ->|discriminate].
Qed.

End EmitsOnly.

Section StoredEmbeddings.
Import Js Errors JsNumber Model Task TaskLogic IngestionService.
Local Open Scope Z_scope.

Variable w : World.
Variable config : Config.Rag.

Let G := persistedAsEmbedded w.
Let svc := EmbeddingService.new config.

(** A response of [generateEmbedding] carries the vector the embedder gave
    for the first 8192 code units of the text. *)
Lemma generateEmbedding_ok (request_text : jsString)
    (response : EmbeddingService.EmbeddingResponse) :
  EmbeddingService.generateEmbedding svc (embed w) request_text = Ok response ->
  embed w (firstn (Z.to_nat 8192) request_text)
  = Ok (EmbeddingService.embedding response)
  /\ EmbeddingService.text response = firstn (Z.to_nat 8192) request_text.
Proof.
  unfold EmbeddingService.generateEmbedding.
  destruct (length request_text =? 0); [discriminate|].
  destruct (length (trim request_text) =? 0); [discriminate|].
  simpl EmbeddingService.svc_maxTextLength.
  assert (Hcut : (if length request_text >? 8192
                  then substring request_text 0 8192 else request_text)
                 = firstn (Z.to_nat 8192) request_text).
  { destruct (Z.gtb_spec (length request_text) 8192) as [Hlong|Hshort].
    - rewrite substring_inside by lia. reflexivity.
    - rewrite firstn_all2; [reflexivity|]. unfold length in Hshort. lia. }
  rewrite Hcut.
  destruct (embed w _) as [v|e] eqn:Hembed.
  - intros [= <-]. simpl. auto.
  - destruct (isRAGError e); discriminate.
Qed.

Context {S : Type}.

Lemma storeDocument_emits (content : jsString) (metadata : DocumentMetadata) :
  emitsOnly (S := S) G (FirestoreService.storeDocument w content metadata).
Proof.
  unfold FirestoreService.storeDocument.
  destruct (addDocument w content metadata).
  - apply emitsOnly_bind; [apply emitsOnly_write; exact I|].
    intros; apply emitsOnly_ret.
  - apply emitsOnly_throw.
Qed.

Lemma storeEmbedding_emits (documentId : Id) (response : EmbeddingService.EmbeddingResponse)
    (content : jsString) (metadata : DocumentMetadata) :
  EmbeddingService.generateEmbedding svc (embed w) content = Ok response ->
  emitsOnly (S := S) G
    (FirestoreService.storeEmbedding w documentId
       (EmbeddingService.embedding response) content metadata
       (EmbeddingService.model response)).
Proof.
  intros Hgen. unfold FirestoreService.storeEmbedding.
  destruct (addEmbedding w _ _ _ _).
  - apply emitsOnly_bind; [|intros; apply emitsOnly_ret].
    apply emitsOnly_write. simpl. split; [|reflexivity].
    apply (generateEmbedding_ok _ _ Hgen).
  - apply emitsOnly_throw.
Qed.

Lemma updateJobStatus_emits (jobId : Id) (updates : JobUpdate) :
  emitsOnly (S := S) G (updateJobStatus jobId updates).
Proof. apply emitsOnly_write. exact I. Qed.

End StoredEmbeddings.

Section StoredEmbeddingsOfAJob.
Import Js Errors JsNumber Model Task TaskLogic IngestionService.
Local Open Scope Z_scope.

Variable w : World.
Variable config : Config.Rag.

Let G := persistedAsEmbedded w.
Let svc := EmbeddingService.new config.

Lemma embedChunks_emits (documentId : Id) (metadata : DocumentMetadata)
    (totalChunks : Z) (chunks : list jsString) : forall chunkIndex,
  emitsOnly G (embedChunks w svc documentId metadata totalChunks chunkIndex chunks).
Proof.
  induction chunks as [|chunk rest IH]; intros chunkIndex; simpl.
  - apply emitsOnly_ret.
  - apply emitsOnly_bind; [apply emitsOnly_ofResult|].
    intros response Hret. apply canReturn_ofResult in Hret.
    apply emitsOnly_bind; [now apply (storeEmbedding_emits w config)|].
    intros _ _. apply emitsOnly_bind; [apply emitsOnly_modify|].
    intros _ _. apply IH.
Qed.

Lemma storeOne_emits (generateEmbeddings : bool) (doc : ProcessedDocument) :
  emitsOnly G (storeOne w svc generateEmbeddings doc).
Proof.
  unfold storeOne, storeAttempt.
  apply emitsOnly_tryCatch; [|intros; apply emitsOnly_modify].
  apply emitsOnly_bind; [apply (storeDocument_emits w)|].
  intros documentId _. apply emitsOnly_bind; [apply emitsOnly_modify|].
  intros _ _. destruct generateEmbeddings; [|apply emitsOnly_ret].
  unfold embedDocument.
  apply emitsOnly_bind; [apply emitsOnly_ofResult|].
  intros response Hret. apply canReturn_ofResult in Hret.
  apply emitsOnly_bind; [now apply (storeEmbedding_emits w config)|].
  intros _ _. apply emitsOnly_bind; [apply emitsOnly_modify|].
  intros _ _. destruct (pd_chunks doc) as [[|chunk rest]|];
    try apply emitsOnly_ret.
  apply embedChunks_emits.
Qed.

Lemma storeBatch_emits (generateEmbeddings : bool) (batch : list ProcessedDocument) :
  emitsOnly G (storeBatch w svc generateEmbeddings batch).
Proof.
  induction batch as [|doc rest IH]; simpl.
  - apply emitsOnly_ret.
  - apply emitsOnly_bind; [apply storeOne_emits|]. intros _ _. exact IH.
Qed.

Lemma storeBatches_emits (jobId : Id) (generateEmbeddings : bool) (batchSize : Z)
    (documents : list ProcessedDocument) (fuel : nat) : forall i,
  emitsOnly G (storeBatches fuel w svc jobId generateEmbeddings batchSize documents i).
Proof.
  induction fuel as [|fuel IH]; intros i; simpl.
  - apply emitsOnly_hang.
  - destruct (i <? Z.of_nat (List.length documents)); [|apply emitsOnly_ret].
    apply emitsOnly_bind; [apply storeBatch_emits|]. intros _ _.
    apply emitsOnly_bind; [apply (updateJobStatus_emits w)|]. intros _ _.
    apply IH.
Qed.

Lemma storeDocumentsWithEmbeddings_emits (jobId : Id)
    (documents : list ProcessedDocument) (jobConfig : IngestionJobConfig) :
  emitsOnly G (storeDocumentsWithEmbeddings w config jobId documents jobConfig).
Proof.
  unfold storeDocumentsWithEmbeddings.
  apply emitsOnly_bind; [apply (updateJobStatus_emits w)|]. intros _ _.
  apply emitsOnly_bind; [apply storeBatches_emits|]. intros _ _.
  apply emitsOnly_get.
Qed.

Lemma processDocuments_for_emits (jobId : Id) (source : DataSource)
    (chunkSize chunkOverlap rawData_length : Z) (items : list RawRecord) : forall i,
  emitsOnly G (processDocuments_for w jobId source chunkSize chunkOverlap
                 rawData_length i items).
Proof.
  induction items as [|item rest IH]; intros i; simpl.
  - apply emitsOnly_ret.
  - apply emitsOnly_bind; [|intros _ _; apply IH].
    apply emitsOnly_tryCatch; [|intros; apply emitsOnly_ret].
    apply emitsOnly_bind.
    + unfold processDataItem.
      apply emitsOnly_tryCatch; [|intros; apply emitsOnly_ret].
      apply emitsOnly_bind; [apply emitsOnly_ofResult|intros; apply emitsOnly_ret].
    + intros processedDoc _.
      apply emitsOnly_bind; [|intros _ _; apply (updateJobStatus_emits w)].
      destruct processedDoc as [doc|]; [|apply emitsOnly_ret].
      apply emitsOnly_bind; [|intros; apply emitsOnly_modify].
      unfold chunkIfTooLong. destruct (_ >? _); [|apply emitsOnly_ret].
      apply emitsOnly_bind; [apply emitsOnly_ofLoop|intros; apply emitsOnly_ret].
Qed.

Lemma processIngestionJob_emits (jobId : Id) (jobConfig : IngestionJobConfig) :
  emitsOnly G (processIngestionJob w config jobId jobConfig).
Proof.
  unfold processIngestionJob.
  apply emitsOnly_tryCatch.
  - apply emitsOnly_bind; [apply (updateJobStatus_emits w)|]. intros _ _.
    apply emitsOnly_bind.
    { unfold fetchDataFromSource.
      apply emitsOnly_bind; [apply (updateJobStatus_emits w)|]. intros _ _.
      apply emitsOnly_tryCatch; [apply emitsOnly_ofResult|intros; apply emitsOnly_throw]. }
    intros rawData _. apply emitsOnly_bind.
    { apply emitsOnly_call. unfold processDocuments.
      apply emitsOnly_bind; [apply (updateJobStatus_emits w)|]. intros _ _.
      apply emitsOnly_bind; [apply processDocuments_for_emits|]. intros _ _.
      apply emitsOnly_get. }
    intros documents _. apply emitsOnly_bind.
    { apply emitsOnly_call. apply storeDocumentsWithEmbeddings_emits. }
    intros results _. apply (updateJobStatus_emits w).
  - intros e. apply emitsOnly_bind; [apply (updateJobStatus_emits w)|].
    intros _ _. apply emitsOnly_throw.
Qed.

End StoredEmbeddingsOfAJob.

Section StoredEmbeddingClaim.
Import Js Errors JsNumber Model Task TaskLogic IngestionService.
Local Open Scope Z_scope.

(** As the specification words the invariant, every vector [storeEmbedding]
    persists would have the configured dimension and finite components.  It
    persists what it is given: here a single infinite component, under a
    configured dimension of 768. *)
Lemma storeEmbedding_persists_any_vector :
  exists stored,
    traceOf (FirestoreService.storeEmbedding Samples.world "doc-1"
               [infinity] (ofString "text") Samples.someMetadata
               "text-embedding-004" tt)
    = [AddEmbedding stored]
    /\ Z.of_nat (List.length (se_embedding stored))
       <> Config.vectorDimension Config.defaults
    /\ forallb is_finite (se_embedding stored) = false.
Proof.
  eexists. split; [reflexivity|]. split; [discriminate|reflexivity].
Qed.

(** C9, as the code has it.  [storeEmbedding] persists the vector it is
    given, unchanged, and records its length as [dimensions].  Every
    embedding an ingestion job persists holds the vector the embedder
    returned for the first 8192 code units of the stored text.  Neither
    checks the vector: it has the configured dimension and finite components
    when the embedder's answer has. *)
Theorem stored_embedding_is_the_vector_given :
  (forall (w : World) (documentId : Id) (vector : list float) (content : jsString)
          (metadata : DocumentMetadata) (model : String.string) (stored : StoredEmbedding),
     In (AddEmbedding stored)
        (traceOf (FirestoreService.storeEmbedding w documentId vector content
                    metadata model tt)) ->
     se_embedding stored = vector
     /\ se_dimensions stored = Z.of_nat (List.length vector))
  /\ (forall (w : World) (config : Config.Rag) (jobId : Id)
             (jobConfig : IngestionJobConfig) (stored : StoredEmbedding),
        In (AddEmbedding stored)
           (traceOf (processIngestionJob w config jobId jobConfig tt)) ->
        embed w (firstn (Z.to_nat 8192) (se_content stored))
        = Ok (se_embedding stored)
        /\ se_dimensions stored = Z.of_nat (List.length (se_embedding stored))).
Proof.
  split.
  - intros w documentId vector content metadata model stored.
    unfold FirestoreService.storeEmbedding.
    destruct (addEmbedding w _ _ _ _); simpl; [|tauto].
    intros [[= <-]|[]]. split; reflexivity.
  - intros w config jobId jobConfig stored Hin.
    pose proof (processIngestionJob_emits w config jobId jobConfig tt) as Hall.
    rewrite Forall_forall in Hall. exact (Hall _ Hin).
Qed.

Lemma stored_embedding_is_the_vector_given_witness :
  exists stored,
    In (AddEmbedding stored)
       (traceOf (processIngestionJob Samples.world Config.defaults "gbif_1"
                   Samples.gbifJob tt))
    /\ embed Samples.world (firstn (Z.to_nat 8192) (se_content stored))
       = Ok (se_embedding stored)
    /\ se_dimensions stored = Z.of_nat (List.length (se_embedding stored))
    /\ se_embedding stored = [1%float].
Proof.
  assert (Hin : In (AddEmbedding
                      (FirestoreService.embeddingDoc Samples.world "emb-1" "doc-1"
                         [1%float] (pd_content Samples.jaguarDocument)
                         Samples.jaguarMetadata "text-embedding-004"))
                   (traceOf (processIngestionJob Samples.world Config.defaults
                               "gbif_1" Samples.gbifJob tt))).
  { vm_compute. tauto. }
  eexists. split; [exact Hin|].
  destruct (proj2 stored_embedding_is_the_vector_given
              Samples.world Config.defaults "gbif_1"%string Samples.gbifJob _ Hin)
    as [Hembed Hdim].
  split; [exact Hembed|]. split; [exact Hdim|reflexivity].
Defined.

End StoredEmbeddingClaim.

(** ** Runs of an ingestion job *)

Section CounterSteps.
Import Js Errors JsNumber Model Task TaskLogic IngestionService.
Local Open Scope Z_scope.

Lemma neutral_ret {A} (a : A) : neutral (ret a).
Proof. intros c. repeat split; try constructor. discriminate. Qed.

Lemma neutral_throw {A} (e : AppError) : neutral (A := A) (throw e).
Proof. intros c. repeat split; try constructor. discriminate. Qed.

Lemma neutral_ofResult {A} (r : result A) : neutral (ofResult r).
Proof. destruct r; [apply neutral_ret|apply neutral_throw]. Qed.

Lemma neutral_embedded : neutral (modify embedded).
Proof. intros c. repeat split; try constructor. discriminate. Qed.

Lemma neutral_bind {A B} (m : Task Results A) (k : A -> Task Results B) :
  neutral m -> (forall a, neutral (k a)) -> neutral (bind m k).
Proof.
  intros Hm Hk c.
  destruct (Hm c) as (Ht & Ho & Hh & Hi & He).
  destruct (Hm noResults) as (_ & _ & _ & _ & _).
  unfold bind, traceOf, outcomeOf, localsOf in *. fold noResults in *.
  destruct (m c) as [[t1 c1] o1]. destruct (m noResults) as [[t0 c0] o0].
  simpl in *. subst o0.
  destruct o1 as [a|e|]; simpl; try (repeat split; auto; discriminate).
  destruct (Hk a c1) as (Ht2 & Ho2 & Hh2 & Hi2 & He2).
  destruct (Hk a c0) as (_ & Ho0 & _ & _ & _).
  unfold traceOf, outcomeOf, localsOf in *. fold noResults in *.
  destruct (k a c1) as [[t2 c2] o2]. destruct (k a c0) as [[t3 c3] o3].
  destruct (k a noResults) as [[t4 c4] o4]. simpl in *.
  repeat split; try congruence.
  apply Forall_app. auto.
Qed.

Lemma neutral_storeEmbedding (w : World) (documentId : Id) (v : list float)
    (content : jsString) (metadata : DocumentMetadata) (model : String.string) :
  neutral (FirestoreService.storeEmbedding w documentId v content metadata model).
Proof.
  unfold FirestoreService.storeEmbedding.
  destruct (addEmbedding w _ _ _ _); [|apply neutral_throw].
  intros c. repeat split; try discriminate. repeat constructor.
Qed.

Lemma neutral_embedChunks (w : World) (svc : EmbeddingService.Service)
    (documentId : Id) (metadata : DocumentMetadata) (totalChunks : Z)
    (chunks : list jsString) : forall chunkIndex,
  neutral (embedChunks w svc documentId metadata totalChunks chunkIndex chunks).
Proof.
  induction chunks as [|chunk rest IH]; intros chunkIndex; simpl.
  - apply neutral_ret.
  - apply neutral_bind; [apply neutral_ofResult|]. intros response.
    apply neutral_bind; [apply neutral_storeEmbedding|]. intros _.
    apply neutral_bind; [apply neutral_embedded|]. intros _. apply IH.
Qed.

End CounterSteps.

Section StoringCounters.
Import Js Errors JsNumber Model Task TaskLogic IngestionService.
Local Open Scope Z_scope.

Variable w : World.
Variable svc : EmbeddingService.Service.
Variable generateEmbeddings : bool.

Lemma neutral_embedDocument (doc : ProcessedDocument) (documentId : Id) :
  neutral (if generateEmbeddings then embedDocument w svc doc documentId else ret tt).
Proof.
  destruct generateEmbeddings; [|apply neutral_ret]. unfold embedDocument.
  apply neutral_bind; [apply neutral_ofResult|]. intros response.
  apply neutral_bind; [apply neutral_storeEmbedding|]. intros _.
  apply neutral_bind; [apply neutral_embedded|]. intros _.
  destruct (pd_chunks doc) as [[|chunk more]|]; try apply neutral_ret.
  apply neutral_embedChunks.
Qed.

(** The attempt on a document the store accepts. *)
Lemma storeAttempt_stored (doc : ProcessedDocument) (documentId : Id) (c : Results) :
  addDocument w (pd_content doc) (pd_metadata doc) = Ok documentId ->
  let rest := if generateEmbeddings then embedDocument w svc doc documentId else ret tt in
  storeAttempt w svc generateEmbeddings doc c
  = (AddDocument {| sd_id := documentId; sd_content := pd_content doc;
                    sd_metadata := pd_metadata doc; sd_createdAt := now w |}
       :: traceOf (rest (ingested c)),
     localsOf (rest (ingested c)), outcomeOf (rest (ingested c))).
Proof.
  intros Hadd rest. unfold storeAttempt, FirestoreService.storeDocument.
  rewrite Hadd.
  unfold bind at 1 2. unfold write. unfold bind at 1. unfold modify.
  cbn beta iota. unfold ret at 1. cbn beta iota. fold rest. clearbody rest.
  unfold traceOf, localsOf, outcomeOf.
  destruct (rest (ingested c)) as [[t s] o]. simpl. destruct o; reflexivity.
Qed.

(** What storing one document does to the counters. *)
Lemma storeOne_counts (doc : ProcessedDocument) (c : Results) :
  Forall isStoreWrite (traceOf (storeOne w svc generateEmbeddings doc c))
  /\ outcomeOf (storeOne w svc generateEmbeddings doc c) = Returns tt
  /\ documentsIngested (localsOf (storeOne w svc generateEmbeddings doc c))
     = documentsIngested c + oneIf (documentStored w doc)
  /\ errors (localsOf (storeOne w svc generateEmbeddings doc c))
     = errors c + oneIf (storingThrows w svc generateEmbeddings doc).
Proof.
  unfold storeOne, storingThrows, documentStored, tryCatch.
  destruct (addDocument w (pd_content doc) (pd_metadata doc)) as [documentId|e] eqn:Hadd.
  - (* the document is stored; what follows leaves the two counters alone *)
    rewrite !(storeAttempt_stored doc documentId _ Hadd). cbv zeta.
    pose proof (neutral_embedDocument doc documentId) as Hrest.
    destruct (Hrest (ingested c)) as (Ht & Ho & Hh & Hi & He).
    destruct (Hrest (ingested noResults)) as (_ & Ho0 & _ & _ & _).
    fold noResults in *.
    set (rest := if generateEmbeddings then _ else _) in *.
    unfold traceOf, outcomeOf, localsOf in *.
    destruct (rest (ingested c)) as [[t1 c1] o1].
    destruct (rest (ingested noResults)) as [[t0 c0] o0].
    destruct (rest noResults) as [[t2 c2] o2].
    simpl in *. subst o0. subst o1.
    destruct o2 as [[]|e|]; simpl in *; try congruence.
    + split; [constructor; [exact I|assumption]|]. repeat split; lia.
    + split; [rewrite app_nil_r; constructor; [exact I|assumption]|].
      repeat split; lia.
  - unfold storeAttempt, FirestoreService.storeDocument. rewrite Hadd.
    unfold bind, throw, modify, traceOf, outcomeOf, localsOf. simpl.
    split; [constructor|]. repeat split; lia.
Qed.

Lemma storeBatch_counts (batch : list ProcessedDocument) : forall (c : Results),
  Forall isStoreWrite (traceOf (storeBatch w svc generateEmbeddings batch c))
  /\ outcomeOf (storeBatch w svc generateEmbeddings batch c) = Returns tt
  /\ documentsIngested (localsOf (storeBatch w svc generateEmbeddings batch c))
     = documentsIngested c + countIf (documentStored w) batch
  /\ errors (localsOf (storeBatch w svc generateEmbeddings batch c))
     = errors c + countIf (storingThrows w svc generateEmbeddings) batch.
Proof.
  induction batch as [|doc rest IH]; intros c.
  - unfold countIf, ret, traceOf, outcomeOf, localsOf. simpl.
    split; [constructor|]. repeat split; lia.
  - destruct (storeOne_counts doc c) as (Ht & Ho & Hi & He).
    simpl storeBatch. unfold bind, traceOf, outcomeOf, localsOf in *.
    destruct (storeOne w svc generateEmbeddings doc c) as [[t1 c1] o1].
    simpl in *. subst o1.
    destruct (IH c1) as (Ht2 & Ho2 & Hi2 & He2).
    unfold traceOf, outcomeOf, localsOf in *.
    destruct (storeBatch w svc generateEmbeddings rest c1) as [[t2 c2] o2].
    simpl in *. subst o2. repeat split.
    + apply Forall_app. auto.
    + rewrite Hi2, Hi. unfold countIf, oneIf. simpl.
      destruct (documentStored w doc); simpl; lia.
    + rewrite He2, He. unfold countIf, oneIf. simpl.
      destruct (storingThrows w svc generateEmbeddings doc); simpl; lia.
Qed.

End StoringCounters.

Section JobRecordSteps.
Import Js Errors JsNumber Model Task TaskLogic IngestionService.
Local Open Scope Z_scope.

Variable jobId : Id.

Lemma statusEqb_refl (st : JobStatus) : statusEqb st st = true.
Proof. destruct st; reflexivity. Qed.

Lemma jobMoves_refl (job : IngestionJobStatus) : jobMoves job job.
Proof.
  split.
  - unfold movesForward. now rewrite statusEqb_refl.
  - left. split; [reflexivity|lia].
Qed.

Lemma effectOn_update (job : IngestionJobStatus) (updates : JobUpdate) :
  effectOn jobId job (UpdateJob jobId updates) = merge updates job.
Proof. simpl. now rewrite String.eqb_refl. Qed.

(** Writes of documents and embeddings leave the job record as it is. *)
Lemma storeWrites_admissible (G : Action -> Prop) (trace : list Action) :
  forall job,
    Forall isStoreWrite trace -> Forall G trace ->
    admissible jobId jobMoves G job trace /\ jobAfter jobId job trace = job.
Proof.
  induction trace as [|a trace IH]; intros job Hstore HG; simpl; [auto|].
  inversion Hstore as [|? ? Ha Hrest]; subst.
  inversion HG as [|? ? Hga HGrest]; subst.
  assert (Heff : effectOn jobId job a = job) by (destruct a; simpl in *; tauto).
  unfold jobAfter. simpl. rewrite Heff.
  destruct (IH job Hrest HGrest) as [Hadm Hafter].
  split; [|exact Hafter].
  split; [exact Hga|]. split; [apply jobMoves_refl|exact Hadm].
Qed.

(** A progress write within the phase the job is in. *)
Lemma progress_within (ph : Phase) (bound done all pct : Z)
    (job : IngestionJobStatus) :
  runningIn ph bound job -> bound <= pct ->
  jobMoves job (merge (progressUpdate ph done all pct) job)
  /\ runningIn ph pct (merge (progressUpdate ph done all pct) job).
Proof.
  intros (Hst & Hph & Hpct) Hle. unfold jobMoves, runningIn. simpl.
  repeat split; auto; try lia.
  - unfold movesForward. now rewrite statusEqb_refl.
  - left. simpl. split; [congruence|lia].
Qed.

(** The first progress write of a later phase. *)
Lemma progress_advance (ph ph' : Phase) (bound done all : Z)
    (job : IngestionJobStatus) :
  runningIn ph bound job -> phaseRank ph < phaseRank ph' ->
  percentageAtEntry ph' = 0 ->
  jobMoves job (merge (progressUpdate ph' done all 0) job)
  /\ runningIn ph' 0 (merge (progressUpdate ph' done all 0) job).
Proof.
  intros (Hst & Hph & Hpct) Hlt Hentry. unfold jobMoves, runningIn. simpl.
  repeat split; auto; try lia.
  - unfold movesForward. now rewrite statusEqb_refl.
  - right. simpl. split; [congruence|]. now rewrite Hentry.
Qed.

End JobRecordSteps.

Section JobPhases.
Import Js Errors JsNumber Model Task TaskLogic IngestionService.
Local Open Scope Z_scope.

Variable w : World.
Variable config : Config.Rag.
Variable jobId : Id.
Variable jobConfig : IngestionJobConfig.

Let source := cfg_source jobConfig.
Let chunkSize := chunkSizeInEffect config jobConfig.
Let chunkOverlap := chunkOverlapInEffect config jobConfig.
Let batchSize := batchSizeInEffect jobConfig.
Let generateEmbeddings := generateEmbeddingsInEffect jobConfig.
Let svc := EmbeddingService.new config.
Let limit := orDefaultZ (par_limit (cfg_parameters jobConfig)) 100.

Lemma Forall_anyWrite (trace : list Action) : Forall anyWrite trace.
Proof. apply Forall_forall. intros a _. exact I. Qed.

(** *** Fetching *)

Lemma fetchDataFromSource_run {S} (s : S) :
  fetchDataFromSource w jobId jobConfig s
  = ([UpdateJob jobId (progressUpdate fetching 0 limit 0)], s,
     match fetchFromProvider w source (cfg_parameters jobConfig) limit with
     | Ok rawData => Returns rawData
     | Err e =>
         Throws (IngestionError (sourceName source)
                   (String.append "Failed to fetch data from "
                      (String.append (sourceName source)
                         (String.append ": " (messageOf e)))))
     end).
Proof.
  unfold fetchDataFromSource, updateJobStatus, bind, write, tryCatch, ofResult.
  fold source limit.
  destruct (fetchFromProvider w source (cfg_parameters jobConfig) limit); reflexivity.
Qed.

Lemma fetchDataFromSource_triple {S} :
  triple jobId jobMoves anyWrite
    (fun job (_ : S) => runningIn fetching 0 job)
    (fetchDataFromSource w jobId jobConfig)
    (fun o job _ =>
       runningIn fetching 0 job
       /\ match o with
          | Returns rawData =>
              fetchFromProvider w source (cfg_parameters jobConfig) limit = Ok rawData
          | Throws _ =>
              exists e, fetchFromProvider w source (cfg_parameters jobConfig) limit = Err e
          | Hangs => False
          end).
Proof.
  intros job s Hpre. rewrite fetchDataFromSource_run.
  unfold traceOf, outcomeOf, localsOf, jobAfter. simpl.
  rewrite String.eqb_refl.
  destruct (progress_within fetching 0 0 limit 0 job Hpre (Z.le_refl 0)) as [Hmove Hin].
  split; [split; [exact I|split; [exact Hmove|exact I]]|].
  split; [exact Hin|].
  destruct (fetchFromProvider w source (cfg_parameters jobConfig) limit); eauto.
Qed.

(** *** Processing *)

Lemma processItem_run (rawData_length i : Z) (item : RawRecord)
    (documents : list ProcessedDocument) :
  tryCatch
    (bind (processDataItem w item source)
       (fun processedDoc =>
          bind match processedDoc with
               | Some doc =>
                   bind (chunkIfTooLong doc chunkSize chunkOverlap)
                     (fun doc' => modify (fun documents => documents ++ [doc']))
               | None => ret tt
               end
            (fun _ =>
               updateJobStatus jobId
                 (progressUpdate processing (i + 1) rawData_length
                    (roundPercent (i + 1) rawData_length)))))
    (fun _ => ret tt) documents
  = let update :=
      UpdateJob jobId (progressUpdate processing (i + 1) rawData_length
                         (roundPercent (i + 1) rawData_length)) in
    match formatItem w source item with
    | Err _ => ([update], documents, Returns tt)
    | Ok doc =>
        if length (pd_content doc) >? chunkSize then
          match Chunker.chunkText (pd_content doc) chunkSize chunkOverlap with
          | Some chunks => ([update], documents ++ [withChunks doc chunks], Returns tt)
          | None => ([], documents, Hangs)
          end
        else ([update], documents ++ [doc], Returns tt)
    end.
Proof.
  unfold processDataItem, chunkIfTooLong, updateJobStatus, tryCatch, bind, write,
    modify, ret, ofResult, ofLoop, throw, hang.
  destruct (formatItem w source item) as [doc|e]; simpl; [|reflexivity].
  destruct (length (pd_content doc) >? chunkSize); simpl; [|reflexivity].
  destruct (Chunker.chunkText (pd_content doc) chunkSize chunkOverlap); reflexivity.
Qed.

Lemma chunkText_returns (text : jsString) :
  chunkOverlap < chunkSize ->
  Chunker.chunkText text chunkSize chunkOverlap <> None.
Proof.
  intros Hlt. unfold Chunker.chunkText.
  destruct (chunkText_loop_leaves text chunkSize chunkOverlap (List.length text)
              (Datatypes.S (List.length text)) 0 []) as [r Hr];
    try (unfold length; lia).
  rewrite Hr. discriminate.
Qed.

Lemma processDocuments_for_triple (rawData_length : Z) (items : list RawRecord) :
  forall (i : Z) (documents : list ProcessedDocument),
    0 <= i -> i + Z.of_nat (List.length items) = rawData_length ->
    triple jobId jobMoves anyWrite
      (fun job s => s = documents
                    /\ runningIn processing (roundPercent i rawData_length) job)
      (processDocuments_for w jobId source chunkSize chunkOverlap rawData_length i items)
      (fun o job s =>
         (exists bound, runningIn processing bound job)
         /\ match o with
            | Returns _ =>
                s = documents ++ documentsOf w source chunkSize chunkOverlap items
            | Throws _ => False
            | Hangs => ~ chunkOverlap < chunkSize
            end).
Proof.
  induction items as [|item rest IH]; intros i documents Hi Hlen.
  - apply triple_ret. intros job s [-> Hin]. split; [eauto|].
    simpl. now rewrite app_nil_r.
  - cbn [processDocuments_for].
    assert (Hpos : 0 < rawData_length) by (simpl List.length in Hlen; lia).
    eapply triple_bind with
      (Q1 := fun o job s =>
               match o with
               | Returns _ =>
                   s = documents ++ documentsOf w source chunkSize chunkOverlap [item]
                   /\ runningIn processing (roundPercent (i + 1) rawData_length) job
               | Throws _ => False
               | Hangs =>
                   (exists bound, runningIn processing bound job)
                   /\ ~ chunkOverlap < chunkSize
               end).
    + intros job s [-> Hin]. rewrite processItem_run. cbv zeta.
      assert (Hstep : roundPercent i rawData_length
                      <= roundPercent (i + 1) rawData_length)
        by (apply roundPercent_mono; simpl List.length in Hlen; lia).
      destruct (progress_within processing _ (i + 1) rawData_length _ job Hin Hstep)
        as [Hmove Hin'].
      unfold documentsOf, chunked. simpl flat_map.
      destruct (formatItem w source item) as [doc|e].
      * destruct (length (pd_content doc) >? chunkSize).
        -- destruct (Chunker.chunkText (pd_content doc) chunkSize chunkOverlap)
             as [chunks|] eqn:Hchunks.
           ++ unfold traceOf, outcomeOf, localsOf, jobAfter. simpl.
              rewrite String.eqb_refl.
              split; [split; [exact I|split; [exact Hmove|exact I]]|].
              split; [reflexivity|exact Hin'].
           ++ unfold traceOf, outcomeOf, localsOf, jobAfter. simpl.
              split; [exact I|]. split; [eauto|].
              intros Hlt. now apply (chunkText_returns (pd_content doc)).
        -- unfold traceOf, outcomeOf, localsOf, jobAfter. simpl.
           rewrite String.eqb_refl.
           split; [split; [exact I|split; [exact Hmove|exact I]]|].
           split; [reflexivity|exact Hin'].
      * unfold traceOf, outcomeOf, localsOf, jobAfter. simpl.
        rewrite String.eqb_refl.
        split; [split; [exact I|split; [exact Hmove|exact I]]|].
        split; [now rewrite app_nil_r|exact Hin'].
    + intros []. eapply triple_consequence.
      * apply (IH (i + 1) (documents ++ documentsOf w source chunkSize chunkOverlap [item]));
          [lia|simpl List.length in Hlen; lia].
      * intros job s H. exact H.
      * intros o job s [Hin Ho]. split; [exact Hin|].
        destruct o; auto. rewrite Ho, <- app_assoc. f_equal.
        unfold documentsOf. simpl. now rewrite app_nil_r.
    + intros e job s [].
    + intros job s H. exact H.
Qed.

Lemma processDocuments_triple (rawData : list RawRecord) :
  triple jobId jobMoves anyWrite
    (fun job s => s = [] /\ runningIn fetching 0 job)
    (processDocuments w config jobId rawData jobConfig)
    (fun o job _ =>
       (exists bound, runningIn processing bound job)
       /\ match o with
          | Returns documents =>
              documents = documentsOf w source chunkSize chunkOverlap rawData
          | Throws _ => False
          | Hangs => ~ chunkOverlap < chunkSize
          end).
Proof.
  unfold processDocuments.
  fold (chunkSizeInEffect config jobConfig) (chunkOverlapInEffect config jobConfig).
  fold chunkSize chunkOverlap source.
  set (rawData_length := Z.of_nat (List.length rawData)).
  eapply triple_bind with
    (Q1 := fun o job s => o = Returns tt /\ s = []
                          /\ runningIn processing (roundPercent 0 rawData_length) job).
  - apply triple_write. intros job s [-> Hin]. rewrite effectOn_update.
    destruct (progress_advance fetching processing 0 0 rawData_length job Hin
                ltac:(simpl; lia) eq_refl)
      as [Hmove Hin'].
    rewrite roundPercent_zero by (unfold rawData_length; lia).
    split; [exact I|]. split; [exact Hmove|]. auto.
  - intros []. eapply triple_bind with
      (Q1 := fun o job s =>
               (exists bound, runningIn processing bound job)
               /\ match o with
                  | Returns _ => s = documentsOf w source chunkSize chunkOverlap rawData
                  | Throws _ => False
                  | Hangs => ~ chunkOverlap < chunkSize
                  end).
    + eapply triple_consequence.
      * apply (processDocuments_for_triple rawData_length rawData 0 []);
          [lia|unfold rawData_length; lia].
      * intros job s (_ & -> & Hin). auto.
      * intros o job s H. exact H.
    + intros []. apply triple_get. intros job s H. exact H.
    + intros e job s [_ []].
    + intros job s H. exact H.
  - intros e job s [[=] _].
  - intros job s [[=] _].
Qed.

(** *** Storing *)

Lemma countIf_app {A} (f : A -> bool) (l1 l2 : list A) :
  countIf f (l1 ++ l2) = countIf f l1 + countIf f l2.
Proof. unfold countIf. rewrite filter_app, length_app. lia. Qed.

Lemma slice_batch {A} (l : list A) (i b : Z) :
  0 <= i < Z.of_nat (List.length l) -> 0 < b ->
  slice l i (i + b) ++ skipn (Z.to_nat (i + b)) l = skipn (Z.to_nat i) l.
Proof.
  intros Hi Hb. unfold slice, relativeIndex.
  destruct (Z.ltb_spec i 0); [lia|]. destruct (Z.ltb_spec (i + b) 0); [lia|].
  replace (Z.min i (Z.of_nat (List.length l))) with i by lia.
  destruct (Z_le_gt_dec (i + b) (Z.of_nat (List.length l))) as [Hin|Hout].
  - replace (Z.min (i + b) (Z.of_nat (List.length l))) with (i + b) by lia.
    replace (Z.to_nat (i + b - i)) with (Z.to_nat (i + b) - Z.to_nat i)%nat by lia.
    apply firstn_skipn_glue. lia.
  - replace (Z.min (i + b) (Z.of_nat (List.length l)))
      with (Z.of_nat (List.length l)) by lia.
    rewrite firstn_all2 by (rewrite length_skipn; lia).
    rewrite (skipn_all2 l (n := Z.to_nat (i + b))) by lia.
    apply app_nil_r.
Qed.

Lemma storeBatch_triple (batch : list ProcessedDocument) (bound ingestedBefore
    errorsBefore : Z) :
  triple jobId jobMoves anyWrite
    (fun job c => runningIn storing bound job
                  /\ documentsIngested c = ingestedBefore
                  /\ errors c = errorsBefore)
    (storeBatch w svc generateEmbeddings batch)
    (fun o job c =>
       o = Returns tt /\ runningIn storing bound job
       /\ documentsIngested c = ingestedBefore + countIf (documentStored w) batch
       /\ errors c
          = errorsBefore + countIf (storingThrows w svc generateEmbeddings) batch).
Proof.
  intros job c (Hin & Hi & He).
  destruct (storeBatch_counts w svc generateEmbeddings batch c) as (Ht & Ho & Hi' & He').
  destruct (storeWrites_admissible jobId anyWrite _ job Ht (Forall_anyWrite _))
    as [Hadm Hafter].
  split; [exact Hadm|]. rewrite Hafter, Ho, Hi', He', Hi, He. auto.
Qed.

Hypothesis batchSize_positive : 0 < batchSize.

Lemma storeBatches_triple (documents : list ProcessedDocument) (fuel : nat) :
  forall (i ingestedBefore errorsBefore : Z),
    0 <= i -> Z.max 0 (Z.of_nat (List.length documents) - i) < Z.of_nat fuel ->
    triple jobId jobMoves anyWrite
      (fun job c =>
         runningIn storing
           (roundPercent (Z.min i (Z.of_nat (List.length documents)))
              (Z.of_nat (List.length documents))) job
         /\ documentsIngested c = ingestedBefore
         /\ errors c = errorsBefore)
      (storeBatches fuel w svc jobId generateEmbeddings batchSize documents i)
      (fun o job c =>
         o = Returns tt
         /\ (exists bound, runningIn storing bound job)
         /\ documentsIngested c
            = ingestedBefore
              + countIf (documentStored w) (skipn (Z.to_nat i) documents)
         /\ errors c
            = errorsBefore
              + countIf (storingThrows w svc generateEmbeddings)
                  (skipn (Z.to_nat i) documents)).
Proof.
  set (len := Z.of_nat (List.length documents)).
  induction fuel as [|fuel IH]; intros i ingestedBefore errorsBefore Hi Hfuel; [lia|].
  cbn [storeBatches]. fold len.
  destruct (Z.ltb_spec i len) as [Hlt|Hge].
  - eapply triple_bind with
      (Q1 := fun o job c =>
               o = Returns tt
               /\ runningIn storing (roundPercent (Z.min i len) len) job
               /\ documentsIngested c
                  = ingestedBefore
                    + countIf (documentStored w) (slice documents i (i + batchSize))
               /\ errors c
                  = errorsBefore
                    + countIf (storingThrows w svc generateEmbeddings)
                        (slice documents i (i + batchSize))).
    + apply storeBatch_triple.
    + intros []. eapply triple_bind with
        (Q1 := fun o job c =>
                 o = Returns tt
                 /\ runningIn storing
                      (roundPercent (Z.min (i + batchSize) len) len) job
                 /\ documentsIngested c
                    = ingestedBefore
                      + countIf (documentStored w) (slice documents i (i + batchSize))
                 /\ errors c
                    = errorsBefore
                      + countIf (storingThrows w svc generateEmbeddings)
                          (slice documents i (i + batchSize))).
      * apply triple_write. intros job c (_ & Hin & Hi' & He').
        rewrite effectOn_update.
        assert (Hstep : roundPercent (Z.min i len) len
                        <= roundPercent (Z.min (i + batchSize) len) len)
          by (apply roundPercent_mono; lia).
        destruct (progress_within storing _ (Z.min (i + batchSize) len) len _
                    job Hin Hstep) as [Hmove Hin'].
        split; [exact I|]. split; [exact Hmove|]. auto.
      * intros []. eapply triple_consequence.
        -- apply (IH (i + batchSize)
                    (ingestedBefore
                     + countIf (documentStored w) (slice documents i (i + batchSize)))
                    (errorsBefore
                     + countIf (storingThrows w svc generateEmbeddings)
                         (slice documents i (i + batchSize)))); lia.
        -- intros job c (_ & Hin & Hi' & He'). auto.
        -- intros o job c (Ho & Hin & Hi' & He').
           rewrite <- (slice_batch documents i batchSize) by (fold len; lia).
           rewrite !countIf_app. repeat split; auto; lia.
      * intros e job c [[=] _].
      * intros job c [[=] _].
    + intros e job c [[=] _].
    + intros job c [[=] _].
  - apply triple_ret. intros job c (Hin & Hi' & He').
    rewrite skipn_all2 by (fold len; lia).
    unfold countIf. simpl. repeat split; eauto; lia.
Qed.

Lemma storeDocumentsWithEmbeddings_triple (documents : list ProcessedDocument) :
  triple jobId jobMoves anyWrite
    (fun job c => c = noResults /\ exists bound, runningIn processing bound job)
    (storeDocumentsWithEmbeddings w config jobId documents jobConfig)
    (fun o job _ =>
       (exists bound', runningIn storing bound' job)
       /\ exists results,
            o = Returns results
            /\ documentsIngested results = countIf (documentStored w) documents
            /\ errors results
               = countIf (storingThrows w svc generateEmbeddings) documents).
Proof.
  unfold storeDocumentsWithEmbeddings.
  fold (generateEmbeddingsInEffect jobConfig) (batchSizeInEffect jobConfig).
  fold generateEmbeddings batchSize svc.
  set (len := Z.of_nat (List.length documents)).
  eapply triple_bind with
    (Q1 := fun o job c => o = Returns tt /\ c = noResults
                          /\ runningIn storing 0 job).
  - apply triple_write. intros job c [-> [bound Hin]]. rewrite effectOn_update.
    destruct (progress_advance processing storing bound 0 len job Hin
                ltac:(simpl; lia) eq_refl)
      as [Hmove Hin'].
    split; [exact I|]. split; [exact Hmove|]. auto.
  - intros []. eapply triple_bind with
      (Q1 := fun o job c =>
               o = Returns tt
               /\ (exists bound', runningIn storing bound' job)
               /\ documentsIngested c = countIf (documentStored w) documents
               /\ errors c
                  = countIf (storingThrows w svc generateEmbeddings) documents).
    + eapply triple_consequence.
      * apply (storeBatches_triple documents (Datatypes.S (List.length documents))
                 0 0 0); lia.
      * intros job c (_ & -> & Hin). simpl.
        rewrite Z.min_l by lia. rewrite roundPercent_zero by lia. auto.
      * intros o job c (Ho & Hin & Hi & He). simpl in Hi, He. auto.
    + intros []. apply triple_get. intros job c (_ & Hin & Hi & He). eauto.
    + intros e job c [[=] _].
    + intros job c [[=] _].
  - intros e job c [[=] _].
  - intros job c [[=] _].
Qed.

(** *** The whole job *)

Lemma processIngestionJob_triple :
  triple jobId jobMoves anyWrite
    (fun job (_ : unit) =>
       job_status job = queued
       /\ phase (job_progress job) = fetching
       /\ percentage (job_progress job) = 0)
    (processIngestionJob w config jobId jobConfig)
    (fun o job _ =>
       match o with
       | Returns _ =>
           exists rawData results,
             fetchFromProvider w source (cfg_parameters jobConfig) limit = Ok rawData
             /\ job_status job = completed
             /\ job_results job = Some results
             /\ documentsIngested results
                = countIf (documentStored w)
                    (documentsOf w source chunkSize chunkOverlap rawData)
             /\ errors results
                = countIf (storingThrows w svc generateEmbeddings)
                    (documentsOf w source chunkSize chunkOverlap rawData)
       | Throws _ =>
           (exists e, fetchFromProvider w source (cfg_parameters jobConfig) limit = Err e)
           /\ job_status job = failed
       | Hangs => ~ chunkOverlap < chunkSize
       end).
Proof.
  unfold processIngestionJob.
  eapply triple_tryCatch with
    (Q1 := fun o job _ =>
             match o with
             | Returns _ =>
                 exists rawData results,
                   fetchFromProvider w source (cfg_parameters jobConfig) limit = Ok rawData
                   /\ job_status job = completed
                   /\ job_results job = Some results
                   /\ documentsIngested results
                      = countIf (documentStored w)
                          (documentsOf w source chunkSize chunkOverlap rawData)
                   /\ errors results
                      = countIf (storingThrows w svc generateEmbeddings)
                          (documentsOf w source chunkSize chunkOverlap rawData)
             | Throws _ =>
                 (exists e,
                    fetchFromProvider w source (cfg_parameters jobConfig) limit = Err e)
                 /\ runningIn fetching 0 job
             | Hangs => ~ chunkOverlap < chunkSize
             end).
  - (* the [try] block *)
    eapply triple_bind with
      (Q1 := fun o job _ => o = Returns tt /\ runningIn fetching 0 job).
    { apply triple_write. intros job s (Hst & Hph & Hpct). rewrite effectOn_update.
      split; [exact I|]. split.
      - split; simpl.
        + rewrite Hst. reflexivity.
        + left. split; [reflexivity|lia].
      - split; [reflexivity|]. unfold runningIn. simpl. repeat split; auto; lia. }
    2: { intros e job s [[=] _]. }
    2: { intros job s [[=] _]. }
    intros []. eapply triple_bind.
    { eapply triple_consequence; [apply fetchDataFromSource_triple| |].
      - intros job s [_ Hin]. exact Hin.
      - intros o job s H. exact H. }
    2: { intros e job s [Hin Hfetch]. simpl. auto. }
    2: { intros job s [_ []]. }
    intros rawData.
    apply triple_assume_r. intros Hfetch.
    eapply triple_bind with
      (Q1 := fun o job _ =>
               (exists bound, runningIn processing bound job)
               /\ match o with
                  | Returns documents =>
                      documents = documentsOf w source chunkSize chunkOverlap rawData
                  | Throws _ => False
                  | Hangs => ~ chunkOverlap < chunkSize
                  end).
    { eapply triple_call; [apply processDocuments_triple| |].
      - intros job s Hin. split; [reflexivity|exact Hin].
      - intros o job s' s H. exact H. }
    2: { intros e job s [_ []]. }
    2: { intros job s [_ H]. exact H. }
    intros documents. apply triple_assume_r. intros ->.
    eapply triple_bind with
      (Q1 := fun o job _ =>
               (exists bound, runningIn storing bound job)
               /\ match o with
                  | Returns results =>
                      documentsIngested results
                      = countIf (documentStored w)
                          (documentsOf w source chunkSize chunkOverlap rawData)
                      /\ errors results
                         = countIf (storingThrows w svc generateEmbeddings)
                             (documentsOf w source chunkSize chunkOverlap rawData)
                  | _ => False
                  end).
    { eapply triple_call; [apply storeDocumentsWithEmbeddings_triple| |].
      - intros job s Hin. split; [reflexivity|exact Hin].
      - intros o job s' s [Hin (results & -> & Hi & He)]. auto. }
    2: { intros e job s [_ []]. }
    2: { intros job s [_ []]. }
    intros results. apply triple_assume_r. intros [Hi He].
    apply triple_write. intros job s [bound (Hst & Hph & Hpct)].
    rewrite effectOn_update. split; [exact I|]. split.
    + split; simpl.
      * rewrite Hst. reflexivity.
      * right. rewrite Hph. simpl. split; [lia|reflexivity].
    + exists rawData, results. simpl. auto.
  - (* the [catch] block *)
    intros e.
    eapply triple_bind with
      (Q1 := fun o job _ =>
               o = Returns tt
               /\ (exists e',
                     fetchFromProvider w source (cfg_parameters jobConfig) limit = Err e')
               /\ job_status job = failed).
    + apply triple_write. intros job s [Hfetch (Hst & Hph & Hpct)].
      rewrite effectOn_update. split; [exact I|]. split.
      * split; simpl.
        -- rewrite Hst. reflexivity.
        -- left. split; [reflexivity|lia].
      * simpl. auto.
    + intros []. apply triple_throw. intros job s (_ & Hfetch & Hst). auto.
    + intros e' job s [[=] _].
    + intros job s [[=] _].
  - intros a job s H. exact H.
  - intros job s H. exact H.
Qed.

End JobPhases.

(** ** The job record in the store *)

Section JobRecordInStore.
Import Js Errors JsNumber Model Task TaskLogic IngestionService.
Local Open Scope Z_scope.

Variable jobId : Id.

Lemma lookupJob_setJob (jobs : list (Id * IngestionJobStatus)) (id : Id)
    (created : IngestionJobStatus) :
  lookupJob (setJob jobs id created) jobId
  = if String.eqb id jobId then Some created else lookupJob jobs jobId.
Proof.
  induction jobs as [|[k old] jobs IH]; simpl.
  - destruct (String.eqb id jobId); reflexivity.
  - destruct (String.eqb k id) eqn:Hk; simpl.
    + apply String.eqb_eq in Hk. subst k.
      destruct (String.eqb id jobId); reflexivity.
    + rewrite IH. destruct (String.eqb k jobId) eqn:Hkj; [|reflexivity].
      apply String.eqb_eq in Hkj. subst k. now rewrite String.eqb_sym, Hk.
Qed.

Lemma lookupJob_updateJob (jobs : list (Id * IngestionJobStatus)) (id : Id)
    (updates : JobUpdate) :
  lookupJob (updateJob jobs id updates) jobId
  = match lookupJob jobs jobId with
    | Some job => Some (if String.eqb id jobId then merge updates job else job)
    | None => None
    end.
Proof.
  induction jobs as [|[k old] jobs IH]; simpl; [reflexivity|].
  destruct (String.eqb k id) eqn:Hk; simpl.
  - apply String.eqb_eq in Hk. subst k.
    destruct (String.eqb id jobId); [reflexivity|].
    destruct (lookupJob jobs jobId); reflexivity.
  - destruct (String.eqb k jobId) eqn:Hkj; [|exact IH].
    apply String.eqb_eq in Hkj. subst k. now rewrite String.eqb_sym, Hk.
Qed.

(** A write changes an existing job record as [effectOn] says. *)
Lemma lookupJob_applyAction (db : Db) (a : Action) (job : IngestionJobStatus) :
  lookupJob (ingestionJobs db) jobId = Some job ->
  lookupJob (ingestionJobs (applyAction db a)) jobId = Some (effectOn jobId job a).
Proof.
  intros Hjob. destruct a as [id created|id updates|document|stored]; simpl.
  - rewrite lookupJob_setJob, Hjob. destruct (String.eqb id jobId); reflexivity.
  - rewrite lookupJob_updateJob, Hjob. destruct (String.eqb id jobId); reflexivity.
  - exact Hjob.
  - exact Hjob.
Qed.

Lemma jobsIn_task_writes (w : World) (trace : list Action) :
  forall (db : Db) (job : IngestionJobStatus),
    lookupJob (ingestionJobs db) jobId = Some job ->
    jobsIn jobId (history w db (map TaskWrite trace)) = jobsAlong jobId job trace.
Proof.
  induction trace as [|a trace IH]; intros db job Hjob; [reflexivity|].
  simpl. rewrite (lookupJob_applyAction db a job Hjob). simpl. f_equal.
  apply IH. now apply lookupJob_applyAction.
Qed.

Lemma lookupJob_applyActions (trace : list Action) :
  forall (db : Db) (job : IngestionJobStatus),
    lookupJob (ingestionJobs db) jobId = Some job ->
    lookupJob (ingestionJobs (applyActions db trace)) jobId
    = Some (jobAfter jobId job trace).
Proof.
  induction trace as [|a trace IH]; intros db job Hjob; [exact Hjob|].
  simpl. apply IH. now apply lookupJob_applyAction.
Qed.

Lemma admissible_consecutive (R : IngestionJobStatus -> IngestionJobStatus -> Prop)
    (G : Action -> Prop) (trace : list Action) :
  forall job,
    admissible jobId R G job trace ->
    consecutive R (job :: jobsAlong jobId job trace).
Proof.
  induction trace as [|a trace IH]; intros job Hadm; simpl; [exact I|].
  destruct Hadm as (_ & Hr & Hadm). split; [exact Hr|]. now apply IH.
Qed.

Lemma taskWrites_without_cancel (events : list Event) :
  (forall id, ~ In (CancelCall id) events) ->
  events = map TaskWrite (taskWrites events).
Proof.
  induction events as [|[a|id] events IH]; intros Hnone; simpl.
  - reflexivity.
  - f_equal. apply IH. intros id Hin. apply (Hnone id). now right.
  - exfalso. apply (Hnone id). now left.
Qed.

End JobRecordInStore.

Section JobClaims.
Import Js Errors JsNumber Model Task TaskLogic IngestionService.
Local Open Scope Z_scope.

Lemma newJob_is_queued (w : World) (jobConfig : IngestionJobConfig) :
  job_status (newJob w jobConfig) = queued
  /\ phase (job_progress (newJob w jobConfig)) = fetching
  /\ percentage (job_progress (newJob w jobConfig)) = 0.
Proof. repeat split. Qed.








(** A call of [cancelJob] while the task runs is overwritten.  A caller has
    the id of a job once the task has made its first write; cancelled then,
    the job goes from [running] to [cancelled] and, when the task ends, on to
    [completed].  And the last phase is entered at 100 percent, not at 0. *)
Lemma cancelled_job_runs_on :
  let task := traceOf (processIngestionJob Samples.world Config.defaults "gbif_1"
                         Samples.gbifJob tt) in
  let create := SetJob "gbif_1" (newJob Samples.world Samples.gbifJob) in
  let cancelledRun :=
    TaskWrite create :: map TaskWrite (firstn 1 task)
    ++ CancelCall "gbif_1" :: map TaskWrite (skipn 1 task) in
  let plainRun := TaskWrite create :: map TaskWrite task in
  isRunOf Samples.world Config.defaults "gbif_1" Samples.gbifJob cancelledRun
  /\ map job_status (jobsIn "gbif_1" (history Samples.world emptyDb cancelledRun))
     = [queued; running; cancelled; cancelled; cancelled; cancelled;
        cancelled; cancelled; cancelled; cancelled; cancelled; completed]
  /\ movesForward cancelled completed = false
  /\ ~ consecutive (fun before after => movesForward before after = true)
         (map job_status
            (jobsIn "gbif_1" (history Samples.world emptyDb cancelledRun)))
  /\ isRunOf Samples.world Config.defaults "gbif_1" Samples.gbifJob plainRun
  /\ skipn 9 (map job_progress
                (jobsIn "gbif_1" (history Samples.world emptyDb plainRun)))
     = [ {| phase := storing; processed := 1; total := 1; percentage := 100 |};
         {| phase := phaseCompleted; processed := 1; total := 1; percentage := 100 |} ]
  /\ ~ progressResets
         {| phase := storing; processed := 1; total := 1; percentage := 100 |}
         {| phase := phaseCompleted; processed := 1; total := 1; percentage := 100 |}.
Proof.
  intros task create cancelledRun plainRun.
  assert (Hstatuses : map job_status
                        (jobsIn "gbif_1" (history Samples.world emptyDb cancelledRun))
                      = [queued; running; cancelled; cancelled; cancelled; cancelled;
                         cancelled; cancelled; cancelled; cancelled; cancelled;
                         completed])
    by (vm_compute; reflexivity).
  split.
  { eexists. split; [reflexivity|]. vm_compute. reflexivity. }
  split; [exact Hstatuses|].
  split; [reflexivity|].
  split.
  { rewrite Hstatuses. simpl. intuition discriminate. }
  split; [exists (map TaskWrite task); split; reflexivity|].
  split; [vm_compute; reflexivity|].
  intros [[Hphase _]|[_ Hzero]]; discriminate.
Qed.

(** C4, as the code has it.  In a run of a job in which [cancelJob] is not
    called, with a positive batch size: from one state of the job record to
    the next the status stays or moves forward along queued, running,
    completed or failed, and never leaves a final status; the percentage
    never falls within a phase, is 0 when the processing and the storing
    phase begin, and is 100 when the last phase is entered. *)
Theorem job_moves_forward_without_cancel (w : World) (config : Config.Rag)
    (jobId : Id) (jobConfig : IngestionJobConfig) (db : Db) (events : list Event) :
  isRunOf w config jobId jobConfig events ->
  (forall id, ~ In (CancelCall id) events) ->
  0 < batchSizeInEffect jobConfig ->
  consecutive jobMoves (jobsIn jobId (history w db events)).
Proof.
  intros Hrun Hnone Hbatch. unfold isRunOf, startIngestionJob in Hrun.
  destruct Hrun as (rest & -> & Htask).
  assert (Hrest : rest = map TaskWrite (taskWrites rest)).
  { apply taskWrites_without_cancel. intros id Hin. apply (Hnone id). now right. }
  rewrite Htask in Hrest. rewrite Hrest.
  set (run := processIngestionJob w config jobId jobConfig tt).
  assert (Hcreated : lookupJob (ingestionJobs
                                  (applyAction db (SetJob jobId (newJob w jobConfig))))
                       jobId = Some (newJob w jobConfig)).
  { simpl. rewrite lookupJob_setJob, String.eqb_refl. reflexivity. }
  cbn [history stepEvent]. unfold jobsIn. cbn [flat_map]. rewrite Hcreated.
  cbn [app]. fold (jobsIn jobId
                     (history w (applyAction db (SetJob jobId (newJob w jobConfig)))
                        (map TaskWrite (traceOf run)))).
  rewrite (jobsIn_task_writes jobId w (traceOf run) _ _ Hcreated).
  apply (admissible_consecutive jobId jobMoves anyWrite).
  apply (processIngestionJob_triple w config jobId jobConfig Hbatch
           (newJob w jobConfig) tt (newJob_is_queued w jobConfig)).
Qed.

Lemma job_moves_forward_without_cancel_witness :
  consecutive jobMoves
    (jobsIn "gbif_1"
       (history Samples.world emptyDb
          (TaskWrite (SetJob "gbif_1" (newJob Samples.world Samples.gbifJob))
           :: map TaskWrite
                (traceOf (processIngestionJob Samples.world Config.defaults "gbif_1"
                            Samples.gbifJob tt))))).
Proof.
  apply (job_moves_forward_without_cancel Samples.world Config.defaults "gbif_1"
           Samples.gbifJob emptyDb).
  - eexists. split; [reflexivity|]. vm_compute. reflexivity.
  - intros id Hin. vm_compute in Hin.
    repeat (destruct Hin as [Hin|Hin]; [discriminate|]). exact Hin.
  - reflexivity.
Defined.

End JobClaims.

(* ================================================================= *)
(** * Part III: further properties of the services *)
(* ================================================================= *)

(** ** Edges of the chunker *)

Section ChunkTextEdges.
Import Js Chunker.
Local Open Scope Z_scope.

(** X1.  [chunkText] gives no chunk for the empty text, and for a text that
    is not empty and no longer than the chunk size it gives the text itself
    as the only chunk, whatever the overlap. *)
Theorem chunkText_short_text (text : jsString) (S O : Z) :
  chunkText [] S O = Some []
  /\ (0 < length text <= S -> chunkText text S O = Some [text]).
Proof.
  split; [reflexivity|].
  intros [Hpos Hle]. unfold chunkText. rewrite chunkText_loop_step. cbv zeta.
  destruct (Z.ltb_spec 0 (length text)); [|lia].
  replace (Z.min (0 + S) (length text)) with (length text) by lia.
  rewrite Z.eqb_refl. rewrite substring_inside by lia.
  simpl skipn. rewrite Z.sub_0_r. unfold length. rewrite Nat2Z.id.
  now rewrite firstn_all.
Qed.

Lemma chunkText_short_text_witness :
  0 < length (ofString "abc") <= 3
  /\ chunkText (ofString "abc") 3 7 = Some [ofString "abc"].
Proof.
  split; [vm_compute; split; [reflexivity|discriminate]|].
  apply (chunkText_short_text (ofString "abc") 3 7).
  vm_compute. split; [reflexivity|discriminate].
Defined.

(** X2.  [chunkText] fails to return exactly when the text is not empty, is
    longer than the chunk size, and the overlap is not smaller than the
    chunk size; its loop then has not left after any number of rounds. *)
Theorem chunkText_never_returns_iff (text : jsString) (S O : Z) :
  (chunkText text S O = None
   <-> 0 < length text /\ S < length text /\ S <= O)
  /\ (chunkText text S O = None ->
      forall fuel, chunkText_loop fuel text S O 0 [] = None).
Proof.
  split; [split|].
  - intros Hnone.
    destruct (Z_lt_le_dec 0 (length text)) as [Hpos|Hempty].
    + destruct (Z_lt_le_dec S (length text)) as [HSL|HLS].
      * destruct (Z_lt_le_dec O S) as [HOS|HSO]; [|lia].
        exfalso. unfold chunkText in Hnone.
        destruct (chunkText_loop_leaves text S O (List.length text)
                    (Datatypes.S (List.length text)) 0 []) as [r Hr];
          try (unfold length; lia).
        congruence.
      * exfalso.
        destruct (chunkText_short_text text S O) as [_ Hshort].
        rewrite Hshort in Hnone by lia. discriminate.
    + exfalso. destruct text as [|c text]; [discriminate|].
      unfold length in Hempty. simpl List.length in Hempty. lia.
  - intros (Hpos & HSL & HSO). unfold chunkText.
    apply chunkText_loop_stuck; lia.
  - intros Hnone fuel.
    destruct (chunkText_loop fuel text S O 0 []) as [r|] eqn:Hr; [|reflexivity].
    apply chunkText_fuel_adequate in Hr. congruence.
Qed.

End ChunkTextEdges.
(** ** Jobs that never finish *)

Section JobNeverFinishes.
Import Js Errors JsNumber Model Task TaskLogic IngestionService.
Local Open Scope Z_scope.

Variable w : World.
Variable config : Config.Rag.
Variable jobId : Id.
Variable jobConfig : IngestionJobConfig.

Let source := cfg_source jobConfig.
Let chunkSize := chunkSizeInEffect config jobConfig.
Let chunkOverlap := chunkOverlapInEffect config jobConfig.
Let limit := orDefaultZ (par_limit (cfg_parameters jobConfig)) 100.

(** The loop over the fetched records does not get past a record whose
    document [chunkText] never returns on. *)
Lemma processDocuments_for_hangs (rawData_length : Z) (items : list RawRecord)
    (item : RawRecord) (doc : ProcessedDocument) :
  In item items ->
  formatItem w source item = Ok doc ->
  chunkSize < length (pd_content doc) ->
  Chunker.chunkText (pd_content doc) chunkSize chunkOverlap = None ->
  forall (i : Z) (documents : list ProcessedDocument),
    outcomeOf (processDocuments_for w jobId source chunkSize chunkOverlap
                 rawData_length i items documents) = Hangs.
Proof.
  intros Hin Hdoc Hlong Hnone.
  induction items as [|head rest IH]; [contradiction|].
  intros i documents. cbn [processDocuments_for]. unfold bind at 1.
  unfold source, chunkSize, chunkOverlap.
  rewrite processItem_run. cbv zeta.
  fold source chunkSize chunkOverlap.
  destruct Hin as [->|Hin].
  - rewrite Hdoc.
    destruct (Z.gtb_spec (length (pd_content doc)) chunkSize); [|lia].
    rewrite Hnone. reflexivity.
  - destruct (formatItem w source head) as [doc'|e].
    + destruct (length (pd_content doc') >? chunkSize).
      * destruct (Chunker.chunkText (pd_content doc') chunkSize chunkOverlap).
        -- specialize (IH Hin (i + 1) (documents ++ [withChunks doc' l])).
           destruct (processDocuments_for _ _ _ _ _ _ _ _ _) as [[t s] o].
           exact IH.
        -- reflexivity.
      * specialize (IH Hin (i + 1) (documents ++ [doc'])).
        destruct (processDocuments_for _ _ _ _ _ _ _ _ _) as [[t s] o].
        exact IH.
    + specialize (IH Hin (i + 1) documents).
      destruct (processDocuments_for _ _ _ _ _ _ _ _ _) as [[t s] o].
      exact IH.
Qed.

Lemma processDocuments_hangs (rawData : list RawRecord)
    (item : RawRecord) (doc : ProcessedDocument) :
  In item rawData ->
  formatItem w source item = Ok doc ->
  chunkSize < length (pd_content doc) ->
  Chunker.chunkText (pd_content doc) chunkSize chunkOverlap = None ->
  outcomeOf (processDocuments w config jobId rawData jobConfig []) = Hangs.
Proof.
  intros Hin Hdoc Hlong Hnone. unfold processDocuments.
  fold (chunkSizeInEffect config jobConfig) (chunkOverlapInEffect config jobConfig).
  fold chunkSize chunkOverlap source.
  pose proof (processDocuments_for_hangs (Z.of_nat (List.length rawData)) rawData
                item doc Hin Hdoc Hlong Hnone 0 []) as Hloop.
  unfold bind, updateJobStatus, write.
  destruct (processDocuments_for _ _ _ _ _ _ _ _ _) as [[t s] o].
  unfold outcomeOf in *. simpl in *. subst o. reflexivity.
Qed.

(** The run of a job whose processing phase does not end. *)
Lemma processIngestionJob_stops_in_processing (rawData : list RawRecord) :
  fetchFromProvider w source (cfg_parameters jobConfig) limit = Ok rawData ->
  outcomeOf (processDocuments w config jobId rawData jobConfig []) = Hangs ->
  processIngestionJob w config jobId jobConfig tt
  = ([UpdateJob jobId
        {| upd_status := Some running; upd_progress := None;
           upd_results := None; upd_startedAt := Some (now w);
           upd_completedAt := None; upd_error := None |};
      UpdateJob jobId (progressUpdate fetching 0 limit 0)]
     ++ traceOf (processDocuments w config jobId rawData jobConfig []),
     tt, Hangs).
Proof.
  intros Hfetch Hhang. unfold processIngestionJob, tryCatch.
  unfold bind at 1. unfold updateJobStatus at 1. unfold write at 1.
  unfold bind at 1. rewrite fetchDataFromSource_run.
  fold source limit. rewrite Hfetch.
  unfold bind at 1. unfold call at 1.
  destruct (processDocuments w config jobId rawData jobConfig []) as [[t s] o].
  unfold outcomeOf, traceOf in *. simpl in Hhang. subst o. reflexivity.
Qed.

(** X3.  When a fetched record gives a document that is longer than the
    chunk size in effect, while the chunk overlap in effect is not smaller
    than that chunk size, the job never finishes: its task neither returns
    nor throws, and the job record stays [running]. *)
Theorem job_never_finishes_when_overlap_covers_chunk (db : Db)
    (rawData : list RawRecord) (item : RawRecord) (doc : ProcessedDocument) :
  fetchFromProvider w (cfg_source jobConfig) (cfg_parameters jobConfig)
    (orDefaultZ (par_limit (cfg_parameters jobConfig)) 100) = Ok rawData ->
  In item rawData ->
  formatItem w (cfg_source jobConfig) item = Ok doc ->
  0 < length (pd_content doc) ->
  chunkSizeInEffect config jobConfig < length (pd_content doc) ->
  chunkSizeInEffect config jobConfig <= chunkOverlapInEffect config jobConfig ->
  outcomeOf (processIngestionJob w config jobId jobConfig tt) = Hangs
  /\ option_map job_status
       (lookupJob
          (ingestionJobs
             (applyActions db
                (fst (startIngestionJob w config jobId jobConfig)
                 :: snd (startIngestionJob w config jobId jobConfig))))
          jobId)
     = Some running.
Proof.
  fold source chunkSize chunkOverlap limit.
  intros Hfetch Hin Hdoc Hpos Hlong Hwide.
  assert (Hnone : Chunker.chunkText (pd_content doc) chunkSize chunkOverlap = None).
  { unfold Chunker.chunkText. apply chunkText_loop_stuck; lia. }
  pose proof (processDocuments_hangs rawData item doc Hin Hdoc Hlong Hnone) as Hhang.
  pose proof (processIngestionJob_stops_in_processing rawData Hfetch Hhang) as Hrun.
  split; [now rewrite Hrun|].
  unfold startIngestionJob. cbn [fst snd]. rewrite Hrun.
  change (traceOf (?t, tt, @Hangs unit)) with t.
  change (applyActions db (?a :: ?t)) with (applyActions (applyAction db a) t).
  rewrite (lookupJob_applyActions jobId _ _ (newJob w jobConfig)).
  2: { simpl. rewrite lookupJob_setJob. now rewrite String.eqb_refl. }
  rewrite jobAfter_app.
  set (job := jobAfter jobId (newJob w jobConfig) _).
  assert (Hjob : runningIn fetching 0 job).
  { unfold job, jobAfter. simpl. rewrite !String.eqb_refl. simpl.
    unfold runningIn. simpl. repeat split; lia. }
  destruct (processDocuments_triple w config jobId jobConfig rawData job [])
    as [_ [[bound (Hst & _)] _]]; [split; [reflexivity|exact Hjob]|].
  simpl. f_equal. exact Hst.
Qed.

End JobNeverFinishes.

Section JobNeverFinishesScenario.
Import Js Errors JsNumber Model Task TaskLogic IngestionService.
Local Open Scope Z_scope.

Lemma job_never_finishes_when_overlap_covers_chunk_witness :
  chunkSizeInEffect Config.defaults Scenarios.smallChunksJob = 100
  /\ chunkOverlapInEffect Config.defaults Scenarios.smallChunksJob = 200
  /\ outcomeOf (processIngestionJob Samples.world Config.defaults "gbif_2"
                  Scenarios.smallChunksJob tt) = Hangs
  /\ option_map job_status
       (lookupJob
          (ingestionJobs
             (applyActions emptyDb
                (fst (startIngestionJob Samples.world Config.defaults "gbif_2"
                        Scenarios.smallChunksJob)
                 :: snd (startIngestionJob Samples.world Config.defaults "gbif_2"
                           Scenarios.smallChunksJob))))
          "gbif_2")
     = Some running.
Proof.
  split; [reflexivity|]. split; [reflexivity|].
  apply (job_never_finishes_when_overlap_covers_chunk Samples.world Config.defaults
           "gbif_2" Scenarios.smallChunksJob emptyDb
           [Samples.jaguar; Samples.malformed] Samples.jaguar Samples.jaguarDocument).
  - reflexivity.
  - now left.
  - reflexivity.
  - vm_compute. reflexivity.
  - vm_compute. reflexivity.
  - vm_compute. discriminate.
Defined.

End JobNeverFinishesScenario.
Section StoringNeverEnds.
Import Js Errors JsNumber Model Task TaskLogic IngestionService.
Local Open Scope Z_scope.

Variable w : World.
Variable svc : EmbeddingService.Service.
Variable jobId : Id.
Variable generateEmbeddings : bool.

(** The loop over the batches neither returns nor throws within any number
    of rounds when the batch size is not positive. *)
Lemma storeBatches_never_leaves (batchSize : Z) (documents : list ProcessedDocument) :
  batchSize <= 0 -> documents <> [] ->
  forall (fuel : nat) (i : Z) (c : Results),
    i <= 0 ->
    outcomeOf (storeBatches fuel w svc jobId generateEmbeddings batchSize
                 documents i c) = Hangs.
Proof.
  intros Hsize Hdocs. induction fuel as [|fuel IH]; intros i c Hi; [reflexivity|].
  cbn [storeBatches].
  destruct (Z.ltb_spec i (Z.of_nat (List.length documents))) as [_|Hge].
  - unfold bind at 1.
    destruct (storeBatch_counts w svc generateEmbeddings
                (slice documents i (i + batchSize)) c) as (_ & Ho & _).
    unfold outcomeOf in Ho.
    destruct (storeBatch w svc generateEmbeddings _ c) as [[t1 c1] o1].
    simpl in Ho. subst o1.
    unfold bind at 1. unfold updateJobStatus at 1. unfold write at 1.
    specialize (IH (i + batchSize) c1 ltac:(lia)).
    destruct (storeBatches fuel _ _ _ _ _ _ _ _) as [[t2 c2] o2].
    exact IH.
  - destruct documents; [congruence|]. simpl List.length in Hge. lia.
Qed.

(** The loop over the batches never throws. *)
Lemma storeBatches_does_not_throw (batchSize : Z) (documents : list ProcessedDocument) :
  forall (fuel : nat) (i : Z) (c : Results) (e : AppError),
    outcomeOf (storeBatches fuel w svc jobId generateEmbeddings batchSize
                 documents i c) <> Throws e.
Proof.
  induction fuel as [|fuel IH]; intros i c e; [discriminate|].
  cbn [storeBatches].
  destruct (i <? Z.of_nat (List.length documents)); [|discriminate].
  unfold bind at 1.
  destruct (storeBatch_counts w svc generateEmbeddings
              (slice documents i (i + batchSize)) c) as (_ & Ho & _).
  unfold outcomeOf in Ho.
  destruct (storeBatch w svc generateEmbeddings _ c) as [[t1 c1] o1].
  simpl in Ho. subst o1.
  unfold bind at 1. unfold updateJobStatus at 1. unfold write at 1.
  specialize (IH (i + batchSize) c1 e).
  destruct (storeBatches fuel _ _ _ _ _ _ _ _) as [[t2 c2] o2].
  exact IH.
Qed.

End StoringNeverEnds.

Section StoringNeverEndsClaim.
Import Js Errors JsNumber Model Task TaskLogic IngestionService.
Local Open Scope Z_scope.

(** X4.  With a negative batch size in effect and at least one document,
    [storeDocumentsWithEmbeddings] never returns: its loop over the batches
    has not left after any number of rounds. *)
Theorem storing_never_ends_with_a_negative_batch_size (w : World)
    (config : Config.Rag) (jobId : Id) (documents : list ProcessedDocument)
    (jobConfig : IngestionJobConfig) :
  batchSizeInEffect jobConfig < 0 ->
  documents <> [] ->
  (forall (fuel : nat) (c : Results),
     outcomeOf (storeBatches fuel w (EmbeddingService.new config) jobId
                  (generateEmbeddingsInEffect jobConfig)
                  (batchSizeInEffect jobConfig) documents 0 c) = Hangs)
  /\ outcomeOf (storeDocumentsWithEmbeddings w config jobId documents jobConfig
                  noResults) = Hangs.
Proof.
  intros Hsize Hdocs.
  assert (Hloop : forall (fuel : nat) (c : Results),
            outcomeOf (storeBatches fuel w (EmbeddingService.new config) jobId
                         (generateEmbeddingsInEffect jobConfig)
                         (batchSizeInEffect jobConfig) documents 0 c) = Hangs).
  { intros fuel c. apply storeBatches_never_leaves; [lia|exact Hdocs|lia]. }
  split; [exact Hloop|].
  unfold storeDocumentsWithEmbeddings.
  fold (generateEmbeddingsInEffect jobConfig) (batchSizeInEffect jobConfig).
  unfold bind at 1. unfold updateJobStatus at 1. unfold write at 1.
  unfold bind at 1.
  specialize (Hloop (S (List.length documents)) noResults).
  destruct (storeBatches _ _ _ _ _ _ _ _ _) as [[t c] o].
  unfold outcomeOf in *. simpl in *. now subst o.
Qed.

End StoringNeverEndsClaim.

Section StoringNeverEndsScenario.
Import Js Errors JsNumber Model Task TaskLogic IngestionService.
Local Open Scope Z_scope.

Lemma storing_never_ends_with_a_negative_batch_size_witness :
  batchSizeInEffect Scenarios.negativeBatchJob = -1
  /\ outcomeOf (storeDocumentsWithEmbeddings Samples.world Config.defaults "gbif_3"
                  [Samples.jaguarDocument] Scenarios.negativeBatchJob noResults)
     = Hangs.
Proof.
  split; [reflexivity|].
  apply (storing_never_ends_with_a_negative_batch_size Samples.world Config.defaults
           "gbif_3" [Samples.jaguarDocument] Scenarios.negativeBatchJob).
  - vm_compute. reflexivity.
  - discriminate.
Defined.

End StoringNeverEndsScenario.

(** ** Jobs that fail *)

Section JobFailures.
Import Js Errors JsNumber Model Task TaskLogic IngestionService.
Local Open Scope Z_scope.

Variable w : World.
Variable config : Config.Rag.
Variable jobId : Id.
Variable jobConfig : IngestionJobConfig.

Let source := cfg_source jobConfig.
Let limit := orDefaultZ (par_limit (cfg_parameters jobConfig)) 100.

Lemma processDocuments_does_not_throw (rawData : list RawRecord) (e : AppError) :
  outcomeOf (processDocuments w config jobId rawData jobConfig []) <> Throws e.
Proof.
  set (job := merge {| upd_status := Some running;
                       upd_progress := None; upd_results := None;
                       upd_startedAt := None; upd_completedAt := None;
                       upd_error := None |} (newJob w jobConfig)).
  destruct (processDocuments_triple w config jobId jobConfig rawData job [])
    as [_ [_ Hout]].
  { split; [reflexivity|]. unfold runningIn, job. simpl. repeat split; lia. }
  intros Hthrow. rewrite Hthrow in Hout. exact Hout.
Qed.

Lemma storeDocumentsWithEmbeddings_does_not_throw
    (documents : list ProcessedDocument) (e : AppError) :
  outcomeOf (storeDocumentsWithEmbeddings w config jobId documents jobConfig
               noResults) <> Throws e.
Proof.
  unfold storeDocumentsWithEmbeddings.
  unfold bind at 1. unfold updateJobStatus at 1. unfold write at 1.
  unfold bind at 1.
  pose proof (storeBatches_does_not_throw w (EmbeddingService.new config) jobId
                (match optionOf (cfg_options jobConfig) opt_generateEmbeddings with
                 | Some false => false
                 | _ => true
                 end)
                (orDefaultZ (optionOf (cfg_options jobConfig) opt_batchSize) 10)
                documents (S (List.length documents)) 0 noResults e) as Hloop.
  destruct (storeBatches _ _ _ _ _ _ _ _ _) as [[t c] o].
  unfold outcomeOf in *. simpl in *.
  destruct o; simpl; congruence.
Qed.

(** X5.  A job fails exactly when its fetch fails.  When the provider raises
    an error the task writes the [running] status, the progress of the
    fetching phase and then the [failed] status with the message of the
    [IngestionError] it throws, and it writes no document and no embedding;
    when the provider answers with records, the task does not throw. *)
Theorem job_fails_exactly_when_the_fetch_fails :
  match fetchFromProvider w (cfg_source jobConfig) (cfg_parameters jobConfig)
          (orDefaultZ (par_limit (cfg_parameters jobConfig)) 100) with
  | Err e =>
      let error :=
        IngestionError (sourceName (cfg_source jobConfig))
          (String.append "Failed to fetch data from "
             (String.append (sourceName (cfg_source jobConfig))
                (String.append ": " (messageOf e)))) in
      processIngestionJob w config jobId jobConfig tt
      = ([UpdateJob jobId
            {| upd_status := Some running; upd_progress := None;
               upd_results := None; upd_startedAt := Some (now w);
               upd_completedAt := None; upd_error := None |};
          UpdateJob jobId
            (progressUpdate fetching 0
               (orDefaultZ (par_limit (cfg_parameters jobConfig)) 100) 0);
          UpdateJob jobId
            {| upd_status := Some failed; upd_progress := None;
               upd_results := None; upd_startedAt := None;
               upd_completedAt := Some (now w);
               upd_error := Some (messageOf error) |}],
         tt, Throws error)
  | Ok _ =>
      forall e, outcomeOf (processIngestionJob w config jobId jobConfig tt) <> Throws e
  end.
Proof.
  fold source limit.
  destruct (fetchFromProvider w source (cfg_parameters jobConfig) limit)
    as [rawData|e0] eqn:Hfetch.
  - intros e. unfold processIngestionJob, tryCatch.
    unfold bind at 1. unfold updateJobStatus at 1. unfold write at 1.
    unfold bind at 1. rewrite fetchDataFromSource_run.
    fold source limit. rewrite Hfetch.
    unfold bind at 1. unfold call at 1.
    pose proof (processDocuments_does_not_throw rawData) as Hpd.
    destruct (processDocuments w config jobId rawData jobConfig []) as [[t s] o].
    unfold outcomeOf in Hpd. simpl in Hpd.
    destruct o as [documents|e'|]; [|now destruct (Hpd e')|discriminate].
    unfold bind at 1. unfold call at 1.
    pose proof (storeDocumentsWithEmbeddings_does_not_throw documents) as Hst.
    destruct (storeDocumentsWithEmbeddings w config jobId documents jobConfig noResults)
      as [[t' s'] o'].
    unfold outcomeOf in Hst. simpl in Hst.
    destruct o' as [results|e'|]; [discriminate|now destruct (Hst e')|discriminate].
  - cbv zeta. unfold processIngestionJob, tryCatch.
    unfold bind at 1. unfold updateJobStatus at 1. unfold write at 1.
    unfold bind at 1. rewrite fetchDataFromSource_run.
    fold source limit. rewrite Hfetch. reflexivity.
Qed.

End JobFailures.
(** ** The counters of a job and what it writes *)

Section Tallies.
Import Js Errors JsNumber Model Task TaskLogic IngestionService WriteCounts.
Local Open Scope Z_scope.

Lemma countOf_app {A} (f : A -> bool) (l1 l2 : list A) :
  JsArray.countOf f (l1 ++ l2) = JsArray.countOf f l1 + JsArray.countOf f l2.
Proof. unfold JsArray.countOf. rewrite filter_app, length_app. lia. Qed.

Lemma sumOf_from {A} (f : A -> Z) (l : list A) : forall (n : Z),
  fold_left (fun sum x => sum + f x) l n = n + JsArray.sumOf f l.
Proof.
  unfold JsArray.sumOf. induction l as [|x l IH]; intros n; simpl; [lia|].
  rewrite IH, (IH (f x)). lia.
Qed.

Lemma sumOf_cons {A} (f : A -> Z) (x : A) (l : list A) :
  JsArray.sumOf f (x :: l) = f x + JsArray.sumOf f l.
Proof. unfold JsArray.sumOf at 1. simpl. now rewrite sumOf_from. Qed.

Lemma sumOf_app {A} (f : A -> Z) (l1 l2 : list A) :
  JsArray.sumOf f (l1 ++ l2) = JsArray.sumOf f l1 + JsArray.sumOf f l2.
Proof.
  induction l1 as [|x l1 IH]; simpl; [reflexivity|].
  rewrite !sumOf_cons, IH. lia.
Qed.

Ltac now_tallied :=
  unfold documentsWritten, embeddingsWritten, JsArray.countOf, updateJobStatus,
    ret, throw, hang, get, modify, write, localsOf, traceOf;
  simpl; split; lia.

Lemma tallies_ret {A} (a : A) : tallies (ret a).
Proof. intros c. now_tallied. Qed.

Lemma tallies_throw {A} (e : AppError) : tallies (A := A) (throw e).
Proof. intros c. now_tallied. Qed.

Lemma tallies_hang {A} : tallies (A := A) hang.
Proof. intros c. now_tallied. Qed.

Lemma tallies_get : tallies get.
Proof. intros c. now_tallied. Qed.

Lemma tallies_ofResult {A} (r : result A) : tallies (ofResult r).
Proof. destruct r; [apply tallies_ret|apply tallies_throw]. Qed.

Lemma tallies_erred : tallies (modify erred).
Proof. intros c. now_tallied. Qed.

Lemma tallies_updateJobStatus (jobId : Id) (updates : JobUpdate) :
  tallies (updateJobStatus jobId updates).
Proof. intros c. now_tallied. Qed.

Lemma tallies_bind {A B} (m : Task Results A) (k : A -> Task Results B) :
  tallies m -> (forall a, tallies (k a)) -> tallies (bind m k).
Proof.
  intros Hm Hk c. destruct (Hm c) as [Hd He].
  unfold bind, traceOf, localsOf in *.
  destruct (m c) as [[t1 c1] o1]. simpl in *.
  destruct o1 as [a|e|]; simpl; auto.
  destruct (Hk a c1) as [Hd2 He2]. unfold traceOf, localsOf in *.
  destruct (k a c1) as [[t2 c2] o2]. simpl in *.
  unfold documentsWritten, embeddingsWritten in *.
  rewrite !countOf_app. split; lia.
Qed.

Lemma tallies_tryCatch {A} (m : Task Results A) (handler : AppError -> Task Results A) :
  tallies m -> (forall e, tallies (handler e)) -> tallies (tryCatch m handler).
Proof.
  intros Hm Hh c. destruct (Hm c) as [Hd He].
  unfold tryCatch, traceOf, localsOf in *.
  destruct (m c) as [[t1 c1] o1]. simpl in *.
  destruct o1 as [a|e|]; simpl; auto.
  destruct (Hh e c1) as [Hd2 He2]. unfold traceOf, localsOf in *.
  destruct (handler e c1) as [[t2 c2] o2]. simpl in *.
  unfold documentsWritten, embeddingsWritten in *.
  rewrite !countOf_app. split; lia.
Qed.

Variable w : World.
Variable svc : EmbeddingService.Service.

(** [storeDocument] followed by [documentsIngested++]. *)
Lemma tallies_storeDocument_then {A} (content : jsString)
    (metadata : DocumentMetadata) (k : Id -> Task Results A) :
  (forall documentId, tallies (k documentId)) ->
  tallies (bind (FirestoreService.storeDocument w content metadata)
             (fun documentId => bind (modify ingested) (fun _ => k documentId))).
Proof.
  intros Hk c. unfold FirestoreService.storeDocument.
  destruct (addDocument w content metadata) as [documentId|e].
  - destruct (Hk documentId (ingested c)) as [Hd He].
    unfold bind, write, modify, ret, traceOf, localsOf in *.
    destruct (k documentId (ingested c)) as [[t2 c2] o2]. simpl in *.
    unfold documentsWritten, embeddingsWritten, JsArray.countOf in *.
    simpl. destruct o2; simpl; split; lia.
  - unfold bind. now_tallied.
Qed.

(** [storeEmbedding] followed by [embeddingsCreated++]. *)
Lemma tallies_storeEmbedding_then {A} (documentId : Id) (v : list float)
    (content : jsString) (metadata : DocumentMetadata) (model : String.string)
    (k : Task Results A) :
  tallies k ->
  tallies (bind (FirestoreService.storeEmbedding w documentId v content metadata model)
             (fun _ => bind (modify embedded) (fun _ => k))).
Proof.
  intros Hk c. unfold FirestoreService.storeEmbedding.
  destruct (addEmbedding w documentId v content metadata) as [id|e].
  - destruct (Hk (embedded c)) as [Hd He].
    unfold bind, write, modify, ret, traceOf, localsOf in *.
    destruct (k (embedded c)) as [[t2 c2] o2]. simpl in *.
    unfold documentsWritten, embeddingsWritten, JsArray.countOf in *.
    simpl. destruct o2; simpl; split; lia.
  - unfold bind. now_tallied.
Qed.

Lemma tallies_embedChunks (documentId : Id) (metadata : DocumentMetadata)
    (totalChunks : Z) (chunks : list jsString) : forall chunkIndex,
  tallies (embedChunks w svc documentId metadata totalChunks chunkIndex chunks).
Proof.
  induction chunks as [|chunk rest IH]; intros chunkIndex; simpl.
  - apply tallies_ret.
  - apply tallies_bind; [apply tallies_ofResult|]. intros response.
    apply tallies_storeEmbedding_then. apply IH.
Qed.

Lemma tallies_storeOne (generateEmbeddings : bool) (doc : ProcessedDocument) :
  tallies (storeOne w svc generateEmbeddings doc).
Proof.
  unfold storeOne. apply tallies_tryCatch; [|intros e; apply tallies_erred].
  unfold storeAttempt. apply tallies_storeDocument_then. intros documentId.
  destruct generateEmbeddings; [|apply tallies_ret]. unfold embedDocument.
  apply tallies_bind; [apply tallies_ofResult|]. intros response.
  apply tallies_storeEmbedding_then.
  destruct (pd_chunks doc) as [[|chunk more]|]; try apply tallies_ret.
  apply tallies_embedChunks.
Qed.

Lemma tallies_storeBatch (generateEmbeddings : bool) (batch : list ProcessedDocument) :
  tallies (storeBatch w svc generateEmbeddings batch).
Proof.
  induction batch as [|doc rest IH]; simpl; [apply tallies_ret|].
  apply tallies_bind; [apply tallies_storeOne|]. intros _. exact IH.
Qed.

Lemma tallies_storeBatches (jobId : Id) (generateEmbeddings : bool) (batchSize : Z)
    (documents : list ProcessedDocument) : forall (fuel : nat) (i : Z),
  tallies (storeBatches fuel w svc jobId generateEmbeddings batchSize documents i).
Proof.
  induction fuel as [|fuel IH]; intros i; cbn [storeBatches]; [apply tallies_hang|].
  destruct (i <? Z.of_nat (List.length documents)); [|apply tallies_ret].
  apply tallies_bind; [apply tallies_storeBatch|]. intros _.
  apply tallies_bind; [apply tallies_updateJobStatus|]. intros _. apply IH.
Qed.

End Tallies.

Section TalliesOfAJob.
Import Js Errors JsNumber Model Task TaskLogic IngestionService WriteCounts.
Local Open Scope Z_scope.

Lemma tallies_storeDocumentsWithEmbeddings (w : World) (config : Config.Rag)
    (jobId : Id) (documents : list ProcessedDocument) (jobConfig : IngestionJobConfig) :
  tallies (storeDocumentsWithEmbeddings w config jobId documents jobConfig).
Proof.
  unfold storeDocumentsWithEmbeddings.
  apply tallies_bind; [apply tallies_updateJobStatus|]. intros _.
  apply tallies_bind; [apply tallies_storeBatches|]. intros _. apply tallies_get.
Qed.

(** X6.  The counters [storeDocumentsWithEmbeddings] keeps agree with what it
    writes, however the documents fare: [documentsIngested] is the number of
    documents it has added to the store and [embeddingsCreated] the number
    of embeddings it has added, and these are the counters it returns. *)
Theorem counters_match_the_writes (w : World) (config : Config.Rag)
    (jobId : Id) (documents : list ProcessedDocument) (jobConfig : IngestionJobConfig) :
  let run := storeDocumentsWithEmbeddings w config jobId documents jobConfig noResults in
  documentsIngested (localsOf run) = documentsWritten (traceOf run)
  /\ embeddingsCreated (localsOf run) = embeddingsWritten (traceOf run)
  /\ match outcomeOf run with
     | Returns results => results = localsOf run
     | Throws _ => False
     | Hangs => True
     end.
Proof.
  intros run. assert (Hrun : run = storeDocumentsWithEmbeddings w config jobId documents
                                 jobConfig noResults) by reflexivity.
  destruct (tallies_storeDocumentsWithEmbeddings w config jobId documents jobConfig
              noResults) as [Hd He].
  fold run in Hd, He. simpl in Hd, He. split; [exact Hd|]. split; [exact He|].
  pose proof (storeDocumentsWithEmbeddings_does_not_throw w config jobId jobConfig
                documents) as Hthrow.
  fold run in Hthrow. clearbody run. unfold storeDocumentsWithEmbeddings in Hrun.
  unfold bind, updateJobStatus, write, get in Hrun.
  destruct (storeBatches _ _ _ _ _ _ _ _ _) as [[t c] o].
  destruct o as [[]|e|]; subst run; simpl in *; auto. now apply (Hthrow e).
Qed.

End TalliesOfAJob.
Section EmbeddingsOfADocument.
Import Js Errors JsNumber Model Task TaskLogic IngestionService WriteCounts.
Local Open Scope Z_scope.

(** A batch, followed by what comes after it, is what was left. *)
Lemma slice_then_rest {A} (l : list A) (i b : Z) :
  0 <= i < Z.of_nat (List.length l) -> 0 < b ->
  slice l i (i + b) ++ skipn (Z.to_nat (i + b)) l = skipn (Z.to_nat i) l.
Proof.
  intros Hi Hb. unfold slice, relativeIndex.
  destruct (Z.ltb_spec i 0); [lia|]. destruct (Z.ltb_spec (i + b) 0); [lia|].
  replace (Z.min i (Z.of_nat (List.length l))) with i by lia.
  destruct (Z_le_gt_dec (i + b) (Z.of_nat (List.length l))) as [Hin|Hout].
  - replace (Z.min (i + b) (Z.of_nat (List.length l))) with (i + b) by lia.
    replace (Z.to_nat (i + b - i)) with (Z.to_nat (i + b) - Z.to_nat i)%nat by lia.
    apply firstn_skipn_glue. lia.
  - replace (Z.min (i + b) (Z.of_nat (List.length l)))
      with (Z.of_nat (List.length l)) by lia.
    rewrite firstn_all2 by (rewrite length_skipn; lia).
    rewrite (skipn_all2 l (n := Z.to_nat (i + b))) by lia.
    apply app_nil_r.
Qed.

Variable w : World.
Variable svc : EmbeddingService.Service.

Lemma embedChunks_count (documentId : Id) (metadata : DocumentMetadata)
    (totalChunks : Z) (chunks : list jsString) :
  forall (chunkIndex : Z) (c : Results),
    outcomeOf (embedChunks w svc documentId metadata totalChunks chunkIndex chunks c)
    = Returns tt ->
    embeddingsCreated
      (localsOf (embedChunks w svc documentId metadata totalChunks chunkIndex chunks c))
    = embeddingsCreated c + Z.of_nat (List.length chunks).
Proof.
  induction chunks as [|chunk rest IH]; intros chunkIndex c.
  - simpl. unfold ret, localsOf. simpl. lia.
  - remember (embedChunks w svc documentId metadata totalChunks chunkIndex
                (chunk :: rest) c) as run eqn:Hrun.
    cbn [embedChunks] in Hrun.
    unfold FirestoreService.storeEmbedding, ofResult in Hrun.
    unfold bind, write, modify, ret, throw in Hrun.
    destruct (EmbeddingService.generateEmbedding svc (embed w) chunk) as [response|e];
      cbv beta iota in Hrun; [|subst run; discriminate].
    destruct (addEmbedding w _ _ _ _) as [id|e];
      cbv beta iota in Hrun; [|subst run; discriminate].
    specialize (IH (chunkIndex + 1) (embedded c)).
    destruct (embedChunks w svc documentId metadata totalChunks (chunkIndex + 1)
                rest (embedded c)) as [[t2 c2] o2].
    subst run. unfold outcomeOf, localsOf in *. simpl in *.
    intros Ho. rewrite (IH Ho). lia.
Qed.

Lemma embedDocument_count (doc : ProcessedDocument) (documentId : Id) (c : Results) :
  outcomeOf (embedDocument w svc doc documentId c) = Returns tt ->
  embeddingsCreated (localsOf (embedDocument w svc doc documentId c))
  = embeddingsCreated c + embeddingsOf doc.
Proof.
  remember (embedDocument w svc doc documentId c) as run eqn:Hrun.
  unfold embedDocument, FirestoreService.storeEmbedding, ofResult in Hrun.
  unfold bind, write, modify, ret, throw in Hrun.
  unfold embeddingsOf.
  destruct (EmbeddingService.generateEmbedding svc (embed w) (pd_content doc))
    as [response|e]; cbv beta iota in Hrun; [|subst run; discriminate].
  destruct (addEmbedding w _ _ _ _) as [id|e];
    cbv beta iota in Hrun; [|subst run; discriminate].
  destruct (pd_chunks doc) as [[|chunk more]|].
  - subst run. unfold outcomeOf, localsOf. simpl. lia.
  - pose proof (embedChunks_count documentId (pd_metadata doc)
                  (Z.of_nat (List.length (chunk :: more))) (chunk :: more) 0
                  (embedded c)) as Hchunks.
    destruct (embedChunks w svc documentId (pd_metadata doc) _ 0 (chunk :: more)
                (embedded c)) as [[t2 c2] o2].
    subst run. unfold outcomeOf, localsOf in *. simpl fst in *. simpl snd in *.
    intros Ho. rewrite (Hchunks Ho). simpl embeddingsCreated. lia.
  - subst run. unfold outcomeOf, localsOf. simpl. lia.
Qed.

Variable generateEmbeddings : bool.

(** Storing a document that does not throw raises [embeddingsCreated] by the
    embeddings the document asks for. *)
Lemma storeOne_embeds (doc : ProcessedDocument) (c : Results) :
  storingThrows w svc generateEmbeddings doc = false ->
  embeddingsCreated (localsOf (storeOne w svc generateEmbeddings doc c))
  = embeddingsCreated c + (if generateEmbeddings then embeddingsOf doc else 0).
Proof.
  unfold storingThrows, storeOne, tryCatch.
  destruct (addDocument w (pd_content doc) (pd_metadata doc)) as [documentId|e] eqn:Hadd.
  - rewrite !(storeAttempt_stored w svc generateEmbeddings doc documentId _ Hadd).
    cbv zeta.
    pose proof (neutral_embedDocument w svc generateEmbeddings doc documentId) as Hrest.
    destruct (Hrest (ingested c)) as (_ & Ho & Hh & _).
    destruct (Hrest (ingested noResults)) as (_ & Ho0 & _).
    fold noResults in *.
    assert (Hcount : outcomeOf ((if generateEmbeddings
                                 then embedDocument w svc doc documentId
                                 else ret tt) (ingested c)) = Returns tt ->
                     embeddingsCreated
                       (localsOf ((if generateEmbeddings
                                   then embedDocument w svc doc documentId
                                   else ret tt) (ingested c)))
                     = embeddingsCreated c
                       + (if generateEmbeddings then embeddingsOf doc else 0)).
    { destruct generateEmbeddings.
      - intros H. rewrite (embedDocument_count doc documentId _ H). simpl. lia.
      - intros _. unfold ret, localsOf. simpl. lia. }
    set (rest := if generateEmbeddings then _ else _) in *.
    unfold traceOf, outcomeOf, localsOf in *.
    destruct (rest (ingested c)) as [[t1 c1] o1].
    destruct (rest (ingested noResults)) as [[t0 c0] o0].
    destruct (rest noResults) as [[t2 c2] o2].
    simpl in *. subst o0. subst o1.
    destruct o2 as [[]|e|]; simpl in *; try congruence.
    intros _. now apply Hcount.
  - unfold storeAttempt, FirestoreService.storeDocument. rewrite Hadd.
    unfold bind, throw, outcomeOf. simpl. discriminate.
Qed.

Lemma storeBatch_embeds (batch : list ProcessedDocument) :
  (forall doc, In doc batch -> storingThrows w svc generateEmbeddings doc = false) ->
  forall (c : Results),
    embeddingsCreated (localsOf (storeBatch w svc generateEmbeddings batch c))
    = embeddingsCreated c
      + (if generateEmbeddings then JsArray.sumOf embeddingsOf batch else 0).
Proof.
  induction batch as [|doc rest IH]; intros Hall c.
  - unfold ret, localsOf, JsArray.sumOf. simpl. destruct generateEmbeddings; lia.
  - pose proof (storeOne_embeds doc c (Hall doc (or_introl eq_refl))) as Hone.
    destruct (storeOne_counts w svc generateEmbeddings doc c) as (_ & Ho & _).
    simpl storeBatch. unfold bind, outcomeOf, localsOf in *.
    destruct (storeOne w svc generateEmbeddings doc c) as [[t1 c1] o1].
    simpl in *. subst o1.
    specialize (IH (fun d Hd => Hall d (or_intror Hd)) c1).
    unfold localsOf in IH.
    destruct (storeBatch w svc generateEmbeddings rest c1) as [[t2 c2] o2].
    simpl in *. rewrite IH, Hone, sumOf_cons.
    destruct generateEmbeddings; lia.
Qed.

(** One round of the loop over the batches. *)
Lemma storeBatches_round (jobId : Id) (batchSize : Z)
    (documents : list ProcessedDocument) (fuel : nat) (i : Z) (c : Results) :
  i < Z.of_nat (List.length documents) ->
  storeBatches (S fuel) w svc jobId generateEmbeddings batchSize documents i c
  = let batch := slice documents i (i + batchSize) in
    let processed := Z.min (i + batchSize) (Z.of_nat (List.length documents)) in
    let update :=
      UpdateJob jobId
        (progressUpdate storing processed (Z.of_nat (List.length documents))
           (roundPercent processed (Z.of_nat (List.length documents)))) in
    let stored := storeBatch w svc generateEmbeddings batch c in
    let later := storeBatches fuel w svc jobId generateEmbeddings batchSize
                   documents (i + batchSize) (localsOf stored) in
    (traceOf stored ++ update :: traceOf later, localsOf later, outcomeOf later).
Proof.
  intros Hlt. cbn [storeBatches].
  destruct (Z.ltb_spec i (Z.of_nat (List.length documents))); [|lia]. cbv zeta.
  destruct (storeBatch_counts w svc generateEmbeddings
              (slice documents i (i + batchSize)) c) as (_ & Ho & _).
  unfold bind, updateJobStatus, write, outcomeOf, localsOf, traceOf in *.
  destruct (storeBatch w svc generateEmbeddings _ c) as [[t1 c1] o1].
  simpl in Ho. subst o1. cbv beta iota. simpl fst. simpl snd.
  destruct (storeBatches fuel w svc jobId generateEmbeddings batchSize documents
              (i + batchSize) c1) as [[t2 c2] o2].
  destruct o2; reflexivity.
Qed.

Lemma storeBatches_embeds (jobId : Id) (batchSize : Z)
    (documents : list ProcessedDocument) :
  0 < batchSize ->
  (forall doc, In doc documents -> storingThrows w svc generateEmbeddings doc = false) ->
  forall (fuel : nat) (i : Z) (c : Results),
    0 <= i -> Z.max 0 (Z.of_nat (List.length documents) - i) < Z.of_nat fuel ->
    outcomeOf (storeBatches fuel w svc jobId generateEmbeddings batchSize
                 documents i c) = Returns tt
    /\ embeddingsCreated
         (localsOf (storeBatches fuel w svc jobId generateEmbeddings batchSize
                      documents i c))
       = embeddingsCreated c
         + (if generateEmbeddings
            then JsArray.sumOf embeddingsOf (skipn (Z.to_nat i) documents)
            else 0).
Proof.
  intros Hsize Hall. induction fuel as [|fuel IH]; intros i c Hi Hfuel; [lia|].
  destruct (Z_lt_le_dec i (Z.of_nat (List.length documents))) as [Hlt|Hge].
  - rewrite storeBatches_round by exact Hlt. cbv zeta.
    pose proof (slice_then_rest documents i batchSize (conj Hi Hlt) Hsize) as Hsplit.
    assert (Hbatch : forall doc, In doc (slice documents i (i + batchSize)) ->
                                 storingThrows w svc generateEmbeddings doc = false).
    { intros doc Hin. apply Hall.
      assert (Hin' : In doc (skipn (Z.to_nat i) documents))
        by (rewrite <- Hsplit; apply in_or_app; now left).
      rewrite <- (firstn_skipn (Z.to_nat i) documents). apply in_or_app. now right. }
    pose proof (storeBatch_embeds _ Hbatch c) as Hcount.
    destruct (IH (i + batchSize)
                (localsOf (storeBatch w svc generateEmbeddings
                             (slice documents i (i + batchSize)) c)))
      as [Ho2 Hc2]; [lia|lia|].
    unfold outcomeOf, localsOf in *. cbn [fst snd] in *.
    split; [exact Ho2|].
    rewrite Hc2, Hcount, <- Hsplit, sumOf_app.
    destruct generateEmbeddings; lia.
  - cbn [storeBatches].
    destruct (Z.ltb_spec i (Z.of_nat (List.length documents))); [lia|].
    unfold ret, outcomeOf, localsOf. simpl. split; [reflexivity|].
    rewrite skipn_all2 by lia. unfold JsArray.sumOf. simpl.
    destruct generateEmbeddings; lia.
Qed.

End EmbeddingsOfADocument.

Section EmbeddingsOfAJob.
Import Js Errors JsNumber Model Task TaskLogic IngestionService WriteCounts.
Local Open Scope Z_scope.

(** X7.  With a positive batch size in effect and documents none of which
    throws while it is stored or embedded, [storeDocumentsWithEmbeddings]
    returns, and the [embeddingsCreated] it reports is one embedding for
    each document and one for each of its chunks; it is 0 when the option
    [generateEmbeddings] is [false]. *)
Theorem every_document_gets_its_embeddings (w : World) (config : Config.Rag)
    (jobId : Id) (documents : list ProcessedDocument) (jobConfig : IngestionJobConfig) :
  0 < batchSizeInEffect jobConfig ->
  (forall doc, In doc documents ->
     storingThrows w (EmbeddingService.new config)
       (generateEmbeddingsInEffect jobConfig) doc = false) ->
  exists results,
    outcomeOf (storeDocumentsWithEmbeddings w config jobId documents jobConfig
                 noResults) = Returns results
    /\ embeddingsCreated results
       = if generateEmbeddingsInEffect jobConfig
         then JsArray.sumOf embeddingsOf documents
         else 0.
Proof.
  intros Hsize Hall.
  destruct (storeBatches_embeds w (EmbeddingService.new config)
              (generateEmbeddingsInEffect jobConfig) jobId
              (batchSizeInEffect jobConfig) documents Hsize Hall
              (S (List.length documents)) 0 noResults) as [Ho Hc]; [lia|lia|].
  unfold storeDocumentsWithEmbeddings.
  fold (generateEmbeddingsInEffect jobConfig) (batchSizeInEffect jobConfig).
  unfold bind, updateJobStatus, write, get.
  unfold outcomeOf, localsOf in *.
  destruct (storeBatches _ _ _ _ _ _ _ _ _) as [[t c] o].
  simpl in *. subst o. exists c. split; [reflexivity|exact Hc].
Qed.

End EmbeddingsOfAJob.

Section EmbeddingsOfAJobScenario.
Import Js Errors JsNumber Model Task TaskLogic IngestionService.
Local Open Scope Z_scope.

Lemma every_document_gets_its_embeddings_witness :
  exists results,
    outcomeOf (storeDocumentsWithEmbeddings Samples.world Config.defaults "gbif_1"
                 [Samples.jaguarDocument; Scenarios.chunkedDocument]
                 Samples.gbifJob noResults) = Returns results
    /\ embeddingsCreated results = 4.
Proof.
  destruct (every_document_gets_its_embeddings Samples.world Config.defaults "gbif_1"
              [Samples.jaguarDocument; Scenarios.chunkedDocument] Samples.gbifJob)
    as [results [Hout Hcount]].
  - vm_compute. reflexivity.
  - intros doc [<-|[<-|[]]]; vm_compute; reflexivity.
  - exists results. split; [exact Hout|]. rewrite Hcount. reflexivity.
Defined.

End EmbeddingsOfAJobScenario.
(** ** Batches of embeddings *)

Section BatchEmbeddings.
Import Js Errors JsNumber EmbeddingService EmbeddingBatches.
Local Open Scope Z_scope.

Variable this : Service.
Variable embed : jsString -> result (list float).

Lemma responsesOf_app (l1 l2 : list jsString) :
  responsesOf this embed (l1 ++ l2)
  = responsesOf this embed l1 ++ responsesOf this embed l2.
Proof. unfold responsesOf. apply flat_map_app. Qed.

Lemma responsesOf_length (l : list jsString) :
  (List.length (responsesOf this embed l) <= List.length l)%nat.
Proof.
  induction l as [|text l IH]; simpl; [lia|].
  destruct (generateEmbedding this embed text); simpl; lia.
Qed.

(** A batch: its responses are pushed in the order of its texts, and each
    text raises one of the two counters. *)
Lemma runBatch_pushes (batch : list jsString) :
  forall (embeddings : list EmbeddingResponse) (successCount errorCount : Z),
    let '(batchResults, successCount', errorCount') :=
      runBatch this embed batch successCount errorCount in
    pushResults embeddings batchResults
    = embeddings ++ responsesOf this embed batch
    /\ successCount'
       = successCount + Z.of_nat (List.length (responsesOf this embed batch))
    /\ successCount' + errorCount'
       = successCount + errorCount + Z.of_nat (List.length batch).
Proof.
  induction batch as [|text rest IH]; intros embeddings successCount errorCount.
  - simpl. rewrite app_nil_r. repeat split; lia.
  - cbn [runBatch]. unfold responsesOf. cbn [flat_map].
    fold (responsesOf this embed rest).
    destruct (generateEmbedding this embed text) as [response|e].
    + specialize (IH (embeddings ++ [response]) (successCount + 1) errorCount).
      destruct (runBatch this embed rest (successCount + 1) errorCount)
        as [[batchResults s'] e'].
      destruct IH as (Hpush & Hs & Hsum). cbn [pushResults].
      rewrite Hpush, <- app_assoc. cbn [app List.length].
      repeat split; [lia|]. rewrite Nat2Z.inj_succ. lia.
    + specialize (IH embeddings successCount (errorCount + 1)).
      destruct (runBatch this embed rest successCount (errorCount + 1))
        as [[batchResults s'] e'].
      destruct IH as (Hpush & Hs & Hsum). cbn [pushResults app].
      repeat split; [exact Hpush|exact Hs|]. cbn [List.length].
      rewrite Nat2Z.inj_succ. lia.
Qed.

Lemma batchLoop_leaves (texts : list jsString) (batchSize : Z) :
  0 < batchSize ->
  forall (fuel : nat) (i : Z) (embeddings : list EmbeddingResponse)
         (successCount errorCount : Z),
    0 <= i -> Z.max 0 (Z.of_nat (List.length texts) - i) < Z.of_nat fuel ->
    exists successCount' errorCount',
      batchLoop fuel this embed texts batchSize i embeddings successCount errorCount
      = Some (embeddings ++ responsesOf this embed (skipn (Z.to_nat i) texts),
              successCount', errorCount')
      /\ successCount'
         = successCount
           + Z.of_nat (List.length (responsesOf this embed (skipn (Z.to_nat i) texts)))
      /\ successCount' + errorCount'
         = successCount + errorCount
           + Z.of_nat (List.length (skipn (Z.to_nat i) texts)).
Proof.
  intros Hsize. induction fuel as [|fuel IH];
    intros i embeddings successCount errorCount Hi Hfuel; [lia|].
  cbn [batchLoop].
  destruct (Z.ltb_spec i (Z.of_nat (List.length texts))) as [Hlt|Hge].
  - pose proof (slice_then_rest texts i batchSize (conj Hi Hlt) Hsize) as Hsplit.
    pose proof (runBatch_pushes (slice texts i (i + batchSize)) embeddings
                  successCount errorCount) as Hbatch.
    destruct (runBatch this embed (slice texts i (i + batchSize)) successCount
                errorCount) as [[batchResults s1] e1].
    destruct Hbatch as (Hpush & Hs & Hsum).
    destruct (IH (i + batchSize) (pushResults embeddings batchResults) s1 e1)
      as (s2 & e2 & Hloop & Hs2 & Hsum2); [lia|lia|].
    exists s2, e2. rewrite Hloop, Hpush, <- Hsplit, responsesOf_app.
    rewrite <- app_assoc, !length_app, !Nat2Z.inj_add.
    repeat split; lia.
  - exists successCount, errorCount.
    rewrite skipn_all2 by lia. simpl. rewrite app_nil_r. repeat split; lia.
Qed.

(** With a batch size that is not positive the loop has not left after any
    number of rounds. *)
Lemma batchLoop_never_leaves (texts : list jsString) (batchSize : Z) :
  batchSize <= 0 -> texts <> [] ->
  forall (fuel : nat) (i : Z) (embeddings : list EmbeddingResponse)
         (successCount errorCount : Z),
    i <= 0 ->
    batchLoop fuel this embed texts batchSize i embeddings successCount errorCount
    = None.
Proof.
  intros Hsize Htexts. induction fuel as [|fuel IH];
    intros i embeddings successCount errorCount Hi; [reflexivity|].
  cbn [batchLoop].
  destruct (Z.ltb_spec i (Z.of_nat (List.length texts))) as [_|Hge].
  - destruct (runBatch this embed _ successCount errorCount) as [[batchResults s1] e1].
    apply IH. lia.
  - destruct texts; [congruence|]. simpl List.length in Hge. lia.
Qed.

(** X8.  With a positive batch size in effect [generateBatchEmbeddings]
    returns the responses of the texts [generateEmbedding] accepts, in the
    order of the texts and whatever the batch size; [successCount] is their
    number and [errorCount] the number of the other texts.  With a batch
    size in effect that is not positive and at least one text it never
    returns. *)
Theorem generateBatchEmbeddings_ignores_the_batching (texts : list jsString)
    (batchSize : option Z) :
  (0 < orDefaultZ batchSize (svc_batchSize this) ->
   exists response,
     generateBatchEmbeddings this embed texts batchSize = Some response
     /\ bat_embeddings response = responsesOf this embed texts
     /\ bat_successCount response = Z.of_nat (List.length (bat_embeddings response))
     /\ bat_successCount response + bat_errorCount response = bat_totalTexts response
     /\ bat_totalTexts response = Z.of_nat (List.length texts))
  /\ (orDefaultZ batchSize (svc_batchSize this) <= 0 -> texts <> [] ->
      generateBatchEmbeddings this embed texts batchSize = None
      /\ forall fuel,
           batchLoop fuel this embed texts
             (orDefaultZ batchSize (svc_batchSize this)) 0 [] 0 0 = None).
Proof.
  split.
  - intros Hsize. unfold generateBatchEmbeddings.
    destruct (batchLoop_leaves texts _ Hsize (S (List.length texts)) 0 [] 0 0)
      as (s & e & Hloop & Hs & Hsum); [lia|lia|].
    rewrite Hloop. simpl skipn in *. simpl app in *.
    eexists. split; [reflexivity|]. simpl. repeat split; lia.
  - intros Hsize Htexts.
    assert (Hloop : forall fuel,
              batchLoop fuel this embed texts
                (orDefaultZ batchSize (svc_batchSize this)) 0 [] 0 0 = None)
      by (intros fuel; apply batchLoop_never_leaves; auto; lia).
    split; [|exact Hloop]. unfold generateBatchEmbeddings. now rewrite Hloop.
Qed.

End BatchEmbeddings.

Section BatchEmbeddingsScenario.
Import Js Errors JsNumber Model Task TaskLogic IngestionService.
Local Open Scope Z_scope.

Lemma generateBatchEmbeddings_ignores_the_batching_witness :
  exists response,
    EmbeddingBatches.generateBatchEmbeddings (EmbeddingService.new Config.defaults)
      Samples.constantEmbedder
      [ofString "jaguar"; Samples.blankText; ofString "tapir"] (Some 2)
    = Some response
    /\ EmbeddingBatches.bat_embeddings response
       = EmbeddingBatches.responsesOf (EmbeddingService.new Config.defaults)
           Samples.constantEmbedder
           [ofString "jaguar"; Samples.blankText; ofString "tapir"]
    /\ EmbeddingBatches.bat_successCount response = 2
    /\ EmbeddingBatches.bat_errorCount response = 1.
Proof.
  destruct (proj1 (generateBatchEmbeddings_ignores_the_batching
                     (EmbeddingService.new Config.defaults) Samples.constantEmbedder
                     [ofString "jaguar"; Samples.blankText; ofString "tapir"]
                     (Some 2)))
    as (response & Hrun & Hresponses & Hsuccess & Hsum & Htotal).
  - vm_compute. reflexivity.
  - exists response. split; [exact Hrun|]. split; [exact Hresponses|].
    rewrite Hresponses in Hsuccess.
    assert (Hs : EmbeddingBatches.bat_successCount response = 2)
      by (rewrite Hsuccess; vm_compute; reflexivity).
    split; [exact Hs|]. rewrite Hs, Htotal in Hsum.
    change (Z.of_nat (List.length [ofString "jaguar"; Samples.blankText;
                                   ofString "tapir"])) with 3 in Hsum. lia.
Defined.

End BatchEmbeddingsScenario.
(** ** Reads of the vector store *)

Section DocumentsRead.
Import Js Errors JsNumber Model Task FirestoreService FirestoreReads.
Local Open Scope Z_scope.

Lemma find_app_fresh (documents : list StoredDocument) (document : StoredDocument)
    (id : Id) :
  (forall doc, In doc documents -> sd_id doc <> id) ->
  find (fun doc => String.eqb (sd_id doc) id) (documents ++ [document])
  = if String.eqb (sd_id document) id then Some document else None.
Proof.
  induction documents as [|d documents IH]; intros Hfresh; simpl; [reflexivity|].
  destruct (String.eqb_spec (sd_id d) id) as [Heq|_].
  - exfalso. apply (Hfresh d); [now left|exact Heq].
  - apply IH. intros doc Hin. apply Hfresh. now right.
Qed.

Lemma find_app_other (documents : list StoredDocument) (document : StoredDocument)
    (id : Id) :
  sd_id document <> id ->
  find (fun doc => String.eqb (sd_id doc) id) (documents ++ [document])
  = find (fun doc => String.eqb (sd_id doc) id) documents.
Proof.
  intros Hother. induction documents as [|d documents IH]; simpl.
  - destruct (String.eqb_spec (sd_id document) id); [contradiction|reflexivity].
  - destruct (String.eqb (sd_id d) id); [reflexivity|exact IH].
Qed.

(** X9.  A document stored under an id the collection does not hold yet is
    what [getDocument] returns for this id afterwards, with the content and
    the metadata it was stored with, and the documents of the other ids read
    as before; when the store rejects the document, [storeDocument] throws a
    [RAGError] and writes nothing. *)
Theorem stored_document_is_read_back {S} (w : World) (db : Db)
    (content : jsString) (metadata : DocumentMetadata) (s : S) :
  match addDocument w content metadata with
  | Ok id =>
      (forall doc, In doc (knowledgeBase db) -> sd_id doc <> id) ->
      let run := storeDocument w content metadata s in
      outcomeOf run = Returns id
      /\ getDocument (Ok (applyActions db (traceOf run))) id
         = Ok (Some {| sd_id := id; sd_content := content;
                       sd_metadata := metadata; sd_createdAt := now w |})
      /\ (forall other, other <> id ->
            getDocument (Ok (applyActions db (traceOf run))) other
            = getDocument (Ok db) other)
  | Err e =>
      storeDocument w content metadata s
      = ([], s, Throws (RAGError "document_storage"
                          (String.append "Failed to store document: " (messageOf e))))
  end.
Proof.
  unfold storeDocument.
  destruct (addDocument w content metadata) as [id|e]; [|reflexivity].
  intros Hfresh. cbv zeta. unfold bind, write, ret, outcomeOf, traceOf. simpl.
  split; [reflexivity|]. split.
  - rewrite find_app_fresh by exact Hfresh. simpl. now rewrite String.eqb_refl.
  - intros other Hother. rewrite find_app_other; [reflexivity|]. simpl. congruence.
Qed.

End DocumentsRead.

Section DocumentsReadScenario.
Import Js Errors JsNumber Model Task FirestoreService FirestoreReads.
Local Open Scope Z_scope.

Lemma stored_document_is_read_back_witness :
  let run := storeDocument Samples.world (pd_content Samples.jaguarDocument)
               Samples.jaguarMetadata tt in
  outcomeOf run = Returns "doc-1"%string
  /\ getDocument (Ok (applyActions emptyDb (traceOf run))) "doc-1"
     = Ok (Some {| sd_id := "doc-1"%string;
                   sd_content := pd_content Samples.jaguarDocument;
                   sd_metadata := Samples.jaguarMetadata;
                   sd_createdAt := now Samples.world |})
  /\ (forall other, other <> "doc-1"%string ->
        getDocument (Ok (applyActions emptyDb (traceOf run))) other
        = getDocument (Ok emptyDb) other).
Proof.
  exact (stored_document_is_read_back (S:=unit) Samples.world emptyDb
           (pd_content Samples.jaguarDocument) Samples.jaguarMetadata tt
           (fun doc (H : In doc []) => match H with end)).
Defined.

End DocumentsReadScenario.

Section Statistics.
Import Js Errors JsNumber Model FirestoreService FirestoreReads.
Local Open Scope Z_scope.

Lemma countAt_assign (breakdown : Breakdown) (key key' : String.string) (value : Z) :
  countAt (assign breakdown key value) key'
  = if String.eqb key key' then value else countAt breakdown key'.
Proof.
  induction breakdown as [|[k n] rest IH]; simpl.
  - destruct (String.eqb key key'); reflexivity.
  - destruct (String.eqb_spec k key) as [->|Hk]; simpl.
    + destruct (String.eqb key key'); reflexivity.
    + rewrite IH. destruct (String.eqb_spec key key') as [<-|_]; [|reflexivity].
      destruct (String.eqb_spec k key); [contradiction|reflexivity].
Qed.

Lemma sumOfCounts_assign (breakdown : Breakdown) (key : String.string) (value : Z) :
  sumOfCounts (assign breakdown key value)
  = sumOfCounts breakdown - countAt breakdown key + value.
Proof.
  unfold sumOfCounts. induction breakdown as [|[k n] rest IH]; simpl.
  - rewrite sumOf_cons. unfold JsArray.sumOf. simpl. lia.
  - destruct (String.eqb k key); rewrite !sumOf_cons; simpl; [lia|].
    rewrite IH. lia.
Qed.

Lemma sumOfCounts_tally (breakdown : Breakdown) (key : String.string) :
  sumOfCounts (tally breakdown key) = sumOfCounts breakdown + 1.
Proof. unfold tally. rewrite sumOfCounts_assign. lia. Qed.

Lemma countAt_tally (breakdown : Breakdown) (key key' : String.string) :
  countAt (tally breakdown key) key'
  = countAt breakdown key' + (if String.eqb key key' then 1 else 0).
Proof.
  unfold tally. rewrite countAt_assign.
  destruct (String.eqb_spec key key') as [->|_]; lia.
Qed.

Lemma sumOfCounts_tallied {A} (name : A -> String.string) (docs : list A) :
  forall breakdown,
    sumOfCounts (fold_left (fun b data => tally b (name data)) docs breakdown)
    = sumOfCounts breakdown + Z.of_nat (List.length docs).
Proof.
  induction docs as [|data docs IH]; intros breakdown; simpl; [lia|].
  rewrite IH, sumOfCounts_tally. lia.
Qed.

Lemma countAt_tallied {A} (name : A -> String.string) (key : String.string)
    (docs : list A) : forall breakdown,
  countAt (fold_left (fun b data => tally b (name data)) docs breakdown) key
  = countAt breakdown key
    + JsArray.countOf (fun data => String.eqb (name data) key) docs.
Proof.
  unfold JsArray.countOf.
  induction docs as [|data docs IH]; intros breakdown; simpl; [lia|].
  rewrite IH, countAt_tally.
  destruct (String.eqb (name data) key); simpl List.length; lia.
Qed.

Lemma sources_partition (docs : list StoredEmbedding) :
  let named (key : String.string) :=
    JsArray.countOf
      (fun data => String.eqb (sourceName (md_source (se_metadata data))) key) docs in
  named "gbif"%string + named "iucn"%string + named "obis"%string
  + named "ebird"%string
  = Z.of_nat (List.length docs).
Proof.
  cbv zeta. unfold JsArray.countOf.
  induction docs as [|data docs IH]; [reflexivity|].
  cbn [filter].
  destruct (md_source (se_metadata data)); cbn [sourceName];
    repeat match goal with
           | |- context [String.eqb ?a ?b] =>
               let v := eval vm_compute in (String.eqb a b) in
               change (String.eqb a b) with v
           end;
    cbn [List.length]; rewrite ?Nat2Z.inj_succ; lia.
Qed.

(** X10.  The counts of the source breakdown and those of the type breakdown
    of [getStatistics] each add up to the number of embeddings when there
    are at most 1000 of them, and to 1000 otherwise; so do the four source
    counts the statistics route answers with.  An error of the store is
    answered with the status 500. *)
Theorem breakdowns_cover_the_first_thousand (store : Store) :
  match store with
  | Ok db =>
      exists stats body,
        getStatistics store = Ok stats
        /\ totalDocuments stats = Z.of_nat (List.length (knowledgeBase db))
        /\ totalEmbeddings stats = Z.of_nat (List.length (embeddings db))
        /\ sumOfCounts (sourceBreakdown stats) = Z.min 1000 (totalEmbeddings stats)
        /\ sumOfCounts (typeBreakdown stats) = Z.min 1000 (totalEmbeddings stats)
        /\ statsRoute store = Json 200 body
        /\ stats_totalEmbeddings body = totalEmbeddings stats
        /\ src_gbif (stats_sources body) + src_iucn (stats_sources body)
           + src_obis (stats_sources body) + src_ebird (stats_sources body)
           = Z.min 1000 (stats_totalEmbeddings body)
  | Err e =>
      statsRoute store
      = Failure 500 "Failed to get knowledge base stats"
          (String.append "RAG statistics: Failed to get statistics: " (messageOf e))
  end.
Proof.
  destruct store as [db|e]; [|reflexivity].
  unfold statsRoute, getStatistics. cbv zeta.
  eexists. eexists. split; [reflexivity|]. cbn [totalDocuments totalEmbeddings
    sourceBreakdown typeBreakdown stats_totalEmbeddings stats_sources
    src_gbif src_iucn src_obis src_ebird].
  assert (Hlen : Z.of_nat (List.length (firstn 1000 (embeddings db)))
                 = Z.min 1000 (Z.of_nat (List.length (embeddings db))))
    by (rewrite length_firstn; lia).
  split; [reflexivity|]. split; [reflexivity|].
  split; [rewrite sumOfCounts_tallied, Hlen; change (sumOfCounts []) with 0; lia|].
  split; [rewrite sumOfCounts_tallied, Hlen; change (sumOfCounts []) with 0; lia|].
  split; [reflexivity|].
  cbn [stats_totalEmbeddings stats_sources src_gbif src_iucn src_obis src_ebird].
  split; [reflexivity|].
  rewrite !(countAt_tallied (fun data => sourceName (md_source (se_metadata data)))).
  cbn [countAt]. rewrite <- Hlen, <- (sources_partition (firstn 1000 (embeddings db))).
  cbv zeta. lia.
Qed.

End Statistics.
(** ** Sorting *)

Section SortBy.
Import JsArray.

Context {A : Type}.
Variable precedes : A -> A -> bool.
Variable R : A -> A -> Prop.

Hypothesis precedes_before : forall a b, precedes b a = true -> R b a.
Hypothesis precedes_after : forall a b, precedes b a = false -> R a b.
Hypothesis R_trans : forall a b c, R a b -> R b c -> R a c.

Lemma insertBy_perm (a : A) (l : list A) : Permutation (insertBy precedes a l) (a :: l).
Proof.
  induction l as [|b l IH]; simpl; [reflexivity|].
  destruct (precedes b a); [|reflexivity].
  rewrite IH. apply perm_swap.
Qed.

Lemma sortBy_perm (l : list A) : Permutation (sortBy precedes l) l.
Proof.
  induction l as [|a l IH]; simpl; [reflexivity|].
  rewrite insertBy_perm. now constructor.
Qed.

Lemma insertBy_sorted (a : A) (l : list A) :
  StronglySorted R l -> StronglySorted R (insertBy precedes a l).
Proof.
  induction l as [|b l IH]; intros Hsorted; simpl.
  - constructor; constructor.
  - inversion Hsorted as [|? ? Hl Hb]; subst.
    destruct (precedes b a) eqn:Hba.
    + constructor; [now apply IH|].
      apply Forall_forall. intros x Hx.
      apply (Permutation_in _ (insertBy_perm a l)) in Hx. destruct Hx as [<-|Hx].
      * now apply precedes_before.
      * rewrite Forall_forall in Hb. now apply Hb.
    + constructor; [exact Hsorted|].
      constructor; [now apply precedes_after|].
      apply Forall_forall. intros x Hx. rewrite Forall_forall in Hb.
      apply (R_trans a b x); [now apply precedes_after|now apply Hb].
Qed.

Lemma sortBy_sorted (l : list A) : StronglySorted R (sortBy precedes l).
Proof.
  induction l as [|a l IH]; simpl; [constructor|]. now apply insertBy_sorted.
Qed.

End SortBy.

(** ** Queries on the jobs *)

Section JobLists.
Import Js Errors JsNumber Model FirestoreReads JobQueries.
Local Open Scope Z_scope.

Lemma newerFirst_sorted (l : list Job) :
  StronglySorted (fun a b => job_createdAt (snd b) <= job_createdAt (snd a))
    (JsArray.sortBy newerFirst l).
Proof.
  apply sortBy_sorted.
  - intros a b. unfold newerFirst. intros H.
    apply orb_true_iff in H as [H|H]; [lia|].
    apply andb_true_iff in H as [H _]. lia.
  - intros a b. unfold newerFirst. intros H.
    apply orb_false_iff in H as [H _]. lia.
  - intros a b c. lia.
Qed.

Lemma StronglySorted_skipn {B} (R : B -> B -> Prop) (n : nat) (l : list B) :
  StronglySorted R l -> StronglySorted R (skipn n l).
Proof.
  revert l. induction n as [|n IH]; intros l Hsorted; [exact Hsorted|].
  destruct l as [|a l]; [constructor|].
  simpl. apply IH. now inversion Hsorted.
Qed.

Lemma in_skipn {B} (x : B) (n : nat) (l : list B) : In x (skipn n l) -> In x l.
Proof.
  intros Hin. rewrite <- (firstn_skipn n l). apply in_or_app. now right.
Qed.

Lemma firstn_add {B} (a b : nat) : forall (l : list B),
  firstn (a + b) l = firstn a l ++ firstn b (skipn a l).
Proof.
  induction a as [|a IH]; intros l; [reflexivity|].
  destruct l as [|x l]; simpl; [now rewrite firstn_nil|]. now rewrite IH.
Qed.

(** What the query gives for an offset and a limit that are not negative:
    the matching jobs, newest first, from the offset on, up to the limit
    when it is not zero. *)
Lemma runJobsQuery_page (rejection : AppError) (filters : JobFilters)
    (collection : list Job) :
  0 <= orDefaultZ (jf_offset filters) 0 ->
  0 <= orDefaultZ (jf_limit filters) 0 ->
  let ordered :=
    JsArray.sortBy newerFirst (filter (matchesJobFilters filters) collection) in
  let rest := skipn (Z.to_nat (orDefaultZ (jf_offset filters) 0)) ordered in
  runJobsQuery rejection filters collection
  = Ok (if orDefaultZ (jf_limit filters) 0 =? 0 then rest
        else firstn (Z.to_nat (orDefaultZ (jf_limit filters) 0)) rest).
Proof.
  intros Hoffset Hlimit. cbv zeta. unfold runJobsQuery, offsetBy, limitTo.
  unfold orDefaultZ in *.
  destruct (jf_offset filters) as [offset|]; destruct (jf_limit filters) as [limit|];
    repeat match goal with
           | H : context [?x =? 0] |- _ => destruct (Z.eqb_spec x 0)
           | |- context [?x =? 0] => destruct (Z.eqb_spec x 0)
           | |- context [?x <? 0] => destruct (Z.ltb_spec x 0)
           end;
    subst; try lia; try reflexivity.
Qed.

(** X11.  For an offset and a limit that are not negative, [listJobs]
    returns jobs of the collection that match the filters, the newest
    first, and no more of them than a limit that is not zero allows; a limit
    of zero bounds nothing.  [total] is the size of the whole collection,
    whatever the filters, the offset and the limit. *)
Theorem listJobs_lists_matching_jobs_newest_first (db : Db) (rejection : AppError)
    (filters : JobFilters) :
  0 <= orDefaultZ (jf_offset filters) 0 ->
  0 <= orDefaultZ (jf_limit filters) 0 ->
  exists listed,
    listJobs (Ok db) rejection (Some filters) = Ok listed
    /\ total listed = Z.of_nat (List.length (ingestionJobs db))
    /\ (forall job, In job (jobs listed) ->
          In job (ingestionJobs db) /\ matchesJobFilters filters job = true)
    /\ StronglySorted (fun a b => job_createdAt (snd b) <= job_createdAt (snd a))
         (jobs listed)
    /\ (0 < orDefaultZ (jf_limit filters) 0 ->
        Z.of_nat (List.length (jobs listed)) <= orDefaultZ (jf_limit filters) 0)
    /\ (orDefaultZ (jf_limit filters) 0 = 0 ->
        Z.of_nat (List.length (jobs listed))
        = Z.max 0 (JsArray.countOf (matchesJobFilters filters) (ingestionJobs db)
                   - orDefaultZ (jf_offset filters) 0)).
Proof.
  intros Hoffset Hlimit. unfold listJobs.
  rewrite (runJobsQuery_page rejection filters (ingestionJobs db) Hoffset Hlimit).
  cbv zeta. eexists. split; [reflexivity|]. cbn [jobs total].
  set (ordered := JsArray.sortBy newerFirst
                    (filter (matchesJobFilters filters) (ingestionJobs db))).
  set (rest := skipn (Z.to_nat (orDefaultZ (jf_offset filters) 0)) ordered).
  assert (Hordered : forall job, In job ordered ->
            In job (ingestionJobs db) /\ matchesJobFilters filters job = true).
  { intros job Hin. apply (Permutation_in _ (sortBy_perm newerFirst _)) in Hin.
    now apply filter_In in Hin. }
  assert (Hsorted : StronglySorted
                      (fun a b => job_createdAt (snd b) <= job_createdAt (snd a)) rest)
    by (apply StronglySorted_skipn, newerFirst_sorted).
  split; [reflexivity|]. split; [|split; [|split]].
  - intros job Hin. apply Hordered.
    destruct (orDefaultZ (jf_limit filters) 0 =? 0).
    + now apply in_skipn in Hin.
    + apply in_firstn in Hin. now apply in_skipn in Hin.
  - destruct (orDefaultZ (jf_limit filters) 0 =? 0); [exact Hsorted|].
    now apply StronglySorted_firstn.
  - intros Hpos. destruct (Z.eqb_spec (orDefaultZ (jf_limit filters) 0) 0); [lia|].
    rewrite length_firstn. lia.
  - intros Hzero. rewrite Hzero. simpl. unfold rest. rewrite length_skipn.
    unfold ordered. rewrite (Permutation_length (sortBy_perm newerFirst _)).
    unfold JsArray.countOf. lia.
Qed.

(** X12.  Pages follow one another: for a positive offset, the page of
    [n] jobs at the offset followed by the page of [m] jobs at the offset
    plus [n] is the page of [n + m] jobs at the offset. *)
Theorem listJobs_pages_follow_one_another (db : Db) (rejection : AppError)
    (filters : JobFilters) (offset n m : Z) :
  0 < offset -> 0 < n -> 0 < m ->
  let page (offset limit : Z) :=
    listJobs (Ok db) rejection
      (Some {| jf_source := jf_source filters; jf_status := jf_status filters;
               jf_limit := Some limit; jf_offset := Some offset |}) in
  exists first second both,
    page offset n = Ok first
    /\ page (offset + n) m = Ok second
    /\ page offset (n + m) = Ok both
    /\ jobs both = jobs first ++ jobs second.
Proof.
  intros Hoffset Hn Hm page. unfold page, listJobs.
  rewrite !runJobsQuery_page
    by (cbn [jf_limit jf_offset orDefaultZ];
        repeat match goal with
               | |- context [?x =? 0] => destruct (Z.eqb_spec x 0)
               end; lia).
  cbn [jf_source jf_status jf_limit jf_offset orDefaultZ].
  replace (matchesJobFilters _)
    with (matchesJobFilters filters) by reflexivity.
  do 3 eexists. repeat split. cbn [jobs].
  set (ordered := JsArray.sortBy newerFirst _).
  repeat (match goal with
          | |- context [?x =? 0] => destruct (Z.eqb_spec x 0); [lia|]
          end; cbv iota).
  replace (Z.to_nat (offset + n)) with (Z.to_nat n + Z.to_nat offset)%nat by lia.
  rewrite <- skipn_skipn.
  replace (Z.to_nat (n + m)) with (Z.to_nat n + Z.to_nat m)%nat by lia.
  apply firstn_add.
Qed.

End JobLists.

Section JobListsScenario.
Import Js Errors JsNumber Model Task TaskLogic IngestionService.
Local Open Scope Z_scope.

Lemma listJobs_lists_matching_jobs_newest_first_witness :
  exists listed,
    JobQueries.listJobs (Ok Scenarios.fourJobs) (ExternalError "INVALID_ARGUMENT")
      (Some (Scenarios.completedJobs (Some 1) None)) = Ok listed
    /\ map fst (JobQueries.jobs listed) = ["gbif_3"%string]
    /\ JobQueries.total listed = 4.
Proof.
  destruct (listJobs_lists_matching_jobs_newest_first Scenarios.fourJobs
              (ExternalError "INVALID_ARGUMENT")
              (Scenarios.completedJobs (Some 1) None))
    as (listed & Hrun & Htotal & _).
  - vm_compute. discriminate.
  - vm_compute. discriminate.
  - exists listed. split; [exact Hrun|]. split; [|exact Htotal].
    vm_compute in Hrun. injection Hrun as <-. reflexivity.
Defined.

Lemma listJobs_pages_follow_one_another_witness :
  exists first second both,
    JobQueries.listJobs (Ok Scenarios.fourJobs) (ExternalError "INVALID_ARGUMENT")
      (Some (Scenarios.anyJobs (Some 1) (Some 1))) = Ok first
    /\ JobQueries.listJobs (Ok Scenarios.fourJobs) (ExternalError "INVALID_ARGUMENT")
         (Some (Scenarios.anyJobs (Some 2) (Some 2))) = Ok second
    /\ JobQueries.listJobs (Ok Scenarios.fourJobs) (ExternalError "INVALID_ARGUMENT")
         (Some (Scenarios.anyJobs (Some 3) (Some 1))) = Ok both
    /\ JobQueries.jobs both = JobQueries.jobs first ++ JobQueries.jobs second.
Proof.
  apply (listJobs_pages_follow_one_another Scenarios.fourJobs
           (ExternalError "INVALID_ARGUMENT") (Scenarios.anyJobs None None) 1 1 2);
    lia.
Defined.

End JobListsScenario.
Section IngestionStatistics.
Import Js Errors JsNumber Model FirestoreReads JobQueries.
Local Open Scope Z_scope.

Lemma statuses_partition (allJobs : list Job) :
  JsArray.countOf (fun job => hasStatus running job || hasStatus queued job) allJobs
  + JsArray.countOf (hasStatus completed) allJobs
  + JsArray.countOf (hasStatus failed) allJobs
  + JsArray.countOf (hasStatus cancelled) allJobs
  = Z.of_nat (List.length allJobs).
Proof.
  unfold JsArray.countOf, hasStatus.
  induction allJobs as [|[id job] allJobs IH]; [reflexivity|].
  cbn [filter snd]. destruct (job_status job); cbn [IngestionService.statusEqb orb];
    cbn [List.length]; rewrite ?Nat2Z.inj_succ; lia.
Qed.

Lemma jobs_by_source (l : list Job) :
  JsArray.countOf (hasSource gbif) l + JsArray.countOf (hasSource iucn) l
  + JsArray.countOf (hasSource obis) l + JsArray.countOf (hasSource ebird) l
  = Z.of_nat (List.length l).
Proof.
  unfold JsArray.countOf, hasSource.
  induction l as [|[id job] l IH]; [reflexivity|].
  cbn [filter snd]. destruct (job_source job); cbn [FirestoreService.sourceEqb];
    cbn [List.length]; rewrite ?Nat2Z.inj_succ; lia.
Qed.

Lemma documents_by_source (f : Job -> Z) (l : list Job) :
  JsArray.sumOf f (filter (hasSource gbif) l)
  + JsArray.sumOf f (filter (hasSource iucn) l)
  + JsArray.sumOf f (filter (hasSource obis) l)
  + JsArray.sumOf f (filter (hasSource ebird) l)
  = JsArray.sumOf f l.
Proof.
  unfold hasSource.
  induction l as [|[id job] l IH]; [reflexivity|].
  cbn [filter snd]. rewrite (sumOf_cons f (id, job) l).
  destruct (job_source job); cbn [FirestoreService.sourceEqb];
    rewrite sumOf_cons; lia.
Qed.

(** X13.  The statistics route reads the 1000 newest jobs.  Of the jobs it
    reads, the active, the completed, the failed and the cancelled ones
    make up [totalJobs], so that a cancelled job is in none of the three
    counts it answers with; the jobs of the four sources add up to
    [totalJobs], and their documents to [totalDocumentsIngested]. *)
Theorem ingestion_statistics_add_up (db : Db) (rejection : AppError) :
  let allJobs := firstn 1000 (JsArray.sortBy newerFirst (ingestionJobs db)) in
  exists stats,
    ingestionStatsRoute (Ok db) rejection = Ok stats
    /\ stats = ingestionStats allJobs
    /\ totalJobs stats = Z.min 1000 (Z.of_nat (List.length (ingestionJobs db)))
    /\ activeJobs stats + completedJobs stats + failedJobs stats
       + JsArray.countOf (hasStatus cancelled) allJobs
       = totalJobs stats
    /\ ss_jobs (stats_gbif stats) + ss_jobs (stats_iucn stats)
       + ss_jobs (stats_obis stats) + ss_jobs (stats_ebird stats)
       = totalJobs stats
    /\ ss_documents (stats_gbif stats) + ss_documents (stats_iucn stats)
       + ss_documents (stats_obis stats) + ss_documents (stats_ebird stats)
       = totalDocumentsIngested stats.
Proof.
  intros allJobs. unfold ingestionStatsRoute, listJobs.
  rewrite runJobsQuery_page by (simpl; lia).
  cbn [jf_offset jf_limit jf_source jf_status orDefaultZ jobs].
  repeat (progress (change (1000 =? 0) with false; change (0 =? 0) with true;
                    cbv iota)).
  change (Z.to_nat 0) with 0%nat. cbn [skipn].
  change (Z.to_nat 1000) with 1000%nat.
  replace (filter _ (ingestionJobs db)) with (ingestionJobs db).
  2: { symmetry. apply forallb_filter_id. apply forallb_forall. reflexivity. }
  fold allJobs. eexists. split; [reflexivity|]. split; [reflexivity|].
  unfold ingestionStats.
  cbn [totalJobs activeJobs completedJobs failedJobs totalDocumentsIngested
       stats_gbif stats_iucn stats_obis stats_ebird].
  unfold sourceStatsOf. cbn [ss_jobs ss_documents].
  split.
  { unfold allJobs. rewrite length_firstn.
    rewrite (Permutation_length (sortBy_perm newerFirst _)).
    rewrite Nat2Z.inj_min. reflexivity. }
  split; [apply statuses_partition|].
  split; [apply jobs_by_source|apply documents_by_source].
Qed.

(** X14.  The [lastIngestion] the statistics give is a completed job with
    results that no completed job with results among the jobs read was
    completed after; there is none exactly when no job read is completed
    with results. *)
Theorem last_ingestion_is_the_latest (allJobs : list Job) :
  match lastIngestion (ingestionStats allJobs) with
  | Some last =>
      exists job,
        In job allJobs
        /\ completedWithResults job = true
        /\ last = {| last_jobId := fst job;
                     last_source := job_source (snd job);
                     last_completedAt := job_completedAt (snd job);
                     last_documentsIngested := documentsOfJob job |}
        /\ forall other,
             In other allJobs -> completedWithResults other = true ->
             completedMillis other <= completedMillis job
  | None => forall job, In job allJobs -> completedWithResults job = false
  end.
Proof.
  unfold ingestionStats. cbn [lastIngestion].
  pose proof (sortBy_perm completedLater (filter completedWithResults allJobs))
    as Hperm.
  assert (Hsorted : StronglySorted
                      (fun a b => completedMillis b <= completedMillis a)
                      (JsArray.sortBy completedLater
                         (filter completedWithResults allJobs))).
  { apply sortBy_sorted.
    - intros a b. unfold completedLater. intros H. lia.
    - intros a b. unfold completedLater. intros H. lia.
    - intros a b c. lia. }
  destruct (JsArray.sortBy completedLater (filter completedWithResults allJobs))
    as [|job sorted].
  - intros job Hin. destruct (completedWithResults job) eqn:Hjob; [|reflexivity].
    exfalso. apply (Permutation_in job (Permutation_sym Hperm)).
    apply filter_In. auto.
  - assert (Hjob : In job (filter completedWithResults allJobs))
      by (apply (Permutation_in _ Hperm); now left).
    apply filter_In in Hjob as [Hin Hdone].
    exists job. split; [exact Hin|]. split; [exact Hdone|]. split; [reflexivity|].
    intros other Hother Hcompleted.
    assert (Hin' : In other (job :: sorted)).
    { apply (Permutation_in _ (Permutation_sym Hperm)). apply filter_In. auto. }
    destruct Hin' as [<-|Hin']; [lia|].
    inversion Hsorted as [|? ? _ Hall]; subst.
    rewrite Forall_forall in Hall. now apply Hall.
Qed.

End IngestionStatistics.

(** ** Cancelling *)

Section Cancelling.
Import Js Errors JsNumber Model FirestoreReads JobQueries IngestionService.
Local Open Scope Z_scope.

(** X15.  [cancelJob] touches the record of the job it names and nothing
    else: the documents, the embeddings and the other jobs read as before.
    On a job the store holds it returns, and the job then reads [cancelled]
    with the time of the call as [completedAt] and every other field as it
    was, whatever the status was before.  On a job the store does not hold
    it throws an [IngestionError] and changes nothing. *)
Theorem cancelJob_marks_one_job (w : World) (db : Db) (jobId : Id) :
  let after := fst (cancelJob w db jobId) in
  knowledgeBase after = knowledgeBase db
  /\ embeddings after = embeddings db
  /\ (forall other, other <> jobId ->
        getJobStatus (Ok after) other = getJobStatus (Ok db) other)
  /\ match lookupJob (ingestionJobs db) jobId with
     | Some job =>
         snd (cancelJob w db jobId) = Ok tt
         /\ getJobStatus (Ok after) jobId
            = Ok (Some (jobId,
                        {| job_source := job_source job;
                           job_status := cancelled;
                           job_progress := job_progress job;
                           job_results := job_results job;
                           job_config := job_config job;
                           job_createdAt := job_createdAt job;
                           job_startedAt := job_startedAt job;
                           job_completedAt := Some (now w);
                           job_error := job_error job |}))
     | None =>
         after = db
         /\ getJobStatus (Ok after) jobId = Ok None
         /\ exists message,
              snd (cancelJob w db jobId) = Err (IngestionError "unknown" message)
     end.
Proof.
  cbv zeta. unfold cancelJob, getJobStatus.
  destruct (lookupJob (ingestionJobs db) jobId) as [job|] eqn:Hjob; cbn [fst snd].
  - cbn [applyAction knowledgeBase embeddings ingestionJobs].
    split; [reflexivity|]. split; [reflexivity|]. split.
    + intros other Hother. rewrite lookupJob_updateJob.
      destruct (lookupJob (ingestionJobs db) other); [|reflexivity].
      destruct (String.eqb_spec jobId other); [congruence|reflexivity].
    + split; [reflexivity|]. rewrite lookupJob_updateJob, Hjob.
      now rewrite String.eqb_refl.
  - split; [reflexivity|]. split; [reflexivity|]. split; [reflexivity|].
    split; [reflexivity|]. rewrite Hjob. split; [reflexivity|]. eauto.
Qed.

End Cancelling.

(** ** Searches *)

Section SearchResults.
Import Js Errors JsNumber Model FirestoreService.
Local Open Scope Z_scope.

Lemma float_leb_not_nan (t x : float) : (t <=? x)%float = true -> is_nan x = false.
Proof.
  rewrite leb_spec. intros H. apply SFleb_not_nan in H as [_ Hx].
  unfold is_nan. rewrite eqb_spec. unfold SFeqb.
  destruct (SFcompare (Prim2SF x) (Prim2SF x)) as [[]|] eqn:Hc;
    try reflexivity; try congruence; exfalso.
  - revert Hc. unfold SFcompare.
    destruct (Prim2SF x) as [[]|[]| |[] mx ex]; try discriminate.
    + rewrite Z.compare_refl, Pos.compare_cont_refl. discriminate.
    + rewrite Z.compare_refl, Pos.compare_cont_refl. discriminate.
  - revert Hc. unfold SFcompare.
    destruct (Prim2SF x) as [[]|[]| |[] mx ex]; try discriminate.
    + rewrite Z.compare_refl, Pos.compare_cont_refl. discriminate.
    + rewrite Z.compare_refl, Pos.compare_cont_refl. discriminate.
Qed.

Lemma vectorSearch_error_is_wrapped (config : Config.Rag) (store : Embeddings)
    (rejection : AppError) (query : VectorSearchQuery) (e : AppError) :
  vectorSearch config store rejection query = Err e ->
  exists cause, e = searchFailure cause.
Proof.
  unfold vectorSearch, searchFailure.
  destruct (snapshot store rejection (qry_filters query) _) as [[|data docs]|cause].
  - discriminate.
  - destruct (collectCandidates _ _ (data :: docs) []) as [candidates|cause].
    + discriminate.
    + intros [= <-]. exists cause. reflexivity.
  - intros [= <-]. exists cause. reflexivity.
Qed.

(** X16.  [vectorSearch] fails in three cases, each time with a [RAGError]
    of operation [vector_search] whose message is [Vector search failed: ]
    followed by the message of what its [try] block threw: when the read of
    the collection fails; when the limit in effect is negative, which the
    store rejects; and when one of the pre-filtered candidates holds a
    vector whose length is not that of the query vector, whatever its
    similarity would be.  With a store that answers and a limit in effect
    that is not negative the last is the only case: the search then fails
    exactly when there is such a record, and every such search throws the
    same [RAGError]. *)
Theorem vectorSearch_fails_on_a_record_of_another_dimension (config : Config.Rag)
    (store : Embeddings) (rejection : AppError) (query : VectorSearchQuery) :
  (forall e,
     vectorSearch config store rejection query = Err e ->
     exists cause, e = searchFailure cause)
  /\ (forall cause,
        store = Err cause ->
        vectorSearch config store rejection query = Err (searchFailure cause))
  /\ (forall collection,
        store = Ok collection -> limitInEffect config query < 0 ->
        vectorSearch config store rejection query = Err (searchFailure rejection))
  /\ (forall collection,
        store = Ok collection -> 0 <= limitInEffect config query ->
        ((exists data,
            In data (candidatesOf config collection query)
            /\ List.length (se_embedding data) <> List.length (qry_embedding query))
         <-> exists e, vectorSearch config store rejection query = Err e)
        /\ forall e,
             vectorSearch config store rejection query = Err e ->
             e = searchFailure
                   (RAGError "similarity" "Vectors must have the same dimensions")).
Proof.
  split; [intros e; apply vectorSearch_error_is_wrapped|].
  split; [intros cause ->; reflexivity|].
  split.
  { intros collection -> Hlimit. rewrite vectorSearch_unfold. cbv zeta.
    destruct (Z.ltb_spec (limitInEffect config query) 0); [reflexivity|lia]. }
  intros collection -> Hlimit. rewrite vectorSearch_unfold. cbv zeta.
  destruct (Z.ltb_spec (limitInEffect config query) 0) as [Hneg|_]; [lia|].
  destruct (forallb (sameDimension (qry_embedding query))
              (candidatesOf config collection query)) eqn:Hdim.
  - split; [split|].
    + intros (data & Hin & Hlen). exfalso.
      rewrite forallb_forall in Hdim. specialize (Hdim data Hin).
      unfold sameDimension in Hdim. apply Nat.eqb_eq in Hdim. congruence.
    + intros [e He]. discriminate.
    + intros e He. discriminate.
  - split; [split|].
    + intros _. eauto.
    + intros _.
      assert (Hex : existsb (fun data => negb (sameDimension (qry_embedding query) data))
                      (candidatesOf config collection query) = true).
      { induction (candidatesOf config collection query) as [|data l IH];
          simpl in *; [discriminate|].
        destruct (sameDimension (qry_embedding query) data); simpl; auto. }
      apply existsb_exists in Hex as (data & Hin & Hneg).
      exists data. split; [exact Hin|].
      unfold sameDimension in Hneg. apply negb_true_iff, Nat.eqb_neq in Hneg.
      congruence.
    + intros e [= <-]. reflexivity.
Qed.

(** X17.  Every result of a search is a stored record among the first
    [min(10 * limit, 1000)] records that pass the filters, with the
    content, the metadata and the document id of the record; its score is
    the cosine similarity of the record to the query vector, which reaches
    the threshold in effect and is not NaN.  A record beyond these, in the
    order of the store, is never returned. *)
Theorem vectorSearch_returns_stored_records (config : Config.Rag)
    (collection : list StoredEmbedding) (rejection : AppError)
    (query : VectorSearchQuery) (response : VectorSearchResponse) :
  vectorSearch config (Ok collection) rejection query = Ok response ->
  rsp_totalResults response = Z.of_nat (List.length (rsp_results response))
  /\ forall r, In r (rsp_results response) ->
       exists data,
         In data (firstn (Z.to_nat (Z.min (limitInEffect config query * 10) 1000))
                    (filter (matchesFilters (qry_filters query)) collection))
         /\ matchesFilters (qry_filters query) data = true
         /\ r = {| res_id := se_id data;
                   res_content := se_content data;
                   res_metadata := se_metadata data;
                   res_score := similarityTo (qry_embedding query) data;
                   res_documentId := se_documentId data |}
         /\ geb (res_score r) (thresholdInEffect config query) = true
         /\ is_nan (res_score r) = false.
Proof.
  rewrite vectorSearch_unfold. cbv zeta.
  destruct (Z.ltb_spec (limitInEffect config query) 0) as [|Hlimit]; [discriminate|].
  destruct (forallb _ _); [|discriminate].
  intros [= <-]. cbn [rsp_totalResults rsp_results]. split; [reflexivity|].
  intros r Hr. unfold candidatesOf in Hr. rewrite slice_from_zero in Hr by exact Hlimit.
  apply in_firstn in Hr.
  apply (Permutation_in _ (sortBySimilarity_perm _)) in Hr.
  unfold keptAt in Hr. apply in_map_iff in Hr as (data & <- & Hin).
  apply filter_In in Hin as [Hin Hge].
  exists data. split; [exact Hin|]. split.
  - unfold snapshot in Hin. apply in_firstn in Hin.
    now apply filter_In in Hin.
  - split; [reflexivity|]. split; [exact Hge|].
    cbn [candidateOf res_score]. unfold geb in Hge.
    now apply float_leb_not_nan in Hge.
Qed.

End SearchResults.

Section SearchResultsScenario.
Import Js Errors JsNumber Model Task TaskLogic IngestionService.
Local Open Scope Z_scope.

Lemma vectorSearch_returns_stored_records_witness :
  exists response,
    FirestoreService.vectorSearch Config.defaults (Ok Samples.oneVector)
      Samples.invalidArgument
      (Samples.searchFor [3; 4]%float (Some 5) (Some 0.5%float)) = Ok response
    /\ FirestoreService.rsp_totalResults response = 1
    /\ forall r, In r (FirestoreService.rsp_results response) ->
         FirestoreService.res_id r = "e1"%string
         /\ is_nan (FirestoreService.res_score r) = false.
Proof.
  eexists. split; [vm_compute; reflexivity|].
  destruct (vectorSearch_returns_stored_records Config.defaults Samples.oneVector
              Samples.invalidArgument
              (Samples.searchFor [3; 4]%float (Some 5) (Some 0.5%float))
              _ eq_refl) as [Htotal Hresults].
  split; [reflexivity|].
  intros r Hr. destruct (Hresults r Hr) as (data & Hin & _ & -> & _ & Hnan).
  split; [|exact Hnan].
  vm_compute in Hin. destruct Hin as [<-|[]]. reflexivity.
Defined.

End SearchResultsScenario.
(** ** What a job writes *)

Section WritesOfAJob.
Import Js Errors JsNumber Model Task TaskLogic IngestionService.
Local Open Scope Z_scope.

Variable w : World.
Variable config : Config.Rag.
Variable jobId : Id.
Variable jobConfig : IngestionJobConfig.
Variable G : Action -> Prop.

Let limit := orDefaultZ (par_limit (cfg_parameters jobConfig)) 100.
Let batchSize := batchSizeInEffect jobConfig.

Hypothesis G_document : forall document, G (AddDocument document).
Hypothesis G_embedding : forall stored, G (AddEmbedding stored).
Hypothesis G_status : forall updates,
  upd_progress updates = None -> G (UpdateJob jobId updates).
Hypothesis G_fetching : G (UpdateJob jobId (progressUpdate fetching 0 limit 0)).
Hypothesis G_phase : forall (ph : Phase) (len : Z),
  0 <= len -> G (UpdateJob jobId (progressUpdate ph 0 len 0)).
Hypothesis G_processing : forall (i len : Z),
  0 <= i < len ->
  G (UpdateJob jobId
       (progressUpdate processing (i + 1) len (roundPercent (i + 1) len))).
Hypothesis G_storing : forall (i len : Z),
  i < len -> (0 < batchSize -> 0 <= i) ->
  G (UpdateJob jobId
       (progressUpdate storing (Z.min (i + batchSize) len) len
          (roundPercent (Z.min (i + batchSize) len) len))).
Hypothesis G_completed : forall (results : Results) (t : Timestamp),
  0 <= documentsIngested results ->
  G (UpdateJob jobId
       {| upd_status := Some completed;
          upd_progress :=
            Some {| phase := phaseCompleted;
                    processed := documentsIngested results;
                    total := documentsIngested results;
                    percentage := 100 |};
          upd_results := Some results;
          upd_startedAt := None;
          upd_completedAt := Some t;
          upd_error := None |}).

Lemma storeOne_writes (generateEmbeddings : bool) (doc : ProcessedDocument) :
  emitsOnly G (storeOne w (EmbeddingService.new config) generateEmbeddings doc).
Proof.
  unfold storeOne.
  apply emitsOnly_tryCatch; [|intros; apply emitsOnly_modify].
  unfold storeAttempt. apply emitsOnly_bind.
  { unfold FirestoreService.storeDocument.
    destruct (addDocument w _ _); [|apply emitsOnly_throw].
    apply emitsOnly_bind; [now apply emitsOnly_write|]. intros; apply emitsOnly_ret. }
  intros documentId _. apply emitsOnly_bind; [apply emitsOnly_modify|]. intros _ _.
  assert (Hstore : forall v content metadata model,
            emitsOnly (S := Results) G
              (FirestoreService.storeEmbedding w documentId v content metadata model)).
  { intros v content metadata model. unfold FirestoreService.storeEmbedding.
    destruct (addEmbedding w _ _ _ _); [|apply emitsOnly_throw].
    apply emitsOnly_bind; [now apply emitsOnly_write|]. intros; apply emitsOnly_ret. }
  destruct generateEmbeddings; [|apply emitsOnly_ret]. unfold embedDocument.
  apply emitsOnly_bind; [apply emitsOnly_ofResult|]. intros response _.
  apply emitsOnly_bind; [apply Hstore|]. intros _ _.
  apply emitsOnly_bind; [apply emitsOnly_modify|]. intros _ _.
  destruct (pd_chunks doc) as [[|chunk more]|]; try apply emitsOnly_ret.
  generalize (Z.of_nat (List.length (chunk :: more))) as totalChunks.
  generalize 0 as chunkIndex. generalize (chunk :: more) as chunks.
  induction chunks as [|c rest IH]; intros chunkIndex totalChunks; simpl.
  - apply emitsOnly_ret.
  - apply emitsOnly_bind; [apply emitsOnly_ofResult|]. intros r _.
    apply emitsOnly_bind; [apply Hstore|]. intros _ _.
    apply emitsOnly_bind; [apply emitsOnly_modify|]. intros _ _. apply IH.
Qed.

Lemma storeBatch_writes (generateEmbeddings : bool) (batch : list ProcessedDocument) :
  emitsOnly G (storeBatch w (EmbeddingService.new config) generateEmbeddings batch).
Proof.
  induction batch as [|doc rest IH]; simpl; [apply emitsOnly_ret|].
  apply emitsOnly_bind; [apply storeOne_writes|]. intros _ _. exact IH.
Qed.

Lemma storeBatches_writes (generateEmbeddings : bool)
    (documents : list ProcessedDocument) : forall (fuel : nat) (i : Z),
  (0 < batchSize -> 0 <= i) ->
  emitsOnly G (storeBatches fuel w (EmbeddingService.new config) jobId
                 generateEmbeddings batchSize documents i).
Proof.
  induction fuel as [|fuel IH]; intros i Hi; cbn [storeBatches];
    [apply emitsOnly_hang|].
  destruct (Z.ltb_spec i (Z.of_nat (List.length documents))) as [Hlt|_];
    [|apply emitsOnly_ret].
  apply emitsOnly_bind; [apply storeBatch_writes|]. intros _ _.
  apply emitsOnly_bind.
  - apply emitsOnly_write. now apply G_storing.
  - intros _ _. apply IH. intros Hpos. specialize (Hi Hpos). lia.
Qed.

Lemma processDocuments_for_writes (source : DataSource) (chunkSize chunkOverlap : Z)
    (rawData_length : Z) (items : list RawRecord) : forall (i : Z),
  0 <= i -> i + Z.of_nat (List.length items) = rawData_length ->
  emitsOnly G (processDocuments_for w jobId source chunkSize chunkOverlap
                 rawData_length i items).
Proof.
  induction items as [|item rest IH]; intros i Hi Hlen; simpl.
  - apply emitsOnly_ret.
  - apply emitsOnly_bind.
    2: { intros _ _. apply IH; [lia|]. simpl List.length in Hlen. lia. }
    apply emitsOnly_tryCatch; [|intros; apply emitsOnly_ret].
    apply emitsOnly_bind.
    + unfold processDataItem.
      apply emitsOnly_tryCatch; [|intros; apply emitsOnly_ret].
      apply emitsOnly_bind; [apply emitsOnly_ofResult|intros; apply emitsOnly_ret].
    + intros processedDoc _. apply emitsOnly_bind.
      2: { intros _ _. apply emitsOnly_write. apply G_processing.
           simpl List.length in Hlen. lia. }
      destruct processedDoc as [doc|]; [|apply emitsOnly_ret].
      apply emitsOnly_bind; [|intros; apply emitsOnly_modify].
      unfold chunkIfTooLong. destruct (_ >? _); [|apply emitsOnly_ret].
      apply emitsOnly_bind; [apply emitsOnly_ofLoop|intros; apply emitsOnly_ret].
Qed.

(** The counters a call of [storeDocumentsWithEmbeddings] returns. *)
Lemma storeDocumentsWithEmbeddings_returns (documents : list ProcessedDocument)
    (results : Results) :
  outcomeOf (storeDocumentsWithEmbeddings w config jobId documents jobConfig
               noResults) = Returns results ->
  0 <= documentsIngested results.
Proof.
  intros Hret.
  destruct (tallies_storeDocumentsWithEmbeddings w config jobId documents jobConfig
              noResults) as [Hd _].
  remember (storeDocumentsWithEmbeddings w config jobId documents jobConfig noResults)
    as run eqn:Hrun.
  unfold storeDocumentsWithEmbeddings in Hrun.
  unfold bind, updateJobStatus, write, get in Hrun.
  destruct (storeBatches _ _ _ _ _ _ _ _ _) as [[t c] o].
  destruct o as [[]|e|]; subst run; unfold outcomeOf, localsOf, traceOf in *;
    simpl in *; try discriminate.
  injection Hret as <-. rewrite Hd.
  unfold WriteCounts.documentsWritten, JsArray.countOf. lia.
Qed.

Lemma processIngestionJob_writes :
  emitsOnly G (processIngestionJob w config jobId jobConfig).
Proof.
  unfold processIngestionJob.
  apply emitsOnly_tryCatch.
  - apply emitsOnly_bind; [apply emitsOnly_write; now apply G_status|]. intros _ _.
    apply emitsOnly_bind.
    { unfold fetchDataFromSource.
      apply emitsOnly_bind; [apply emitsOnly_write; exact G_fetching|]. intros _ _.
      apply emitsOnly_tryCatch; [apply emitsOnly_ofResult|intros; apply emitsOnly_throw]. }
    intros rawData _. apply emitsOnly_bind.
    { apply emitsOnly_call. unfold processDocuments.
      apply emitsOnly_bind; [apply emitsOnly_write; apply G_phase; lia|]. intros _ _.
      apply emitsOnly_bind; [apply processDocuments_for_writes; lia|]. intros _ _.
      apply emitsOnly_get. }
    intros documents _. apply emitsOnly_bind.
    { apply emitsOnly_call. unfold storeDocumentsWithEmbeddings.
      apply emitsOnly_bind; [apply emitsOnly_write; apply G_phase; lia|]. intros _ _.
      apply emitsOnly_bind; [|intros _ _; apply emitsOnly_get].
      apply storeBatches_writes. lia. }
    intros results [s Hs]. apply emitsOnly_write. apply G_completed.
    unfold call in Hs. apply (storeDocumentsWithEmbeddings_returns documents).
    unfold outcomeOf in *.
    destruct (storeDocumentsWithEmbeddings _ _ _ _ _ _) as [[t c] o]. exact Hs.
  - intros e. apply emitsOnly_bind; [apply emitsOnly_write; now apply G_status|].
    intros _ _. apply emitsOnly_throw.
Qed.

End WritesOfAJob.

Section JobIsolation.
Import Js Errors JsNumber Model Task TaskLogic IngestionService JobWrites.
Local Open Scope Z_scope.

Lemma lookupJob_setJob_other (jobs : list (Id * IngestionJobStatus)) (id other : Id)
    (created : IngestionJobStatus) :
  other <> id -> lookupJob (setJob jobs id created) other = lookupJob jobs other.
Proof.
  intros Hother. rewrite lookupJob_setJob.
  destruct (String.eqb_spec id other); [congruence|reflexivity].
Qed.

Lemma lookupJob_updateJob_other (jobs : list (Id * IngestionJobStatus)) (id other : Id)
    (updates : JobUpdate) :
  other <> id -> lookupJob (updateJob jobs id updates) other = lookupJob jobs other.
Proof.
  intros Hother. rewrite lookupJob_updateJob.
  destruct (lookupJob jobs other); [|reflexivity].
  destruct (String.eqb_spec id other); [congruence|reflexivity].
Qed.

Lemma own_writes_frame (jobId : Id) (trace : list Action) : forall (db : Db),
  Forall (ownWrite jobId) trace ->
  (forall other, other <> jobId ->
     lookupJob (ingestionJobs (applyActions db trace)) other
     = lookupJob (ingestionJobs db) other)
  /\ knowledgeBase (applyActions db trace) = knowledgeBase db ++ documentsAdded trace
  /\ embeddings (applyActions db trace) = embeddings db ++ embeddingsAdded trace.
Proof.
  induction trace as [|a trace IH]; intros db Hown.
  - simpl. rewrite !app_nil_r. auto.
  - inversion Hown as [|? ? Ha Hrest]; subst.
    change (applyActions db (a :: trace)) with (applyActions (applyAction db a) trace).
    destruct (IH (applyAction db a) Hrest) as (Hjobs & Hdocs & Hembs).
    split; [|split].
    + intros other Hother. rewrite (Hjobs other Hother).
      destruct a as [id created|id updates|document|stored]; simpl in *; subst;
        auto using lookupJob_setJob_other, lookupJob_updateJob_other.
    + rewrite Hdocs. destruct a; simpl; rewrite <- ?app_assoc; reflexivity.
    + rewrite Hembs. destruct a; simpl; rewrite <- ?app_assoc; reflexivity.
Qed.

(** X18.  The task of a job writes to the record of its own job only: the
    records of the other jobs read as before, whatever the task does, and
    the documents and the embeddings the store held are kept as they were,
    the new ones coming after them. *)
Theorem job_writes_only_its_own_record (w : World) (config : Config.Rag)
    (jobId : Id) (jobConfig : IngestionJobConfig) (db : Db) :
  let trace := fst (startIngestionJob w config jobId jobConfig)
               :: snd (startIngestionJob w config jobId jobConfig) in
  (forall other, other <> jobId ->
     lookupJob (ingestionJobs (applyActions db trace)) other
     = lookupJob (ingestionJobs db) other)
  /\ knowledgeBase (applyActions db trace) = knowledgeBase db ++ documentsAdded trace
  /\ embeddings (applyActions db trace) = embeddings db ++ embeddingsAdded trace.
Proof.
  intros trace. apply own_writes_frame. unfold trace, startIngestionJob.
  cbn [fst snd]. constructor; [reflexivity|].
  apply (processIngestionJob_writes w config jobId jobConfig (ownWrite jobId));
    simpl; auto.
Qed.

Lemma jobsAlong_in_range (jobId : Id) (trace : list Action) :
  forall (job : IngestionJobStatus),
    progressInRange (job_progress job) ->
    Forall keepsProgressInRange trace ->
    Forall (fun job' => progressInRange (job_progress job')) (jobsAlong jobId job trace).
Proof.
  induction trace as [|a trace IH]; intros job Hjob Hall; simpl; [constructor|].
  inversion Hall as [|? ? Ha Hrest]; subst.
  assert (Hnext : progressInRange (job_progress (effectOn jobId job a))).
  { destruct a as [id created|id updates|document|stored]; simpl in *; auto.
    - destruct (String.eqb id jobId); auto.
    - destruct (String.eqb id jobId); auto. simpl.
      destruct (upd_progress updates); simpl; auto. }
  constructor; [exact Hnext|]. now apply IH.
Qed.

(** X19.  With a fetch limit in effect that is not negative and a positive
    batch size in effect, the progress of a job is in range at every
    moment: after each write of its task the record of the job has
    [processed] between 0 and [total], and a percentage between 0 and
    100. *)
Theorem progress_stays_in_range (w : World) (config : Config.Rag)
    (jobId : Id) (jobConfig : IngestionJobConfig) :
  0 <= orDefaultZ (par_limit (cfg_parameters jobConfig)) 100 ->
  0 < batchSizeInEffect jobConfig ->
  progressInRange (job_progress (newJob w jobConfig))
  /\ Forall (fun job => progressInRange (job_progress job))
       (jobsAlong jobId (newJob w jobConfig)
          (snd (startIngestionJob w config jobId jobConfig))).
Proof.
  intros Hlimit Hsize.
  assert (Hnew : progressInRange (job_progress (newJob w jobConfig)))
    by (unfold progressInRange; simpl; lia).
  split; [exact Hnew|]. apply jobsAlong_in_range; [exact Hnew|].
  unfold startIngestionJob. cbn [snd].
  apply (processIngestionJob_writes w config jobId jobConfig keepsProgressInRange);
    simpl; auto.
  - intros updates ->. exact I.
  - unfold progressInRange. simpl. lia.
  - intros ph len Hlen. unfold progressInRange. simpl. lia.
  - intros i len Hi. unfold progressInRange. simpl.
    pose proof (roundPercent_in_range (i + 1) len). lia.
  - intros i len Hi Hpos. specialize (Hpos Hsize). unfold progressInRange. simpl.
    pose proof (roundPercent_in_range (Z.min (i + batchSizeInEffect jobConfig) len) len).
    lia.
  - intros results t Hres. unfold progressInRange. simpl. lia.
Qed.

End JobIsolation.

Section JobIsolationScenario.
Import Js Errors JsNumber Model Task TaskLogic IngestionService.
Local Open Scope Z_scope.

Lemma progress_stays_in_range_witness :
  Forall (fun job => JobWrites.progressInRange (job_progress job))
    (jobsAlong "gbif_1" (newJob Samples.world Samples.gbifJob)
       (snd (startIngestionJob Samples.world Config.defaults "gbif_1"
               Samples.gbifJob))).
Proof.
  apply (progress_stays_in_range Samples.world Config.defaults "gbif_1"
           Samples.gbifJob); vm_compute; [discriminate|reflexivity].
Defined.

End JobIsolationScenario.

(** ** What the embedder is asked *)

Section EmbedderInput.
Import Js Errors JsNumber EmbeddingService.
Local Open Scope Z_scope.

Lemma substring_length (s : jsString) (n : Z) :
  0 <= n < length s -> length (substring s 0 n) = n.
Proof.
  intros Hn. rewrite substring_inside by lia. unfold length in *.
  simpl skipn. rewrite length_firstn. lia.
Qed.

(** X20.  [generateEmbedding] hands the embedder a text that is not empty
    and has at most 8192 code units, and nothing else: two embedders that
    agree on such texts give the same result on every request. *)
Theorem generateEmbedding_asks_for_bounded_text (config : Config.Rag)
    (embed embed' : jsString -> result (list float)) (request_text : jsString) :
  (forall text, 0 < length text <= 8192 -> embed text = embed' text) ->
  generateEmbedding (new config) embed request_text
  = generateEmbedding (new config) embed' request_text.
Proof.
  intros Hagree. unfold generateEmbedding. cbn [svc_maxTextLength new].
  destruct (Z.eqb_spec (length request_text) 0) as [|Hne]; [reflexivity|].
  destruct (length (trim request_text) =? 0); [reflexivity|].
  assert (Hpos : 0 < length request_text) by (unfold length in *; lia).
  destruct (Z.gtb_spec (length request_text) 8192) as [Hlong|Hshort].
  - rewrite (Hagree (substring request_text 0 8192)); [reflexivity|].
    rewrite substring_length; lia.
  - rewrite (Hagree request_text); [reflexivity|lia].
Qed.

End EmbedderInput.

Section EmbedderInputScenario.
Import Js Errors JsNumber Model Task TaskLogic IngestionService.
Local Open Scope Z_scope.

Lemma generateEmbedding_asks_for_bounded_text_witness :
  Scenarios.pickyEmbedder Samples.longText
  = Err (ExternalError "The text is empty or too long")
  /\ EmbeddingService.generateEmbedding (EmbeddingService.new Config.defaults)
       Scenarios.pickyEmbedder Samples.longText
     = EmbeddingService.generateEmbedding (EmbeddingService.new Config.defaults)
         Samples.constantEmbedder Samples.longText.
Proof.
  split; [vm_compute; reflexivity|].
  apply (generateEmbedding_asks_for_bounded_text Config.defaults
           Scenarios.pickyEmbedder Samples.constantEmbedder Samples.longText).
  intros text [Hpos Hle]. unfold Scenarios.pickyEmbedder, Samples.constantEmbedder.
  destruct (Z.ltb_spec 0 (length text)); [|lia].
  destruct (Z.leb_spec (length text) 8192); [reflexivity|lia].
Defined.

End EmbedderInputScenario.
(** ** The error handler *)

Section ErrorResponses.
Import String ErrorHandler.
Local Open Scope Z_scope.
Local Open Scope string_scope.

Lemma newValidationError_plain (stack : option String.string) (message : String.string) :
  newValidationError stack message None
  = {| app_name := "ValidationError"; app_message := message;
       app_statusCode := 400; app_isOperational := true;
       app_code := Some "VALIDATION_ERROR"; app_stack := stack |}.
Proof. reflexivity. Qed.

Ltac answered :=
  match goal with
  | |- exists body, ErrorHandler.Sent _ ?b = _ /\ _ =>
      exists b; split; [reflexivity|]; cbn; auto 10
  end.

(** X21.  In production, as long as no response has been started, the
    handler answers every error with a response that carries no stack, and
    the message of the error reaches the client only when the error is an
    operational [AppError] or is named "ValidationError".  Any other error
    is answered with one of three fixed texts, and one the handler does not
    recognise with status 500, code "INTERNAL_ERROR" and the text
    "Internal server error". *)
Theorem errorHandler_discloses_nothing_in_production (ctx : Context) (error : Thrown) :
  headersSent ctx = false ->
  nodeEnv ctx = Some "production" ->
  exists body,
    errorHandler ctx error = Sent (body_statusCode body) body
    /\ body_details body = None
    /\ body_path body = Some (path ctx)
    /\ body_timestamp body = timestamp ctx
    /\ (if passesMessageOn error then body_message body = messageOfThrown error
        else body_message body = "Invalid ID format" /\ body_statusCode body = 400
             \/ body_message body = "Duplicate field value" /\ body_statusCode body = 409
             \/ body_message body = "Internal server error" /\ body_statusCode body = 500)
    /\ (if isRecognised error then True
        else body_message body = "Internal server error"
             /\ body_statusCode body = 500
             /\ body_code body = Some "INTERNAL_ERROR").
Proof.
  intros Hsent Henv.
  assert (Hdev : isEnv ctx "development" = false)
    by (unfold isEnv; rewrite Henv; reflexivity).
  assert (Hprod : isEnv ctx "production" = true)
    by (unfold isEnv; rewrite Henv; reflexivity).
  unfold errorHandler, isRecognised, passesMessageOn. rewrite Hsent.
  unfold handleOperationalError, handleProgrammingError, sendErrorResponse.
  rewrite Hdev, Hprod.
  destruct error as [e|name message code stack].
  - destruct (app_isOperational e) eqn:Hop; cbn [orb].
    + answered.
    + destruct (nameOf (AnAppError e) =? "ValidationError") eqn:Hv; cbn [orb].
      * answered.
      * destruct (nameOf (AnAppError e) =? "CastError") eqn:Hc; cbn [orb].
        { answered. }
        destruct ((nameOf (AnAppError e) =? "MongoError")
                  && match codeOf (AnAppError e) with
                     | Some (Numbered 11000) => true
                     | _ => false
                     end)%bool eqn:Hm.
        { answered. }
        answered.
  - cbn [orb]. destruct (nameOf (AnotherError name message code stack) =? "ValidationError")
      eqn:Hv; cbn [orb].
    + answered.
    + destruct (nameOf (AnotherError name message code stack) =? "CastError") eqn:Hc;
        cbn [orb].
      { answered. }
      destruct ((nameOf (AnotherError name message code stack) =? "MongoError")
                && match codeOf (AnotherError name message code stack) with
                   | Some (Numbered 11000) => true
                   | _ => false
                   end)%bool eqn:Hm.
      { answered. }
      answered.
Qed.

End ErrorResponses.

Section ErrorResponsesScenario.
Import String ErrorHandler.
Local Open Scope Z_scope.
Local Open Scope string_scope.

Lemma errorHandler_discloses_nothing_in_production_witness :
  isRecognised Scenarios.typeError = false
  /\ exists body,
       errorHandler Scenarios.inProduction Scenarios.typeError
       = Sent (body_statusCode body) body
       /\ body_details body = None
       /\ body_path body = Some (path Scenarios.inProduction)
       /\ body_timestamp body = timestamp Scenarios.inProduction
       /\ (if passesMessageOn Scenarios.typeError
           then body_message body = messageOfThrown Scenarios.typeError
           else body_message body = "Invalid ID format" /\ body_statusCode body = 400
                \/ body_message body = "Duplicate field value"
                   /\ body_statusCode body = 409
                \/ body_message body = "Internal server error"
                   /\ body_statusCode body = 500)
       /\ (if isRecognised Scenarios.typeError then True
           else body_message body = "Internal server error"
                /\ body_statusCode body = 500
                /\ body_code body = Some "INTERNAL_ERROR").
Proof.
  split; [reflexivity|].
  apply (errorHandler_discloses_nothing_in_production
           Scenarios.inProduction Scenarios.typeError); reflexivity.
Defined.

End ErrorResponsesScenario.

(** ** The job routes *)

Section JobRoutesOverHttp.
Import Js Errors JsNumber Model FirestoreReads JobQueries IngestionService JobRoutes.
Local Open Scope Z_scope.

(** X22.  With the error handler in place, a request for a job the store
    does not hold is answered 404 by [GET /job/:jobId], but 500 with code
    "INGESTION_ERROR" by [DELETE /job/:jobId], which leaves the store as it
    was.  For a job the store holds, [DELETE] answers 200 whatever the
    status of the job, and a [GET] after it answers 200 and shows the job
    cancelled, with the time from its start to the cancellation as duration
    when it had started. *)
Theorem job_routes_on_known_and_unknown_jobs (ctx : ErrorHandler.Context)
    (stack : option String.string) (w : World) (db : Db) (jobId : Id) :
  ErrorHandler.headersSent ctx = false ->
  let after := fst (cancelJobRoute ctx stack w db jobId) in
  match lookupJob (ingestionJobs db) jobId with
  | None =>
      getJobRoute ctx stack (Ok db) jobId = NotFound 404 "Job not found" jobId
      /\ after = db
      /\ exists body,
           snd (cancelJobRoute ctx stack w db jobId)
           = Failed (ErrorHandler.Sent 500 body)
           /\ ErrorHandler.body_code body = Some "INGESTION_ERROR"%string
           /\ ErrorHandler.body_statusCode body = 500
  | Some job =>
      snd (cancelJobRoute ctx stack w db jobId)
      = Replied 200 {| cb_jobId := jobId; cb_status := "cancelled";
                       cb_message := "Job cancellation requested" |}
      /\ exists body,
           getJobRoute ctx stack (Ok after) jobId = Replied 200 body
           /\ fst (jb_job body) = jobId
           /\ job_status (snd (jb_job body)) = cancelled
           /\ job_completedAt (snd (jb_job body)) = Some (now w)
           /\ jb_duration body
              = option_map (fun startedAt => now w - startedAt) (job_startedAt job)
  end.
Proof.
  intros Hsent. cbv zeta. unfold cancelJobRoute, getJobRoute, cancelJob, getJobStatus.
  destruct (lookupJob (ingestionJobs db) jobId) as [job|] eqn:Hjob; cbn [fst snd].
  - split; [reflexivity|].
    cbn [applyAction ingestionJobs]. rewrite lookupJob_updateJob, Hjob.
    rewrite String.eqb_refl. cbn [option_map]. eexists. split; [reflexivity|].
    cbn. destruct (job_startedAt job); auto.
  - split; [reflexivity|]. split; [reflexivity|].
    unfold ErrorHandler.errorHandler. rewrite Hsent.
    cbn [ErrorHandler.thrownBy ErrorHandler.newIngestionError ErrorHandler.named
         ErrorHandler.newAppError ErrorHandler.app_isOperational].
    unfold ErrorHandler.handleOperationalError, ErrorHandler.sendErrorResponse.
    eexists. split; [reflexivity|]. cbn. auto.
Qed.

End JobRoutesOverHttp.

Section JobRoutesOverHttpScenario.
Import Js Errors JsNumber Model FirestoreReads JobQueries IngestionService JobRoutes.
Local Open Scope Z_scope.

Lemma job_routes_on_known_and_unknown_jobs_witness :
  getJobRoute Scenarios.inProduction None (Ok emptyDb) "job-7"
  = NotFound 404 "Job not found" "job-7"%string
  /\ fst (cancelJobRoute Scenarios.inProduction None Samples.world emptyDb "job-7")
     = emptyDb
  /\ exists body,
       snd (cancelJobRoute Scenarios.inProduction None Samples.world emptyDb "job-7")
       = Failed (ErrorHandler.Sent 500 body)
       /\ ErrorHandler.body_code body = Some "INGESTION_ERROR"%string
       /\ ErrorHandler.body_statusCode body = 500.
Proof.
  exact (job_routes_on_known_and_unknown_jobs Scenarios.inProduction None
           Samples.world emptyDb "job-7"%string eq_refl).
Defined.

End JobRoutesOverHttpScenario.
